(** * Input extraction generator of adaptix

    A shallow embedding of
    [src/adaptix/_internal/provider/model/input_extraction_gen.py]:
    the compile-time state tracker [GenState], the recursive generator
    [BuiltinInputExtractionGen] and the procedure it emits.  The generator
    writes Python text; here every emitted template is a node of a small
    statement tree, and an interpreter gives those nodes the meaning the
    Python text has on JSON-like values. *)

From Stdlib Require Import List String Ascii Bool Arith ZArith Lia.
Import ListNotations.
Open Scope string_scope.
Open Scope list_scope.
Set Warnings "-register-all".
Set Implicit Arguments.

(** ** Crown model *)

(** Modelled from the spec: [crown_definitions] is imported by the generator
    but is not among the sources.  The three extra policies of section 3. *)
Inductive ExtraPolicy : Type :=
| ExtraForbid
| ExtraCollect
| ExtraIgnore.

(** An element of a crown path: a mapping key or a sequence index. *)
Inductive CrownPathElem : Type :=
| Key (k : string)
| Idx (i : nat).

Definition CrownPath : Type := list CrownPathElem.

(** Modelled from the spec: the four crown kinds of section 3.  A dict crown
    holds its children in declaration order. *)
Inductive InpCrown : Type :=
| InpDictCrown (map : list (string * InpCrown)) (extra_policy : ExtraPolicy)
| InpListCrown (map : list InpCrown) (extra_policy : ExtraPolicy)
| InpFieldCrown (id : string)
| InpNoneCrown.

(** Modelled from the spec: [extra_move] is absent or names target fields. *)
Inductive ExtraMove : Type :=
| NoExtraMove
| ExtraTargets (fields : list string).

Record InputNameLayout : Type := mkLayout {
  crown : InpCrown;
  extra_move : ExtraMove
}.

Record InputField : Type := mkField {
  field_id : string;
  is_required : bool
}.

Definition is_optional (f : InputField) : bool := negb (is_required f).

Inductive DebugTrail : Type := NONE | FIRST | ALL.

(** ** Python values and exceptions *)

Inductive value : Type :=
| VNone
| VBool (b : bool)
| VInt (z : Z)
| VStr (s : string)
| VList (items : list value)
| VDict (entries : list (value * value))
| VSet (elems : list value).

Inductive ContainerKind : Type := KDict | KList.

(** Exceptions carry the trail that [append_trail] and [extend_trail] build.
    The load errors are those imported from [load_error]; the first four
    kinds are the interpreter's own. *)
Inductive Exn : Type :=
| mkExn (kind : ExcKind) (trail : CrownPath)
with ExcKind : Type :=
| KeyError
| IndexError
| TypeError
| UnboundLocalError
| NoRequiredFieldsError (fields : list string)
| NoRequiredItemsError (n : nat)
| TypeLoadError (expected : ContainerKind)
| ExtraFieldsError (fields : list value)
| ExtraItemsError (n : nat)
| LoaderError (msg : string)
| LoadExceptionGroup (members : list Exn)
| CompatExceptionGroup (members : list Exn).

Definition exn_kind (e : Exn) : ExcKind := let (k, _) := e in k.
Definition exn_trail (e : Exn) : CrownPath := let (_, t) := e in t.
Definition fresh (k : ExcKind) : Exn := mkExn k [].

(** Modelled from the spec: [struct_trail] is not among the sources.  Section
    4.4: decoration adds a path in front of what the error already carries and
    never changes its kind. *)
Definition append_trail (e : Exn) (elem : CrownPathElem) : Exn :=
  mkExn (exn_kind e) (elem :: exn_trail e).

Definition extend_trail (e : Exn) (sub_trail : CrownPath) : Exn :=
  mkExn (exn_kind e) (sub_trail ++ exn_trail e).

Definition render_trail_as_note (e : Exn) : Exn := e.

(** *** Primitive operations on values *)

Definition hashable (v : value) : bool :=
  match v with
  | VNone | VBool _ | VInt _ | VStr _ => true
  | VList _ | VDict _ | VSet _ => false
  end.

Definition as_int (v : value) : option Z :=
  match v with
  | VInt z => Some z
  | VBool b => Some (if b then 1%Z else 0%Z)
  | _ => None
  end.

(** [==] on hashable values: a boolean equals the integer it stands for. *)
Definition py_eqb (a b : value) : bool :=
  match a, b with
  | VNone, VNone => true
  | VStr s, VStr t => String.eqb s t
  | _, _ =>
      match as_int a, as_int b with
      | Some x, Some y => Z.eqb x y
      | _, _ => false
      end
  end.

Fixpoint dict_get (m : list (value * value)) (k : value) : option value :=
  match m with
  | [] => None
  | (k', v) :: rest => if py_eqb k' k then Some v else dict_get rest k
  end.

Fixpoint dict_set (m : list (value * value)) (k v : value)
  : list (value * value) :=
  match m with
  | [] => [(k, v)]
  | (k', v') :: rest =>
      if py_eqb k' k then (k', v) :: rest else (k', v') :: dict_set rest k v
  end.

Fixpoint list_set (l : list value) (i : nat) (v : value)
  : option (list value) :=
  match l, i with
  | [], _ => None
  | _ :: rest, O => Some (v :: rest)
  | x :: rest, S j =>
      match list_set rest j v with
      | Some rest' => Some (x :: rest')
      | None => None
      end
  end.

Fixpoint chars (s : string) : list value :=
  match s with
  | EmptyString => []
  | String c rest => VStr (String c EmptyString) :: chars rest
  end.

(** A Python index into a sequence of length [n]: negatives count from the
    end. *)
Definition seq_pos (n : nat) (z : Z) : option nat :=
  if (0 <=? z)%Z then
    if (z <? Z.of_nat n)%Z then Some (Z.to_nat z) else None
  else
    if (0 <=? z + Z.of_nat n)%Z then Some (Z.to_nat (z + Z.of_nat n)) else None.

Definition seq_get (l : list value) (i : value) : value + ExcKind :=
  match as_int i with
  | None => inr TypeError
  | Some z =>
      match seq_pos (List.length l) z with
      | None => inr IndexError
      | Some n =>
          match nth_error l n with
          | Some v => inl v
          | None => inr IndexError
          end
      end
  end.

(** [c[i]] *)
Definition py_getitem (c i : value) : value + ExcKind :=
  match c with
  | VDict m =>
      if hashable i then
        match dict_get m i with
        | Some v => inl v
        | None => inr KeyError
        end
      else inr TypeError
  | VList l => seq_get l i
  | VStr s => seq_get (chars s) i
  | VNone | VBool _ | VInt _ | VSet _ => inr TypeError
  end.

(** [c[i] = v]; the result is the container afterwards. *)
Definition py_setitem (c i v : value) : value + ExcKind :=
  match c with
  | VDict m => if hashable i then inl (VDict (dict_set m i v)) else inr TypeError
  | VList l =>
      match as_int i with
      | None => inr TypeError
      | Some z =>
          match seq_pos (List.length l) z with
          | None => inr IndexError
          | Some n =>
              match list_set l n v with
              | Some l' => inl (VList l')
              | None => inr IndexError
              end
          end
      end
  | VNone | VBool _ | VInt _ | VStr _ | VSet _ => inr TypeError
  end.

Definition py_len (c : value) : nat + ExcKind :=
  match c with
  | VList l => inl (List.length l)
  | VDict m => inl (List.length m)
  | VSet l => inl (List.length l)
  | VStr s => inl (String.length s)
  | VNone | VBool _ | VInt _ => inr TypeError
  end.

Definition set_mem (x : value) (s : list value) : bool := existsb (py_eqb x) s.

Fixpoint set_add_all (xs acc : list value) : list value :=
  match xs with
  | [] => acc
  | x :: rest =>
      set_add_all rest (if set_mem x acc then acc else acc ++ [x])
  end.

(** [set(c)]: the keys of a mapping, the items of a sequence.  A set is the
    list of its elements without repetition, here in the order in which the
    container has them.  Python fixes no order for a set, and a loop over a
    set takes the elements in the order of their hashes: the list is one
    enumeration of the set among those the code may take.  What depends on
    the enumeration (the order in which the loop over
    [set(data) - known_keys] adds entries to an extra holder) is stated
    through lookups or up to the order of entries, not as an equation
    between lists of entries.  The fields of [ExtraFieldsError] are such a
    set. *)
Definition py_set (c : value) : list value + ExcKind :=
  match c with
  | VDict m => inl (set_add_all (List.map fst m) [])
  | VList l => if forallb hashable l then inl (set_add_all l []) else inr TypeError
  | VStr s => inl (set_add_all (chars s) [])
  | VSet l => inl l
  | VNone | VBool _ | VInt _ => inr TypeError
  end.

Definition set_diff (a b : list value) : list value :=
  filter (fun x => negb (set_mem x b)) a.

Definition is_mapping (v : value) : bool :=
  match v with VDict _ => true | _ => false end.

(** [collections.abc.Sequence] has [list] and [str] among its instances. *)
Definition is_sequence (v : value) : bool :=
  match v with VList _ | VStr _ => true | _ => false end.

Definition type_is_str (v : value) : bool :=
  match v with VStr _ => true | _ => false end.

Definition truthy (v : value) : bool :=
  match v with
  | VNone => false
  | VBool b => b
  | VInt z => negb (Z.eqb z 0)
  | VStr s => negb (String.eqb s "")
  | VList l => negb (Nat.eqb (List.length l) 0)
  | VDict m => negb (Nat.eqb (List.length m) 0)
  | VSet l => negb (Nat.eqb (List.length l) 0)
  end.

Definition elem_value (k : CrownPathElem) : value :=
  match k with
  | Key s => VStr s
  | Idx i => VInt (Z.of_nat i)
  end.

(** ** The emitted procedure *)

(** Names of the emitted code.  The generator builds them as text, a basis
    joined by an underscore to the decimal suffix of a path; a name is kept
    here as the pair it is built from.  [V_field] and [V_opt_fields] are the
    names handed out by the variable binder. *)
Inductive Basis : Type := B_data | B_known_keys | B_extra.

Inductive Var : Type :=
| V_path (basis : Basis) (suffix : option nat)
| V_extra_set (suffix : option nat)
| V_field_loader (id : string)
| V_raw_field (id : string)
| V_field (id : string)
| V_opt_fields
| V_key.

Definition Basis_eqb (a b : Basis) : bool :=
  match a, b with
  | B_data, B_data | B_known_keys, B_known_keys | B_extra, B_extra => true
  | _, _ => false
  end.

Definition suffix_eqb (a b : option nat) : bool :=
  match a, b with
  | None, None => true
  | Some x, Some y => Nat.eqb x y
  | _, _ => false
  end.

Definition Var_eqb (a b : Var) : bool :=
  match a, b with
  | V_path x s, V_path y t => Basis_eqb x y && suffix_eqb s t
  | V_extra_set s, V_extra_set t => suffix_eqb s t
  | V_field_loader x, V_field_loader y => String.eqb x y
  | V_raw_field x, V_raw_field y => String.eqb x y
  | V_field x, V_field y => String.eqb x y
  | V_opt_fields, V_opt_fields => true
  | V_key, V_key => true
  | _, _ => false
  end.

Inductive Index : Type :=
| I_const (k : value)
| I_var (v : Var).

Inductive Expr : Type :=
| E_var (v : Var)
| E_const (c : value)
| E_getitem (c : Var) (i : Index)
| E_call (f : Var) (arg : Expr)
| E_set_diff (data known : Var).

Inductive Target : Type :=
| T_var (v : Var)
| T_item (c : Var) (i : Index).

Inductive AbcKind : Type := CollectionsMapping | CollectionsSequence.

Inductive Cond : Type :=
| C_not_isinstance (v : Var) (k : AbcKind)
| C_type_is_str (v : Var)
| C_len_ne (v : Var) (n : nat)
| C_len_lt (v : Var) (n : nat)
| C_truthy (v : Var)
| C_errors
| C_has_unexpected_error.

(** Expressions that build or decorate an exception. *)
Inductive ErrExpr : Type :=
| X_NoRequiredFieldsError (fields : list string)
| X_NoRequiredItemsError (n : nat)
| X_TypeLoadError (expected : ContainerKind)
| X_ExtraFieldsError (fields : Var)
| X_ExtraItemsError (n : nat)
| X_e
| X_append_trail (x : ErrExpr) (elem : CrownPathElem)
| X_extend_trail (x : ErrExpr) (sub_trail : CrownPath)
| X_LoadExceptionGroup
| X_CompatExceptionGroup.

Inductive ExcClass : Type :=
| Cls_KeyError
| Cls_IndexError
| Cls_TypeError
| Cls_Exception.

Inductive Stmt : Type :=
| S_assign (t : Target) (e : Expr)
| S_pass
| S_raise (x : ErrExpr)
| S_reraise
| S_expr (x : ErrExpr)
| S_errors_init
| S_errors_append (x : ErrExpr)
| S_set_has_unexpected_error (b : bool)
| S_if (c : Cond) (body orelse : list Stmt)
| S_for_key (iter : Expr) (body : list Stmt)
| S_try (body : list Stmt) (handlers : list (list ExcClass * list Stmt))
        (orelse : list Stmt).

Definition Code : Type := list Stmt.

Inductive LoadResult : Type :=
| Loaded (v : value)
| Failed (e : Exn).

(** A field loader; [as_is_stub] is the marker the generator compares
    against. *)
Inductive Loader : Type :=
| as_is_stub
| LoaderFn (f : value -> LoadResult).

Definition apply_loader (l : Loader) (v : value) : LoadResult :=
  match l with
  | as_is_stub => Loaded v
  | LoaderFn f => f v
  end.

Inductive NsObj : Type :=
| NsValue (v : value)
| NsLoader (l : Loader).

Definition Namespace : Type := list (Var * NsObj).

Fixpoint ns_get (ns : Namespace) (x : Var) : option NsObj :=
  match ns with
  | [] => None
  | (y, o) :: rest => if Var_eqb y x then Some o else ns_get rest x
  end.

(** The variables of one invocation.  [calls] records every loader call, in
    order, with the argument it received. *)
Record Store : Type := mkStore {
  locals : list (Var * value);
  errors : option (list Exn);
  has_unexpected_error : option bool;
  caught : option Exn;
  calls : list (string * value)
}.

Definition empty_store : Store := mkStore [] None None None [].

Fixpoint locals_get (l : list (Var * value)) (x : Var) : option value :=
  match l with
  | [] => None
  | (y, v) :: rest => if Var_eqb y x then Some v else locals_get rest x
  end.

Definition set_local (x : Var) (v : value) (st : Store) : Store :=
  mkStore ((x, v) :: locals st) (errors st) (has_unexpected_error st)
          (caught st) (calls st).

Definition set_errors (es : list Exn) (st : Store) : Store :=
  mkStore (locals st) (Some es) (has_unexpected_error st) (caught st) (calls st).

Definition set_unexpected (b : bool) (st : Store) : Store :=
  mkStore (locals st) (errors st) (Some b) (caught st) (calls st).

Definition set_caught (c : option Exn) (st : Store) : Store :=
  mkStore (locals st) (errors st) (has_unexpected_error st) c (calls st).

Definition log_call (id : string) (arg : value) (st : Store) : Store :=
  mkStore (locals st) (errors st) (has_unexpected_error st) (caught st)
          (calls st ++ [(id, arg)]).

Inductive Completion : Type :=
| Done
| Throw (e : Exn).

Section Interpreter.

Variable ns : Namespace.

Definition read_var (st : Store) (x : Var) : value + Exn :=
  match locals_get (locals st) x with
  | Some v => inl v
  | None =>
      match ns_get ns x with
      | Some (NsValue v) => inl v
      | _ => inr (fresh UnboundLocalError)
      end
  end.

Definition lift_exc {A : Type} (r : A + ExcKind) : A + Exn :=
  match r with
  | inl a => inl a
  | inr k => inr (fresh k)
  end.

Definition eval_index (st : Store) (i : Index) : value + Exn :=
  match i with
  | I_const k => inl k
  | I_var v => read_var st v
  end.

Definition loader_id (f : Var) : string :=
  match f with
  | V_field_loader id => id
  | _ => ""
  end.

Fixpoint eval_expr (e : Expr) (st : Store) : (value + Exn) * Store :=
  match e with
  | E_var v => (read_var st v, st)
  | E_const c => (inl c, st)
  | E_getitem c i =>
      match read_var st c with
      | inr x => (inr x, st)
      | inl cv =>
          match eval_index st i with
          | inr x => (inr x, st)
          | inl iv => (lift_exc (py_getitem cv iv), st)
          end
      end
  | E_call f arg =>
      match ns_get ns f with
      | Some (NsLoader l) =>
          match eval_expr arg st with
          | (inr x, st') => (inr x, st')
          | (inl a, st') =>
              match apply_loader l a with
              | Loaded v => (inl v, log_call (loader_id f) a st')
              | Failed x => (inr x, log_call (loader_id f) a st')
              end
          end
      | _ => (inr (fresh UnboundLocalError), st)
      end
  | E_set_diff data known =>
      match read_var st data with
      | inr x => (inr x, st)
      | inl dv =>
          match py_set dv with
          | inr k => (inr (fresh k), st)
          | inl ds =>
              match read_var st known with
              | inr x => (inr x, st)
              | inl (VSet ks) => (inl (VSet (set_diff ds ks)), st)
              | inl _ => (inr (fresh TypeError), st)
              end
          end
      end
  end.

Definition eval_cond (c : Cond) (st : Store) : bool + Exn :=
  match c with
  | C_not_isinstance v CollectionsMapping =>
      match read_var st v with
      | inl x => inl (negb (is_mapping x))
      | inr e => inr e
      end
  | C_not_isinstance v CollectionsSequence =>
      match read_var st v with
      | inl x => inl (negb (is_sequence x))
      | inr e => inr e
      end
  | C_type_is_str v =>
      match read_var st v with
      | inl x => inl (type_is_str x)
      | inr e => inr e
      end
  | C_len_ne v n =>
      match read_var st v with
      | inl x =>
          match py_len x with
          | inl m => inl (negb (Nat.eqb m n))
          | inr k => inr (fresh k)
          end
      | inr e => inr e
      end
  | C_len_lt v n =>
      match read_var st v with
      | inl x =>
          match py_len x with
          | inl m => inl (Nat.ltb m n)
          | inr k => inr (fresh k)
          end
      | inr e => inr e
      end
  | C_truthy v =>
      match read_var st v with
      | inl x => inl (truthy x)
      | inr e => inr e
      end
  | C_errors =>
      match errors st with
      | Some es => inl (negb (Nat.eqb (List.length es) 0))
      | None => inr (fresh UnboundLocalError)
      end
  | C_has_unexpected_error =>
      match has_unexpected_error st with
      | Some b => inl b
      | None => inr (fresh UnboundLocalError)
      end
  end.

Fixpoint eval_err (x : ErrExpr) (st : Store) : Exn + Exn :=
  match x with
  | X_NoRequiredFieldsError fs => inl (fresh (NoRequiredFieldsError fs))
  | X_NoRequiredItemsError n => inl (fresh (NoRequiredItemsError n))
  | X_TypeLoadError k => inl (fresh (TypeLoadError k))
  | X_ExtraFieldsError v =>
      match read_var st v with
      | inl (VSet ks) => inl (fresh (ExtraFieldsError ks))
      | inl _ => inr (fresh TypeError)
      | inr e => inr e
      end
  | X_ExtraItemsError n => inl (fresh (ExtraItemsError n))
  | X_e =>
      match caught st with
      | Some e => inl e
      | None => inr (fresh UnboundLocalError)
      end
  | X_append_trail y elem =>
      match eval_err y st with
      | inl e => inl (append_trail e elem)
      | inr r => inr r
      end
  | X_extend_trail y sub_trail =>
      match eval_err y st with
      | inl e => inl (extend_trail e sub_trail)
      | inr r => inr r
      end
  | X_LoadExceptionGroup =>
      match errors st with
      | Some es => inl (fresh (LoadExceptionGroup (List.map render_trail_as_note es)))
      | None => inr (fresh UnboundLocalError)
      end
  | X_CompatExceptionGroup =>
      match errors st with
      | Some es => inl (fresh (CompatExceptionGroup (List.map render_trail_as_note es)))
      | None => inr (fresh UnboundLocalError)
      end
  end.

(** Whether the expression decorates the exception bound by [except ... as e]:
    the trail functions change that object in place. *)
Fixpoint decorates_caught (x : ErrExpr) : bool :=
  match x with
  | X_e => true
  | X_append_trail y _ | X_extend_trail y _ => decorates_caught y
  | _ => false
  end.

Definition exc_matches (cls : ExcClass) (e : Exn) : bool :=
  match cls, exn_kind e with
  | Cls_Exception, _ => true
  | Cls_KeyError, KeyError => true
  | Cls_IndexError, IndexError => true
  | Cls_TypeError, TypeError => true
  | _, _ => false
  end.

Definition assign (t : Target) (v : value) (st : Store) : Completion * Store :=
  match t with
  | T_var x => (Done, set_local x v st)
  | T_item c i =>
      match read_var st c with
      | inr e => (Throw e, st)
      | inl cv =>
          match eval_index st i with
          | inr e => (Throw e, st)
          | inl iv =>
              match py_setitem cv iv v with
              | inl cv' => (Done, set_local c cv' st)
              | inr k => (Throw (fresh k), st)
              end
          end
      end
  end.

Definition run_block (step : Stmt -> Store -> Completion * Store)
  : list Stmt -> Store -> Completion * Store :=
  fix go (l : list Stmt) (st : Store) : Completion * Store :=
    match l with
    | [] => (Done, st)
    | s :: rest =>
        match step s st with
        | (Done, st') => go rest st'
        | thrown => thrown
        end
    end.

Definition run_for (step : Stmt -> Store -> Completion * Store)
    (body : list Stmt) : list value -> Store -> Completion * Store :=
  fix go (keys : list value) (st : Store) : Completion * Store :=
    match keys with
    | [] => (Done, st)
    | k :: rest =>
        match run_block step body (set_local V_key k st) with
        | (Done, st') => go rest st'
        | thrown => thrown
        end
    end.

Definition run_handlers (step : Stmt -> Store -> Completion * Store)
    (e : Exn) (st : Store)
  : list (list ExcClass * list Stmt) -> Completion * Store :=
  fix go (hs : list (list ExcClass * list Stmt)) : Completion * Store :=
    match hs with
    | [] => (Throw e, st)
    | (classes, hbody) :: rest =>
        if existsb (fun c => exc_matches c e) classes then
          match run_block step hbody (set_caught (Some e) st) with
          | (c, st') => (c, set_caught (caught st) st')
          end
        else go rest
    end.

Fixpoint exec_stmt (s : Stmt) (st : Store) : Completion * Store :=
  match s with
  | S_assign t e =>
      match eval_expr e st with
      | (inr x, st') => (Throw x, st')
      | (inl v, st') => assign t v st'
      end
  | S_pass => (Done, st)
  | S_raise x =>
      match eval_err x st with
      | inl e => (Throw e, st)
      | inr e => (Throw e, st)
      end
  | S_reraise =>
      match caught st with
      | Some e => (Throw e, st)
      | None => (Throw (fresh TypeError), st)
      end
  | S_expr x =>
      match eval_err x st with
      | inl e => (Done, if decorates_caught x then set_caught (Some e) st else st)
      | inr e => (Throw e, st)
      end
  | S_errors_init => (Done, set_errors [] st)
  | S_errors_append x =>
      match eval_err x st with
      | inr e => (Throw e, st)
      | inl e =>
          match errors st with
          | Some es => (Done, set_errors (es ++ [e]) st)
          | None => (Throw (fresh UnboundLocalError), st)
          end
      end
  | S_set_has_unexpected_error b => (Done, set_unexpected b st)
  | S_if c body orelse =>
      match eval_cond c st with
      | inr e => (Throw e, st)
      | inl true => run_block exec_stmt body st
      | inl false => run_block exec_stmt orelse st
      end
  | S_for_key iter body =>
      match eval_expr iter st with
      | (inr x, st') => (Throw x, st')
      | (inl (VSet ks), st') => run_for exec_stmt body ks st'
      | (inl _, st') => (Throw (fresh TypeError), st')
      end
  | S_try body handlers orelse =>
      match run_block exec_stmt body st with
      | (Done, st') => run_block exec_stmt orelse st'
      | (Throw e, st') => run_handlers exec_stmt e st' handlers
      end
  end.

Definition exec (code : Code) (st : Store) : Completion * Store :=
  run_block exec_stmt code st.

End Interpreter.

(** ** Compile-time state: [GenState] *)

Definition CrownPathElem_eqb (a b : CrownPathElem) : bool :=
  match a, b with
  | Key x, Key y => String.eqb x y
  | Idx x, Idx y => Nat.eqb x y
  | _, _ => false
  end.

Fixpoint CrownPath_eqb (p q : CrownPath) : bool :=
  match p, q with
  | [], [] => true
  | a :: p', b :: q' => CrownPathElem_eqb a b && CrownPath_eqb p' q'
  | _, _ => false
  end.

(** Exceptions of the generator itself. *)
Inductive PyErr : Type :=
| Err_KeyError
| Err_IndexError
| Err_ValueError
| Err_TypeError
| Err_AttributeError.

Record GenState : Type := mkGenState {
  ctx_namespace : Namespace;
  _name_to_field : list InputField;
  debug_trail : DebugTrail;
  field_id_to_path : list (string * CrownPath);
  path_to_suffix : list (CrownPath * nat);
  _last_path_idx : nat;
  _path : CrownPath;
  _parent_path : option CrownPath;
  _crown_stack : list InpCrown;
  checked_type_paths : list CrownPath
}.

Inductive Res (A : Type) : Type :=
| Ok (a : A)
| Raise (e : PyErr).
Arguments Ok {A} a.
Arguments Raise {A} e.

(** A generator step: it may raise, and the state it leaves is observable
    in both cases. *)
Definition Gen (A : Type) : Type := GenState -> Res A * GenState.

Definition ret {A : Type} (a : A) : Gen A := fun st => (Ok a, st).

Definition raise {A : Type} (e : PyErr) : Gen A := fun st => (Raise e, st).

Definition bind {A B : Type} (m : Gen A) (k : A -> Gen B) : Gen B :=
  fun st =>
    match m st with
    | (Ok a, st') => k a st'
    | (Raise e, st') => (Raise e, st')
    end.

Definition get : Gen GenState := fun st => (Ok st, st).

Definition modify (f : GenState -> GenState) : Gen unit :=
  fun st => (Ok tt, f st).

Declare Scope gen_scope.
Delimit Scope gen_scope with gen.
Notation "x <- m ;; k" := (bind m (fun x => k))
  (at level 61, m at next level, right associativity) : gen_scope.
Notation "m ;;; k" := (bind m (fun _ => k))
  (at level 61, right associativity) : gen_scope.
Open Scope gen_scope.

Definition with_ctx_namespace (ns : Namespace) (st : GenState) : GenState :=
  mkGenState ns (_name_to_field st) (debug_trail st) (field_id_to_path st)
    (path_to_suffix st) (_last_path_idx st) (_path st) (_parent_path st)
    (_crown_stack st) (checked_type_paths st).

Definition with_field_id_to_path (m : list (string * CrownPath))
    (st : GenState) : GenState :=
  mkGenState (ctx_namespace st) (_name_to_field st) (debug_trail st) m
    (path_to_suffix st) (_last_path_idx st) (_path st) (_parent_path st)
    (_crown_stack st) (checked_type_paths st).

Definition with_suffixes (m : list (CrownPath * nat)) (idx : nat)
    (st : GenState) : GenState :=
  mkGenState (ctx_namespace st) (_name_to_field st) (debug_trail st)
    (field_id_to_path st) m idx (_path st) (_parent_path st)
    (_crown_stack st) (checked_type_paths st).

Definition with_position (p : CrownPath) (pp : option CrownPath)
    (stack : list InpCrown) (st : GenState) : GenState :=
  mkGenState (ctx_namespace st) (_name_to_field st) (debug_trail st)
    (field_id_to_path st) (path_to_suffix st) (_last_path_idx st) p pp
    stack (checked_type_paths st).

Definition with_checked_type_paths (c : list CrownPath) (st : GenState)
  : GenState :=
  mkGenState (ctx_namespace st) (_name_to_field st) (debug_trail st)
    (field_id_to_path st) (path_to_suffix st) (_last_path_idx st) (_path st)
    (_parent_path st) (_crown_stack st) c.

Fixpoint suffix_get (m : list (CrownPath * nat)) (p : CrownPath) : option nat :=
  match m with
  | [] => None
  | (q, n) :: rest => if CrownPath_eqb q p then Some n else suffix_get rest p
  end.

Definition _get_path_idx (path : CrownPath) : Gen nat :=
  st <- get ;;
  match suffix_get (path_to_suffix st) path with
  | Some suffix => ret suffix
  | None =>
      let suffix := S (_last_path_idx st) in
      modify (with_suffixes (path_to_suffix st ++ [(path, suffix)]) suffix) ;;;
      ret suffix
  end.

Definition _with_path_suffix (basis : Basis) (path : CrownPath) : Gen Var :=
  match path with
  | [] => ret (V_path basis None)
  | _ :: _ => idx <- _get_path_idx path ;; ret (V_path basis (Some idx))
  end.

Definition path : Gen CrownPath := st <- get ;; ret (_path st).

Definition parent_path : Gen CrownPath :=
  st <- get ;;
  match _parent_path st with
  | None => raise Err_ValueError
  | Some p => ret p
  end.

Definition v_data : Gen Var := p <- path ;; _with_path_suffix B_data p.

Definition v_known_keys : Gen Var :=
  p <- path ;; _with_path_suffix B_known_keys p.

Definition v_extra : Gen Var := p <- path ;; _with_path_suffix B_extra p.

Definition v_parent_data : Gen Var :=
  p <- parent_path ;; _with_path_suffix B_data p.

Definition v_parent_extra : Gen Var :=
  p <- parent_path ;; _with_path_suffix B_extra p.

Definition v_field_loader (field_id : string) : Var := V_field_loader field_id.

Definition v_raw_field (field : InputField) : Var := V_raw_field (field_id field).

(** The name [extra + "_set"] built from the name of the overflow holder. *)
Definition extra_set_var (extra : Var) : Var :=
  match extra with
  | V_path _ suffix => V_extra_set suffix
  | other => other
  end.

(** [self._crown_stack[-2]] *)
Definition parent_crown : Gen InpCrown :=
  st <- get ;;
  match rev (_crown_stack st) with
  | _ :: parent :: _ => ret parent
  | _ => raise Err_IndexError
  end.

(** [path[-1]] *)
Definition last_path_elem (p : CrownPath) : Gen CrownPathElem :=
  match rev p with
  | el :: _ => ret el
  | [] => raise Err_IndexError
  end.

(** The context manager [add_key].  Its body has no [try ... finally]: what
    follows [yield] runs only when the block under [with] ends normally. *)
Definition add_key {A : Type} (crown : InpCrown) (key : CrownPathElem)
    (block : Gen A) : Gen A :=
  st <- get ;;
  let past := _path st in
  let past_parent := _parent_path st in
  modify (fun s =>
    with_position (_path s ++ [key]) (Some (_path s))
                  (_crown_stack s ++ [crown]) s) ;;;
  r <- block ;;
  modify (fun s =>
    with_position past past_parent (removelast (_crown_stack s)) s) ;;;
  ret r.

(** [{field.id: field for field in fields}[id]]: of two fields with one id
    the later one is kept. *)
Definition name_to_field_get (fields : list InputField) (id : string)
  : option InputField :=
  find (fun f => String.eqb (field_id f) id) (rev fields).

Fixpoint assoc_set {V : Type} (m : list (string * V)) (k : string) (v : V)
  : list (string * V) :=
  match m with
  | [] => [(k, v)]
  | (k', v') :: rest =>
      if String.eqb k' k then (k', v) :: rest else (k', v') :: assoc_set rest k v
  end.

Definition get_field (crown_id : string) : Gen InputField :=
  st <- get ;;
  modify (with_field_id_to_path
            (assoc_set (field_id_to_path st) crown_id (_path st))) ;;;
  match name_to_field_get (_name_to_field st) crown_id with
  | Some f => ret f
  | None => raise Err_KeyError
  end.

Definition with_trail_at (mode : DebugTrail) (error_expr : ErrExpr)
    (p : CrownPath) : ErrExpr :=
  match mode with
  | FIRST | ALL =>
      match p with
      | [] => error_expr
      | [el] => X_append_trail error_expr el
      | _ => X_extend_trail error_expr p
      end
  | NONE => error_expr
  end.

(** [with_trail(error_expr, path)]; [None] stands for the omitted path. *)
Definition with_trail (error_expr : ErrExpr) (p : option CrownPath)
  : Gen ErrExpr :=
  st <- get ;;
  let p' := match p with None => _path st | Some q => q end in
  ret (with_trail_at (debug_trail st) error_expr p').

Definition emit_error (error_expr : ErrExpr) : Gen Stmt :=
  st <- get ;;
  match debug_trail st with
  | ALL =>
      p <- path ;;
      x <- with_trail error_expr (Some p) ;;
      ret (S_errors_append x)
  | _ =>
      p <- path ;;
      x <- with_trail error_expr (Some p) ;;
      ret (S_raise x)
  end.

Definition emit_error_for_from_data_assigment (error_expr : ErrExpr)
  : Gen Stmt :=
  st <- get ;;
  match debug_trail st with
  | ALL =>
      el <- last_path_elem (_path st) ;;
      match el with
      | Key _ =>
          pp <- parent_path ;;
          x <- with_trail error_expr (Some pp) ;;
          ret (S_errors_append x)
      | Idx _ => ret S_pass
      end
  | _ =>
      pp <- parent_path ;;
      x <- with_trail error_expr (Some pp) ;;
      ret (S_raise x)
  end.

(** ** The generator: [BuiltinInputExtractionGen] *)

Record BuiltinInputExtractionGen : Type := mkGen {
  _shape : list InputField;
  _name_layout : InputNameLayout;
  _debug_trail : DebugTrail;
  _strict_coercion : bool;
  _field_loaders : list (string * Loader)
}.

Fixpoint loaders_get (m : list (string * Loader)) (id : string)
  : option Loader :=
  match m with
  | [] => None
  | (k, l) :: rest => if String.eqb k id then Some l else loaders_get rest id
  end.

Definition path_in (p : CrownPath) (s : list CrownPath) : bool :=
  existsb (CrownPath_eqb p) s.

Definition path_set_add (p : CrownPath) (s : list CrownPath) : list CrownPath :=
  if path_in p s then s else s ++ [p].

Definition ns_add (name : Var) (obj : NsObj) : Gen unit :=
  modify (fun st => with_ctx_namespace (ctx_namespace st ++ [(name, obj)]) st).

(** [len(crown.map)]; a leaf crown has no [map]. *)
Definition crown_map_len (c : InpCrown) : Gen nat :=
  match c with
  | InpDictCrown m _ => ret (List.length m)
  | InpListCrown m _ => ret (List.length m)
  | _ => raise Err_AttributeError
  end.

(** [crown.extra_policy]; a leaf crown has none. *)
Definition crown_extra_policy (c : InpCrown) : Gen ExtraPolicy :=
  match c with
  | InpDictCrown _ p => ret p
  | InpListCrown _ p => ret p
  | _ => raise Err_AttributeError
  end.

Definition Handler : Type := (list ExcClass * list Stmt)%type.

Section Generator.

Variable self : BuiltinInputExtractionGen.

Definition _can_collect_extra : bool :=
  match extra_move (_name_layout self) with
  | NoExtraMove => false
  | ExtraTargets _ => true
  end.

Definition _is_extra_target (field : InputField) : bool :=
  match extra_move (_name_layout self) with
  | ExtraTargets fields => existsb (String.eqb (field_id field)) fields
  | NoExtraMove => false
  end.

Definition _create_state (ctx : Namespace) : GenState :=
  mkGenState ctx (_shape self) (_debug_trail self) [] [] 0 [] None
             [crown (_name_layout self)] [].

(** The read of the current position out of the parent container.  The
    source writes one [try] statement piece by piece; the result here is its
    body and its [except] clauses, to which the caller may add [else]. *)
Definition _gen_assigment_from_parent_data (assign_to : Var)
    (ignore_lookup_error : bool) : Gen (list Stmt * list Handler) :=
  p <- path ;;
  last_path_el <- last_path_elem p ;;
  errs <- match last_path_el with
          | Key k =>
              ret (Cls_KeyError, [Cls_TypeError; Cls_IndexError],
                   X_TypeLoadError KDict, X_NoRequiredFieldsError [k])
          | Idx _ =>
              pc <- parent_crown ;;
              n <- crown_map_len pc ;;
              ret (Cls_IndexError, [Cls_TypeError; Cls_KeyError],
                   X_TypeLoadError KList, X_NoRequiredItemsError n)
          end ;;
  let '(lookup_error, bad_type_error, bad_type_load_error, not_found_error) :=
    errs in
  parent_data <- v_parent_data ;;
  on_lookup_error <- (if ignore_lookup_error then ret S_pass
                      else emit_error_for_from_data_assigment not_found_error) ;;
  pp <- parent_path ;;
  st <- get ;;
  bad_type <- (if negb (path_in pp (checked_type_paths st)) then
                 pp1 <- parent_path ;;
                 x <- with_trail bad_type_load_error (Some pp1) ;;
                 pp2 <- parent_path ;;
                 modify (fun s => with_checked_type_paths
                                    (path_set_add pp2 (checked_type_paths s)) s) ;;;
                 ret [(bad_type_error, [S_raise x])]
               else ret []) ;;
  unexpected <- match _debug_trail self with
                | FIRST =>
                    x <- with_trail X_e None ;;
                    ret [([Cls_Exception], [S_expr x; S_reraise])]
                | ALL =>
                    x <- with_trail X_e None ;;
                    ret [([Cls_Exception],
                          [S_errors_append x; S_set_has_unexpected_error true])]
                | NONE => ret []
                end ;;
  ret ([S_assign (T_var assign_to)
                 (E_getitem parent_data (I_const (elem_value last_path_el)))],
       [([lookup_error], [on_lookup_error])] ++ bad_type ++ unexpected).

Definition _gen_add_self_extra_to_parent_extra : Gen Code :=
  p <- path ;;
  match p with
  | [] => ret []
  | _ :: _ =>
      parent_extra <- v_parent_extra ;;
      p' <- path ;;
      el <- last_path_elem p' ;;
      extra <- v_extra ;;
      ret [S_assign (T_item parent_extra (I_const (elem_value el))) (E_var extra)]
  end.

Definition _gen_field_assigment (assign_to : Target) (field_id : string)
    (loader_arg : Expr) : Gen Code :=
  match loaders_get (_field_loaders self) field_id with
  | None => raise Err_KeyError
  | Some loader =>
      let processing_expr :=
        match loader with
        | as_is_stub => loader_arg
        | LoaderFn _ => E_call (v_field_loader field_id) loader_arg
        end in
      match _debug_trail self with
      | ALL | FIRST =>
          on_error <- emit_error X_e ;;
          ret [S_try [S_assign assign_to processing_expr]
                     [([Cls_Exception], [on_error])] []]
      | NONE => ret [S_assign assign_to processing_expr]
      end
  end.

Definition _gen_field_crown (crown_id : string) : Gen Code :=
  field <- get_field crown_id ;;
  let field_assign_to :=
    if is_required field then T_var (V_field (field_id field))
    else T_item V_opt_fields (I_const (VStr (field_id field))) in
  let ignore_lookup_error := negb (is_required field) in
  read <- _gen_assigment_from_parent_data (v_raw_field field)
                                          ignore_lookup_error ;;
  orelse <- _gen_field_assigment field_assign_to (field_id field)
                                 (E_var (v_raw_field field)) ;;
  ret [S_try (fst read) (snd read) orelse].

Definition _gen_none_crown : Gen Code := ret [].

(** The statements that read a branch crown's own value, when it is not the
    root. *)
Definition gen_read_own_data : Gen Code :=
  p <- path ;;
  match p with
  | [] => ret []
  | _ :: _ =>
      data <- v_data ;;
      read <- _gen_assigment_from_parent_data data false ;;
      ret [S_try (fst read) (snd read) []]
  end.

Section Branch.

(** [self._gen_crown_dispatch], which the branch generators call on every
    child. *)
Variable dispatch : InpCrown -> CrownPathElem -> Gen Code.

Fixpoint gen_dict_children (items : list (string * InpCrown)) : Gen Code :=
  match items with
  | [] => ret []
  | (key, value) :: rest =>
      c <- dispatch value (Key key) ;;
      cs <- gen_dict_children rest ;;
      ret (c ++ cs)
  end.

Fixpoint gen_list_children (i : nat) (items : list InpCrown) : Gen Code :=
  match items with
  | [] => ret []
  | value :: rest =>
      c <- dispatch value (Idx i) ;;
      cs <- gen_list_children (S i) rest ;;
      ret (c ++ cs)
  end.

(** What a dict crown does about extra keys, once its children are read. *)
Definition gen_dict_extra (map : list (string * InpCrown))
    (extra_policy : ExtraPolicy) : Gen Code :=
  match extra_policy with
  | ExtraForbid | ExtraCollect =>
      known_keys <- v_known_keys ;;
      ns_add known_keys (NsValue (VSet (List.map (fun kv => VStr (fst kv)) map)))
  | ExtraIgnore => ret tt
  end ;;;
  data <- v_data ;;
  extra <- v_extra ;;
  match extra_policy with
  | ExtraForbid =>
      known_keys <- v_known_keys ;;
      on_extra <- emit_error (X_ExtraFieldsError (extra_set_var extra)) ;;
      ret [S_assign (T_var (extra_set_var extra)) (E_set_diff data known_keys);
           S_if (C_truthy (extra_set_var extra)) [on_extra] []]
  | ExtraCollect =>
      known_keys <- v_known_keys ;;
      ret [S_for_key (E_set_diff data known_keys)
             [S_assign (T_item extra (I_var V_key))
                       (E_getitem data (I_var V_key))]]
  | ExtraIgnore => ret []
  end.

Definition _gen_dict_crown (map : list (string * InpCrown))
    (extra_policy : ExtraPolicy) : Gen Code :=
  read <- gen_read_own_data ;;
  init_extra <- (if _can_collect_extra then
                   extra <- v_extra ;;
                   ret [S_assign (T_var extra) (E_const (VDict []))]
                 else ret []) ;;
  children <- gen_dict_children map ;;
  type_check <- match map with
                | [] =>
                    data <- v_data ;;
                    x <- with_trail (X_TypeLoadError KDict) None ;;
                    ret [S_if (C_not_isinstance data CollectionsMapping)
                              [S_raise x] []]
                | _ :: _ => ret []
                end ;;
  extra_code <- gen_dict_extra map extra_policy ;;
  to_parent <- (if _can_collect_extra then _gen_add_self_extra_to_parent_extra
                else ret []) ;;
  ret (read ++ init_extra ++ children ++ type_check ++ extra_code ++ to_parent).

(** The length check that closes a list crown. *)
Definition gen_list_len_check (list_len : nat) (extra_policy : ExtraPolicy)
  : Gen Code :=
  match extra_policy with
  | ExtraForbid =>
      data <- v_data ;;
      data' <- v_data ;;
      missing <- emit_error (X_NoRequiredItemsError list_len) ;;
      extra_items <- emit_error (X_ExtraItemsError list_len) ;;
      ret [S_if (C_len_ne data list_len)
                [S_if (C_len_lt data' list_len) [missing] [extra_items]] []]
  | _ =>
      data <- v_data ;;
      missing <- emit_error (X_NoRequiredItemsError list_len) ;;
      ret [S_if (C_len_lt data list_len) [missing] []]
  end.

Definition extra_list_literal (map : list InpCrown) : value :=
  VList (List.map (fun sub_crown =>
                     match sub_crown with
                     | InpFieldCrown _ | InpNoneCrown => VDict []
                     | _ => VNone
                     end) map).

Definition _gen_list_crown (map : list InpCrown) (extra_policy : ExtraPolicy)
  : Gen Code :=
  read <- gen_read_own_data ;;
  strict <- (if _strict_coercion self then
               data <- v_data ;;
               x <- with_trail (X_TypeLoadError KList) None ;;
               ret [S_if (C_type_is_str data) [S_raise x] []]
             else ret []) ;;
  init_extra <- (if _can_collect_extra then
                   extra <- v_extra ;;
                   ret [S_assign (T_var extra) (E_const (extra_list_literal map))]
                 else ret []) ;;
  children <- gen_list_children 0 map ;;
  type_check <- match map with
                | [] =>
                    data <- v_data ;;
                    x <- with_trail (X_TypeLoadError KList) None ;;
                    ret [S_if (C_not_isinstance data CollectionsSequence)
                              [S_raise x] []]
                | _ :: _ => ret []
                end ;;
  len_check <- gen_list_len_check (List.length map) extra_policy ;;
  to_parent <- (if _can_collect_extra then _gen_add_self_extra_to_parent_extra
                else ret []) ;;
  ret (read ++ strict ++ init_extra ++ children ++ type_check ++ len_check
            ++ to_parent).

(** Returns [Some] of the code when code is generated, [None] for the
    source's [False]. *)
Definition _gen_root_crown_dispatch (crown : InpCrown) : Gen (option Code) :=
  match crown with
  | InpDictCrown map extra_policy =>
      c <- _gen_dict_crown map extra_policy ;; ret (Some c)
  | InpListCrown map extra_policy =>
      c <- _gen_list_crown map extra_policy ;; ret (Some c)
  | _ => ret None
  end.

End Branch.

Fixpoint _gen_crown_dispatch (sub_crown : InpCrown) (key : CrownPathElem)
  : Gen Code :=
  add_key sub_crown key
    (r <- _gen_root_crown_dispatch _gen_crown_dispatch sub_crown ;;
     match r with
     | Some c => ret c
     | None =>
         match sub_crown with
         | InpFieldCrown id => _gen_field_crown id
         | InpNoneCrown => _gen_none_crown
         | _ => raise Err_TypeError
         end
     end).

End Generator.

Section Call.

Variable self : BuiltinInputExtractionGen.

Fixpoint gen_targets_collected (targets : list string) : Gen Code :=
  match targets with
  | [] => ret []
  | target :: rest =>
      st <- get ;;
      match name_to_field_get (_name_to_field st) target with
      | None => raise Err_KeyError
      | Some field =>
          extra <- v_extra ;;
          c <- _gen_field_assigment self (T_var (V_field (field_id field)))
                                    target (E_var extra) ;;
          cs <- gen_targets_collected rest ;;
          ret (c ++ cs)
      end
  end.

Fixpoint gen_targets_not_collected (targets : list string) : Gen Code :=
  match targets with
  | [] => ret []
  | target :: rest =>
      st <- get ;;
      match name_to_field_get (_name_to_field st) target with
      | None => raise Err_KeyError
      | Some field =>
          c <- (if is_required field then
                  _gen_field_assigment self (T_var (V_field (field_id field)))
                                       target (E_const (VDict []))
                else ret []) ;;
          cs <- gen_targets_not_collected rest ;;
          ret (c ++ cs)
      end
  end.

(** Saturate extra targets with data.  If extra data is not collected, the
    loader of a required field gets an empty dict. *)
Definition _gen_extra_targets_assigment : Gen Code :=
  match extra_move (_name_layout self) with
  | NoExtraMove => ret []
  | ExtraTargets fields =>
      policy <- crown_extra_policy (crown (_name_layout self)) ;;
      match policy with
      | ExtraCollect => gen_targets_collected fields
      | _ => gen_targets_not_collected fields
      end
  end.

Fixpoint add_loaders (loaders : list (string * Loader)) : Gen unit :=
  match loaders with
  | [] => ret tt
  | (field_id, loader) :: rest =>
      ns_add (v_field_loader field_id) (NsLoader loader) ;;;
      add_loaders rest
  end.

Definition has_optional_fields : bool :=
  existsb (fun fld => is_optional fld && negb (_is_extra_target self fld))
          (_shape self).

(** [__call__]: the body of the extraction procedure.  The header of
    comments that [_gen_header] puts above the code is left out. *)
Definition call : Gen Code :=
  add_loaders (_field_loaders self) ;;;
  let prologue :=
    match _debug_trail self with
    | ALL => [S_errors_init; S_set_has_unexpected_error false]
    | _ => []
    end in
  let opt_init :=
    if has_optional_fields
    then [S_assign (T_var V_opt_fields) (E_const (VDict []))] else [] in
  r <- _gen_root_crown_dispatch self (_gen_crown_dispatch self)
                                (crown (_name_layout self)) ;;
  match r with
  | None => raise Err_TypeError
  | Some body =>
      targets <- _gen_extra_targets_assigment ;;
      let epilogue :=
        match _debug_trail self with
        | ALL =>
            [S_if C_errors
               [S_if C_has_unexpected_error [S_raise X_CompatExceptionGroup] [];
                S_raise X_LoadExceptionGroup] []]
        | _ => []
        end in
      ret (prologue ++ opt_init ++ body ++ targets ++ epilogue)
  end.

End Call.

(** A compiled procedure: the emitted code and the names it closes over. *)
Record Procedure : Type := mkProcedure {
  proc_code : Code;
  proc_namespace : Namespace
}.

Definition compile (self : BuiltinInputExtractionGen) : Res Procedure :=
  match call self (_create_state self []) with
  | (Ok code, st) => Ok (mkProcedure code (ctx_namespace st))
  | (Raise e, _) => Raise e
  end.

(** One invocation: the raw input is bound to the binder's data name. *)
Definition run (p : Procedure) (data : value) : Completion * Store :=
  exec (proc_namespace p) (proc_code p)
       (set_local (V_path B_data None) data empty_store).

(** ** The example of section 8 *)

Definition identity_loader : Loader := LoaderFn (fun v => Loaded v).

Definition example_gen (mode : DebugTrail) : BuiltinInputExtractionGen :=
  mkGen [mkField "f1" true; mkField "f2" true]
        (mkLayout
           (InpDictCrown
              [("x", InpFieldCrown "f1");
               ("y", InpDictCrown [("z", InpFieldCrown "f2")] ExtraForbid)]
              ExtraForbid)
           NoExtraMove)
        mode false
        [("f1", identity_loader); ("f2", identity_loader)].

Definition example_input : value :=
  VDict [(VStr "x", VInt 1); (VStr "y", VDict [(VStr "z", VInt 2)])].

Definition example_input_extra : value :=
  VDict [(VStr "x", VInt 1);
         (VStr "y", VDict [(VStr "z", VInt 2); (VStr "w", VInt 3)])].

Definition outcome (r : Res Procedure) (data : value)
  : option (Completion * list (Var * value)) :=
  match r with
  | Ok p => let (c, st) := run p data in Some (c, locals st)
  | Raise _ => None
  end.

(** * Properties *)

Unset Implicit Arguments.

(** ** Running blocks *)

Lemma run_block_app (step : Stmt -> Store -> Completion * Store)
    (a b : list Stmt) (st : Store) :
  run_block step (a ++ b) st =
  match run_block step a st with
  | (Done, st') => run_block step b st'
  | thrown => thrown
  end.
Proof.
  revert st; induction a as [|s a IH]; intros st; simpl.
  - destruct (run_block step b st) as [[|e] st']; reflexivity.
  - destruct (step s st) as [[|e] st']; [apply IH | reflexivity].
Qed.

Lemma exec_app (ns : Namespace) (a b : Code) (st : Store) :
  exec ns (a ++ b) st =
  match exec ns a st with
  | (Done, st') => exec ns b st'
  | thrown => thrown
  end.
Proof. apply run_block_app. Qed.

Lemma exec_app_throw (ns : Namespace) (a b : Code) (st st' : Store) (e : Exn) :
  exec ns a st = (Throw e, st') -> exec ns (a ++ b) st = (Throw e, st').
Proof. intros H; rewrite exec_app, H; reflexivity. Qed.

Lemma exec_app_done (ns : Namespace) (a b : Code) (st st' : Store) :
  exec ns a st = (Done, st') -> exec ns (a ++ b) st = exec ns b st'.
Proof. intros H; rewrite exec_app, H; reflexivity. Qed.

(** ** Inversion of generator steps *)

Lemma bind_ok {A B : Type} (m : Gen A) (k : A -> Gen B) (st st' : GenState)
    (b : B) :
  bind m k st = (Ok b, st') ->
  exists a st1, m st = (Ok a, st1) /\ k a st1 = (Ok b, st').
Proof.
  unfold bind; destruct (m st) as [[a|e] st1]; intros H.
  - exists a, st1; split; [reflexivity | exact H].
  - discriminate.
Qed.

Lemma ret_ok {A : Type} (a b : A) (st st' : GenState) :
  ret a st = (Ok b, st') -> a = b /\ st = st'.
Proof. unfold ret; intros H; inversion H; split; reflexivity. Qed.

Ltac gen_inv H :=
  repeat match type of H with
  | bind _ _ _ = (Ok _, _) =>
      let a := fresh "a" in
      let s := fresh "s" in
      let H1 := fresh "Hm" in
      apply bind_ok in H; destruct H as (a & s & H1 & H)
  | ret _ _ = (Ok _, _) =>
      apply ret_ok in H; destruct H; subst
  end.

(** What a generator step leaves untouched. *)
Definition same_position (st st' : GenState) : Prop :=
  _path st' = _path st /\
  _parent_path st' = _parent_path st /\
  _crown_stack st' = _crown_stack st.

Definition same_settings (st st' : GenState) : Prop :=
  debug_trail st' = debug_trail st /\
  _name_to_field st' = _name_to_field st.

Definition keeps_position {A : Type} (m : Gen A) : Prop :=
  forall st a st', m st = (Ok a, st') -> same_position st st'.

Lemma same_position_refl (st : GenState) : same_position st st.
Proof. repeat split. Qed.

Lemma same_position_trans (a b c : GenState) :
  same_position a b -> same_position b c -> same_position a c.
Proof.
  intros (H1 & H2 & H3) (K1 & K2 & K3); repeat split; congruence.
Qed.

Lemma keeps_ret {A : Type} (a : A) : keeps_position (ret a).
Proof. intros st b st' H; apply ret_ok in H as [_ <-]; apply same_position_refl. Qed.

Lemma keeps_raise {A : Type} (e : PyErr) : keeps_position (@raise A e).
Proof. intros st b st' H; discriminate. Qed.

Lemma keeps_bind {A B : Type} (m : Gen A) (k : A -> Gen B) :
  keeps_position m -> (forall a, keeps_position (k a)) ->
  keeps_position (bind m k).
Proof.
  intros Hm Hk st b st' H; apply bind_ok in H as (a & s & H1 & H2).
  eapply same_position_trans; [eapply Hm | eapply Hk]; eassumption.
Qed.

Lemma keeps_get : keeps_position get.
Proof. intros st a st' H; inversion H; apply same_position_refl. Qed.

Lemma keeps_modify (f : GenState -> GenState) :
  (forall st, same_position st (f st)) -> keeps_position (modify f).
Proof. intros Hf st a st' H; inversion H; apply Hf. Qed.

Create HintDb keeps.
#[local] Hint Resolve keeps_ret keeps_raise keeps_get : keeps.

Ltac keeps_step :=
  lazymatch goal with
  | |- keeps_position (ret _) => apply keeps_ret
  | |- keeps_position (raise _) => apply keeps_raise
  | |- keeps_position get => apply keeps_get
  | |- keeps_position (bind _ _) => apply keeps_bind; [| intros ?]
  | |- keeps_position (modify _) => apply keeps_modify; intros ?; repeat split
  | |- keeps_position (match ?x with _ => _ end) => destruct x
  | |- keeps_position (let '(_, _) := ?x in _) => destruct x
  | |- keeps_position _ => solve [auto with keeps]
  end.

Ltac keeps_auto := repeat keeps_step.

Lemma keeps__get_path_idx (p : CrownPath) : keeps_position (_get_path_idx p).
Proof. unfold _get_path_idx; keeps_auto. Qed.
#[local] Hint Resolve keeps__get_path_idx : keeps.

Lemma keeps__with_path_suffix (b : Basis) (p : CrownPath) :
  keeps_position (_with_path_suffix b p).
Proof. unfold _with_path_suffix; keeps_auto. Qed.
#[local] Hint Resolve keeps__with_path_suffix : keeps.

Lemma keeps_path : keeps_position path.
Proof. unfold path; keeps_auto. Qed.

Lemma keeps_parent_path : keeps_position parent_path.
Proof. unfold parent_path; keeps_auto. Qed.
#[local] Hint Resolve keeps_path keeps_parent_path : keeps.

Lemma keeps_v_data : keeps_position v_data.
Proof. unfold v_data; keeps_auto. Qed.

Lemma keeps_v_known_keys : keeps_position v_known_keys.
Proof. unfold v_known_keys; keeps_auto. Qed.

Lemma keeps_v_extra : keeps_position v_extra.
Proof. unfold v_extra; keeps_auto. Qed.

Lemma keeps_v_parent_data : keeps_position v_parent_data.
Proof. unfold v_parent_data; keeps_auto. Qed.

Lemma keeps_v_parent_extra : keeps_position v_parent_extra.
Proof. unfold v_parent_extra; keeps_auto. Qed.
#[local] Hint Resolve keeps_v_data keeps_v_known_keys keeps_v_extra
  keeps_v_parent_data keeps_v_parent_extra : keeps.

Lemma keeps_parent_crown : keeps_position parent_crown.
Proof. unfold parent_crown; keeps_auto. Qed.

Lemma keeps_last_path_elem (p : CrownPath) : keeps_position (last_path_elem p).
Proof. unfold last_path_elem; keeps_auto. Qed.

Lemma keeps_crown_map_len (c : InpCrown) : keeps_position (crown_map_len c).
Proof. unfold crown_map_len; keeps_auto. Qed.

Lemma keeps_crown_extra_policy (c : InpCrown) :
  keeps_position (crown_extra_policy c).
Proof. unfold crown_extra_policy; keeps_auto. Qed.

Lemma keeps_get_field (id : string) : keeps_position (get_field id).
Proof. unfold get_field; keeps_auto. Qed.

Lemma keeps_with_trail (x : ErrExpr) (p : option CrownPath) :
  keeps_position (with_trail x p).
Proof. unfold with_trail; keeps_auto. Qed.
#[local] Hint Resolve keeps_parent_crown keeps_last_path_elem
  keeps_crown_map_len keeps_crown_extra_policy keeps_get_field
  keeps_with_trail : keeps.

Lemma keeps_emit_error (x : ErrExpr) : keeps_position (emit_error x).
Proof. unfold emit_error; keeps_auto. Qed.

Lemma keeps_emit_error_for_from_data_assigment (x : ErrExpr) :
  keeps_position (emit_error_for_from_data_assigment x).
Proof. unfold emit_error_for_from_data_assigment; keeps_auto. Qed.

Lemma keeps_ns_add (name : Var) (obj : NsObj) : keeps_position (ns_add name obj).
Proof. unfold ns_add; keeps_auto. Qed.
#[local] Hint Resolve keeps_emit_error keeps_emit_error_for_from_data_assigment
  keeps_ns_add : keeps.

Section KeepsGenerator.

Variable self : BuiltinInputExtractionGen.

Lemma keeps__gen_assigment_from_parent_data (v : Var) (b : bool) :
  keeps_position (_gen_assigment_from_parent_data self v b).
Proof. unfold _gen_assigment_from_parent_data; keeps_auto. Qed.
Hint Resolve keeps__gen_assigment_from_parent_data : keeps.

Lemma keeps__gen_add_self_extra_to_parent_extra :
  keeps_position _gen_add_self_extra_to_parent_extra.
Proof. unfold _gen_add_self_extra_to_parent_extra; keeps_auto. Qed.

Lemma keeps__gen_field_assigment (t : Target) (id : string) (arg : Expr) :
  keeps_position (_gen_field_assigment self t id arg).
Proof. unfold _gen_field_assigment; keeps_auto. Qed.
Hint Resolve keeps__gen_add_self_extra_to_parent_extra
  keeps__gen_field_assigment : keeps.

Lemma keeps__gen_field_crown (id : string) :
  keeps_position (_gen_field_crown self id).
Proof. unfold _gen_field_crown; keeps_auto. Qed.

Lemma keeps_gen_read_own_data : keeps_position (gen_read_own_data self).
Proof. unfold gen_read_own_data; keeps_auto. Qed.

Lemma keeps_gen_list_len_check (n : nat) (p : ExtraPolicy) :
  keeps_position (gen_list_len_check n p).
Proof. unfold gen_list_len_check; keeps_auto. Qed.

Lemma keeps_gen_dict_extra (m : list (string * InpCrown)) (p : ExtraPolicy) :
  keeps_position (gen_dict_extra m p).
Proof. unfold gen_dict_extra; keeps_auto. Qed.

End KeepsGenerator.

(** ** Induction over crown trees *)

Section CrownInduction.

Variable P : InpCrown -> Prop.
Hypothesis Hdict : forall m p,
  Forall (fun kv => P (snd kv)) m -> P (InpDictCrown m p).
Hypothesis Hlist : forall m p, Forall P m -> P (InpListCrown m p).
Hypothesis Hfield : forall id, P (InpFieldCrown id).
Hypothesis Hnone : P InpNoneCrown.

Fixpoint InpCrown_tree_ind (c : InpCrown) : P c :=
  match c with
  | InpDictCrown m p =>
      Hdict m p
        ((fix go (l : list (string * InpCrown))
            : Forall (fun kv => P (snd kv)) l :=
            match l with
            | [] => Forall_nil _
            | kv :: rest =>
                Forall_cons kv (InpCrown_tree_ind (snd kv)) (go rest)
            end) m)
  | InpListCrown m p =>
      Hlist m p
        ((fix go (l : list InpCrown) : Forall P l :=
            match l with
            | [] => Forall_nil _
            | x :: rest => Forall_cons x (InpCrown_tree_ind x) (go rest)
            end) m)
  | InpFieldCrown id => Hfield id
  | InpNoneCrown => Hnone
  end.

End CrownInduction.

Lemma _gen_crown_dispatch_eq (self : BuiltinInputExtractionGen)
    (sub_crown : InpCrown) (key : CrownPathElem) :
  _gen_crown_dispatch self sub_crown key =
  add_key sub_crown key
    (r <- _gen_root_crown_dispatch self (_gen_crown_dispatch self) sub_crown ;;
     match r with
     | Some c => ret c
     | None =>
         match sub_crown with
         | InpFieldCrown id => _gen_field_crown self id
         | InpNoneCrown => _gen_none_crown
         | _ => raise Err_TypeError
         end
     end).
Proof. destruct sub_crown; reflexivity. Qed.

(** ** The scoped region of [add_key] *)

Lemma add_key_restores {A : Type} (c : InpCrown) (k : CrownPathElem)
    (block : Gen A) :
  keeps_position block -> keeps_position (add_key c k block).
Proof.
  intros Hb st a st' H. unfold add_key in H.
  gen_inv H.
  inversion Hm; subst. inversion Hm0; subst. inversion Hm2; subst.
  apply Hb in Hm1. destruct Hm1 as (_ & _ & Hstack).
  simpl in Hstack.
  repeat split; simpl.
  rewrite Hstack. apply removelast_last.
Qed.

Section Restore.

Variable self : BuiltinInputExtractionGen.

Lemma keeps_gen_dict_children (dispatch : InpCrown -> CrownPathElem -> Gen Code)
    (m : list (string * InpCrown)) :
  Forall (fun kv => forall k, keeps_position (dispatch (snd kv) k)) m ->
  keeps_position (gen_dict_children dispatch m).
Proof.
  induction 1 as [|[key value] rest Hx _ IH]; simpl.
  - apply keeps_ret.
  - apply keeps_bind; [apply Hx | intros c].
    apply keeps_bind; [apply IH | intros cs]. apply keeps_ret.
Qed.

Lemma keeps_gen_list_children (dispatch : InpCrown -> CrownPathElem -> Gen Code)
    (m : list InpCrown) :
  Forall (fun x => forall k, keeps_position (dispatch x k)) m ->
  forall i, keeps_position (gen_list_children dispatch i m).
Proof.
  induction 1 as [|value rest Hx _ IH]; intros i; simpl.
  - apply keeps_ret.
  - apply keeps_bind; [apply Hx | intros c].
    apply keeps_bind; [apply IH | intros cs]. apply keeps_ret.
Qed.

Lemma keeps__gen_dict_crown (dispatch : InpCrown -> CrownPathElem -> Gen Code)
    (m : list (string * InpCrown)) (p : ExtraPolicy) :
  keeps_position (gen_dict_children dispatch m) ->
  keeps_position (_gen_dict_crown self dispatch m p).
Proof.
  intros Hc. unfold _gen_dict_crown.
  apply keeps_bind; [apply keeps_gen_read_own_data | intros ?].
  apply keeps_bind; [keeps_auto | intros ?].
  apply keeps_bind; [exact Hc | intros ?].
  apply keeps_bind; [keeps_auto | intros ?].
  apply keeps_bind; [apply keeps_gen_dict_extra | intros ?].
  keeps_auto; apply keeps__gen_add_self_extra_to_parent_extra.
Qed.

Lemma keeps__gen_list_crown (dispatch : InpCrown -> CrownPathElem -> Gen Code)
    (m : list InpCrown) (p : ExtraPolicy) :
  keeps_position (gen_list_children dispatch 0 m) ->
  keeps_position (_gen_list_crown self dispatch m p).
Proof.
  intros Hc. unfold _gen_list_crown.
  apply keeps_bind; [apply keeps_gen_read_own_data | intros ?].
  apply keeps_bind; [keeps_auto | intros ?].
  apply keeps_bind; [keeps_auto | intros ?].
  apply keeps_bind; [exact Hc | intros ?].
  apply keeps_bind; [keeps_auto | intros ?].
  apply keeps_bind; [apply keeps_gen_list_len_check | intros ?].
  keeps_auto; apply keeps__gen_add_self_extra_to_parent_extra.
Qed.

Lemma keeps__gen_crown_dispatch (c : InpCrown) :
  forall k, keeps_position (_gen_crown_dispatch self c k).
Proof.
  induction c as [m p IH | m p IH | id |] using InpCrown_tree_ind;
    intros k; rewrite _gen_crown_dispatch_eq; apply add_key_restores;
    unfold _gen_root_crown_dispatch.
  - apply keeps_bind; [| intros [c|]; keeps_auto].
    apply keeps_bind; [| intros ?; apply keeps_ret].
    apply keeps__gen_dict_crown, keeps_gen_dict_children, IH.
  - apply keeps_bind; [| intros [c|]; keeps_auto].
    apply keeps_bind; [| intros ?; apply keeps_ret].
    apply keeps__gen_list_crown, keeps_gen_list_children, IH.
  - apply keeps_bind; [apply keeps_ret | intros [c|]; [apply keeps_ret |]].
    apply keeps__gen_field_crown.
  - apply keeps_bind; [apply keeps_ret | intros [c|]; apply keeps_ret].
Qed.

End Restore.

(** ** C4: the enter-child region of the state tracker *)

(** A dict crown whose only child names a field the shape does not have: the
    lookup in [get_field] raises [KeyError] while the child is compiled. *)
Definition gen_with_unknown_field : BuiltinInputExtractionGen :=
  mkGen [] (mkLayout (InpDictCrown [("a", InpFieldCrown "ghost")] ExtraIgnore)
                     NoExtraMove)
        NONE false [].

Definition state_at_root : GenState := _create_state gen_with_unknown_field [].

(** C4, as stated, fails: when compilation of the child raises, the tracker
    is left inside the child: the path still ends with the child's key, the
    parent path is the root's path and the child is still on the crown
    stack. *)
Lemma C4_counterexample :
  let r := _gen_crown_dispatch gen_with_unknown_field
             (InpFieldCrown "ghost") (Key "a") state_at_root in
  fst r = Raise Err_KeyError /\
  _path state_at_root = [] /\
  _path (snd r) = [Key "a"] /\
  _parent_path state_at_root = None /\
  _parent_path (snd r) = Some [] /\
  List.length (_crown_stack (snd r)) = S (List.length (_crown_stack state_at_root)) /\
  ~ same_position state_at_root (snd r).
Proof.
  cbv zeta. repeat split; try reflexivity.
  intros (H & _). vm_compute in H. discriminate.
Qed.

(** C4 (amended): whenever the compilation of a child returns, the path, the
    parent path and the crown stack of the tracker are what they were before
    the child was entered. *)
Theorem C4_position_restored_on_return (self : BuiltinInputExtractionGen)
    (sub_crown : InpCrown) (key : CrownPathElem) (st st' : GenState)
    (code : Code) :
  _gen_crown_dispatch self sub_crown key st = (Ok code, st') ->
  _path st' = _path st /\
  _parent_path st' = _parent_path st /\
  _crown_stack st' = _crown_stack st.
Proof.
  intros H. exact (keeps__gen_crown_dispatch self sub_crown key st code st' H).
Qed.

Definition nested_child : InpCrown :=
  InpDictCrown [("z", InpFieldCrown "f2")] ExtraForbid.

Definition nested_child_start : GenState := _create_state (example_gen ALL) [].

Definition nested_child_result : Res Code * GenState :=
  Eval vm_compute in
    _gen_crown_dispatch (example_gen ALL) nested_child (Key "y")
                        nested_child_start.

Lemma C4_position_restored_on_return_witness :
  _gen_crown_dispatch (example_gen ALL) nested_child (Key "y")
                      nested_child_start = nested_child_result /\
  (_path (snd nested_child_result) = _path nested_child_start /\
   _parent_path (snd nested_child_result) = _parent_path nested_child_start /\
   _crown_stack (snd nested_child_result) = _crown_stack nested_child_start).
Proof.
  assert (H : _gen_crown_dispatch (example_gen ALL) nested_child (Key "y")
                nested_child_start = nested_child_result)
    by (vm_compute; reflexivity).
  exact (conj H (C4_position_restored_on_return (example_gen ALL) nested_child
                   (Key "y") nested_child_start (snd nested_child_result)
                   (match fst nested_child_result with
                    | Ok c => c
                    | Raise _ => []
                    end) H)).
Defined.

(** ** C10: a leaf crown at the root *)

Lemma add_loaders_ok (loaders : list (string * Loader)) (st : GenState) :
  exists st', add_loaders loaders st = (Ok tt, st').
Proof.
  revert st; induction loaders as [|[id l] rest IH]; intros st; simpl.
  - eexists; reflexivity.
  - unfold bind, ns_add, modify. apply IH.
Qed.

(** C10: with a field crown or a none crown at the root, compilation raises
    [TypeError]; no procedure is produced. *)
Theorem C10_leaf_root_is_type_error (shape : list InputField)
    (move : ExtraMove) (mode : DebugTrail) (strict : bool)
    (loaders : list (string * Loader)) (id : string) :
  compile (mkGen shape (mkLayout (InpFieldCrown id) move) mode strict loaders)
    = Raise Err_TypeError /\
  compile (mkGen shape (mkLayout InpNoneCrown move) mode strict loaders)
    = Raise Err_TypeError.
Proof.
  split; unfold compile, call; simpl.
  - destruct (add_loaders_ok loaders
                (_create_state
                   (mkGen shape (mkLayout (InpFieldCrown id) move) mode strict
                      loaders) [])) as (st' & H).
    unfold bind at 1. rewrite H. reflexivity.
  - destruct (add_loaders_ok loaders
                (_create_state
                   (mkGen shape (mkLayout InpNoneCrown move) mode strict
                      loaders) [])) as (st' & H).
    unfold bind at 1. rewrite H. reflexivity.
Qed.

(** ** Names and suffixes *)

Lemma Var_eqb_refl (x : Var) : Var_eqb x x = true.
Proof.
  destruct x as [b s | s | id | id | id | |]; simpl;
    try apply String.eqb_refl; try reflexivity.
  - destruct b, s as [n|]; simpl; try apply Nat.eqb_refl; reflexivity.
  - destruct s as [n|]; simpl; [apply Nat.eqb_refl | reflexivity].
Qed.

Lemma Var_eqb_eq (x y : Var) : Var_eqb x y = true -> x = y.
Proof.
  destruct x as [b s | s | id | id | id | |],
           y as [b' s' | s' | id' | id' | id' | |]; simpl; try discriminate;
    intros H; try reflexivity;
    try (apply String.eqb_eq in H; subst; reflexivity).
  - apply andb_true_iff in H as [Hb Hs].
    destruct b, b'; try discriminate;
      destruct s as [n|], s' as [n'|]; try discriminate;
      try (apply Nat.eqb_eq in Hs; subst); reflexivity.
  - destruct s as [n|], s' as [n'|]; try discriminate;
      try (apply Nat.eqb_eq in H; subst); reflexivity.
Qed.

Lemma CrownPathElem_eqb_refl (a : CrownPathElem) : CrownPathElem_eqb a a = true.
Proof. destruct a; simpl; [apply String.eqb_refl | apply Nat.eqb_refl]. Qed.

Lemma CrownPath_eqb_refl (p : CrownPath) : CrownPath_eqb p p = true.
Proof.
  induction p as [|a p IH]; simpl; [reflexivity |].
  rewrite CrownPathElem_eqb_refl, IH; reflexivity.
Qed.

Lemma CrownPathElem_eqb_eq (a b : CrownPathElem) :
  CrownPathElem_eqb a b = true -> a = b.
Proof.
  destruct a, b; simpl; try discriminate; intros H.
  - apply String.eqb_eq in H; subst; reflexivity.
  - apply Nat.eqb_eq in H; subst; reflexivity.
Qed.

Lemma CrownPath_eqb_eq (p q : CrownPath) : CrownPath_eqb p q = true -> p = q.
Proof.
  revert q; induction p as [|a p IH]; intros [|b q]; simpl; try discriminate.
  - reflexivity.
  - intros H; apply andb_true_iff in H as [H1 H2].
    apply CrownPathElem_eqb_eq in H1; apply IH in H2; subst; reflexivity.
Qed.

(** The suffix that [_with_path_suffix] gives to a path, and the state it
    leaves. *)
Definition suffix_of (st : GenState) (p : CrownPath) : option nat :=
  match p with
  | [] => None
  | _ :: _ =>
      Some match suffix_get (path_to_suffix st) p with
           | Some n => n
           | None => S (_last_path_idx st)
           end
  end.

Definition alloc (p : CrownPath) (st : GenState) : GenState :=
  match p with
  | [] => st
  | _ :: _ =>
      match suffix_get (path_to_suffix st) p with
      | Some _ => st
      | None =>
          with_suffixes (path_to_suffix st ++ [(p, S (_last_path_idx st))])
                        (S (_last_path_idx st)) st
      end
  end.

Lemma _with_path_suffix_eq (b : Basis) (p : CrownPath) (st : GenState) :
  _with_path_suffix b p st = (Ok (V_path b (suffix_of st p)), alloc p st).
Proof.
  destruct p as [|a p]; [reflexivity |].
  unfold _with_path_suffix, _get_path_idx, bind, get, suffix_of, alloc.
  destruct (suffix_get (path_to_suffix st) (a :: p)); reflexivity.
Qed.

Lemma suffix_get_app_new (m : list (CrownPath * nat)) (p : CrownPath) (n : nat) :
  suffix_get m p = None -> suffix_get (m ++ [(p, n)]) p = Some n.
Proof.
  induction m as [|[q k] m IH]; simpl.
  - rewrite CrownPath_eqb_refl; reflexivity.
  - destruct (CrownPath_eqb q p); [discriminate | exact IH].
Qed.

Lemma suffix_get_app_old (m : list (CrownPath * nat)) (p q : CrownPath)
    (n k : nat) :
  suffix_get m p = Some n -> suffix_get (m ++ [(q, k)]) p = Some n.
Proof.
  induction m as [|[r j] m IH]; simpl; [discriminate |].
  destruct (CrownPath_eqb r p); [trivial | exact IH].
Qed.

Lemma suffix_of_alloc_same (p : CrownPath) (st : GenState) :
  suffix_of (alloc p st) p = suffix_of st p.
Proof.
  destruct p as [|a p]; [reflexivity |].
  unfold suffix_of, alloc.
  destruct (suffix_get (path_to_suffix st) (a :: p)) eqn:E.
  - rewrite E; reflexivity.
  - simpl. rewrite (suffix_get_app_new _ _ _ E); reflexivity.
Qed.

Lemma alloc_idem (p : CrownPath) (st : GenState) :
  alloc p (alloc p st) = alloc p st.
Proof.
  destruct p as [|a p]; [reflexivity |].
  unfold alloc at 1.
  destruct (suffix_get (path_to_suffix (alloc (a :: p) st)) (a :: p)) eqn:E;
    [reflexivity |].
  exfalso. unfold alloc in E.
  destruct (suffix_get (path_to_suffix st) (a :: p)) eqn:E'.
  - rewrite E' in E; discriminate.
  - simpl in E. rewrite (suffix_get_app_new _ _ _ E') in E; discriminate.
Qed.

Lemma alloc_fields (p : CrownPath) (st : GenState) :
  _path (alloc p st) = _path st /\
  _parent_path (alloc p st) = _parent_path st /\
  _crown_stack (alloc p st) = _crown_stack st /\
  debug_trail (alloc p st) = debug_trail st /\
  _name_to_field (alloc p st) = _name_to_field st /\
  checked_type_paths (alloc p st) = checked_type_paths st /\
  ctx_namespace (alloc p st) = ctx_namespace st /\
  field_id_to_path (alloc p st) = field_id_to_path st.
Proof.
  destruct p as [|a p]; [repeat split |].
  unfold alloc; destruct (suffix_get (path_to_suffix st) (a :: p));
    repeat split.
Qed.

Lemma alloc_path (p : CrownPath) (st : GenState) :
  _path (alloc p st) = _path st.
Proof. apply alloc_fields. Qed.

Lemma alloc_parent_path (p : CrownPath) (st : GenState) :
  _parent_path (alloc p st) = _parent_path st.
Proof. apply alloc_fields. Qed.

Lemma alloc_debug_trail (p : CrownPath) (st : GenState) :
  debug_trail (alloc p st) = debug_trail st.
Proof. apply alloc_fields. Qed.

Lemma alloc_checked (p : CrownPath) (st : GenState) :
  checked_type_paths (alloc p st) = checked_type_paths st.
Proof. apply alloc_fields. Qed.

Lemma alloc_crown_stack (p : CrownPath) (st : GenState) :
  _crown_stack (alloc p st) = _crown_stack st.
Proof. apply alloc_fields. Qed.

Create Rewrite HintDb alloc.
#[local] Hint Rewrite alloc_path alloc_parent_path alloc_debug_trail
  alloc_checked alloc_crown_stack alloc_idem suffix_of_alloc_same : alloc.

Lemma v_data_eq (st : GenState) :
  v_data st = (Ok (V_path B_data (suffix_of st (_path st))), alloc (_path st) st).
Proof. unfold v_data, path, bind, get, ret. apply _with_path_suffix_eq. Qed.

Lemma v_extra_eq (st : GenState) :
  v_extra st = (Ok (V_path B_extra (suffix_of st (_path st))), alloc (_path st) st).
Proof. unfold v_extra, path, bind, get, ret. apply _with_path_suffix_eq. Qed.

Lemma v_known_keys_eq (st : GenState) :
  v_known_keys st =
  (Ok (V_path B_known_keys (suffix_of st (_path st))), alloc (_path st) st).
Proof. unfold v_known_keys, path, bind, get, ret. apply _with_path_suffix_eq. Qed.

Lemma v_parent_data_eq (st : GenState) (q : CrownPath) :
  _parent_path st = Some q ->
  v_parent_data st = (Ok (V_path B_data (suffix_of st q)), alloc q st).
Proof.
  intros H. unfold v_parent_data, parent_path, bind, get. rewrite H.
  apply _with_path_suffix_eq.
Qed.

Lemma v_parent_extra_eq (st : GenState) (q : CrownPath) :
  _parent_path st = Some q ->
  v_parent_extra st = (Ok (V_path B_extra (suffix_of st q)), alloc q st).
Proof.
  intros H. unfold v_parent_extra, parent_path, bind, get. rewrite H.
  apply _with_path_suffix_eq.
Qed.

Lemma parent_path_eq (st : GenState) (q : CrownPath) :
  _parent_path st = Some q -> parent_path st = (Ok q, st).
Proof. intros H; unfold parent_path, bind, get; rewrite H; reflexivity. Qed.

Lemma path_eq (st : GenState) : path st = (Ok (_path st), st).
Proof. reflexivity. Qed.

Lemma with_trail_eq (x : ErrExpr) (p : option CrownPath) (st : GenState) :
  with_trail x p st =
  (Ok (with_trail_at (debug_trail st) x
         match p with None => _path st | Some q => q end), st).
Proof. reflexivity. Qed.

(** The statement by which the emitted code reports an error. *)
Definition report_stmt (mode : DebugTrail) (x : ErrExpr) (p : CrownPath) : Stmt :=
  match mode with
  | ALL => S_errors_append (with_trail_at ALL x p)
  | m => S_raise (with_trail_at m x p)
  end.

Lemma emit_error_eq (x : ErrExpr) (st : GenState) :
  emit_error x st = (Ok (report_stmt (debug_trail st) x (_path st)), st).
Proof.
  unfold emit_error, report_stmt, bind, get, path, with_trail, ret.
  destruct (debug_trail st) eqn:E; simpl; rewrite ?E; reflexivity.
Qed.

Lemma last_path_elem_snoc (pp : CrownPath) (el : CrownPathElem) :
  last_path_elem (pp ++ [el]) = ret el.
Proof. unfold last_path_elem; rewrite rev_unit; reflexivity. Qed.

(** ** Reporting an error at run time *)

(** What [with_trail] makes of an error: mode [NONE] leaves it bare, the
    other modes put the path in front of its trail. *)
Definition decorate (mode : DebugTrail) (p : CrownPath) (e : Exn) : Exn :=
  match mode with
  | NONE => e
  | FIRST | ALL => extend_trail e p
  end.

(** What the emitted [emit_error] statement does with an error: mode [ALL]
    appends it to [errors] and goes on, the other modes raise it. *)
Definition report (mode : DebugTrail) (e : Exn) (st : Store)
  : Completion * Store :=
  match mode with
  | ALL =>
      match errors st with
      | Some es => (Done, set_errors (es ++ [e]) st)
      | None => (Throw (fresh UnboundLocalError), st)
      end
  | NONE | FIRST => (Throw e, st)
  end.

Lemma extend_trail_nil (e : Exn) : extend_trail e [] = e.
Proof. destruct e; reflexivity. Qed.

Lemma eval_err_with_trail_at (ns : Namespace) (mode : DebugTrail)
    (x : ErrExpr) (p : CrownPath) (st : Store) (e : Exn) :
  eval_err ns x st = inl e ->
  eval_err ns (with_trail_at mode x p) st = inl (decorate mode p e).
Proof.
  intros H. destruct mode; simpl; try exact H;
    (destruct p as [|a [|b p]]; simpl; rewrite H;
     [rewrite extend_trail_nil; reflexivity | reflexivity | reflexivity]).
Qed.

Lemma exec_report_stmt (ns : Namespace) (mode : DebugTrail) (x : ErrExpr)
    (p : CrownPath) (st : Store) (e : Exn) :
  eval_err ns x st = inl e ->
  exec_stmt ns (report_stmt mode x p) st = report mode (decorate mode p e) st.
Proof.
  intros H. destruct mode; simpl.
  - rewrite H; reflexivity.
  - destruct p as [|a [|b p]]; simpl; rewrite H; simpl;
      rewrite ?extend_trail_nil; reflexivity.
  - destruct p as [|a [|b p]]; simpl; rewrite H; simpl;
      rewrite ?extend_trail_nil; reflexivity.
Qed.

Lemma exec_cons (ns : Namespace) (s : Stmt) (rest : Code) (st : Store) :
  exec ns (s :: rest) st =
  match exec_stmt ns s st with
  | (Done, st') => exec ns rest st'
  | thrown => thrown
  end.
Proof. reflexivity. Qed.

Lemma exec_one (ns : Namespace) (s : Stmt) (st : Store) :
  exec ns [s] st = exec_stmt ns s st.
Proof.
  rewrite exec_cons. destruct (exec_stmt ns s st) as [[|e] st']; reflexivity.
Qed.

Lemma read_var_set_local_same (ns : Namespace) (x : Var) (v : value)
    (st : Store) :
  read_var ns (set_local x v st) x = inl v.
Proof. unfold read_var; simpl; rewrite Var_eqb_refl; reflexivity. Qed.

(** ** C5: the length check of a list crown *)

Definition data_name (st : GenState) : Var :=
  V_path B_data (suffix_of st (_path st)).

Lemma gen_list_len_check_eq (n : nat) (policy : ExtraPolicy) (st : GenState) :
  gen_list_len_check n policy st =
  (Ok match policy with
      | ExtraForbid =>
          [S_if (C_len_ne (data_name st) n)
             [S_if (C_len_lt (data_name st) n)
                [report_stmt (debug_trail st) (X_NoRequiredItemsError n) (_path st)]
                [report_stmt (debug_trail st) (X_ExtraItemsError n) (_path st)]]
             []]
      | _ =>
          [S_if (C_len_lt (data_name st) n)
             [report_stmt (debug_trail st) (X_NoRequiredItemsError n) (_path st)]
             []]
      end,
   alloc (_path st) st).
Proof.
  unfold gen_list_len_check, data_name.
  destruct policy; unfold bind, ret;
    repeat (first [rewrite v_data_eq | rewrite emit_error_eq]; cbv beta iota);
    autorewrite with alloc; reflexivity.
Qed.

(** The code that closes a list crown of [n] children, run where the
    crown's value is a list.  A list shorter than [n] is reported as
    [NoRequiredItemsError(n)]; a longer one is reported as
    [ExtraItemsError(n)] under [Forbid] and accepted under the other policies;
    a list of [n] items passes.  Reporting raises in the modes [NONE] and
    [FIRST] and appends to [errors] in mode [ALL]. *)
Lemma exec_list_len_check (map : list InpCrown) (policy : ExtraPolicy)
    (st st' : GenState) (code : Code) (ns : Namespace) (store : Store)
    (items : list value) :
  gen_list_len_check (List.length map) policy st = (Ok code, st') ->
  read_var ns store (data_name st) = inl (VList items) ->
  exec ns code store =
    match Nat.compare (List.length items) (List.length map) with
    | Eq => (Done, store)
    | Lt =>
        report (debug_trail st)
          (decorate (debug_trail st) (_path st)
             (fresh (NoRequiredItemsError (List.length map))))
          store
    | Gt =>
        match policy with
        | ExtraForbid =>
            report (debug_trail st)
              (decorate (debug_trail st) (_path st)
                 (fresh (ExtraItemsError (List.length map))))
              store
        | _ => (Done, store)
        end
    end.
Proof.
  intros Hgen Hdata.
  rewrite gen_list_len_check_eq in Hgen. inversion Hgen; subst code st'; clear Hgen.
  set (n := List.length map). set (mode := debug_trail st).
  destruct (Nat.compare_spec (List.length items) n) as [Heq | Hlt | Hgt].
  - destruct policy; rewrite exec_one; cbn [exec_stmt eval_cond];
      rewrite Hdata; cbn [py_len];
      rewrite ?(proj2 (Nat.eqb_eq _ _) Heq);
      rewrite ?(proj2 (Nat.ltb_ge _ _)) by lia; reflexivity.
  - destruct policy; rewrite exec_one; cbn [exec_stmt eval_cond];
      rewrite Hdata; cbn [py_len];
      rewrite ?(proj2 (Nat.eqb_neq _ _)) by lia; cbn [negb run_block];
      try (cbn [exec_stmt eval_cond]; rewrite Hdata; cbn [py_len]);
      rewrite (proj2 (Nat.ltb_lt _ _) Hlt); cbn [run_block];
      rewrite (exec_report_stmt ns mode _ (_path st) store
                 (fresh (NoRequiredItemsError n))) by reflexivity;
      destruct (report _ _ store) as [[|e] s]; reflexivity.
  - destruct policy; rewrite exec_one; cbn [exec_stmt eval_cond];
      rewrite Hdata; cbn [py_len];
      rewrite ?(proj2 (Nat.eqb_neq _ _)) by lia; cbn [negb run_block];
      try (cbn [exec_stmt eval_cond]; rewrite Hdata; cbn [py_len]);
      rewrite (proj2 (Nat.ltb_ge _ _)) by lia; cbn [run_block];
      try reflexivity.
    rewrite (exec_report_stmt ns mode _ (_path st) store
               (fresh (ExtraItemsError n))) by reflexivity.
    destruct (report _ _ store) as [[|e] s]; reflexivity.
Qed.

(** The list crown of section 8: three declared children. *)
Definition three_items : list InpCrown :=
  [InpFieldCrown "a"; InpFieldCrown "b"; InpFieldCrown "c"].

Definition list_gen (mode : DebugTrail) (policy : ExtraPolicy) (strict : bool)
  : BuiltinInputExtractionGen :=
  mkGen [mkField "a" true; mkField "b" true; mkField "c" true]
        (mkLayout (InpListCrown three_items policy) NoExtraMove)
        mode strict
        [("a", identity_loader); ("b", identity_loader); ("c", identity_loader)].

Definition ints (l : list Z) : value := VList (List.map VInt l).

Definition list_root_state : GenState :=
  _create_state (list_gen FIRST ExtraForbid false) [].

Definition list_len_code : Code :=
  Eval vm_compute in
    match fst (gen_list_len_check 3 ExtraForbid list_root_state) with
    | Ok c => c
    | Raise _ => []
    end.

Definition two_items_store : Store :=
  set_local (V_path B_data None) (ints [1; 2]%Z) empty_store.

Example length_check_on_two_items :
  exec [] list_len_code two_items_store =
    (Throw (mkExn (NoRequiredItemsError 3) []), two_items_store).
Proof.
  exact (exec_list_len_check three_items ExtraForbid list_root_state
           list_root_state list_len_code [] two_items_store [VInt 1; VInt 2]
           eq_refl eq_refl).
Defined.

Example list_of_two_under_forbid :
  fst (run (match compile (list_gen NONE ExtraForbid false) with
            | Ok p => p
            | Raise _ => mkProcedure [] []
            end) (ints [1; 2]%Z))
  = Throw (mkExn (NoRequiredItemsError 3) []).
Proof. vm_compute. reflexivity. Qed.

Example list_of_four_under_forbid :
  fst (run (match compile (list_gen NONE ExtraForbid false) with
            | Ok p => p
            | Raise _ => mkProcedure [] []
            end) (ints [1; 2; 3; 4]%Z))
  = Throw (mkExn (ExtraItemsError 3) []).
Proof. vm_compute. reflexivity. Qed.

Example list_of_three_under_forbid :
  fst (run (match compile (list_gen NONE ExtraForbid false) with
            | Ok p => p
            | Raise _ => mkProcedure [] []
            end) (ints [1; 2; 3]%Z))
  = Done.
Proof. vm_compute. reflexivity. Qed.

Example list_of_four_under_ignore :
  fst (run (match compile (list_gen NONE ExtraIgnore false) with
            | Ok p => p
            | Raise _ => mkProcedure [] []
            end) (ints [1; 2; 3; 4]%Z))
  = Done.
Proof. vm_compute. reflexivity. Qed.

(** ** The positional read, in closed form *)

Definition read_errors (el : CrownPathElem) (n : nat)
  : ExcClass * list ExcClass * ErrExpr * ErrExpr :=
  match el with
  | Key k =>
      (Cls_KeyError, [Cls_TypeError; Cls_IndexError],
       X_TypeLoadError KDict, X_NoRequiredFieldsError [k])
  | Idx _ =>
      (Cls_IndexError, [Cls_TypeError; Cls_KeyError],
       X_TypeLoadError KList, X_NoRequiredItemsError n)
  end.

Definition on_lookup_error (mode : DebugTrail) (ignore : bool)
    (el : CrownPathElem) (q : CrownPath) (not_found : ErrExpr) : Stmt :=
  if ignore then S_pass
  else match mode with
       | ALL =>
           match el with
           | Key _ => S_errors_append (with_trail_at ALL not_found q)
           | Idx _ => S_pass
           end
       | m => S_raise (with_trail_at m not_found q)
       end.

Definition bad_type_handlers (mode : DebugTrail) (checked : bool)
    (classes : list ExcClass) (x : ErrExpr) (q : CrownPath) : list Handler :=
  if checked then [] else [(classes, [S_raise (with_trail_at mode x q)])].

Definition unexpected_handlers (gen_mode state_mode : DebugTrail)
    (p : CrownPath) : list Handler :=
  match gen_mode with
  | FIRST => [([Cls_Exception], [S_expr (with_trail_at state_mode X_e p); S_reraise])]
  | ALL =>
      [([Cls_Exception],
        [S_errors_append (with_trail_at state_mode X_e p);
         S_set_has_unexpected_error true])]
  | NONE => []
  end.

Definition read_handlers (self : BuiltinInputExtractionGen) (st : GenState)
    (el : CrownPathElem) (q : CrownPath) (n : nat) (ignore : bool)
  : list Handler :=
  let '(lookup, bad, bad_x, not_found) := read_errors el n in
  [([lookup], [on_lookup_error (debug_trail st) ignore el q not_found])]
  ++ bad_type_handlers (debug_trail st) (path_in q (checked_type_paths st))
                       bad bad_x q
  ++ unexpected_handlers (_debug_trail self) (debug_trail st) (_path st).

Definition mark_checked (q : CrownPath) (st : GenState) : GenState :=
  if path_in q (checked_type_paths st) then st
  else with_checked_type_paths (path_set_add q (checked_type_paths st)) st.

(** [len(state.parent_crown.map)], when the crown stack has a branch crown
    under its top. *)
Definition parent_len (st : GenState) : option nat :=
  match rev (_crown_stack st) with
  | _ :: InpDictCrown m _ :: _ => Some (List.length m)
  | _ :: InpListCrown m _ :: _ => Some (List.length m)
  | _ => None
  end.

Definition len_known (st : GenState) (el : CrownPathElem) (n : nat) : Prop :=
  match el with
  | Key _ => True
  | Idx _ => parent_len st = Some n
  end.

Lemma _gen_assigment_from_parent_data_eq (self : BuiltinInputExtractionGen)
    (assign_to : Var) (ignore : bool) (st : GenState) (pp q : CrownPath)
    (el : CrownPathElem) (n : nat) :
  _path st = pp ++ [el] ->
  _parent_path st = Some q ->
  len_known st el n ->
  _gen_assigment_from_parent_data self assign_to ignore st =
  (Ok ([S_assign (T_var assign_to)
          (E_getitem (V_path B_data (suffix_of st q))
                     (I_const (elem_value el)))],
       read_handlers self st el q n ignore),
   mark_checked q (alloc q st)).
Proof.
  intros Hp Hq Hn.
  unfold _gen_assigment_from_parent_data.
  unfold bind at 1. rewrite path_eq. cbv beta iota.
  rewrite Hp, last_path_elem_snoc.
  unfold bind at 1. unfold ret at 1. cbv beta iota.
  assert (Herrs :
    (match el with
     | Key k =>
         ret (Cls_KeyError, [Cls_TypeError; Cls_IndexError],
              X_TypeLoadError KDict, X_NoRequiredFieldsError [k])
     | Idx _ =>
         pc <- parent_crown ;;
         n0 <- crown_map_len pc ;;
         ret (Cls_IndexError, [Cls_TypeError; Cls_KeyError],
              X_TypeLoadError KList, X_NoRequiredItemsError n0)
     end) st = (Ok (read_errors el n), st)).
  { destruct el as [k|i]; [reflexivity |].
    simpl in Hn. unfold parent_len in Hn.
    unfold parent_crown, bind, get. cbv beta iota.
    destruct (rev (_crown_stack st)) as [|top [|parent rest]];
      try discriminate.
    destruct parent; try discriminate; inversion Hn; reflexivity. }
  unfold bind at 1. rewrite Herrs. cbv beta iota.
  unfold read_handlers.
  destruct (read_errors el n) as [[[lookup bad] bad_x] not_found].
  unfold bind at 1. rewrite (v_parent_data_eq st q Hq). cbv beta iota.
  assert (Hq' : _parent_path (alloc q st) = Some q)
    by (rewrite alloc_parent_path; exact Hq).
  assert (Hlookup :
    (if ignore then ret S_pass
     else emit_error_for_from_data_assigment not_found) (alloc q st) =
    (Ok (on_lookup_error (debug_trail st) ignore el q not_found), alloc q st)).
  { unfold on_lookup_error. destruct ignore; [reflexivity |].
    unfold emit_error_for_from_data_assigment, bind, get.
    rewrite alloc_debug_trail, alloc_path, Hp, last_path_elem_snoc.
    destruct (debug_trail st) eqn:E; unfold ret.
    - rewrite (parent_path_eq _ _ Hq'), with_trail_eq, alloc_debug_trail, E.
      reflexivity.
    - rewrite (parent_path_eq _ _ Hq'), with_trail_eq, alloc_debug_trail, E.
      reflexivity.
    - destruct el; [| reflexivity].
      rewrite (parent_path_eq _ _ Hq'), with_trail_eq, alloc_debug_trail, E.
      reflexivity. }
  unfold bind at 1. rewrite Hlookup. cbv beta iota.
  unfold bind at 1. rewrite (parent_path_eq _ _ Hq'). cbv beta iota.
  unfold bind at 1. unfold get at 1. cbv beta iota.
  rewrite alloc_checked.
  unfold mark_checked, bad_type_handlers. rewrite alloc_checked.
  destruct (path_in q (checked_type_paths st)) eqn:Hin; cbn [negb].
  - unfold bind at 1. unfold ret at 1. cbv beta iota.
    destruct (_debug_trail self); unfold bind, ret;
      rewrite ?with_trail_eq, ?alloc_debug_trail, ?alloc_path; reflexivity.
  - unfold bind at 1. unfold bind at 1. rewrite (parent_path_eq _ _ Hq').
    cbv beta iota.
    unfold bind at 1. rewrite with_trail_eq. cbv beta iota.
    unfold bind at 1. rewrite (parent_path_eq _ _ Hq'). cbv beta iota.
    unfold bind at 1. unfold modify at 1. cbv beta iota.
    unfold ret at 1. cbv beta iota.
    rewrite alloc_debug_trail, alloc_checked.
    destruct (_debug_trail self); unfold bind, ret;
      rewrite ?with_trail_eq; cbn [debug_trail _path with_checked_type_paths];
      rewrite ?alloc_debug_trail, ?alloc_path; reflexivity.
Qed.

(** A path that has its suffix keeps it. *)
Definition allocated (st : GenState) (p : CrownPath) : Prop :=
  p = [] \/ exists n, suffix_get (path_to_suffix st) p = Some n.

Lemma allocated_alloc (p : CrownPath) (st : GenState) :
  allocated (alloc p st) p.
Proof.
  destruct p as [|a p]; [left; reflexivity | right].
  unfold alloc. destruct (suffix_get (path_to_suffix st) (a :: p)) eqn:E.
  - exists n; exact E.
  - eexists. simpl. apply suffix_get_app_new. exact E.
Qed.

Lemma suffix_of_alloc_other (p q : CrownPath) (st : GenState) :
  allocated st p -> suffix_of (alloc q st) p = suffix_of st p.
Proof.
  intros [-> | (n & Hn)]; [reflexivity |].
  destruct p as [|a p]; [reflexivity |].
  unfold suffix_of. rewrite Hn.
  destruct q as [|b q]; simpl; [rewrite Hn; reflexivity |].
  destruct (suffix_get (path_to_suffix st) (b :: q)); simpl.
  - rewrite Hn; reflexivity.
  - rewrite (suffix_get_app_old _ _ _ _ _ Hn); reflexivity.
Qed.

Lemma allocated_alloc_other (p q : CrownPath) (st : GenState) :
  allocated st p -> allocated (alloc q st) p.
Proof.
  intros [-> | (n & Hn)]; [left; reflexivity | right].
  exists n. destruct q as [|b q]; simpl; [exact Hn |].
  destruct (suffix_get (path_to_suffix st) (b :: q)); simpl;
    [exact Hn | apply suffix_get_app_old; exact Hn].
Qed.

Lemma mark_checked_fields (q : CrownPath) (st : GenState) :
  _path (mark_checked q st) = _path st /\
  _parent_path (mark_checked q st) = _parent_path st /\
  _crown_stack (mark_checked q st) = _crown_stack st /\
  debug_trail (mark_checked q st) = debug_trail st /\
  path_to_suffix (mark_checked q st) = path_to_suffix st /\
  _last_path_idx (mark_checked q st) = _last_path_idx st.
Proof.
  unfold mark_checked. destruct (path_in q (checked_type_paths st));
    repeat split.
Qed.

Lemma mark_checked_path (q : CrownPath) (st : GenState) :
  _path (mark_checked q st) = _path st.
Proof. apply mark_checked_fields. Qed.

Lemma mark_checked_debug_trail (q : CrownPath) (st : GenState) :
  debug_trail (mark_checked q st) = debug_trail st.
Proof. apply mark_checked_fields. Qed.

Lemma suffix_of_mark_checked (q p : CrownPath) (st : GenState) :
  suffix_of (mark_checked q st) p = suffix_of st p.
Proof.
  unfold suffix_of.
  destruct (mark_checked_fields q st) as (_ & _ & _ & _ & -> & ->).
  reflexivity.
Qed.

Lemma alloc_mark_checked (p q : CrownPath) (st : GenState) :
  alloc p (mark_checked q st) = mark_checked q (alloc p st).
Proof.
  unfold mark_checked. rewrite alloc_checked.
  destruct (path_in q (checked_type_paths st)); [reflexivity |].
  destruct p as [|a p]; [reflexivity |].
  unfold alloc. cbn [path_to_suffix with_checked_type_paths _last_path_idx].
  destruct (suffix_get (path_to_suffix st) (a :: p)); reflexivity.
Qed.

#[local] Hint Rewrite mark_checked_path mark_checked_debug_trail
  suffix_of_mark_checked : alloc.

Lemma read_handlers_alloc (self : BuiltinInputExtractionGen) (p : CrownPath)
    (st : GenState) (el : CrownPathElem) (q : CrownPath) (n : nat)
    (ignore : bool) :
  read_handlers self (alloc p st) el q n ignore =
  read_handlers self st el q n ignore.
Proof.
  unfold read_handlers.
  rewrite alloc_debug_trail, alloc_checked, alloc_path. reflexivity.
Qed.

Lemma len_known_alloc (p : CrownPath) (st : GenState) (el : CrownPathElem)
    (n : nat) :
  len_known st el n -> len_known (alloc p st) el n.
Proof.
  destruct el; simpl; [trivial |].
  unfold parent_len. rewrite alloc_crown_stack. trivial.
Qed.

(** The name of the parent container's variable in the read of the current
    position. *)
Definition parent_data_name (st : GenState) (q : CrownPath) : Var :=
  V_path B_data (suffix_of (alloc (_path st) st) q).

Lemma gen_read_own_data_root (self : BuiltinInputExtractionGen)
    (st : GenState) :
  _path st = [] -> gen_read_own_data self st = (Ok [], st).
Proof.
  intros H. unfold gen_read_own_data, bind. rewrite path_eq, H. reflexivity.
Qed.

Lemma gen_read_own_data_eq (self : BuiltinInputExtractionGen) (st : GenState)
    (pp q : CrownPath) (el : CrownPathElem) (n : nat) :
  _path st = pp ++ [el] ->
  _parent_path st = Some q ->
  len_known st el n ->
  gen_read_own_data self st =
  (Ok [S_try [S_assign (T_var (data_name st))
                (E_getitem (parent_data_name st q) (I_const (elem_value el)))]
             (read_handlers self st el q n false) []],
   mark_checked q (alloc q (alloc (_path st) st))).
Proof.
  intros Hp Hq Hn. unfold gen_read_own_data.
  unfold bind at 1. rewrite path_eq. cbv beta iota.
  destruct (_path st) as [|a p] eqn:E.
  { destruct pp; discriminate. }
  unfold bind at 1. rewrite v_data_eq, E. cbv beta iota.
  unfold bind at 1.
  rewrite (@_gen_assigment_from_parent_data_eq self _ false
             (alloc (a :: p) st) pp q el n).
  - cbv beta iota. unfold ret. cbn [fst snd].
    rewrite read_handlers_alloc. unfold data_name, parent_data_name.
    rewrite E. reflexivity.
  - rewrite alloc_path, E. exact Hp.
  - rewrite alloc_parent_path. exact Hq.
  - apply len_known_alloc. exact Hn.
Qed.

(** ** Running a positional read *)

Lemma exec_read_found (ns : Namespace) (x c : Var) (k cv v : value)
    (hs : list Handler) (orelse : Code) (store : Store) :
  read_var ns store c = inl cv ->
  py_getitem cv k = inl v ->
  exec_stmt ns (S_try [S_assign (T_var x) (E_getitem c (I_const k))] hs orelse)
            store
  = exec ns orelse (set_local x v store).
Proof.
  intros Hc Hk. cbn [exec_stmt run_block eval_expr eval_index].
  rewrite Hc, Hk. reflexivity.
Qed.

Lemma exec_read_failed (ns : Namespace) (x c : Var) (k cv : value)
    (kind : ExcKind) (hs : list Handler) (orelse : Code) (store : Store) :
  read_var ns store c = inl cv ->
  py_getitem cv k = inr kind ->
  exec_stmt ns (S_try [S_assign (T_var x) (E_getitem c (I_const k))] hs orelse)
            store
  = run_handlers (exec_stmt ns) (fresh kind) store hs.
Proof.
  intros Hc Hk. cbn [exec_stmt run_block eval_expr eval_index].
  rewrite Hc, Hk. reflexivity.
Qed.

Lemma decorate_fresh_root (mode : DebugTrail) (k : ExcKind) :
  decorate mode [] (fresh k) = fresh k.
Proof. destruct mode; reflexivity. Qed.

(** ** C3: a string where a list is expected *)

Lemma strict_check_raises (ns : Namespace) (mode : DebugTrail) (data : Var)
    (p : CrownPath) (s : string) (store : Store) (rest : Code) :
  read_var ns store data = inl (VStr s) ->
  exec ns
    (S_if (C_type_is_str data)
       [S_raise (with_trail_at mode (X_TypeLoadError KList) p)] [] :: rest)
    store
  = (Throw (decorate mode p (fresh (TypeLoadError KList))), store).
Proof.
  intros H. rewrite exec_cons. cbn [exec_stmt eval_cond]. rewrite H.
  cbn [type_is_str run_block exec_stmt].
  rewrite (@eval_err_with_trail_at ns mode _ p store
             (fresh (TypeLoadError KList))) by reflexivity.
  reflexivity.
Qed.

(** The state in which a branch crown continues after the read of its own
    value names the crown's value as before. *)
Lemma after_read_own_data (st : GenState) (q : CrownPath) :
  let s1 := mark_checked q (alloc q (alloc (_path st) st)) in
  data_name s1 = data_name st /\
  _path s1 = _path st /\
  debug_trail s1 = debug_trail st.
Proof.
  cbv zeta. unfold data_name. autorewrite with alloc.
  rewrite suffix_of_alloc_other by apply allocated_alloc.
  autorewrite with alloc. repeat split.
Qed.

(** C3: with [strict_coercion] on, the code emitted for a list crown raises
    [TypeLoadError(list)], carrying the crown's path when a debug trail is
    kept, as soon as the value at the crown's position is a string: at the
    root when the input is a string, below the root when the read out of the
    parent container yields a string.  Nothing emitted after the check runs,
    so no character of the string is read as an item. *)
Theorem C3_strict_list_rejects_string (self : BuiltinInputExtractionGen)
    (dispatch : InpCrown -> CrownPathElem -> Gen Code)
    (map : list InpCrown) (policy : ExtraPolicy) (st st' : GenState)
    (code : Code) (ns : Namespace) (store : Store) (s : string) :
  _strict_coercion self = true ->
  _gen_list_crown self dispatch map policy st = (Ok code, st') ->
  let raised :=
    Throw (decorate (debug_trail st) (_path st) (fresh (TypeLoadError KList))) in
  (_path st = [] ->
   read_var ns store (V_path B_data None) = inl (VStr s) ->
   exec ns code store = (raised, store)) /\
  (forall pp el q n parent,
     _path st = pp ++ [el] ->
     _parent_path st = Some q ->
     len_known st el n ->
     read_var ns store (parent_data_name st q) = inl parent ->
     py_getitem parent (elem_value el) = inl (VStr s) ->
     exec ns code store = (raised, set_local (data_name st) (VStr s) store)).
Proof.
  intros Hstrict Hgen raised. unfold _gen_list_crown in Hgen.
  rewrite Hstrict in Hgen.
  apply bind_ok in Hgen as (read & s1 & Hread & Hgen).
  apply bind_ok in Hgen as (strict & s2 & Hs & Hgen).
  apply bind_ok in Hgen as (init_extra & s3 & _ & Hgen).
  apply bind_ok in Hgen as (children & s4 & _ & Hgen).
  apply bind_ok in Hgen as (type_check & s5 & _ & Hgen).
  apply bind_ok in Hgen as (len_check & s6 & _ & Hgen).
  apply bind_ok in Hgen as (to_parent & s7 & _ & Hgen).
  apply ret_ok in Hgen as [<- _].
  unfold bind in Hs. rewrite v_data_eq, with_trail_eq in Hs.
  unfold ret in Hs. autorewrite with alloc in Hs.
  inversion Hs; subst strict s2; clear Hs.
  fold (data_name s1).
  split.
  - intros Hroot Hdata.
    rewrite (gen_read_own_data_root self st Hroot) in Hread.
    inversion Hread; subst read s1; clear Hread.
    cbn [app]. subst raised. unfold data_name. rewrite Hroot. cbn [suffix_of].
    eapply strict_check_raises. exact Hdata.
  - intros pp el q n parent Hp Hq Hn Hparent Hitem.
    rewrite (gen_read_own_data_eq self st pp q el n Hp Hq Hn) in Hread.
    inversion Hread; subst read s1; clear Hread.
    destruct (after_read_own_data st q) as (-> & -> & ->).
    cbn [app]. rewrite exec_cons.
    rewrite (exec_read_found ns _ _ _ _ _ _ [] _ Hparent Hitem).
    cbn [exec run_block].
    eapply strict_check_raises. apply read_var_set_local_same.
Qed.

Definition strict_list_gen : BuiltinInputExtractionGen :=
  list_gen FIRST ExtraForbid true.

Definition strict_root_state : GenState := _create_state strict_list_gen [].

(** The tracker as [add_key] leaves it on entering the child at key ["l"]. *)
Definition strict_nested_state : GenState :=
  with_position [Key "l"] (Some [])
    [InpDictCrown [("l", InpListCrown three_items ExtraForbid)] ExtraForbid;
     InpListCrown three_items ExtraForbid]
    strict_root_state.

Definition strict_root_result : Res Code * GenState :=
  Eval vm_compute in
    _gen_list_crown strict_list_gen (_gen_crown_dispatch strict_list_gen)
                    three_items ExtraForbid strict_root_state.

Definition strict_nested_result : Res Code * GenState :=
  Eval vm_compute in
    _gen_list_crown strict_list_gen (_gen_crown_dispatch strict_list_gen)
                    three_items ExtraForbid strict_nested_state.

Definition code_of (r : Res Code * GenState) : Code :=
  match fst r with
  | Ok c => c
  | Raise _ => []
  end.

Definition string_input_store : Store :=
  set_local (V_path B_data None) (VStr "abc") empty_store.

Definition string_item_store : Store :=
  set_local (V_path B_data None) (VDict [(VStr "l", VStr "abc")]) empty_store.

Lemma C3_strict_list_rejects_string_witness :
  exec [] (code_of strict_root_result) string_input_store =
    (Throw (mkExn (TypeLoadError KList) []), string_input_store) /\
  exec [] (code_of strict_nested_result) string_item_store =
    (Throw (mkExn (TypeLoadError KList) [Key "l"]),
     set_local (V_path B_data (Some 1)) (VStr "abc") string_item_store).
Proof.
  split.
  - exact (proj1 (C3_strict_list_rejects_string strict_list_gen
                    (_gen_crown_dispatch strict_list_gen) three_items
                    ExtraForbid strict_root_state (snd strict_root_result)
                    (code_of strict_root_result) [] string_input_store "abc"
                    eq_refl eq_refl)
                 eq_refl eq_refl).
  - exact (proj2 (C3_strict_list_rejects_string strict_list_gen
                    (_gen_crown_dispatch strict_list_gen) three_items
                    ExtraForbid strict_nested_state (snd strict_nested_result)
                    (code_of strict_nested_result) [] string_item_store "abc"
                    eq_refl eq_refl)
                 [] (Key "l") [] 0 (VDict [(VStr "l", VStr "abc")])
                 eq_refl eq_refl I eq_refl eq_refl).
Defined.

(** ** C7: a field whose key is absent *)

Lemma get_field_eq (id : string) (st : GenState) (f : InputField) :
  name_to_field_get (_name_to_field st) id = Some f ->
  get_field id st =
  (Ok f, with_field_id_to_path
           (assoc_set (field_id_to_path st) id (_path st)) st).
Proof.
  intros H. unfold get_field, bind, get, modify. cbv beta iota.
  cbn [_name_to_field with_field_id_to_path]. rewrite H. reflexivity.
Qed.

Lemma store_eta (st : Store) :
  mkStore (locals st) (errors st) (has_unexpected_error st) (caught st)
          (calls st) = st.
Proof. destruct st; reflexivity. Qed.

Lemma report_restoring_caught (mode : DebugTrail) (e c : Exn) (store : Store) :
  (let (r, s) := report mode e (set_caught (Some c) store) in
   (r, set_caught (caught store) s)) = report mode e store.
Proof.
  destruct store as [l es u ca cs]. destruct mode; simpl; try reflexivity.
  destruct es; reflexivity.
Qed.

Lemma exec_on_lookup_error (ns : Namespace) (mode : DebugTrail) (k : string)
    (q : CrownPath) (store : Store) (ignore : bool) :
  exec ns [on_lookup_error mode ignore (Key k) q (X_NoRequiredFieldsError [k])]
       store =
  if ignore then (Done, store)
  else report mode (decorate mode q (fresh (NoRequiredFieldsError [k]))) store.
Proof.
  rewrite exec_one. unfold on_lookup_error. destruct ignore; [reflexivity |].
  pose proof (exec_report_stmt ns mode (X_NoRequiredFieldsError [k]) q store
                (fresh (NoRequiredFieldsError [k])) eq_refl) as H.
  destruct mode; exact H.
Qed.

(** C7: the code emitted for a field crown at key [k] of a dict crown, run
    where the parent container is a mapping without the key [k].  For an
    optional field the code does nothing: no loader is called and nothing is
    stored for the field.  For a required field it reports
    [NoRequiredFieldsError([k])], raised in the modes [NONE] and [FIRST] and
    appended to [errors] in mode [ALL]. *)
Theorem C7_field_with_absent_key (self : BuiltinInputExtractionGen)
    (id k : string) (st st' : GenState) (code : Code) (pp q : CrownPath)
    (f : InputField) (ns : Namespace) (store : Store)
    (m : list (value * value)) :
  _path st = pp ++ [Key k] ->
  _parent_path st = Some q ->
  name_to_field_get (_name_to_field st) id = Some f ->
  _gen_field_crown self id st = (Ok code, st') ->
  read_var ns store (V_path B_data (suffix_of st q)) = inl (VDict m) ->
  dict_get m (VStr k) = None ->
  exec ns code store =
    if is_required f
    then report (debug_trail st)
                (decorate (debug_trail st) q (fresh (NoRequiredFieldsError [k])))
                store
    else (Done, store).
Proof.
  intros Hp Hq Hf Hgen Hparent Hkey.
  unfold _gen_field_crown in Hgen.
  apply bind_ok in Hgen as (f' & s0 & Hfield & Hgen).
  rewrite (get_field_eq id st f Hf) in Hfield.
  inversion Hfield; subst f' s0; clear Hfield.
  apply bind_ok in Hgen as (read & s1 & Hread & Hgen).
  rewrite (_gen_assigment_from_parent_data_eq self _ _ _ pp q (Key k) 0)
    in Hread by (try exact Hp; try exact Hq; exact I).
  inversion Hread; subst read s1; clear Hread.
  apply bind_ok in Hgen as (orelse & s2 & _ & Hgen).
  apply ret_ok in Hgen as [<- _].
  cbn [fst snd]. rewrite exec_one.
  assert (Hitem : py_getitem (VDict m) (elem_value (Key k)) = inr KeyError).
  { cbn [py_getitem elem_value hashable]. rewrite Hkey. reflexivity. }
  rewrite (exec_read_failed ns _ _ _ _ _ _ _ _ Hparent Hitem).
  unfold read_handlers. cbn [read_errors app run_handlers existsb exc_matches
                              exn_kind fresh orb].
  cbn [debug_trail with_field_id_to_path].
  fold (exec ns).
  pose proof (exec_on_lookup_error ns (debug_trail st) k q
                (set_caught (Some (fresh KeyError)) store)
                (negb (is_required f))) as Hrun.
  unfold exec in Hrun. rewrite Hrun. clear Hrun.
  destruct (is_required f); cbn [negb].
  - apply report_restoring_caught.
  - destruct store; reflexivity.
Qed.

Definition optional_gen (mode : DebugTrail) : BuiltinInputExtractionGen :=
  mkGen [mkField "f1" true; mkField "f2" false]
        (mkLayout
           (InpDictCrown [("x", InpFieldCrown "f1"); ("y", InpFieldCrown "f2")]
                         ExtraIgnore)
           NoExtraMove)
        mode false
        [("f1", identity_loader); ("f2", identity_loader)].

(** The tracker on entering the child at [key] of the root. *)
Definition entering (self : BuiltinInputExtractionGen) (key : string)
    (child : InpCrown) : GenState :=
  with_position [Key key] (Some [])
    [crown (_name_layout self); child] (_create_state self []).

Definition required_field_result : Res Code * GenState :=
  Eval vm_compute in
    _gen_field_crown (optional_gen FIRST) "f1"
      (entering (optional_gen FIRST) "x" (InpFieldCrown "f1")).

Definition optional_field_result : Res Code * GenState :=
  Eval vm_compute in
    _gen_field_crown (optional_gen FIRST) "f2"
      (entering (optional_gen FIRST) "y" (InpFieldCrown "f2")).

Definition empty_mapping_store : Store :=
  set_local (V_path B_data None) (VDict []) empty_store.

Lemma C7_field_with_absent_key_witness :
  exec [] (code_of required_field_result) empty_mapping_store =
    (Throw (mkExn (NoRequiredFieldsError ["x"]) []), empty_mapping_store) /\
  exec [] (code_of optional_field_result) empty_mapping_store =
    (Done, empty_mapping_store).
Proof.
  split.
  - exact (C7_field_with_absent_key (optional_gen FIRST) "f1" "x"
             (entering (optional_gen FIRST) "x" (InpFieldCrown "f1"))
             (snd required_field_result) (code_of required_field_result)
             [] [] (mkField "f1" true) [] empty_mapping_store []
             eq_refl eq_refl eq_refl eq_refl eq_refl eq_refl).
  - exact (C7_field_with_absent_key (optional_gen FIRST) "f2" "y"
             (entering (optional_gen FIRST) "y" (InpFieldCrown "f2"))
             (snd optional_field_result) (code_of optional_field_result)
             [] [] (mkField "f2" false) [] empty_mapping_store []
             eq_refl eq_refl eq_refl eq_refl eq_refl eq_refl).
Defined.

Definition compiled (self : BuiltinInputExtractionGen) : Procedure :=
  match compile self with
  | Ok p => p
  | Raise _ => mkProcedure [] []
  end.

Example optional_key_absent :
  let (c, st) := run (compiled (optional_gen NONE)) (VDict [(VStr "x", VInt 1)]) in
  c = Done /\
  locals_get (locals st) V_opt_fields = Some (VDict []) /\
  locals_get (locals st) (V_field "f1") = Some (VInt 1) /\
  calls st = [("f1", VInt 1)].
Proof. vm_compute. repeat split. Qed.

Example required_key_absent :
  let (c, st) := run (compiled (optional_gen NONE)) (VDict [(VStr "y", VInt 2)]) in
  c = Throw (mkExn (NoRequiredFieldsError ["x"]) []) /\ calls st = [].
Proof. vm_compute. repeat split. Qed.

Example required_key_absent_all :
  fst (run (compiled (optional_gen ALL)) (VDict [(VStr "y", VInt 2)])) =
  Throw (mkExn (LoadExceptionGroup [mkExn (NoRequiredFieldsError ["x"]) []]) []).
Proof. vm_compute. reflexivity. Qed.

(** ** C6: keys that a [Forbid] dict crown does not declare *)

Definition known_keys_name (st : GenState) : Var :=
  V_path B_known_keys (suffix_of st (_path st)).

Definition extra_name (st : GenState) : Var :=
  V_path B_extra (suffix_of st (_path st)).

Definition extra_set_name (st : GenState) : Var :=
  V_extra_set (suffix_of st (_path st)).

Definition declared_keys (map : list (string * InpCrown)) : list value :=
  List.map (fun kv => VStr (fst kv)) map.

(** [set(data) - known_keys] for a mapping [m]. *)
Definition undeclared_keys (m : list (value * value))
    (map : list (string * InpCrown)) : list value :=
  set_diff (set_add_all (List.map fst m) []) (declared_keys map).

Lemma suffix_of_with_ctx (ns : Namespace) (st : GenState) (p : CrownPath) :
  suffix_of (with_ctx_namespace ns st) p = suffix_of st p.
Proof. reflexivity. Qed.

Lemma alloc_with_ctx (ns : Namespace) (st : GenState) (p : CrownPath) :
  alloc p (with_ctx_namespace ns st) = with_ctx_namespace ns (alloc p st).
Proof.
  destruct p as [|a p]; [reflexivity |].
  unfold alloc. cbn [path_to_suffix with_ctx_namespace _last_path_idx].
  destruct (suffix_get (path_to_suffix st) (a :: p)); reflexivity.
Qed.

Lemma gen_dict_extra_forbid (map : list (string * InpCrown)) (st : GenState) :
  exists st',
    gen_dict_extra map ExtraForbid st =
    (Ok [S_assign (T_var (extra_set_name st))
           (E_set_diff (data_name st) (known_keys_name st));
         S_if (C_truthy (extra_set_name st))
           [report_stmt (debug_trail st)
              (X_ExtraFieldsError (extra_set_name st)) (_path st)] []],
     st').
Proof.
  eexists. unfold gen_dict_extra.
  unfold bind at 1. unfold bind at 1. rewrite v_known_keys_eq. cbv beta iota.
  unfold ns_add, modify. cbv beta iota.
  unfold bind at 1. rewrite v_data_eq. cbv beta iota.
  unfold bind at 1. rewrite v_extra_eq. cbv beta iota.
  unfold bind at 1. rewrite v_known_keys_eq. cbv beta iota.
  unfold bind at 1. rewrite emit_error_eq. cbv beta iota.
  unfold ret.
  repeat (rewrite ?alloc_with_ctx, ?suffix_of_with_ctx;
          cbn [_path debug_trail with_ctx_namespace];
          autorewrite with alloc).
  unfold extra_set_var, extra_set_name, data_name, known_keys_name.
  reflexivity.
Qed.


(** The check emitted for a [Forbid] dict crown, run where the crown's value
    is a mapping [m].  When [m] has keys the crown does not
    declare, the check reports [ExtraFieldsError] listing exactly those keys,
    so exactly the one extra key when there is one; otherwise it passes.  The
    error carries the path of the crown in the modes [FIRST] and [ALL] and no
    path in mode [NONE]; it is raised in the modes [NONE] and [FIRST] and
    appended to [errors] in mode [ALL]. *)
Lemma exec_forbid_check (map : list (string * InpCrown))
    (st st' : GenState) (code : Code) (ns : Namespace) (store : Store)
    (m : list (value * value)) :
  gen_dict_extra map ExtraForbid st = (Ok code, st') ->
  read_var ns store (data_name st) = inl (VDict m) ->
  read_var ns store (known_keys_name st) = inl (VSet (declared_keys map)) ->
  let store' :=
    set_local (extra_set_name st) (VSet (undeclared_keys m map)) store in
  exec ns code store =
    match undeclared_keys m map with
    | [] => (Done, store')
    | _ :: _ =>
        report (debug_trail st)
          (decorate (debug_trail st) (_path st)
             (fresh (ExtraFieldsError (undeclared_keys m map))))
          store'
    end.
Proof.
  intros Hgen Hdata Hknown store'.
  destruct (gen_dict_extra_forbid map st) as (s1 & Heq).
  rewrite Heq in Hgen. inversion Hgen; subst code st'; clear Hgen Heq.
  rewrite exec_cons. cbn [exec_stmt eval_expr].
  rewrite Hdata. cbn [py_set]. rewrite Hknown. cbn [assign].
  fold (undeclared_keys m map). fold store'.
  rewrite exec_one. cbn [exec_stmt eval_cond].
  unfold store' at 1. rewrite read_var_set_local_same. cbn [truthy].
  destruct (undeclared_keys m map) as [|x xs] eqn:E.
  - reflexivity.
  - cbn [List.length Nat.eqb negb].
    change (run_block (exec_stmt ns) ?c ?s) with (exec ns c s).
    rewrite exec_one.
    apply exec_report_stmt. cbn [eval_err].
    unfold store'. rewrite read_var_set_local_same. reflexivity.
Qed.

Definition forbid_check_result : Res Code * GenState :=
  Eval vm_compute in
    gen_dict_extra [("z", InpFieldCrown "f2")] ExtraForbid
      (entering (example_gen FIRST) "y" nested_child).

Definition forbid_check_store : Store :=
  set_local (V_path B_data (Some 1))
            (VDict [(VStr "z", VInt 2); (VStr "w", VInt 3)]) empty_store.

Definition forbid_check_namespace : Namespace :=
  [(V_path B_known_keys (Some 1), NsValue (VSet [VStr "z"]))].

Example forbid_check_on_extra_key :
  exec forbid_check_namespace (code_of forbid_check_result) forbid_check_store =
    (Throw (mkExn (ExtraFieldsError [VStr "w"]) [Key "y"]),
     set_local (V_extra_set (Some 1)) (VSet [VStr "w"]) forbid_check_store).
Proof.
  exact (exec_forbid_check [("z", InpFieldCrown "f2")]
           (entering (example_gen FIRST) "y" nested_child)
           (snd forbid_check_result) (code_of forbid_check_result)
           forbid_check_namespace forbid_check_store
           [(VStr "z", VInt 2); (VStr "w", VInt 3)]
           eq_refl eq_refl eq_refl).
Defined.

Example extra_key_first_mode :
  fst (run (compiled (example_gen FIRST)) example_input_extra) =
    Throw (mkExn (ExtraFieldsError [VStr "w"]) [Key "y"]).
Proof. vm_compute. reflexivity. Qed.

Example extra_key_all_mode :
  fst (run (compiled (example_gen ALL)) example_input_extra) =
    Throw (mkExn (LoadExceptionGroup
                    [mkExn (ExtraFieldsError [VStr "w"]) [Key "y"]]) []).
Proof. vm_compute. reflexivity. Qed.

Example no_extra_key :
  let (c, st) := run (compiled (example_gen NONE)) example_input in
  c = Done /\
  locals_get (locals st) (V_field "f1") = Some (VInt 1) /\
  locals_get (locals st) (V_field "f2") = Some (VInt 2).
Proof. vm_compute. repeat split. Qed.

(** ** C8: extra targets when nothing is collected *)

(** The statements of [_gen_field_assigment], in closed form. *)
Definition processing_expr (loader : Loader) (field_id : string)
    (loader_arg : Expr) : Expr :=
  match loader with
  | as_is_stub => loader_arg
  | LoaderFn _ => E_call (v_field_loader field_id) loader_arg
  end.

Definition field_assigment_code (gen_mode state_mode : DebugTrail)
    (p : CrownPath) (assign_to : Target) (e : Expr) : Code :=
  match gen_mode with
  | ALL | FIRST =>
      [S_try [S_assign assign_to e]
             [([Cls_Exception], [report_stmt state_mode X_e p])] []]
  | NONE => [S_assign assign_to e]
  end.

Lemma _gen_field_assigment_eq (self : BuiltinInputExtractionGen)
    (assign_to : Target) (field_id : string) (loader_arg : Expr)
    (loader : Loader) (st : GenState) :
  loaders_get (_field_loaders self) field_id = Some loader ->
  _gen_field_assigment self assign_to field_id loader_arg st =
  (Ok (field_assigment_code (_debug_trail self) (debug_trail st) (_path st)
         assign_to (processing_expr loader field_id loader_arg)), st).
Proof.
  intros H. unfold _gen_field_assigment, field_assigment_code. rewrite H.
  fold (processing_expr loader field_id loader_arg).
  destruct (_debug_trail self); unfold bind; rewrite ?emit_error_eq;
    reflexivity.
Qed.

(** The store after a loader call that succeeded: the call is logged unless
    the loader is the stub, which the emitted code does not call. *)
Definition after_call (loader : Loader) (field_id : string) (arg : value)
    (store : Store) : Store :=
  match loader with
  | as_is_stub => store
  | LoaderFn _ => log_call field_id arg store
  end.

Definition loaders_bound (self : BuiltinInputExtractionGen) (ns : Namespace)
  : Prop :=
  forall id loader,
    loaders_get (_field_loaders self) id = Some loader ->
    ns_get ns (V_field_loader id) = Some (NsLoader loader).

Lemma eval_processing_expr (self : BuiltinInputExtractionGen)
    (ns : Namespace) (loader : Loader) (id : string) (arg v : value)
    (store : Store) :
  loaders_bound self ns ->
  loaders_get (_field_loaders self) id = Some loader ->
  apply_loader loader arg = Loaded v ->
  eval_expr ns (processing_expr loader id (E_const arg)) store =
  (inl v, after_call loader id arg store).
Proof.
  intros Hns Hl Hv. destruct loader as [|g];
    unfold processing_expr, v_field_loader, after_call; cbn [eval_expr].
  - simpl in Hv. inversion Hv; reflexivity.
  - rewrite (Hns id (LoaderFn g) Hl). rewrite Hv. reflexivity.
Qed.

Lemma exec_field_assigment_loaded (ns : Namespace)
    (gen_mode state_mode : DebugTrail) (p : CrownPath) (x : Var) (e : Expr)
    (v : value) (store store1 : Store) :
  eval_expr ns e store = (inl v, store1) ->
  exec ns (field_assigment_code gen_mode state_mode p (T_var x) e) store =
  (Done, set_local x v store1).
Proof.
  intros H. destruct gen_mode; unfold field_assigment_code;
    rewrite exec_one; cbn [exec_stmt run_block]; rewrite H; reflexivity.
Qed.

(** The target fields that a run of the emitted code serves: the required
    ones. *)
Definition served (self : BuiltinInputExtractionGen) (fields : list InputField)
    (target : string) : bool :=
  match name_to_field_get fields target with
  | Some f => is_required f
  | None => false
  end.

Definition calls_loader (self : BuiltinInputExtractionGen) (target : string)
  : bool :=
  match loaders_get (_field_loaders self) target with
  | Some (LoaderFn _) => true
  | _ => false
  end.

Definition loads_empty (self : BuiltinInputExtractionGen) (target : string)
    (v : value) : Prop :=
  exists loader,
    loaders_get (_field_loaders self) target = Some loader /\
    apply_loader loader (VDict []) = Loaded v.

Lemma name_to_field_get_id (fields : list InputField) (id : string)
    (f : InputField) :
  name_to_field_get fields id = Some f -> field_id f = id.
Proof.
  unfold name_to_field_get. intros H. apply find_some in H as [_ H].
  apply String.eqb_eq in H. exact H.
Qed.

Section Saturate.

Variable self : BuiltinInputExtractionGen.
Variable fields : list InputField.

(** The store that the emitted code leaves when every call succeeds. *)
Fixpoint saturated (targets : list string) (store : Store) : Store :=
  match targets with
  | [] => store
  | t :: rest =>
      match name_to_field_get fields t with
      | Some f =>
          if is_required f then
            match loaders_get (_field_loaders self) t with
            | Some l =>
                match apply_loader l (VDict []) with
                | Loaded v =>
                    saturated rest
                      (set_local (V_field (field_id f)) v
                                 (after_call l t (VDict []) store))
                | Failed _ => store
                end
            | None => store
            end
          else saturated rest store
      | None => saturated rest store
      end
  end.

Definition all_load (targets : list string) : Prop :=
  forall t, In t targets -> served self fields t = true ->
            exists v, loads_empty self t v.

Lemma all_load_tail (t : string) (rest : list string) :
  all_load (t :: rest) -> all_load rest.
Proof. intros H u Hu; apply H; right; exact Hu. Qed.

Lemma exec_targets_not_collected (ns : Namespace) (targets : list string) :
  forall (st st' : GenState) (code : Code) (store : Store),
    _name_to_field st = fields ->
    gen_targets_not_collected self targets st = (Ok code, st') ->
    loaders_bound self ns ->
    all_load targets ->
    exec ns code store = (Done, saturated targets store).
Proof.
  induction targets as [|t rest IH]; intros st st' code store Hf Hgen Hns Hall.
  - inversion Hgen; reflexivity.
  - cbn [gen_targets_not_collected] in Hgen.
    unfold bind at 1 in Hgen. unfold get at 1 in Hgen. cbv beta iota in Hgen.
    rewrite Hf in Hgen. cbn [saturated].
    destruct (name_to_field_get fields t) as [f|] eqn:Ef; [| discriminate].
    apply bind_ok in Hgen as (c & s1 & Hc & Hgen).
    apply bind_ok in Hgen as (cs & s2 & Hcs & Hgen).
    apply ret_ok in Hgen as [<- _].
    destruct (is_required f) eqn:Er.
    + unfold _gen_field_assigment in Hc.
      destruct (loaders_get (_field_loaders self) t) as [l|] eqn:El;
        [| discriminate].
      pose proof (_gen_field_assigment_eq self (T_var (V_field (field_id f)))
                    t (E_const (VDict [])) l st El) as Heq.
      unfold _gen_field_assigment in Heq. rewrite El in Heq.
      rewrite Heq in Hc. inversion Hc; subst c s1; clear Hc Heq.
      destruct (Hall t (or_introl eq_refl)) as (v & l' & El' & Hv).
      { unfold served. rewrite Ef. exact Er. }
      rewrite El in El'. inversion El'; subst l'. rewrite Hv.
      rewrite (exec_app_done ns _ cs store
                 (set_local (V_field (field_id f)) v
                    (after_call l t (VDict []) store))).
      * apply (IH st s2 cs _ Hf Hcs Hns (all_load_tail t rest Hall)).
      * apply exec_field_assigment_loaded.
        apply (eval_processing_expr self ns l t (VDict []) v store Hns El Hv).
    + apply ret_ok in Hc as [<- <-]. cbn [app].
      apply (IH st s2 cs _ Hf Hcs Hns (all_load_tail t rest Hall)).
Qed.

Definition loaded_value (id : string) : option value :=
  match loaders_get (_field_loaders self) id with
  | Some l =>
      match apply_loader l (VDict []) with
      | Loaded v => Some v
      | Failed _ => None
      end
  | None => None
  end.

Definition invoked (t : string) : bool :=
  served self fields t && calls_loader self t.

Lemma calls_after_call (l : Loader) (t : string) (arg : value) (store : Store) :
  calls (after_call l t arg store) =
  calls store ++ match l with
                 | as_is_stub => []
                 | LoaderFn _ => [(t, arg)]
                 end.
Proof. destruct l; simpl; [rewrite app_nil_r |]; reflexivity. Qed.

Lemma saturated_calls (targets : list string) :
  forall store,
    all_load targets ->
    calls (saturated targets store) =
    calls store ++
    List.map (fun t => (t, VDict [])) (filter invoked targets).
Proof.
  induction targets as [|t rest IH]; intros store Hall; cbn [saturated filter].
  - cbn [List.map]. rewrite app_nil_r. reflexivity.
  - pose proof (Hall t (or_introl eq_refl)) as Ht.
    unfold invoked at 1. unfold served, calls_loader in *.
    destruct (name_to_field_get fields t) as [f|];
      [| apply IH, (all_load_tail t rest Hall)].
    destruct (is_required f);
      [| apply IH, (all_load_tail t rest Hall)].
    destruct (Ht eq_refl) as (v & l & El & Hv). rewrite El, Hv.
    rewrite (IH _ (all_load_tail t rest Hall)).
    cbn [calls set_local]. rewrite calls_after_call.
    destruct l; cbn [andb List.map]; rewrite <- app_assoc; reflexivity.
Qed.

Lemma locals_after_call (l : Loader) (t : string) (arg : value) (store : Store) :
  locals (after_call l t arg store) = locals store.
Proof. destruct l; reflexivity. Qed.

Lemma saturated_locals (targets : list string) :
  forall store id,
    all_load targets ->
    locals_get (locals (saturated targets store)) (V_field id) =
    if existsb (fun t => String.eqb t id && served self fields t) targets
    then loaded_value id
    else locals_get (locals store) (V_field id).
Proof.
  induction targets as [|t rest IH]; intros store id Hall;
    cbn [saturated existsb]; [reflexivity |].
  pose proof (Hall t (or_introl eq_refl)) as Ht.
  pose proof (IH store id (all_load_tail t rest Hall)) as IHs.
  unfold served at 1. unfold served in Ht.
  destruct (name_to_field_get fields t) as [f|] eqn:Ef;
    [| rewrite andb_false_r; exact IHs].
  destruct (is_required f);
    [| rewrite andb_false_r; exact IHs].
  destruct (Ht eq_refl) as (v & l & El & Hv). rewrite El, Hv.
  rewrite (IH _ id (all_load_tail t rest Hall)).
  rewrite andb_true_r.
  cbn [locals set_local locals_get Var_eqb].
  rewrite (name_to_field_get_id fields t f Ef), locals_after_call.
  destruct (String.eqb t id) eqn:E; cbn [orb]; [| reflexivity].
  apply String.eqb_eq in E; subst id.
  unfold loaded_value. rewrite El, Hv.
  destruct (existsb _ rest); reflexivity.
Qed.

End Saturate.

Definition root_policy (c : InpCrown) : option ExtraPolicy :=
  match c with
  | InpDictCrown _ p | InpListCrown _ p => Some p
  | _ => None
  end.

(** C8: with [extra_move = Targets(targets)] and a root policy other than
    [Collect], the code emitted by [_gen_extra_targets_assigment] reads no
    variable of the store.  Run in any store, with loaders that accept the
    empty mapping, it completes; it calls the loader of every required target,
    in order, with the empty mapping and nothing else; it binds every required
    target to what its loader returned; and it leaves every other field,
    the optional targets among them, as it was. *)
Theorem C8_uncollected_targets_load_empty_mapping
    (self : BuiltinInputExtractionGen) (targets : list string)
    (policy : ExtraPolicy) (st st' : GenState) (code : Code)
    (ns : Namespace) (store : Store) :
  extra_move (_name_layout self) = ExtraTargets targets ->
  root_policy (crown (_name_layout self)) = Some policy ->
  policy <> ExtraCollect ->
  _gen_extra_targets_assigment self st = (Ok code, st') ->
  loaders_bound self ns ->
  all_load self (_name_to_field st) targets ->
  exists store',
    exec ns code store = (Done, store') /\
    calls store' =
      calls store ++
      List.map (fun t => (t, VDict []))
               (filter (invoked self (_name_to_field st)) targets) /\
    (forall t v,
       In t targets ->
       served self (_name_to_field st) t = true ->
       loads_empty self t v ->
       locals_get (locals store') (V_field t) = Some v) /\
    (forall id,
       (forall t, In t targets -> served self (_name_to_field st) t = true ->
                  t <> id) ->
       locals_get (locals store') (V_field id) =
       locals_get (locals store) (V_field id)).
Proof.
  intros Hmove Hpolicy Hnot Hgen Hns Hall.
  unfold _gen_extra_targets_assigment in Hgen. rewrite Hmove in Hgen.
  apply bind_ok in Hgen as (policy' & s1 & Hp & Hgen).
  assert (policy' = policy /\ s1 = st) as [-> ->].
  { destruct (crown (_name_layout self)); simpl in Hpolicy, Hp;
      try discriminate; inversion Hpolicy; inversion Hp; subst; split;
      reflexivity. }
  assert (Hgen' : gen_targets_not_collected self targets st = (Ok code, st')).
  { destruct policy; [exact Hgen | contradiction | exact Hgen]. }
  exists (saturated self (_name_to_field st) targets store).
  split; [| split; [| split]].
  - apply (exec_targets_not_collected self (_name_to_field st) ns targets
             st st' code store eq_refl Hgen' Hns Hall).
  - apply saturated_calls. exact Hall.
  - intros t v Hin Hserved (l & El & Hv).
    rewrite (saturated_locals self (_name_to_field st) targets store t Hall).
    replace (existsb _ targets) with true.
    + unfold loaded_value. rewrite El, Hv. reflexivity.
    + symmetry. apply existsb_exists. exists t. split; [exact Hin |].
      rewrite String.eqb_refl, Hserved. reflexivity.
  - intros id Hother.
    rewrite (saturated_locals self (_name_to_field st) targets store id Hall).
    replace (existsb _ targets) with false; [reflexivity |].
    symmetry. apply not_true_is_false. intros H.
    apply existsb_exists in H as (t & Hin & Ht).
    apply andb_true_iff in Ht as [Heq Hs].
    apply String.eqb_eq in Heq. exact (Hother t Hin Hs Heq).
Qed.

(** A layout that routes extra data to the required field ["rest"] and the
    optional field ["more"], under a root that forbids extra keys. *)
Definition targets_gen (mode : DebugTrail) : BuiltinInputExtractionGen :=
  mkGen [mkField "f1" true; mkField "rest" true; mkField "more" false]
        (mkLayout (InpDictCrown [("x", InpFieldCrown "f1")] ExtraForbid)
                  (ExtraTargets ["rest"; "more"]))
        mode false
        [("f1", identity_loader); ("rest", identity_loader);
         ("more", identity_loader)].

Definition targets_result : Res Code * GenState :=
  Eval vm_compute in
    _gen_extra_targets_assigment (targets_gen FIRST)
      (_create_state (targets_gen FIRST) []).

Definition targets_namespace : Namespace :=
  Eval vm_compute in proc_namespace (compiled (targets_gen FIRST)).

Lemma targets_loaders_bound : loaders_bound (targets_gen FIRST) targets_namespace.
Proof.
  intros id loader H.
  cbn [targets_gen _field_loaders loaders_get] in H.
  destruct (String.eqb "f1" id) eqn:E1.
  { apply String.eqb_eq in E1; subst id. inversion H. reflexivity. }
  destruct (String.eqb "rest" id) eqn:E2.
  { apply String.eqb_eq in E2; subst id. inversion H. reflexivity. }
  destruct (String.eqb "more" id) eqn:E3; [| discriminate].
  apply String.eqb_eq in E3; subst id. inversion H. reflexivity.
Defined.

Lemma targets_all_load :
  all_load (targets_gen FIRST)
           (_name_to_field (_create_state (targets_gen FIRST) []))
           ["rest"; "more"].
Proof.
  intros t [<- | [<- | []]] H.
  - exists (VDict []), identity_loader. split; reflexivity.
  - discriminate H.
Defined.

Lemma C8_uncollected_targets_load_empty_mapping_witness :
  exists store',
    exec targets_namespace (code_of targets_result) empty_store
      = (Done, store') /\
    calls store' =
      calls empty_store ++
      List.map (fun t => (t, VDict []))
        (filter (invoked (targets_gen FIRST)
                   (_name_to_field (_create_state (targets_gen FIRST) [])))
                ["rest"; "more"]) /\
    (forall t v,
       In t ["rest"; "more"] ->
       served (targets_gen FIRST)
              (_name_to_field (_create_state (targets_gen FIRST) [])) t = true ->
       loads_empty (targets_gen FIRST) t v ->
       locals_get (locals store') (V_field t) = Some v) /\
    (forall id,
       (forall t, In t ["rest"; "more"] ->
                  served (targets_gen FIRST)
                    (_name_to_field (_create_state (targets_gen FIRST) [])) t
                  = true -> t <> id) ->
       locals_get (locals store') (V_field id) =
       locals_get (locals empty_store) (V_field id)).
Proof.
  exact (C8_uncollected_targets_load_empty_mapping (targets_gen FIRST)
           ["rest"; "more"] ExtraForbid
           (_create_state (targets_gen FIRST) []) (snd targets_result)
           (code_of targets_result) targets_namespace empty_store
           eq_refl eq_refl
           (fun H : ExtraForbid = ExtraCollect =>
              match H in _ = p return match p with
                                      | ExtraCollect => False
                                      | _ => True
                                      end with
              | eq_refl => I
              end)
           eq_refl targets_loaders_bound targets_all_load).
Defined.

Example uncollected_targets_run :
  let (c, st) := run (compiled (targets_gen NONE)) (VDict [(VStr "x", VInt 1)]) in
  c = Done /\
  calls st = [("f1", VInt 1); ("rest", VDict [])] /\
  locals_get (locals st) (V_field "rest") = Some (VDict []) /\
  locals_get (locals st) (V_field "more") = None.
Proof. vm_compute. repeat split. Qed.

(** ** C1: a container of the wrong type in mode [ALL] *)

Definition siblings_gen (mode : DebugTrail) : BuiltinInputExtractionGen :=
  mkGen [mkField "f1" true; mkField "f2" true]
        (mkLayout
           (InpDictCrown
              [("a", InpDictCrown [("x", InpFieldCrown "f1")] ExtraIgnore);
               ("b", InpFieldCrown "f2")]
              ExtraIgnore)
           NoExtraMove)
        mode false
        [("f1", identity_loader); ("f2", identity_loader)].

Definition wrong_container_input : value :=
  VDict [(VStr "a", VInt 1); (VStr "b", VInt 2)].

Definition is_group (c : Completion) : bool :=
  match c with
  | Throw (mkExn (LoadExceptionGroup _) _)
  | Throw (mkExn (CompatExceptionGroup _) _) => true
  | _ => false
  end.

(** C1 fails as stated: in mode [ALL], when the value under ["a"] is not a
    mapping, the procedure raises the bare [TypeLoadError] at once.  No
    grouped error is raised, and the sibling ["b"] is never processed: its
    loader is not called and its field is not bound. *)
Lemma C1_counterexample :
  let (c, st) := run (compiled (siblings_gen ALL)) wrong_container_input in
  c = Throw (mkExn (TypeLoadError KDict) [Key "a"]) /\
  is_group c = false /\
  calls st = [] /\
  locals_get (locals st) (V_field "f2") = None /\
  errors st = Some [].
Proof. vm_compute. repeat split. Qed.

(** The exceptions of a subscription that the emitted read takes for a parent
    of the wrong type. *)
Definition wrong_container (el : CrownPathElem) (k : ExcKind) : bool :=
  match el, k with
  | Key _, TypeError | Key _, IndexError => true
  | Idx _, TypeError | Idx _, KeyError => true
  | _, _ => false
  end.

Definition container_kind (el : CrownPathElem) : ContainerKind :=
  match el with
  | Key _ => KDict
  | Idx _ => KList
  end.

(** C1 (amended): in every mode, [ALL] included, the first read out of a
    container whose value is of the wrong type raises [TypeLoadError] for the
    container's declared shape, carrying the container's path when a debug
    trail is kept.  The error is raised, not collected: whatever the [else]
    branch of the read and the rest of the procedure are, they do not run, and
    the store is left as it was. *)
Theorem C1_wrong_container_aborts (self : BuiltinInputExtractionGen)
    (assign_to : Var) (ignore : bool) (st st' : GenState)
    (body : list Stmt) (handlers : list Handler) (pp q : CrownPath)
    (el : CrownPathElem) (n : nat) (ns : Namespace) (store : Store)
    (parent : value) (k : ExcKind) (orelse rest : Code) :
  _path st = pp ++ [el] ->
  _parent_path st = Some q ->
  len_known st el n ->
  path_in q (checked_type_paths st) = false ->
  _gen_assigment_from_parent_data self assign_to ignore st
    = (Ok (body, handlers), st') ->
  read_var ns store (V_path B_data (suffix_of st q)) = inl parent ->
  py_getitem parent (elem_value el) = inr k ->
  wrong_container el k = true ->
  exec ns (S_try body handlers orelse :: rest) store =
    (Throw (decorate (debug_trail st) q
              (fresh (TypeLoadError (container_kind el)))),
     store).
Proof.
  intros Hp Hq Hn Hunchecked Hgen Hparent Hitem Hwrong.
  rewrite (_gen_assigment_from_parent_data_eq self assign_to ignore st pp q el n
             Hp Hq Hn) in Hgen.
  inversion Hgen; subst body handlers st'; clear Hgen.
  rewrite exec_cons.
  rewrite (exec_read_failed ns _ _ _ _ _ _ _ _ Hparent Hitem).
  unfold read_handlers. rewrite Hunchecked.
  assert (Hraise : forall x,
    eval_err ns (with_trail_at (debug_trail st) (X_TypeLoadError (container_kind el)) q) x
    = inl (decorate (debug_trail st) q (fresh (TypeLoadError (container_kind el))))).
  { intros x. apply eval_err_with_trail_at. reflexivity. }
  destruct el as [key|i]; destruct k; try discriminate Hwrong;
    cbn [read_errors bad_type_handlers app run_handlers existsb exc_matches
         exn_kind fresh orb run_block exec_stmt container_kind] in *;
    rewrite Hraise; destruct store; reflexivity.
Qed.

Definition wrong_container_read : Res (list Stmt * list Handler) * GenState :=
  Eval vm_compute in
    _gen_assigment_from_parent_data (siblings_gen ALL) (V_raw_field "f1") false
      (with_position [Key "a"; Key "x"] (Some [Key "a"])
         [crown (_name_layout (siblings_gen ALL));
          InpDictCrown [("x", InpFieldCrown "f1")] ExtraIgnore;
          InpFieldCrown "f1"]
         (alloc [Key "a"] (_create_state (siblings_gen ALL) []))).

Definition read_body (r : Res (list Stmt * list Handler) * GenState)
  : list Stmt :=
  match fst r with
  | Ok (b, _) => b
  | Raise _ => []
  end.

Definition read_handlers_of (r : Res (list Stmt * list Handler) * GenState)
  : list Handler :=
  match fst r with
  | Ok (_, h) => h
  | Raise _ => []
  end.

Definition wrong_container_store : Store :=
  set_errors []
    (set_local (V_path B_data (Some 1)) (VInt 1)
       (set_local (V_path B_data None) wrong_container_input empty_store)).

Lemma C1_wrong_container_aborts_witness :
  exec []
    (S_try (read_body wrong_container_read)
           (read_handlers_of wrong_container_read) [S_pass]
     :: [S_errors_append (X_NoRequiredFieldsError ["never"])])
    wrong_container_store
  = (Throw (mkExn (TypeLoadError KDict) [Key "a"]), wrong_container_store).
Proof.
  exact (C1_wrong_container_aborts (siblings_gen ALL) (V_raw_field "f1") false
           (with_position [Key "a"; Key "x"] (Some [Key "a"])
              [crown (_name_layout (siblings_gen ALL));
               InpDictCrown [("x", InpFieldCrown "f1")] ExtraIgnore;
               InpFieldCrown "f1"]
              (alloc [Key "a"] (_create_state (siblings_gen ALL) [])))
           (snd wrong_container_read)
           (read_body wrong_container_read)
           (read_handlers_of wrong_container_read)
           [Key "a"] [Key "a"] (Key "x") 0 [] wrong_container_store
           (VInt 1) TypeError [S_pass]
           [S_errors_append (X_NoRequiredFieldsError ["never"])]
           eq_refl eq_refl I eq_refl eq_refl eq_refl eq_refl eq_refl).
Defined.

(** ** C9: one type check per parent container *)

Definition is_type_error (c : ExcClass) : bool :=
  match c with
  | Cls_TypeError => true
  | _ => false
  end.

Definition handles_type_error (h : Handler) : bool :=
  existsb is_type_error (fst h).

(** Whether a [try] body is the read out of the container named by the
    suffix [sfx]. *)
Definition reads_from (sfx : option nat) (body : list Stmt) : bool :=
  match body with
  | [S_assign _ (E_getitem (V_path B_data s) _)] => suffix_eqb s sfx
  | _ => false
  end.

(** The number of reads out of the container [sfx] that carry the clause for
    a container of the wrong type, at any depth of the code. *)
Fixpoint checks_in (sfx : option nat) (s : Stmt) : nat :=
  match s with
  | S_try body handlers orelse =>
      (if reads_from sfx body && existsb handles_type_error handlers
       then 1 else 0)
      + list_sum (List.map (checks_in sfx) body)
      + list_sum (List.map (fun h => list_sum (List.map (checks_in sfx) (snd h)))
                           handlers)
      + list_sum (List.map (checks_in sfx) orelse)
  | S_if _ body orelse =>
      list_sum (List.map (checks_in sfx) body)
      + list_sum (List.map (checks_in sfx) orelse)
  | S_for_key _ body => list_sum (List.map (checks_in sfx) body)
  | _ => 0
  end.

Definition type_checks (sfx : option nat) (code : Code) : nat :=
  list_sum (List.map (checks_in sfx) code).

Lemma type_checks_app (sfx : option nat) (a b : Code) :
  type_checks sfx (a ++ b) = type_checks sfx a + type_checks sfx b.
Proof. unfold type_checks. rewrite map_app, list_sum_app. reflexivity. Qed.

Lemma type_checks_nil (sfx : option nat) : type_checks sfx [] = 0.
Proof. reflexivity. Qed.

(** The tracker's suffixes name paths one to one, and a path whose type
    check is planned has its suffix. *)
Record tracker_ok (st : GenState) : Prop := mkTrackerOk {
  ok_bound : forall p n,
    suffix_get (path_to_suffix st) p = Some n -> n <= _last_path_idx st;
  ok_inj : forall p p' n,
    suffix_get (path_to_suffix st) p = Some n ->
    suffix_get (path_to_suffix st) p' = Some n -> p = p';
  ok_checked : forall q,
    path_in q (checked_type_paths st) = true -> allocated st q
}.

Definition extends (st st' : GenState) : Prop :=
  (forall p n, suffix_get (path_to_suffix st) p = Some n ->
               suffix_get (path_to_suffix st') p = Some n) /\
  (forall q, path_in q (checked_type_paths st) = true ->
             path_in q (checked_type_paths st') = true).

Lemma extends_refl (st : GenState) : extends st st.
Proof. split; auto. Qed.

Lemma extends_trans (a b c : GenState) :
  extends a b -> extends b c -> extends a c.
Proof. intros [H1 H2] [K1 K2]; split; auto. Qed.

Lemma allocated_extends (st st' : GenState) (q : CrownPath) :
  extends st st' -> allocated st q -> allocated st' q.
Proof.
  intros [H _] [-> | (n & Hn)]; [left; reflexivity | right].
  exists n. apply H. exact Hn.
Qed.

Lemma suffix_of_extends (st st' : GenState) (q : CrownPath) :
  extends st st' -> allocated st q -> suffix_of st' q = suffix_of st q.
Proof.
  intros [H _] Ha. destruct q as [|a q]; [reflexivity |].
  destruct Ha as [Ha | (n & Hn)]; [discriminate |].
  unfold suffix_of. rewrite Hn, (H _ _ Hn). reflexivity.
Qed.

Lemma suffix_of_inj (st : GenState) (q q' : CrownPath) :
  tracker_ok st -> allocated st q -> allocated st q' ->
  suffix_of st q = suffix_of st q' -> q = q'.
Proof.
  intros Hok Ha Ha' Heq.
  destruct q as [|a q], q' as [|b q']; try reflexivity; try discriminate.
  destruct Ha as [Ha | (n & Hn)]; [discriminate |].
  destruct Ha' as [Ha' | (n' & Hn')]; [discriminate |].
  unfold suffix_of in Heq. rewrite Hn, Hn' in Heq. inversion Heq; subst n'.
  exact (ok_inj st Hok _ _ _ Hn Hn').
Qed.

Lemma suffix_get_app (m : list (CrownPath * nat)) (p x : CrownPath) (k : nat) :
  suffix_get (m ++ [(p, k)]) x =
  match suffix_get m x with
  | Some n => Some n
  | None => if CrownPath_eqb p x then Some k else None
  end.
Proof.
  induction m as [|[r j] m IH]; simpl; [reflexivity |].
  destruct (CrownPath_eqb r x); [reflexivity | exact IH].
Qed.

Lemma tracker_ok_alloc (p : CrownPath) (st : GenState) :
  tracker_ok st -> tracker_ok (alloc p st) /\ extends st (alloc p st).
Proof.
  intros Hok. destruct p as [|a p]; [split; [exact Hok | apply extends_refl] |].
  unfold alloc.
  destruct (suffix_get (path_to_suffix st) (a :: p)) eqn:E;
    [split; [exact Hok | apply extends_refl] |].
  split; [constructor | split]; cbn [path_to_suffix _last_path_idx
                                      checked_type_paths with_suffixes].
  - intros x n. rewrite suffix_get_app.
    destruct (suffix_get (path_to_suffix st) x) eqn:Ex.
    + intros H; inversion H; subst. pose proof (ok_bound st Hok _ _ Ex). lia.
    + destruct (CrownPath_eqb (a :: p) x); intros H; inversion H; lia.
  - intros x x' n. rewrite !suffix_get_app.
    destruct (suffix_get (path_to_suffix st) x) eqn:Ex,
             (suffix_get (path_to_suffix st) x') eqn:Ex'.
    + intros H H'; inversion H; inversion H'; subst.
      exact (ok_inj st Hok _ _ _ Ex Ex').
    + destruct (CrownPath_eqb (a :: p) x'); intros H H';
        inversion H; inversion H'; subst.
      pose proof (ok_bound st Hok _ _ Ex). lia.
    + destruct (CrownPath_eqb (a :: p) x); intros H H';
        inversion H; inversion H'; subst.
      pose proof (ok_bound st Hok _ _ Ex'). lia.
    + destruct (CrownPath_eqb (a :: p) x) eqn:B,
               (CrownPath_eqb (a :: p) x') eqn:B';
        intros H H'; try discriminate.
      apply CrownPath_eqb_eq in B, B'. congruence.
  - intros q Hq. pose proof (ok_checked st Hok q Hq) as [-> | (n & Hn)];
      [left; reflexivity | right].
    exists n. cbn [path_to_suffix with_suffixes].
    apply suffix_get_app_old. exact Hn.
  - intros x n Hx. apply suffix_get_app_old. exact Hx.
  - auto.
Qed.

Lemma path_in_add (x q : CrownPath) (s : list CrownPath) :
  path_in x (path_set_add q s) = path_in x s || CrownPath_eqb x q.
Proof.
  unfold path_set_add. destruct (path_in q s) eqn:E.
  - destruct (CrownPath_eqb x q) eqn:B; [| rewrite orb_false_r; reflexivity].
    apply CrownPath_eqb_eq in B; subst x. rewrite E. reflexivity.
  - unfold path_in. rewrite existsb_app. simpl. rewrite orb_false_r.
    reflexivity.
Qed.

Lemma path_in_mark_checked (x q : CrownPath) (st : GenState) :
  path_in x (checked_type_paths (mark_checked q st)) =
  path_in x (checked_type_paths st) || CrownPath_eqb x q.
Proof.
  unfold mark_checked. destruct (path_in q (checked_type_paths st)) eqn:E.
  - destruct (CrownPath_eqb x q) eqn:B; [| rewrite orb_false_r; reflexivity].
    apply CrownPath_eqb_eq in B; subst x. rewrite E. reflexivity.
  - cbn [checked_type_paths with_checked_type_paths]. apply path_in_add.
Qed.

Lemma tracker_ok_mark_checked (q : CrownPath) (st : GenState) :
  tracker_ok st -> allocated st q ->
  tracker_ok (mark_checked q st) /\ extends st (mark_checked q st).
Proof.
  intros Hok Ha.
  destruct (mark_checked_fields q st) as (_ & _ & _ & _ & Hm & Hi).
  split; [constructor | split].
  - rewrite Hm, Hi. apply (ok_bound st Hok).
  - rewrite Hm. apply (ok_inj st Hok).
  - intros x Hx. rewrite path_in_mark_checked in Hx.
    unfold allocated. rewrite Hm.
    apply orb_true_iff in Hx as [Hx | Hx].
    + exact (ok_checked st Hok x Hx).
    + apply CrownPath_eqb_eq in Hx; subst x. exact Ha.
  - rewrite Hm. auto.
  - intros x Hx. rewrite path_in_mark_checked, Hx. reflexivity.
Qed.

(** States that differ in nothing the type checks depend on. *)
Definition same_tracking (st st' : GenState) : Prop :=
  path_to_suffix st' = path_to_suffix st /\
  _last_path_idx st' = _last_path_idx st /\
  checked_type_paths st' = checked_type_paths st.

Lemma same_tracking_ok (st st' : GenState) :
  same_tracking st st' -> tracker_ok st ->
  tracker_ok st' /\ extends st st'.
Proof.
  intros (Hm & Hi & Hc) Hok. split; [constructor | split].
  - rewrite Hm, Hi. apply (ok_bound st Hok).
  - rewrite Hm. apply (ok_inj st Hok).
  - unfold allocated. rewrite Hm, Hc. apply (ok_checked st Hok).
  - rewrite Hm. auto.
  - rewrite Hc. auto.
Qed.

(** A generator step that keeps the tracker well formed and only adds to
    it. *)
Definition tracks {A : Type} (m : Gen A) : Prop :=
  forall st a st', m st = (Ok a, st') -> tracker_ok st ->
                   tracker_ok st' /\ extends st st'.

Lemma tracks_ret {A : Type} (a : A) : tracks (ret a).
Proof.
  intros st b st' H Hok. apply ret_ok in H as [_ <-].
  split; [exact Hok | apply extends_refl].
Qed.

Lemma tracks_raise {A : Type} (e : PyErr) : tracks (@raise A e).
Proof. intros st b st' H; discriminate. Qed.

Lemma tracks_get : tracks get.
Proof.
  intros st a st' H Hok. inversion H; subst.
  split; [exact Hok | apply extends_refl].
Qed.

Lemma tracks_bind {A B : Type} (m : Gen A) (k : A -> Gen B) :
  tracks m -> (forall a, tracks (k a)) -> tracks (bind m k).
Proof.
  intros Hm Hk st b st' H Hok. apply bind_ok in H as (a & s & H1 & H2).
  destruct (Hm st a s H1 Hok) as [Hok1 He1].
  destruct (Hk a s b st' H2 Hok1) as [Hok2 He2].
  split; [exact Hok2 | exact (extends_trans _ _ _ He1 He2)].
Qed.

Lemma tracks_modify (f : GenState -> GenState) :
  (forall st, same_tracking st (f st)) -> tracks (modify f).
Proof.
  intros Hf st a st' H Hok. inversion H; subst.
  apply same_tracking_ok; [apply Hf | exact Hok].
Qed.

Lemma tracks__with_path_suffix (b : Basis) (p : CrownPath) :
  tracks (_with_path_suffix b p).
Proof.
  intros st a st' H Hok. rewrite _with_path_suffix_eq in H.
  inversion H; subst. apply tracker_ok_alloc. exact Hok.
Qed.

Create HintDb tracks.

Ltac tracks_step :=
  lazymatch goal with
  | |- tracks (ret _) => apply tracks_ret
  | |- tracks (raise _) => apply tracks_raise
  | |- tracks get => apply tracks_get
  | |- tracks (bind _ _) => apply tracks_bind; [| intros ?]
  | |- tracks (modify _) => apply tracks_modify; intros ?; repeat split
  | |- tracks (_with_path_suffix _ _) => apply tracks__with_path_suffix
  | |- tracks (match ?x with _ => _ end) => destruct x
  | |- tracks (let '(_, _) := ?x in _) => destruct x
  | |- tracks _ => solve [auto with tracks]
  end.

Ltac tracks_auto := repeat tracks_step.

Lemma tracks_path : tracks path.
Proof. unfold path; tracks_auto. Qed.

Lemma tracks_parent_path : tracks parent_path.
Proof. unfold parent_path; tracks_auto. Qed.
#[local] Hint Resolve tracks_path tracks_parent_path : tracks.

Lemma tracks_v_data : tracks v_data.
Proof. unfold v_data; tracks_auto. Qed.

Lemma tracks_v_known_keys : tracks v_known_keys.
Proof. unfold v_known_keys; tracks_auto. Qed.

Lemma tracks_v_extra : tracks v_extra.
Proof. unfold v_extra; tracks_auto. Qed.

Lemma tracks_v_parent_data : tracks v_parent_data.
Proof. unfold v_parent_data; tracks_auto. Qed.

Lemma tracks_v_parent_extra : tracks v_parent_extra.
Proof. unfold v_parent_extra; tracks_auto. Qed.
#[local] Hint Resolve tracks_v_data tracks_v_known_keys tracks_v_extra
  tracks_v_parent_data tracks_v_parent_extra : tracks.

Lemma tracks_parent_crown : tracks parent_crown.
Proof. unfold parent_crown; tracks_auto. Qed.

Lemma tracks_last_path_elem (p : CrownPath) : tracks (last_path_elem p).
Proof. unfold last_path_elem; tracks_auto. Qed.

Lemma tracks_crown_map_len (c : InpCrown) : tracks (crown_map_len c).
Proof. unfold crown_map_len; tracks_auto. Qed.

Lemma tracks_crown_extra_policy (c : InpCrown) : tracks (crown_extra_policy c).
Proof. unfold crown_extra_policy; tracks_auto. Qed.

Lemma tracks_get_field (id : string) : tracks (get_field id).
Proof. unfold get_field; tracks_auto. Qed.

Lemma tracks_with_trail (x : ErrExpr) (p : option CrownPath) :
  tracks (with_trail x p).
Proof. unfold with_trail; tracks_auto. Qed.
#[local] Hint Resolve tracks_parent_crown tracks_last_path_elem
  tracks_crown_map_len tracks_crown_extra_policy tracks_get_field
  tracks_with_trail : tracks.

Lemma tracks_emit_error (x : ErrExpr) : tracks (emit_error x).
Proof. unfold emit_error; tracks_auto. Qed.

Lemma tracks_ns_add (name : Var) (obj : NsObj) : tracks (ns_add name obj).
Proof. unfold ns_add; tracks_auto. Qed.
#[local] Hint Resolve tracks_emit_error tracks_ns_add : tracks.

Lemma tracks_add_key {A : Type} (c : InpCrown) (k : CrownPathElem)
    (block : Gen A) :
  tracks block -> tracks (add_key c k block).
Proof. intros Hb. unfold add_key. tracks_auto. Qed.

(** [once st code st']: the code emitted between the tracker states [st] and
    [st'] holds at most one type check per container, and a container whose
    check it holds was unchecked in [st] and is checked in [st']. *)
Definition once (st : GenState) (code : Code) (st' : GenState) : Prop :=
  forall sfx,
    type_checks sfx code <= 1 /\
    (1 <= type_checks sfx code ->
     exists q, allocated st' q /\ suffix_of st' q = sfx /\
               path_in q (checked_type_paths st) = false /\
               path_in q (checked_type_paths st') = true).

Definition step (st : GenState) (code : Code) (st' : GenState) : Prop :=
  tracker_ok st -> tracker_ok st' /\ extends st st' /\ once st code st'.

Definition plans_once (m : Gen Code) : Prop :=
  forall st code st', m st = (Ok code, st') -> step st code st'.

Definition no_checks (code : Code) : Prop :=
  forall sfx, type_checks sfx code = 0.

Lemma no_checks_nil : no_checks [].
Proof. intros sfx; reflexivity. Qed.

Lemma no_checks_app (a b : Code) :
  no_checks a -> no_checks b -> no_checks (a ++ b).
Proof. intros Ha Hb sfx. rewrite type_checks_app, Ha, Hb. reflexivity. Qed.

Lemma once_no_checks (st st' : GenState) (code : Code) :
  no_checks code -> once st code st'.
Proof. intros H sfx. rewrite H. split; [lia | intros; lia]. Qed.

Lemma step_quiet (st st' : GenState) (code : Code) :
  (tracker_ok st -> tracker_ok st' /\ extends st st') ->
  no_checks code -> step st code st'.
Proof.
  intros Ht Hn Hok. destruct (Ht Hok) as [Hok' He].
  split; [exact Hok' | split; [exact He | apply once_no_checks; exact Hn]].
Qed.

Lemma step_skip {A : Type} (m : Gen A) (st st' : GenState) (a : A) :
  tracks m -> m st = (Ok a, st') -> step st [] st'.
Proof.
  intros Hm H. apply step_quiet; [apply (Hm st a st' H) | apply no_checks_nil].
Qed.

Lemma step_refl (st : GenState) : step st [] st.
Proof.
  apply step_quiet; [| apply no_checks_nil].
  intros Hok; split; [exact Hok | apply extends_refl].
Qed.

Lemma step_app (st s1 s2 : GenState) (c1 c2 : Code) :
  step st c1 s1 -> step s1 c2 s2 -> step st (c1 ++ c2) s2.
Proof.
  intros H1 H2 Hok.
  destruct (H1 Hok) as (Hok1 & He1 & Ho1).
  destruct (H2 Hok1) as (Hok2 & He2 & Ho2).
  split; [exact Hok2 |]. split; [exact (extends_trans _ _ _ He1 He2) |].
  intros sfx. rewrite type_checks_app.
  destruct (Ho1 sfx) as [Hle1 Hq1], (Ho2 sfx) as [Hle2 Hq2].
  assert (Hexcl : ~ (1 <= type_checks sfx c1 /\ 1 <= type_checks sfx c2)).
  { intros [Ha Hb].
    destruct (Hq1 Ha) as (q1 & Hq1a & Hq1s & _ & Hq1c).
    destruct (Hq2 Hb) as (q2 & Hq2a & Hq2s & Hq2u & _).
    assert (q1 = q2).
    { apply (suffix_of_inj s2); try assumption.
      - exact (allocated_extends _ _ _ He2 Hq1a).
      - rewrite (suffix_of_extends _ _ _ He2 Hq1a). congruence. }
    subst q2. congruence. }
  split; [lia |].
  intros Hge.
  destruct (Nat.eq_dec (type_checks sfx c1) 0) as [Hz | Hnz].
  - destruct (Hq2 ltac:(lia)) as (q & Ha & Hs & Hu & Hc).
    exists q. repeat split; try assumption.
    destruct (path_in q (checked_type_paths st)) eqn:E; [| reflexivity].
    rewrite (proj2 He1 q E) in Hu. discriminate.
  - destruct (Hq1 ltac:(lia)) as (q & Ha & Hs & Hu & Hc).
    exists q. repeat split.
    + exact (allocated_extends _ _ _ He2 Ha).
    + rewrite (suffix_of_extends _ _ _ He2 Ha). exact Hs.
    + exact Hu.
    + exact (proj2 He2 q Hc).
Qed.

Lemma checks_in_report_stmt (sfx : option nat) (mode : DebugTrail)
    (x : ErrExpr) (p : CrownPath) :
  checks_in sfx (report_stmt mode x p) = 0.
Proof. destruct mode; reflexivity. Qed.

Lemma checks_in_on_lookup_error (sfx : option nat) (mode : DebugTrail)
    (ignore : bool) (el : CrownPathElem) (q : CrownPath) (x : ErrExpr) :
  checks_in sfx (on_lookup_error mode ignore el q x) = 0.
Proof. destruct mode, ignore, el; reflexivity. Qed.

Lemma no_checks_field_assigment_code (gen_mode state_mode : DebugTrail)
    (p : CrownPath) (t : Target) (l : Loader) (id : string) (arg : Expr) :
  (forall c i, arg <> E_getitem c i) ->
  no_checks (field_assigment_code gen_mode state_mode p t
               (processing_expr l id arg)).
Proof.
  intros Harg sfx. unfold type_checks.
  assert (Hread : reads_from sfx [S_assign t (processing_expr l id arg)] = false).
  { destruct l; cbn [processing_expr reads_from]; [| reflexivity].
    destruct arg; try reflexivity. exfalso. exact (Harg c i eq_refl). }
  destruct gen_mode; cbn [field_assigment_code List.map list_sum checks_in fst snd];
    rewrite ?Hread, ?checks_in_report_stmt; reflexivity.
Qed.

Lemma _gen_assigment_from_parent_data_ok (self : BuiltinInputExtractionGen)
    (assign_to : Var) (ignore : bool) (st st' : GenState)
    (r : list Stmt * list Handler) :
  _gen_assigment_from_parent_data self assign_to ignore st = (Ok r, st') ->
  exists pp el q n,
    _path st = pp ++ [el] /\ _parent_path st = Some q /\ len_known st el n.
Proof.
  intros H. unfold _gen_assigment_from_parent_data in H.
  apply bind_ok in H as (p & s0 & Hp & H). inversion Hp; subst p s0; clear Hp.
  apply bind_ok in H as (el & s1 & Hel & H).
  unfold last_path_elem in Hel.
  destruct (rev (_path st)) as [|x l] eqn:Erev; [discriminate |].
  inversion Hel; subst x s1; clear Hel.
  assert (Hpath : _path st = rev l ++ [el]).
  { rewrite <- (rev_involutive (_path st)), Erev. reflexivity. }
  apply bind_ok in H as (errs & s2 & Herrs & H).
  assert (Hlen : exists n, len_known st el n /\ s2 = st).
  { destruct el as [k|i].
    - inversion Herrs; subst. exists 0. split; [exact I | reflexivity].
    - apply bind_ok in Herrs as (pc & s3 & Hpc & Herrs).
      apply bind_ok in Herrs as (n & s4 & Hn & Herrs).
      inversion Herrs; subst; clear Herrs.
      unfold parent_crown, bind, get in Hpc. cbv beta iota in Hpc.
      exists n. cbn [len_known]. unfold parent_len.
      destruct (rev (_crown_stack st)) as [|top [|parent rest]];
        try discriminate.
      inversion Hpc; subst pc s3; clear Hpc.
      destruct parent; inversion Hn; subst; split; reflexivity. }
  destruct Hlen as (n & Hn & ->).
  destruct errs as [[[lookup bad] bad_x] not_found].
  apply bind_ok in H as (pd & s3 & Hpd & H).
  unfold v_parent_data, parent_path, bind, get in Hpd. cbv beta iota in Hpd.
  destruct (_parent_path st) as [q|] eqn:Eq; [| discriminate].
  exists (rev l), el, q, n. repeat split; assumption.
Qed.

Lemma step_read (self : BuiltinInputExtractionGen) (assign_to : Var)
    (ignore : bool) (st st' : GenState) (r : list Stmt * list Handler)
    (orelse : Code) :
  _gen_assigment_from_parent_data self assign_to ignore st = (Ok r, st') ->
  no_checks orelse ->
  step st [S_try (fst r) (snd r) orelse] st'.
Proof.
  intros H Horelse Hok.
  destruct (_gen_assigment_from_parent_data_ok self assign_to ignore st st' r H)
    as (pp & el & q & n & Hp & Hq & Hn).
  rewrite (_gen_assigment_from_parent_data_eq self assign_to ignore st pp q el n
             Hp Hq Hn) in H.
  inversion H; subst r st'; clear H. cbn [fst snd].
  destruct (tracker_ok_alloc q st Hok) as [Hok1 He1].
  destruct (tracker_ok_mark_checked q (alloc q st) Hok1 (allocated_alloc q st))
    as [Hok2 He2].
  split; [exact Hok2 |]. split; [exact (extends_trans _ _ _ He1 He2) |].
  intros sfx. unfold type_checks.
  cbn [List.map list_sum checks_in reads_from].
  fold (type_checks sfx orelse). rewrite (Horelse sfx).
  assert (Hhandlers :
    list_sum (List.map (fun h => list_sum (List.map (checks_in sfx) (snd h)))
                       (read_handlers self st el q n ignore)) = 0).
  { unfold read_handlers.
    destruct (read_errors el n) as [[[lookup bad] bad_x] not_found].
    unfold bad_type_handlers, unexpected_handlers.
    destruct (path_in q (checked_type_paths st)), (_debug_trail self);
      cbn [app List.map list_sum snd checks_in];
      rewrite checks_in_on_lookup_error; reflexivity. }
  rewrite Hhandlers.
  assert (Hhas :
    existsb handles_type_error (read_handlers self st el q n ignore) =
    negb (path_in q (checked_type_paths st))).
  { unfold read_handlers, bad_type_handlers, unexpected_handlers.
    destruct el; cbn [read_errors];
      destruct (path_in q (checked_type_paths st)), (_debug_trail self);
      reflexivity. }
  rewrite Hhas.
  destruct (suffix_eqb (suffix_of st q) sfx
            && negb (path_in q (checked_type_paths st))) eqn:E;
    (split; [simpl; lia |]); [| simpl; intros; lia].
  intros _. apply andb_true_iff in E as [Es Eu].
  exists q. autorewrite with alloc.
  split; [| split; [| split]].
  - destruct (mark_checked_fields q (alloc q st)) as (_ & _ & _ & _ & Hm & _).
    destruct (allocated_alloc q st) as [-> | (k & Hk)];
      [left; reflexivity | right; exists k; rewrite Hm; exact Hk].
  - destruct (suffix_of st q) as [a|], sfx as [b|]; simpl in Es;
      try discriminate; [apply Nat.eqb_eq in Es; subst |]; reflexivity.
  - apply negb_true_iff in Eu. exact Eu.
  - rewrite path_in_mark_checked, CrownPath_eqb_refl. apply orb_true_r.
Qed.

Section PlansOnce.

Variable self : BuiltinInputExtractionGen.

Lemma tracks__gen_field_assigment (t : Target) (id : string) (arg : Expr) :
  tracks (_gen_field_assigment self t id arg).
Proof. unfold _gen_field_assigment; tracks_auto. Qed.

Lemma no_checks__gen_field_assigment (t : Target) (id : string) (arg : Expr)
    (st st' : GenState) (code : Code) :
  (forall c i, arg <> E_getitem c i) ->
  _gen_field_assigment self t id arg st = (Ok code, st') ->
  no_checks code.
Proof.
  intros Harg H.
  destruct (loaders_get (_field_loaders self) id) as [l|] eqn:El.
  - rewrite (_gen_field_assigment_eq self t id arg l st El) in H.
    inversion H; subst. apply no_checks_field_assigment_code. exact Harg.
  - unfold _gen_field_assigment in H. rewrite El in H. discriminate.
Qed.

Lemma plans_once_read_own_data : plans_once (gen_read_own_data self).
Proof.
  intros st code st' H. unfold gen_read_own_data in H.
  apply bind_ok in H as (p & s0 & Hp & H). inversion Hp; subst p s0; clear Hp.
  destruct (_path st) as [|a p] eqn:E.
  - apply ret_ok in H as [<- <-]. apply step_refl.
  - apply bind_ok in H as (data & s1 & Hd & H).
    apply bind_ok in H as (read & s2 & Hr & H).
    apply ret_ok in H as [<- <-].
    apply (step_app st s1 s2 [] _).
    + exact (step_skip v_data st s1 data tracks_v_data Hd).
    + apply (step_read self data false s1 s2 read [] Hr no_checks_nil).
Qed.

Lemma plans_once__gen_field_crown (id : string) :
  plans_once (_gen_field_crown self id).
Proof.
  intros st code st' H. unfold _gen_field_crown in H.
  apply bind_ok in H as (f & s0 & Hf & H).
  apply bind_ok in H as (read & s1 & Hr & H).
  apply bind_ok in H as (orelse & s2 & Ho & H).
  apply ret_ok in H as [<- <-].
  apply (step_app st s0 s2 [] _).
  { exact (step_skip (get_field id) st s0 f (tracks_get_field id) Hf). }
  rewrite <- (app_nil_r [S_try (fst read) (snd read) orelse]).
  apply (step_app s0 s1 s2 _ []).
  - apply (step_read self _ _ s0 s1 read orelse Hr).
    refine (no_checks__gen_field_assigment _ _ _ s1 s2 orelse _ Ho).
    intros c i; discriminate.
  - exact (step_skip _ s1 s2 orelse (tracks__gen_field_assigment _ _ _) Ho).
Qed.

(** A piece of generator that emits no read. *)
Definition quiet (m : Gen Code) : Prop :=
  tracks m /\ forall st code st', m st = (Ok code, st') -> no_checks code.

Lemma quiet_plans_once (m : Gen Code) : quiet m -> plans_once m.
Proof.
  intros [Ht Hn] st code st' H. apply step_quiet.
  - apply (Ht st code st' H).
  - exact (Hn st code st' H).
Qed.

Lemma quiet_ret_nil : quiet (ret []).
Proof.
  split; [apply tracks_ret |].
  intros st code st' H. apply ret_ok in H as [<- _]. apply no_checks_nil.
Qed.

Lemma quiet_init_dict_extra :
  quiet (if _can_collect_extra self then
           extra <- v_extra ;;
           ret [S_assign (T_var extra) (E_const (VDict []))]
         else ret []).
Proof.
  destruct (_can_collect_extra self); [| apply quiet_ret_nil].
  split; [tracks_auto |].
  intros st code st' H. unfold bind in H. rewrite v_extra_eq in H.
  inversion H; subst. intros sfx; reflexivity.
Qed.

Lemma quiet_init_list_extra (map : list InpCrown) :
  quiet (if _can_collect_extra self then
           extra <- v_extra ;;
           ret [S_assign (T_var extra) (E_const (extra_list_literal map))]
         else ret []).
Proof.
  destruct (_can_collect_extra self); [| apply quiet_ret_nil].
  split; [tracks_auto |].
  intros st code st' H. unfold bind in H. rewrite v_extra_eq in H.
  inversion H; subst. intros sfx; reflexivity.
Qed.

Lemma quiet_type_check (kind : ContainerKind) (abc : AbcKind) :
  quiet (data <- v_data ;;
         x <- with_trail (X_TypeLoadError kind) None ;;
         ret [S_if (C_not_isinstance data abc) [S_raise x] []]).
Proof.
  split; [tracks_auto |].
  intros st code st' H. unfold bind in H.
  rewrite v_data_eq, with_trail_eq in H.
  inversion H; subst. intros sfx; reflexivity.
Qed.

Lemma quiet_strict_check :
  quiet (if _strict_coercion self then
           data <- v_data ;;
           x <- with_trail (X_TypeLoadError KList) None ;;
           ret [S_if (C_type_is_str data) [S_raise x] []]
         else ret []).
Proof.
  destruct (_strict_coercion self); [| apply quiet_ret_nil].
  split; [tracks_auto |].
  intros st code st' H. unfold bind in H.
  rewrite v_data_eq, with_trail_eq in H.
  inversion H; subst. intros sfx; reflexivity.
Qed.

Lemma quiet_gen_dict_extra (map : list (string * InpCrown)) (p : ExtraPolicy) :
  quiet (gen_dict_extra map p).
Proof.
  split; [unfold gen_dict_extra; tracks_auto |].
  intros st code st' H. unfold gen_dict_extra in H.
  apply bind_ok in H as (u & s0 & _ & H).
  apply bind_ok in H as (data & s1 & _ & H).
  apply bind_ok in H as (extra & s2 & _ & H).
  destruct p.
  - apply bind_ok in H as (kk & s3 & _ & H).
    apply bind_ok in H as (err & s4 & He & H).
    rewrite emit_error_eq in He. inversion He; subst err s4; clear He.
    apply ret_ok in H as [<- _]. intros sfx. unfold type_checks.
    cbn [List.map list_sum checks_in].
    rewrite checks_in_report_stmt. reflexivity.
  - apply bind_ok in H as (kk & s3 & _ & H).
    apply ret_ok in H as [<- _]. intros sfx; reflexivity.
  - apply ret_ok in H as [<- _]. intros sfx; reflexivity.
Qed.

Lemma quiet_gen_list_len_check (n : nat) (p : ExtraPolicy) :
  quiet (gen_list_len_check n p).
Proof.
  split; [unfold gen_list_len_check; tracks_auto |].
  intros st code st' H. rewrite gen_list_len_check_eq in H.
  inversion H; subst. intros sfx. unfold type_checks.
  destruct p; cbn [List.map list_sum checks_in];
    rewrite ?checks_in_report_stmt; reflexivity.
Qed.

Lemma quiet_to_parent :
  quiet (if _can_collect_extra self then _gen_add_self_extra_to_parent_extra
         else ret []).
Proof.
  destruct (_can_collect_extra self); [| apply quiet_ret_nil].
  split; [unfold _gen_add_self_extra_to_parent_extra; tracks_auto |].
  intros st code st' H. unfold _gen_add_self_extra_to_parent_extra in H.
  apply bind_ok in H as (p & s0 & _ & H).
  destruct p as [|a p].
  - apply ret_ok in H as [<- _]. apply no_checks_nil.
  - apply bind_ok in H as (pe & s1 & _ & H).
    apply bind_ok in H as (p' & s2 & _ & H).
    apply bind_ok in H as (el & s3 & _ & H).
    apply bind_ok in H as (extra & s4 & _ & H).
    apply ret_ok in H as [<- _]. intros sfx; reflexivity.
Qed.

Section Children.

Variable dispatch : InpCrown -> CrownPathElem -> Gen Code.

Lemma plans_once_dict_children (m : list (string * InpCrown)) :
  Forall (fun kv => forall k, plans_once (dispatch (snd kv) k)) m ->
  plans_once (gen_dict_children dispatch m).
Proof.
  induction 1 as [|[key value] rest Hx _ IH]; intros st code st' H;
    cbn [gen_dict_children] in H.
  - apply ret_ok in H as [<- <-]. apply step_refl.
  - apply bind_ok in H as (c & s1 & Hc & H).
    apply bind_ok in H as (cs & s2 & Hcs & H).
    apply ret_ok in H as [<- <-].
    exact (step_app st s1 s2 c cs (Hx (Key key) st c s1 Hc) (IH s1 cs s2 Hcs)).
Qed.

Lemma plans_once_list_children (m : list InpCrown) :
  Forall (fun x => forall k, plans_once (dispatch x k)) m ->
  forall i, plans_once (gen_list_children dispatch i m).
Proof.
  induction 1 as [|value rest Hx _ IH]; intros i st code st' H;
    cbn [gen_list_children] in H.
  - apply ret_ok in H as [<- <-]. apply step_refl.
  - apply bind_ok in H as (c & s1 & Hc & H).
    apply bind_ok in H as (cs & s2 & Hcs & H).
    apply ret_ok in H as [<- <-].
    exact (step_app st s1 s2 c cs (Hx (Idx i) st c s1 Hc)
             (IH (S i) s1 cs s2 Hcs)).
Qed.

Lemma plans_once__gen_dict_crown (m : list (string * InpCrown))
    (p : ExtraPolicy) :
  plans_once (gen_dict_children dispatch m) ->
  plans_once (_gen_dict_crown self dispatch m p).
Proof.
  intros Hchildren st code st' H. unfold _gen_dict_crown in H.
  apply bind_ok in H as (read & s1 & Hread & H).
  apply bind_ok in H as (init & s2 & Hinit & H).
  apply bind_ok in H as (children & s3 & Hch & H).
  apply bind_ok in H as (check & s4 & Hcheck & H).
  apply bind_ok in H as (extra & s5 & Hextra & H).
  apply bind_ok in H as (to_parent & s6 & Hto & H).
  apply ret_ok in H as [<- <-].
  apply (step_app st s1 s6 _ _ (plans_once_read_own_data st read s1 Hread)).
  apply (step_app s1 s2 s6 _ _
           (quiet_plans_once _ quiet_init_dict_extra s1 init s2 Hinit)).
  apply (step_app s2 s3 s6 _ _ (Hchildren s2 children s3 Hch)).
  apply (step_app s3 s4 s6 check _).
  { destruct m.
    - exact (quiet_plans_once _ (quiet_type_check KDict CollectionsMapping)
               s3 check s4 Hcheck).
    - exact (quiet_plans_once _ quiet_ret_nil s3 check s4 Hcheck). }
  apply (step_app s4 s5 s6 _ _
           (quiet_plans_once _ (quiet_gen_dict_extra m p) s4 extra s5 Hextra)).
  exact (quiet_plans_once _ quiet_to_parent s5 to_parent s6 Hto).
Qed.

Lemma plans_once__gen_list_crown (m : list InpCrown) (p : ExtraPolicy) :
  plans_once (gen_list_children dispatch 0 m) ->
  plans_once (_gen_list_crown self dispatch m p).
Proof.
  intros Hchildren st code st' H. unfold _gen_list_crown in H.
  apply bind_ok in H as (read & s1 & Hread & H).
  apply bind_ok in H as (strict & s2 & Hstrict & H).
  apply bind_ok in H as (init & s3 & Hinit & H).
  apply bind_ok in H as (children & s4 & Hch & H).
  apply bind_ok in H as (check & s5 & Hcheck & H).
  apply bind_ok in H as (len_check & s6 & Hlen & H).
  apply bind_ok in H as (to_parent & s7 & Hto & H).
  apply ret_ok in H as [<- <-].
  apply (step_app st s1 s7 _ _ (plans_once_read_own_data st read s1 Hread)).
  apply (step_app s1 s2 s7 _ _
           (quiet_plans_once _ quiet_strict_check s1 strict s2 Hstrict)).
  apply (step_app s2 s3 s7 _ _
           (quiet_plans_once _ (quiet_init_list_extra m) s2 init s3 Hinit)).
  apply (step_app s3 s4 s7 _ _ (Hchildren s3 children s4 Hch)).
  apply (step_app s4 s5 s7 check _).
  { destruct m.
    - exact (quiet_plans_once _ (quiet_type_check KList CollectionsSequence)
               s4 check s5 Hcheck).
    - exact (quiet_plans_once _ quiet_ret_nil s4 check s5 Hcheck). }
  apply (step_app s5 s6 s7 _ _
           (quiet_plans_once _ (quiet_gen_list_len_check (List.length m) p)
              s5 len_check s6 Hlen)).
  exact (quiet_plans_once _ quiet_to_parent s6 to_parent s7 Hto).
Qed.

End Children.

Lemma plans_once_add_key (c : InpCrown) (k : CrownPathElem) (block : Gen Code) :
  plans_once block -> plans_once (add_key c k block).
Proof.
  intros Hb st code st' H. unfold add_key in H.
  apply bind_ok in H as (s & s0 & Hg & H). inversion Hg; subst s s0; clear Hg.
  apply bind_ok in H as (u & s1 & Hm1 & H).
  apply bind_ok in H as (r & s2 & Hblock & H).
  apply bind_ok in H as (u' & s3 & Hm2 & H).
  apply ret_ok in H as [<- <-].
  apply (step_app st s1 s3 [] _).
  { refine (step_skip _ st s1 u _ Hm1).
    apply tracks_modify. intros ?. repeat split. }
  rewrite <- (app_nil_r r).
  apply (step_app s1 s2 s3 r [] (Hb s1 r s2 Hblock)).
  refine (step_skip _ s2 s3 u' _ Hm2).
  apply tracks_modify. intros ?. repeat split.
Qed.

Lemma plans_once__gen_crown_dispatch (c : InpCrown) :
  forall k, plans_once (_gen_crown_dispatch self c k).
Proof.
  induction c as [m p IH | m p IH | id |] using InpCrown_tree_ind;
    intros k; rewrite _gen_crown_dispatch_eq; apply plans_once_add_key;
    intros st code st' H; unfold _gen_root_crown_dispatch in H.
  - apply bind_ok in H as (r & s1 & Hr & H).
    apply bind_ok in Hr as (c & s2 & Hc & Hr).
    apply ret_ok in Hr as [<- <-]. apply ret_ok in H as [<- <-].
    apply (plans_once__gen_dict_crown _ m p
             (plans_once_dict_children _ m IH) st c s2 Hc).
  - apply bind_ok in H as (r & s1 & Hr & H).
    apply bind_ok in Hr as (c & s2 & Hc & Hr).
    apply ret_ok in Hr as [<- <-]. apply ret_ok in H as [<- <-].
    apply (plans_once__gen_list_crown _ m p
             (plans_once_list_children _ m IH 0) st c s2 Hc).
  - apply bind_ok in H as (r & s1 & Hr & H).
    apply ret_ok in Hr as [<- <-].
    exact (plans_once__gen_field_crown id st code st' H).
  - apply bind_ok in H as (r & s1 & Hr & H).
    apply ret_ok in Hr as [<- <-]. apply ret_ok in H as [<- <-].
    apply step_refl.
Qed.

End PlansOnce.

Section PlansOnceCall.

Variable self : BuiltinInputExtractionGen.

Lemma quiet_gen_targets_collected (targets : list string) :
  quiet (gen_targets_collected self targets).
Proof.
  induction targets as [|t rest [IHt IHn]].
  - apply quiet_ret_nil.
  - split.
    + cbn [gen_targets_collected]. tracks_auto.
      apply tracks__gen_field_assigment.
    + intros st code st' H. cbn [gen_targets_collected] in H.
      apply bind_ok in H as (s & s0 & Hg & H).
      inversion Hg; subst s s0; clear Hg.
      destruct (name_to_field_get (_name_to_field st) t) as [f|];
        [| discriminate].
      apply bind_ok in H as (extra & s1 & _ & H).
      apply bind_ok in H as (c & s2 & Hc & H).
      apply bind_ok in H as (cs & s3 & Hcs & H).
      apply ret_ok in H as [<- _].
      apply no_checks_app.
      * refine (no_checks__gen_field_assigment self _ _ _ s1 s2 c _ Hc).
        intros x i; discriminate.
      * exact (IHn s2 cs s3 Hcs).
Qed.

Lemma quiet_gen_targets_not_collected (targets : list string) :
  quiet (gen_targets_not_collected self targets).
Proof.
  induction targets as [|t rest [IHt IHn]].
  - apply quiet_ret_nil.
  - split.
    + cbn [gen_targets_not_collected]. tracks_auto.
      apply tracks__gen_field_assigment.
    + intros st code st' H. cbn [gen_targets_not_collected] in H.
      apply bind_ok in H as (s & s0 & Hg & H).
      inversion Hg; subst s s0; clear Hg.
      destruct (name_to_field_get (_name_to_field st) t) as [f|];
        [| discriminate].
      apply bind_ok in H as (c & s2 & Hc & H).
      apply bind_ok in H as (cs & s3 & Hcs & H).
      apply ret_ok in H as [<- _].
      apply no_checks_app; [| exact (IHn s2 cs s3 Hcs)].
      destruct (is_required f).
      * refine (no_checks__gen_field_assigment self _ _ _ st s2 c _ Hc).
        intros x i; discriminate.
      * apply ret_ok in Hc as [<- _]. apply no_checks_nil.
Qed.

Lemma quiet__gen_extra_targets_assigment :
  quiet (_gen_extra_targets_assigment self).
Proof.
  unfold _gen_extra_targets_assigment.
  destruct (extra_move (_name_layout self)) as [|targets];
    [apply quiet_ret_nil |].
  split.
  - apply tracks_bind; [apply tracks_crown_extra_policy | intros p].
    destruct p; first [apply quiet_gen_targets_collected
                      | apply quiet_gen_targets_not_collected].
  - intros st code st' H. apply bind_ok in H as (p & s1 & _ & H).
    destruct p;
      [ exact (proj2 (quiet_gen_targets_not_collected targets) s1 code st' H)
      | exact (proj2 (quiet_gen_targets_collected targets) s1 code st' H)
      | exact (proj2 (quiet_gen_targets_not_collected targets) s1 code st' H) ].
Qed.

Lemma tracks_add_loaders (loaders : list (string * Loader)) :
  tracks (add_loaders loaders).
Proof.
  induction loaders as [|[id l] rest IH]; cbn [add_loaders].
  - apply tracks_ret.
  - apply tracks_bind; [apply tracks_ns_add | intros _; exact IH].
Qed.

Lemma plans_once_call : plans_once (call self).
Proof.
  intros st code st' H. unfold call in H.
  apply bind_ok in H as (u & s1 & Hload & H).
  apply bind_ok in H as (r & s2 & Hroot & H).
  destruct r as [body|]; [| discriminate].
  apply bind_ok in H as (targets & s3 & Htargets & H).
  apply ret_ok in H as [<- <-].
  assert (Hbody : step s1 body s2).
  { unfold _gen_root_crown_dispatch in Hroot.
    destruct (crown (_name_layout self)) as [m p | m p | id |].
    - apply bind_ok in Hroot as (c & s & Hc & Hr).
      apply ret_ok in Hr as [Hr Hs]. inversion Hr; subst c s.
      refine (plans_once__gen_dict_crown self _ m p _ s1 body s2 Hc).
      apply plans_once_dict_children.
      apply Forall_forall. intros kv _ k.
      apply plans_once__gen_crown_dispatch.
    - apply bind_ok in Hroot as (c & s & Hc & Hr).
      apply ret_ok in Hr as [Hr Hs]. inversion Hr; subst c s.
      refine (plans_once__gen_list_crown self _ m p _ s1 body s2 Hc).
      apply plans_once_list_children.
      apply Forall_forall. intros x _ k.
      apply plans_once__gen_crown_dispatch.
    - discriminate.
    - discriminate. }
  apply (step_app st s1 s3 [] _).
  { exact (step_skip _ st s1 u (tracks_add_loaders _) Hload). }
  apply (step_app s1 s1 s3 _ _).
  { apply step_quiet.
    - intros Hok; split; [exact Hok | apply extends_refl].
    - destruct (_debug_trail self); intros sfx; reflexivity. }
  apply (step_app s1 s1 s3 _ _).
  { apply step_quiet.
    - intros Hok; split; [exact Hok | apply extends_refl].
    - destruct (has_optional_fields self); intros sfx; reflexivity. }
  apply (step_app s1 s2 s3 _ _ Hbody).
  apply (step_app s2 s3 s3 _ _).
  { exact (quiet_plans_once _ quiet__gen_extra_targets_assigment
             s2 targets s3 Htargets). }
  apply step_quiet.
  - intros Hok; split; [exact Hok | apply extends_refl].
  - destruct (_debug_trail self); intros sfx; reflexivity.
Qed.

End PlansOnceCall.

Lemma tracker_ok__create_state (self : BuiltinInputExtractionGen)
    (ctx : Namespace) :
  tracker_ok (_create_state self ctx).
Proof.
  constructor; cbn [_create_state path_to_suffix checked_type_paths suffix_get].
  - discriminate.
  - discriminate.
  - discriminate.
Qed.

(** C9: in the code of one compilation, for every container (named by the
    suffix of its path, the root by no suffix) at most one read out of that
    container carries the clause for a container of the wrong type; so for
    every path of the crown tree the check is emitted at most once, whatever
    the number of children that read their value out of that path. *)
Theorem C9_type_check_emitted_at_most_once (self : BuiltinInputExtractionGen)
    (ctx : Namespace) (code : Code) (st' : GenState) :
  call self (_create_state self ctx) = (Ok code, st') ->
  (forall sfx, type_checks sfx code <= 1) /\
  (forall q, type_checks (suffix_of st' q) code <= 1).
Proof.
  intros H.
  destruct (plans_once_call self _ code st' H
              (tracker_ok__create_state self ctx)) as (_ & _ & Honce).
  split; [intros sfx | intros q]; apply Honce.
Qed.

Definition example_call : Res Code * GenState :=
  Eval vm_compute in call (example_gen ALL) (_create_state (example_gen ALL) []).

Lemma C9_type_check_emitted_at_most_once_witness :
  (forall sfx, type_checks sfx (code_of example_call) <= 1) /\
  (forall q, type_checks (suffix_of (snd example_call) q)
                         (code_of example_call) <= 1).
Proof.
  exact (C9_type_check_emitted_at_most_once (example_gen ALL) []
           (code_of example_call) (snd example_call) eq_refl).
Defined.

(** Two children read out of the root; one check is emitted for it, and one
    for the nested container. *)
Example root_checked_once :
  type_checks None (code_of example_call) = 1 /\
  type_checks (Some 1) (code_of example_call) = 1 /\
  type_checks (Some 2) (code_of example_call) = 0.
Proof. vm_compute. repeat split. Qed.

(** ** C2: what the extra target receives *)

Definition is_branch (c : InpCrown) : bool :=
  match c with
  | InpDictCrown _ _ | InpListCrown _ _ => true
  | InpFieldCrown _ | InpNoneCrown => false
  end.

(** The value at a position of a container, [None] when the position is
    absent. *)
Definition slot_of (container : value) (el : CrownPathElem) : option value :=
  match py_getitem container (elem_value el) with
  | inl v => Some v
  | inr _ => None
  end.

Definition item_of (container : value) (el : CrownPathElem) : value :=
  match slot_of container el with
  | Some v => v
  | None => VNone
  end.

Definition list_put (l : list value) (i : nat) (v : value) : list value :=
  match list_set l i v with
  | Some l' => l'
  | None => l
  end.

(** The holders of the nested crowns of a dict crown, set one after the other
    under the keys of the crowns. *)
Definition dict_nested (ov : InpCrown -> value -> value) (container : value)
  : list (string * InpCrown) -> list (value * value) -> list (value * value) :=
  fix go (items : list (string * InpCrown)) (acc : list (value * value))
    : list (value * value) :=
    match items with
    | [] => acc
    | (k, child) :: rest =>
        go rest
           (if is_branch child
            then dict_set acc (VStr k) (ov child (item_of container (Key k)))
            else acc)
    end.

Definition list_nested (ov : InpCrown -> value -> value) (container : value)
  : nat -> list InpCrown -> list value -> list value :=
  fix go (i : nat) (items : list InpCrown) (acc : list value) : list value :=
    match items with
    | [] => acc
    | child :: rest =>
        go (S i) rest
           (if is_branch child
            then list_put acc i (ov child (item_of container (Idx i)))
            else acc)
    end.

(** The keys of the mapping [m] in [keys], added with their values. *)
Definition collect_keys (m : list (value * value)) (keys : list value)
    (acc : list (value * value)) : list (value * value) :=
  fold_left (fun acc key =>
               match dict_get m key with
               | Some x => dict_set acc key x
               | None => acc
               end) keys acc.

Definition collected (policy : ExtraPolicy) (m : list (value * value))
    (map : list (string * InpCrown)) (acc : list (value * value))
  : list (value * value) :=
  match policy with
  | ExtraCollect => collect_keys m (undeclared_keys m map) acc
  | ExtraForbid | ExtraIgnore => acc
  end.

(** The overflow of a crown on a value of its shape.  A dict crown keeps,
    under the key of every nested dict or list crown, the overflow of that
    crown, and under [Collect] every key of the input that it does not
    declare, with the input's value.  A list crown keeps one holder per
    declared item: the overflow of a nested crown, an empty mapping for a
    field or a skipped item. *)
Fixpoint overflow (c : InpCrown) (v : value) : value :=
  match c, v with
  | InpDictCrown map policy, VDict m =>
      VDict (collected policy m map (dict_nested overflow (VDict m) map []))
  | InpListCrown items _, VList l =>
      VList (list_nested overflow (VList l) 0 items
               (List.map (fun child => if is_branch child then VNone
                                       else VDict []) items))
  | _, _ => VNone
  end.

Definition collecting_gen (mode : DebugTrail) : BuiltinInputExtractionGen :=
  mkGen [mkField "f1" true; mkField "f2" true; mkField "f3" false;
         mkField "rest" true]
        (mkLayout
           (InpDictCrown
              [("x", InpFieldCrown "f1");
               ("y", InpDictCrown [("z", InpFieldCrown "f2")] ExtraCollect);
               ("l", InpListCrown
                       [InpFieldCrown "f3";
                        InpDictCrown [("q", InpNoneCrown)] ExtraCollect]
                       ExtraCollect)]
              ExtraCollect)
           (ExtraTargets ["rest"]))
        mode false
        [("f1", identity_loader); ("f2", identity_loader);
         ("f3", identity_loader); ("rest", identity_loader)].

Definition collecting_input : value :=
  VDict [(VStr "x", VInt 1);
         (VStr "y", VDict [(VStr "z", VInt 2); (VStr "w", VInt 3)]);
         (VStr "l", VList [VInt 7; VDict [(VStr "q", VInt 8); (VStr "r", VInt 9)];
                           VInt 10]);
         (VStr "u", VInt 4)].

Definition last_call (st : Store) : option (string * value) :=
  match rev (calls st) with
  | c :: _ => Some c
  | [] => None
  end.

Section Fits.

Variable self : BuiltinInputExtractionGen.

(** A field fits the value at its position when it has a loader that accepts
    the value; an optional field also fits an absent position. *)
Definition field_fits (id : string) (slot : option value) : Prop :=
  exists fld l,
    name_to_field_get (_shape self) id = Some fld /\
    loaders_get (_field_loaders self) id = Some l /\
    match slot with
    | Some raw =>
        (exists v, apply_loader l raw = Loaded v) /\
        (is_required fld = false -> has_optional_fields self = true)
    | None => is_required fld = false
    end.

Definition fits_dict_children (fits : InpCrown -> option value -> Prop)
    (container : value) : list (string * InpCrown) -> Prop :=
  fix all (items : list (string * InpCrown)) : Prop :=
    match items with
    | [] => True
    | (k, child) :: rest => fits child (slot_of container (Key k)) /\ all rest
    end.

Definition fits_list_children (fits : InpCrown -> option value -> Prop)
    (container : value) : nat -> list InpCrown -> Prop :=
  fix all (i : nat) (items : list InpCrown) : Prop :=
    match items with
    | [] => True
    | child :: rest => fits child (slot_of container (Idx i)) /\ all (S i) rest
    end.

(** An input fits a crown when every declared position holds what the crown
    expects there: a mapping for a dict crown, with nothing but declared keys
    under [Forbid], and under [Collect] too when the name layout moves extra
    data nowhere, since the emitted loop then has no holder to fill; a list
    for a list crown, long enough, and of the declared length under
    [Forbid]. *)
Fixpoint fits (c : InpCrown) (slot : option value) : Prop :=
  match c with
  | InpNoneCrown => True
  | InpFieldCrown id => field_fits id slot
  | InpDictCrown map policy =>
      match slot with
      | Some (VDict m) =>
          Forall (fun kv => hashable (fst kv) = true) m /\
          (policy = ExtraForbid -> undeclared_keys m map = []) /\
          (_can_collect_extra self = false -> policy = ExtraCollect ->
           undeclared_keys m map = []) /\
          fits_dict_children fits (VDict m) map
      | _ => False
      end
  | InpListCrown items policy =>
      match slot with
      | Some (VList l) =>
          List.length items <= List.length l /\
          (policy = ExtraForbid -> List.length l = List.length items) /\
          fits_list_children fits (VList l) 0 items
      | _ => False
      end
  end.

End Fits.

(** *** What generation never takes back *)

(** The namespace only receives names, and the settings of the tracker stay
    as they are. *)
Definition carries (st st' : GenState) : Prop :=
  incl (ctx_namespace st) (ctx_namespace st') /\
  _name_to_field st' = _name_to_field st /\
  debug_trail st' = debug_trail st.

Definition carrying {A : Type} (m : Gen A) : Prop :=
  forall st a st', m st = (Ok a, st') -> carries st st'.

Lemma carries_refl (st : GenState) : carries st st.
Proof. split; [apply incl_refl | split; reflexivity]. Qed.

Lemma carries_trans (a b c : GenState) :
  carries a b -> carries b c -> carries a c.
Proof.
  intros (H1 & H2 & H3) (K1 & K2 & K3).
  split; [exact (incl_tran H1 K1) | split; congruence].
Qed.

Lemma carrying_ret {A : Type} (a : A) : carrying (ret a).
Proof. intros st b st' H; apply ret_ok in H as [_ <-]; apply carries_refl. Qed.

Lemma carrying_raise {A : Type} (e : PyErr) : carrying (@raise A e).
Proof. intros st b st' H; discriminate. Qed.

Lemma carrying_get : carrying get.
Proof. intros st a st' H; inversion H; apply carries_refl. Qed.

Lemma carrying_bind {A B : Type} (m : Gen A) (k : A -> Gen B) :
  carrying m -> (forall a, carrying (k a)) -> carrying (bind m k).
Proof.
  intros Hm Hk st b st' H; apply bind_ok in H as (a & s & H1 & H2).
  eapply carries_trans; [eapply Hm | eapply Hk]; eassumption.
Qed.

Lemma carrying_modify (f : GenState -> GenState) :
  (forall st, carries st (f st)) -> carrying (modify f).
Proof. intros Hf st a st' H; inversion H; apply Hf. Qed.

Lemma carrying_ns_add (name : Var) (obj : NsObj) : carrying (ns_add name obj).
Proof.
  unfold ns_add. apply carrying_modify. intros st.
  split; [| split; reflexivity].
  cbn [ctx_namespace with_ctx_namespace]. apply incl_appl, incl_refl.
Qed.

Create HintDb carrying.
#[local] Hint Resolve carrying_ns_add : carrying.

Ltac carrying_step :=
  lazymatch goal with
  | |- carrying (ret _) => apply carrying_ret
  | |- carrying (raise _) => apply carrying_raise
  | |- carrying get => apply carrying_get
  | |- carrying (bind _ _) => apply carrying_bind; [| intros ?]
  | |- carrying (modify _) =>
      apply carrying_modify; intros ?;
      split; [apply incl_refl | split; reflexivity]
  | |- carrying (match ?x with _ => _ end) => destruct x
  | |- carrying (let '(_, _) := ?x in _) => destruct x
  | |- carrying _ => solve [auto with carrying]
  end.

Ltac carrying_auto := repeat carrying_step.

Lemma carrying__get_path_idx (p : CrownPath) : carrying (_get_path_idx p).
Proof. unfold _get_path_idx; carrying_auto. Qed.
#[local] Hint Resolve carrying__get_path_idx : carrying.

Lemma carrying__with_path_suffix (b : Basis) (p : CrownPath) :
  carrying (_with_path_suffix b p).
Proof. unfold _with_path_suffix; carrying_auto. Qed.
#[local] Hint Resolve carrying__with_path_suffix : carrying.

Lemma carrying_path : carrying path.
Proof. unfold path; carrying_auto. Qed.

Lemma carrying_parent_path : carrying parent_path.
Proof. unfold parent_path; carrying_auto. Qed.
#[local] Hint Resolve carrying_path carrying_parent_path : carrying.

Lemma carrying_v_data : carrying v_data.
Proof. unfold v_data; carrying_auto. Qed.

Lemma carrying_v_known_keys : carrying v_known_keys.
Proof. unfold v_known_keys; carrying_auto. Qed.

Lemma carrying_v_extra : carrying v_extra.
Proof. unfold v_extra; carrying_auto. Qed.

Lemma carrying_v_parent_data : carrying v_parent_data.
Proof. unfold v_parent_data; carrying_auto. Qed.

Lemma carrying_v_parent_extra : carrying v_parent_extra.
Proof. unfold v_parent_extra; carrying_auto. Qed.
#[local] Hint Resolve carrying_v_data carrying_v_known_keys carrying_v_extra
  carrying_v_parent_data carrying_v_parent_extra : carrying.

Lemma carrying_parent_crown : carrying parent_crown.
Proof. unfold parent_crown; carrying_auto. Qed.

Lemma carrying_last_path_elem (p : CrownPath) : carrying (last_path_elem p).
Proof. unfold last_path_elem; carrying_auto. Qed.

Lemma carrying_crown_map_len (c : InpCrown) : carrying (crown_map_len c).
Proof. unfold crown_map_len; carrying_auto. Qed.

Lemma carrying_get_field (id : string) : carrying (get_field id).
Proof. unfold get_field; carrying_auto. Qed.

Lemma carrying_with_trail (x : ErrExpr) (p : option CrownPath) :
  carrying (with_trail x p).
Proof. unfold with_trail; carrying_auto. Qed.
#[local] Hint Resolve carrying_parent_crown carrying_last_path_elem
  carrying_crown_map_len carrying_get_field carrying_with_trail : carrying.

Lemma carrying_emit_error (x : ErrExpr) : carrying (emit_error x).
Proof. unfold emit_error; carrying_auto. Qed.

Lemma carrying_emit_error_for_from_data_assigment (x : ErrExpr) :
  carrying (emit_error_for_from_data_assigment x).
Proof. unfold emit_error_for_from_data_assigment; carrying_auto. Qed.
#[local] Hint Resolve carrying_emit_error
  carrying_emit_error_for_from_data_assigment : carrying.

Section CarryingGenerator.

Variable self : BuiltinInputExtractionGen.

Lemma carrying__gen_assigment_from_parent_data (v : Var) (b : bool) :
  carrying (_gen_assigment_from_parent_data self v b).
Proof. unfold _gen_assigment_from_parent_data; carrying_auto. Qed.
Hint Resolve carrying__gen_assigment_from_parent_data : carrying.

Lemma carrying__gen_add_self_extra_to_parent_extra :
  carrying _gen_add_self_extra_to_parent_extra.
Proof. unfold _gen_add_self_extra_to_parent_extra; carrying_auto. Qed.

Lemma carrying__gen_field_assigment (t : Target) (id : string) (arg : Expr) :
  carrying (_gen_field_assigment self t id arg).
Proof. unfold _gen_field_assigment; carrying_auto. Qed.
Hint Resolve carrying__gen_add_self_extra_to_parent_extra
  carrying__gen_field_assigment : carrying.

Lemma carrying__gen_field_crown (id : string) :
  carrying (_gen_field_crown self id).
Proof. unfold _gen_field_crown; carrying_auto. Qed.

Lemma carrying_gen_read_own_data : carrying (gen_read_own_data self).
Proof. unfold gen_read_own_data; carrying_auto. Qed.

Lemma carrying_gen_list_len_check (n : nat) (p : ExtraPolicy) :
  carrying (gen_list_len_check n p).
Proof. unfold gen_list_len_check; carrying_auto. Qed.

Lemma carrying_gen_dict_extra (m : list (string * InpCrown)) (p : ExtraPolicy) :
  carrying (gen_dict_extra m p).
Proof. unfold gen_dict_extra; carrying_auto. Qed.
Hint Resolve carrying__gen_field_crown carrying_gen_read_own_data
  carrying_gen_list_len_check carrying_gen_dict_extra : carrying.

Lemma carrying_gen_dict_children
    (dispatch : InpCrown -> CrownPathElem -> Gen Code)
    (m : list (string * InpCrown)) :
  Forall (fun kv => forall k, carrying (dispatch (snd kv) k)) m ->
  carrying (gen_dict_children dispatch m).
Proof.
  induction 1 as [|[key value] rest Hx _ IH]; simpl.
  - apply carrying_ret.
  - apply carrying_bind; [apply Hx | intros c].
    apply carrying_bind; [apply IH | intros cs]. apply carrying_ret.
Qed.

Lemma carrying_gen_list_children
    (dispatch : InpCrown -> CrownPathElem -> Gen Code) (m : list InpCrown) :
  Forall (fun x => forall k, carrying (dispatch x k)) m ->
  forall i, carrying (gen_list_children dispatch i m).
Proof.
  induction 1 as [|value rest Hx _ IH]; intros i; simpl.
  - apply carrying_ret.
  - apply carrying_bind; [apply Hx | intros c].
    apply carrying_bind; [apply IH | intros cs]. apply carrying_ret.
Qed.

Lemma carrying__gen_dict_crown
    (dispatch : InpCrown -> CrownPathElem -> Gen Code)
    (m : list (string * InpCrown)) (p : ExtraPolicy) :
  carrying (gen_dict_children dispatch m) ->
  carrying (_gen_dict_crown self dispatch m p).
Proof. intros Hc. unfold _gen_dict_crown. carrying_auto. Qed.

Lemma carrying__gen_list_crown
    (dispatch : InpCrown -> CrownPathElem -> Gen Code)
    (m : list InpCrown) (p : ExtraPolicy) :
  carrying (gen_list_children dispatch 0 m) ->
  carrying (_gen_list_crown self dispatch m p).
Proof. intros Hc. unfold _gen_list_crown. carrying_auto. Qed.

Lemma carrying_add_key {A : Type} (c : InpCrown) (k : CrownPathElem)
    (block : Gen A) :
  carrying block -> carrying (add_key c k block).
Proof. intros Hb. unfold add_key. carrying_auto. Qed.

Lemma carrying__gen_crown_dispatch (c : InpCrown) :
  forall k, carrying (_gen_crown_dispatch self c k).
Proof.
  induction c as [m p IH | m p IH | id |] using InpCrown_tree_ind;
    intros k; rewrite _gen_crown_dispatch_eq; apply carrying_add_key;
    unfold _gen_root_crown_dispatch.
  - apply carrying_bind; [| intros [c|]; carrying_auto].
    apply carrying_bind; [| intros ?; apply carrying_ret].
    apply carrying__gen_dict_crown, carrying_gen_dict_children, IH.
  - apply carrying_bind; [| intros [c|]; carrying_auto].
    apply carrying_bind; [| intros ?; apply carrying_ret].
    apply carrying__gen_list_crown, carrying_gen_list_children, IH.
  - apply carrying_bind; [apply carrying_ret | intros [c|]; [apply carrying_ret |]].
    apply carrying__gen_field_crown.
  - apply carrying_bind; [apply carrying_ret | intros [c|]; apply carrying_ret].
Qed.

End CarryingGenerator.

(** *** The variables of a run *)

Lemma Var_eqb_neq (x y : Var) : x <> y -> Var_eqb x y = false.
Proof.
  intros H. destruct (Var_eqb x y) eqn:E; [| reflexivity].
  exfalso. apply H. exact (Var_eqb_eq x y E).
Qed.

Lemma locals_get_set_local_same (x : Var) (v : value) (store : Store) :
  locals_get (locals (set_local x v store)) x = Some v.
Proof. simpl. rewrite Var_eqb_refl. reflexivity. Qed.

Lemma locals_get_set_local_other (x y : Var) (v : value) (store : Store) :
  x <> y ->
  locals_get (locals (set_local x v store)) y = locals_get (locals store) y.
Proof. intros H. simpl. rewrite (Var_eqb_neq x y H). reflexivity. Qed.

Lemma read_var_local (ns : Namespace) (store : Store) (x : Var) (v : value) :
  locals_get (locals store) x = Some v -> read_var ns store x = inl v.
Proof. intros H. unfold read_var. rewrite H. reflexivity. Qed.

Lemma read_var_global (ns : Namespace) (store : Store) (x : Var) (v : value) :
  locals_get (locals store) x = None ->
  ns_get ns x = Some (NsValue v) ->
  read_var ns store x = inl v.
Proof. intros H1 H2. unfold read_var. rewrite H1, H2. reflexivity. Qed.

(** The names that the code of a subtree leaves alone, when the subtree hangs
    under a path of length [n]: the names of known keys, which are not locals;
    the containers read so far at depth [n] or above; the overflow holders
    above depth [n]. *)
Definition guarded (st : GenState) (n : nat) (x : Var) : Prop :=
  match x with
  | V_path B_known_keys _ => True
  | V_path B_data s =>
      exists a, allocated st a /\ List.length a <= n /\ s = suffix_of st a
  | V_path B_extra s =>
      exists a, allocated st a /\ List.length a < n /\ s = suffix_of st a
  | _ => False
  end.

Record frame (st : GenState) (n : nat) (store store' : Store) : Prop := mkFrame {
  frame_locals : forall x, guarded st n x ->
    locals_get (locals store') x = locals_get (locals store) x;
  frame_errors : errors store' = errors store;
  frame_opt : forall m,
    locals_get (locals store) V_opt_fields = Some (VDict m) ->
    exists m', locals_get (locals store') V_opt_fields = Some (VDict m');
  frame_unexpected : has_unexpected_error store' = has_unexpected_error store
}.

Lemma frame_refl (st : GenState) (n : nat) (store : Store) :
  frame st n store store.
Proof.
  constructor;
    [reflexivity | reflexivity | intros m H; exists m; exact H | reflexivity].
Qed.

Lemma frame_trans (st : GenState) (n : nat) (a b c : Store) :
  frame st n a b -> frame st n b c -> frame st n a c.
Proof.
  intros [H1 H2 H3 H4] [K1 K2 K3 K4]. constructor.
  - intros x Hx. rewrite (K1 x Hx). exact (H1 x Hx).
  - congruence.
  - intros m Hm. destruct (H3 m Hm) as (m1 & Hm1). exact (K3 m1 Hm1).
  - congruence.
Qed.

Lemma guarded_extends (st st' : GenState) (n n' : nat) (x : Var) :
  extends st st' -> n <= n' -> guarded st n x -> guarded st' n' x.
Proof.
  intros He Hn. destruct x as [[| |] s| | | | | |]; simpl; trivial.
  - intros (a & Ha & Hl & ->). exists a.
    split; [exact (allocated_extends _ _ _ He Ha) |].
    split; [lia | symmetry; exact (suffix_of_extends _ _ _ He Ha)].
  - intros (a & Ha & Hl & ->). exists a.
    split; [exact (allocated_extends _ _ _ He Ha) |].
    split; [lia | symmetry; exact (suffix_of_extends _ _ _ He Ha)].
Qed.

Lemma frame_mono (st st' : GenState) (n n' : nat) (store store' : Store) :
  extends st st' -> n <= n' -> frame st' n' store store' ->
  frame st n store store'.
Proof.
  intros He Hn [H1 H2 H3 H4]. constructor; [| exact H2 | exact H3 | exact H4].
  intros x Hx. apply H1. exact (guarded_extends _ _ _ _ _ He Hn Hx).
Qed.

Lemma frame_set_local (st : GenState) (n : nat) (x : Var) (v : value)
    (store : Store) :
  ~ guarded st n x -> x <> V_opt_fields ->
  frame st n store (set_local x v store).
Proof.
  intros Hx Hopt. constructor.
  - intros y Hy. apply locals_get_set_local_other. intros ->. exact (Hx Hy).
  - reflexivity.
  - intros m Hm. exists m.
    rewrite (locals_get_set_local_other _ _ _ _ Hopt). exact Hm.
  - reflexivity.
Qed.

Lemma frame_set_opt (st : GenState) (n : nat) (m : list (value * value))
    (store : Store) :
  frame st n store (set_local V_opt_fields (VDict m) store).
Proof.
  constructor.
  - intros y Hy. apply locals_get_set_local_other. intros <-. exact Hy.
  - reflexivity.
  - intros _ _. exists m. apply locals_get_set_local_same.
  - reflexivity.
Qed.

Lemma frame_after_call (st : GenState) (n : nat) (l : Loader) (id : string)
    (arg : value) (store : Store) :
  frame st n store (after_call l id arg store).
Proof.
  destruct l; [apply frame_refl |].
  constructor;
    [reflexivity | reflexivity | intros m H; exists m; exact H | reflexivity].
Qed.

(** A name of a path below depth [n] is not guarded. *)
Lemma guarded_name (st s : GenState) (n : nat) (b : Basis) (c : CrownPath) :
  tracker_ok s -> extends st s -> allocated s c ->
  guarded st n (V_path b (suffix_of s c)) ->
  match b with
  | B_data => List.length c <= n
  | B_extra => List.length c < n
  | B_known_keys => True
  end.
Proof.
  intros Hok He Hc. destruct b; simpl; trivial.
  - intros (a & Ha & Hl & Heq).
    rewrite <- (suffix_of_extends _ _ _ He Ha) in Heq.
    apply (suffix_of_inj s c a Hok Hc (allocated_extends _ _ _ He Ha)) in Heq.
    subst a. exact Hl.
  - intros (a & Ha & Hl & Heq).
    rewrite <- (suffix_of_extends _ _ _ He Ha) in Heq.
    apply (suffix_of_inj s c a Hok Hc (allocated_extends _ _ _ He Ha)) in Heq.
    subst a. exact Hl.
Qed.

(** *** Holders of overflow *)

(** [h[k] = v] on a holder that has the position [k]. *)
Definition put (h : value) (k : CrownPathElem) (v : value) : value :=
  match h, k with
  | VDict m, Key s => VDict (dict_set m (VStr s) v)
  | VList l, Idx i => VList (list_put l i v)
  | _, _ => h
  end.

Definition settable (h : value) (k : CrownPathElem) : Prop :=
  match h, k with
  | VDict _, Key _ => True
  | VList l, Idx i => i < List.length l
  | _, _ => False
  end.

(** A dict crown hands its children a mapping, a list crown a list. *)
Definition holds (container : value) (k : CrownPathElem) : Prop :=
  match container, k with
  | VDict _, Key _ => True
  | VList _, Idx _ => True
  | _, _ => False
  end.

Lemma seq_pos_of_nat (n i : nat) : i < n -> seq_pos n (Z.of_nat i) = Some i.
Proof.
  intros H. unfold seq_pos.
  destruct (Z.leb_spec 0 (Z.of_nat i)); [| lia].
  destruct (Z.ltb_spec (Z.of_nat i) (Z.of_nat n)); [| lia].
  rewrite Nat2Z.id. reflexivity.
Qed.

Lemma seq_pos_beyond (n i : nat) : n <= i -> seq_pos n (Z.of_nat i) = None.
Proof.
  intros H. unfold seq_pos.
  destruct (Z.leb_spec 0 (Z.of_nat i)); [| lia].
  destruct (Z.ltb_spec (Z.of_nat i) (Z.of_nat n)); [lia | reflexivity].
Qed.

Lemma list_set_length (l : list value) (i : nat) (v : value) :
  i < List.length l ->
  exists l', list_set l i v = Some l' /\ List.length l' = List.length l.
Proof.
  revert i; induction l as [|x l IH]; intros i H; simpl in H; [lia |].
  destruct i as [|j]; simpl.
  - exists (v :: l). split; reflexivity.
  - destruct (IH j ltac:(lia)) as (l' & -> & Hl).
    exists (x :: l'). split; [reflexivity | simpl; rewrite Hl; reflexivity].
Qed.

Lemma list_put_length (l : list value) (i : nat) (v : value) :
  List.length (list_put l i v) = List.length l.
Proof.
  unfold list_put. destruct (list_set l i v) as [l'|] eqn:E; [| reflexivity].
  destruct (Nat.lt_ge_cases i (List.length l)) as [H | H].
  - destruct (list_set_length l i v H) as (l2 & E2 & Hl). congruence.
  - exfalso. revert i E H. clear. revert l'.
    induction l as [|x l IH]; intros l' i E H; simpl in *; [discriminate |].
    destruct i as [|j]; [lia |].
    destruct (list_set l j v) as [r|] eqn:Er; [| discriminate].
    exact (IH r j Er ltac:(lia)).
Qed.

Lemma py_setitem_put (h : value) (k : CrownPathElem) (v : value) :
  settable h k -> py_setitem h (elem_value k) v = inl (put h k v).
Proof.
  destruct h as [| b | z | s | l | m | e], k as [key | i]; simpl;
    try contradiction; intros H; [| reflexivity].
  rewrite (seq_pos_of_nat _ _ H). unfold list_put.
  destruct (list_set_length l i v H) as (l' & -> & _). reflexivity.
Qed.

Lemma settable_put (h : value) (k k' : CrownPathElem) (v : value) :
  settable h k' -> settable (put h k v) k'.
Proof.
  destruct h as [| b | z | s | l | m | e], k as [key | i], k' as [key' | i'];
    simpl; trivial.
  rewrite list_put_length. trivial.
Qed.

Lemma py_getitem_key (m : list (value * value)) (k : string) :
  py_getitem (VDict m) (elem_value (Key k)) =
  match dict_get m (VStr k) with
  | Some v => inl v
  | None => inr KeyError
  end.
Proof. reflexivity. Qed.

Lemma py_getitem_idx (l : list value) (i : nat) :
  py_getitem (VList l) (elem_value (Idx i)) =
  match nth_error l i with
  | Some v => inl v
  | None => inr IndexError
  end.
Proof.
  simpl. unfold seq_get. cbn [as_int].
  destruct (Nat.lt_ge_cases i (List.length l)) as [H | H].
  - rewrite (seq_pos_of_nat _ _ H). reflexivity.
  - rewrite (seq_pos_beyond _ _ H).
    rewrite (proj2 (nth_error_None l i) H). reflexivity.
Qed.

Lemma slot_found (container : value) (k : CrownPathElem) (v : value) :
  slot_of container k = Some v ->
  py_getitem container (elem_value k) = inl v.
Proof.
  unfold slot_of. destruct (py_getitem container (elem_value k));
    [intros H; inversion H; reflexivity | discriminate].
Qed.

Lemma slot_missing (container : value) (k : CrownPathElem) :
  holds container k -> slot_of container k = None ->
  py_getitem container (elem_value k) =
  inr match k with Key _ => KeyError | Idx _ => IndexError end.
Proof.
  unfold slot_of.
  destruct container as [| b | z | s | l | m | e], k as [key | i];
    simpl holds; try contradiction; intros _.
  - rewrite py_getitem_idx.
    destruct (nth_error l i); [discriminate | reflexivity].
  - rewrite py_getitem_key.
    destruct (dict_get m (VStr key)); [discriminate | reflexivity].
Qed.

Lemma item_of_found (container : value) (k : CrownPathElem) (v : value) :
  slot_of container k = Some v -> item_of container k = v.
Proof. unfold item_of. intros ->. reflexivity. Qed.

(** *** Running the loop that collects undeclared keys *)

Lemma py_eqb_refl (v : value) : hashable v = true -> py_eqb v v = true.
Proof.
  destruct v as [| b | z | s | l | m | e]; simpl; try discriminate; intros _.
  - reflexivity.
  - destruct b; reflexivity.
  - apply Z.eqb_refl.
  - apply String.eqb_refl.
Qed.

Lemma dict_get_in (m : list (value * value)) (k : value) :
  In k (List.map fst m) -> py_eqb k k = true ->
  exists v, dict_get m k = Some v.
Proof.
  induction m as [|[k' v'] m IH]; simpl; intros H He; [contradiction |].
  destruct (py_eqb k' k) eqn:E; [eexists; reflexivity |].
  destruct H as [-> | H]; [congruence | exact (IH H He)].
Qed.

Lemma set_add_all_in (xs acc : list value) (x : value) :
  In x (set_add_all xs acc) -> In x xs \/ In x acc.
Proof.
  revert acc; induction xs as [|a xs IH]; intros acc H; simpl in H.
  - right; exact H.
  - apply IH in H as [H | H]; [left; right; exact H |].
    destruct (set_mem a acc); [right; exact H |].
    apply in_app_or in H as [H | [H | []]];
      [right; exact H | left; left; exact H].
Qed.

Definition readable (m : list (value * value)) (k : value) : Prop :=
  hashable k = true /\ exists x, dict_get m k = Some x.

Lemma undeclared_keys_readable (m : list (value * value))
    (map : list (string * InpCrown)) :
  Forall (fun kv => hashable (fst kv) = true) m ->
  Forall (readable m) (undeclared_keys m map).
Proof.
  intros Hm. apply Forall_forall. intros k Hk.
  unfold undeclared_keys, set_diff in Hk.
  apply filter_In in Hk as [Hk _].
  apply set_add_all_in in Hk as [Hk | []].
  assert (Hh : hashable k = true).
  { apply in_map_iff in Hk as ([k' v'] & <- & Hin).
    exact (proj1 (Forall_forall _ m) Hm (k', v') Hin). }
  split; [exact Hh |].
  apply dict_get_in; [exact Hk | apply py_eqb_refl; exact Hh].
Qed.

Definition collect_body (sd sx : option nat) : Code :=
  [S_assign (T_item (V_path B_extra sx) (I_var V_key))
            (E_getitem (V_path B_data sd) (I_var V_key))].

Lemma run_collect (ns : Namespace) (sd sx : option nat)
    (m : list (value * value)) (keys : list value) :
  Forall (readable m) keys ->
  forall (store : Store) (acc : list (value * value)),
    locals_get (locals store) (V_path B_data sd) = Some (VDict m) ->
    locals_get (locals store) (V_path B_extra sx) = Some (VDict acc) ->
    exists store',
      run_for (exec_stmt ns) (collect_body sd sx) keys store = (Done, store') /\
      locals_get (locals store') (V_path B_extra sx) =
        Some (VDict (collect_keys m keys acc)) /\
      (forall y, y <> V_path B_extra sx -> y <> V_key ->
                 locals_get (locals store') y = locals_get (locals store) y) /\
      errors store' = errors store /\
      calls store' = calls store /\
      has_unexpected_error store' = has_unexpected_error store.
Proof.
  induction 1 as [|k keys [Hh (x & Hx)] _ IH]; intros store acc HD HX.
  - exists store.
    split; [reflexivity | split; [exact HX | repeat split]].
  - set (s1 := set_local V_key k store).
    assert (H1 : read_var ns s1 (V_path B_data sd) = inl (VDict m)).
    { apply read_var_local. unfold s1.
      rewrite locals_get_set_local_other by discriminate. exact HD. }
    assert (H2 : read_var ns s1 V_key = inl k).
    { apply read_var_local. apply locals_get_set_local_same. }
    assert (H3 : read_var ns s1 (V_path B_extra sx) = inl (VDict acc)).
    { apply read_var_local. unfold s1.
      rewrite locals_get_set_local_other by discriminate. exact HX. }
    set (s2 := set_local (V_path B_extra sx) (VDict (dict_set acc k x)) s1).
    destruct (IH s2 (dict_set acc k x))
      as (store' & Hrun & Hx' & Hsame & Herr & Hcalls & Hun).
    { unfold s2. rewrite locals_get_set_local_other by discriminate.
      unfold s1. rewrite locals_get_set_local_other by discriminate. exact HD. }
    { unfold s2. apply locals_get_set_local_same. }
    exists store'. split; [| split; [| split; [| split; [| split]]]].
    + cbn [run_for]. fold s1. unfold collect_body at 1.
      cbn [run_block exec_stmt eval_expr eval_index].
      rewrite H1, H2. cbn [py_getitem]. rewrite Hh, Hx.
      cbn [lift_exc assign eval_index]. rewrite H3, H2.
      cbn [py_setitem]. rewrite Hh. fold s2. exact Hrun.
    + rewrite Hx'. unfold collect_keys. cbn [fold_left]. rewrite Hx.
      reflexivity.
    + intros y Hy Hk. rewrite (Hsame y Hy Hk). unfold s2.
      rewrite (locals_get_set_local_other _ _ _ _ (not_eq_sym Hy)).
      unfold s1. rewrite (locals_get_set_local_other _ _ _ _ (not_eq_sym Hk)).
      reflexivity.
    + rewrite Herr. reflexivity.
    + rewrite Hcalls. reflexivity.
    + rewrite Hun. reflexivity.
Qed.

(** * Further properties of the generator *)

(** ** A field whose position is present *)

(** The loader of a field is reachable under the name the code calls; the
    stub is not called by name. *)
Definition loader_bound (ns : Namespace) (id : string) (l : Loader) : Prop :=
  match l with
  | as_is_stub => True
  | LoaderFn _ => ns_get ns (V_field_loader id) = Some (NsLoader l)
  end.

Lemma eval_processing_expr_of (ns : Namespace) (l : Loader) (id : string)
    (arg : Expr) (a v : value) (store : Store) :
  loader_bound ns id l ->
  eval_expr ns arg store = (inl a, store) ->
  apply_loader l a = Loaded v ->
  eval_expr ns (processing_expr l id arg) store =
  (inl v, after_call l id a store).
Proof.
  intros Hns Ha Hv.
  destruct l as [|g]; unfold processing_expr, v_field_loader, after_call.
  - simpl in Hv. inversion Hv; subst. exact Ha.
  - cbn [eval_expr]. simpl in Hns. rewrite Hns, Ha, Hv. reflexivity.
Qed.

Lemma eval_processing_expr_failed (ns : Namespace) (l : Loader) (id : string)
    (arg : Expr) (a : value) (x : Exn) (store : Store) :
  loader_bound ns id l ->
  eval_expr ns arg store = (inl a, store) ->
  apply_loader l a = Failed x ->
  eval_expr ns (processing_expr l id arg) store =
  (inr x, after_call l id a store).
Proof.
  intros Hns Ha Hv.
  destruct l as [|g]; unfold processing_expr, v_field_loader, after_call.
  - simpl in Hv. discriminate.
  - cbn [eval_expr]. simpl in Hns. rewrite Hns, Ha, Hv. reflexivity.
Qed.

Lemma exec_field_assigment_item_loaded (ns : Namespace)
    (gen_mode state_mode : DebugTrail) (p : CrownPath) (c : Var) (k : string)
    (e : Expr) (v : value) (m : list (value * value)) (store store1 : Store) :
  eval_expr ns e store = (inl v, store1) ->
  read_var ns store1 c = inl (VDict m) ->
  exec ns (field_assigment_code gen_mode state_mode p
             (T_item c (I_const (VStr k))) e) store =
  (Done, set_local c (VDict (dict_set m (VStr k) v)) store1).
Proof.
  intros H Hc. destruct gen_mode; unfold field_assigment_code;
    rewrite exec_one; cbn [exec_stmt run_block]; rewrite H;
    cbn [assign eval_index]; rewrite Hc; reflexivity.
Qed.

Lemma exec_field_assigment_failed (ns : Namespace)
    (gen_mode state_mode : DebugTrail) (p : CrownPath) (t : Target) (e : Expr)
    (x : Exn) (store store1 : Store) :
  eval_expr ns e store = (inr x, store1) ->
  exec ns (field_assigment_code gen_mode state_mode p t e) store =
  match gen_mode with
  | NONE => (Throw x, store1)
  | FIRST | ALL => report state_mode (decorate state_mode p x) store1
  end.
Proof.
  intros H.
  assert (Hhandler :
    run_handlers (exec_stmt ns) x store1
      [([Cls_Exception], [report_stmt state_mode X_e p])] =
    report state_mode (decorate state_mode p x) store1).
  { cbn [run_handlers existsb exc_matches orb].
    change (run_block (exec_stmt ns) ?c ?s) with (exec ns c s).
    rewrite exec_one.
    rewrite (exec_report_stmt ns state_mode X_e p
               (set_caught (Some x) store1) x) by reflexivity.
    apply report_restoring_caught. }
  destruct gen_mode; unfold field_assigment_code; rewrite exec_one;
    cbn [exec_stmt run_block]; rewrite H; try reflexivity; exact Hhandler.
Qed.

Lemma read_var_after_call (ns : Namespace) (l : Loader) (id : string)
    (arg : value) (store : Store) (x : Var) :
  read_var ns (after_call l id arg store) x = read_var ns store x.
Proof. destruct l; reflexivity. Qed.

(** Where the value of a field goes: a variable of its own for a required
    field, an entry of [opt_fields] for an optional one. *)
Definition field_target (f : InputField) (id : string) : Target :=
  if is_required f then T_var (V_field id)
  else T_item V_opt_fields (I_const (VStr id)).

Lemma _gen_field_crown_eq (self : BuiltinInputExtractionGen) (id : string)
    (st : GenState) (pp q : CrownPath) (el : CrownPathElem) (n : nat)
    (f : InputField) (l : Loader) :
  _path st = pp ++ [el] ->
  _parent_path st = Some q ->
  len_known st el n ->
  name_to_field_get (_name_to_field st) id = Some f ->
  loaders_get (_field_loaders self) id = Some l ->
  _gen_field_crown self id st =
  (Ok [S_try
         [S_assign (T_var (V_raw_field id))
            (E_getitem (V_path B_data (suffix_of st q))
                       (I_const (elem_value el)))]
         (read_handlers self st el q n (negb (is_required f)))
         (field_assigment_code (_debug_trail self) (debug_trail st) (_path st)
            (field_target f id)
            (processing_expr l id (E_var (V_raw_field id))))],
   mark_checked q
     (alloc q (with_field_id_to_path
                 (assoc_set (field_id_to_path st) id (_path st)) st))).
Proof.
  intros Hp Hq Hn Hf Hl.
  pose proof (name_to_field_get_id _ _ _ Hf) as Hid.
  unfold _gen_field_crown.
  unfold bind at 1. rewrite (get_field_eq id st f Hf). cbv beta iota.
  set (s0 := with_field_id_to_path
               (assoc_set (field_id_to_path st) id (_path st)) st).
  unfold bind at 1.
  rewrite (_gen_assigment_from_parent_data_eq self (v_raw_field f)
             (negb (is_required f)) s0 pp q el n Hp Hq Hn).
  cbv beta iota. unfold bind at 1. rewrite Hid.
  rewrite (_gen_field_assigment_eq self _ id _ l _ Hl).
  cbv beta iota. unfold ret. cbn [fst snd].
  autorewrite with alloc.
  unfold v_raw_field, field_target. rewrite Hid.
  destruct (is_required f); reflexivity.
Qed.

Lemma exec_field_crown_present (self : BuiltinInputExtractionGen)
    (id : string) (st st' : GenState) (code : Code) (pp q : CrownPath)
    (el : CrownPathElem) (n : nat) (f : InputField) (l : Loader)
    (ns : Namespace) (store : Store) (parent raw v : value)
    (m : list (value * value)) :
  _path st = pp ++ [el] ->
  _parent_path st = Some q ->
  len_known st el n ->
  name_to_field_get (_name_to_field st) id = Some f ->
  loaders_get (_field_loaders self) id = Some l ->
  _gen_field_crown self id st = (Ok code, st') ->
  loader_bound ns id l ->
  read_var ns store (V_path B_data (suffix_of st q)) = inl parent ->
  py_getitem parent (elem_value el) = inl raw ->
  apply_loader l raw = Loaded v ->
  (is_required f = false ->
   locals_get (locals store) V_opt_fields = Some (VDict m)) ->
  let store1 := after_call l id raw (set_local (V_raw_field id) raw store) in
  exec ns code store =
    (Done,
     if is_required f then set_local (V_field id) v store1
     else set_local V_opt_fields (VDict (dict_set m (VStr id) v)) store1).
Proof.
  intros Hp Hq Hn Hf Hl Hgen Hns Hparent Hitem Hv Hopt store1.
  rewrite (_gen_field_crown_eq self id st pp q el n f l Hp Hq Hn Hf Hl) in Hgen.
  inversion Hgen; subst code st'; clear Hgen.
  rewrite exec_one.
  rewrite (exec_read_found ns _ _ _ _ _ _ _ _ Hparent Hitem).
  assert (Heval :
    eval_expr ns (processing_expr l id (E_var (V_raw_field id)))
              (set_local (V_raw_field id) raw store) = (inl v, store1)).
  { apply eval_processing_expr_of; [exact Hns | | exact Hv].
    cbn [eval_expr]. rewrite read_var_set_local_same. reflexivity. }
  unfold field_target. destruct (is_required f).
  - apply exec_field_assigment_loaded. exact Heval.
  - apply (exec_field_assigment_item_loaded ns _ _ _ _ _ _ _ m _ _ Heval).
    unfold store1. rewrite read_var_after_call.
    apply read_var_local.
    rewrite locals_get_set_local_other by discriminate.
    apply Hopt. reflexivity.
Qed.

(** X1: the code emitted for a field crown, run where the parent container
    has the field's position and the field's loader accepts what is there.
    The loader receives exactly the value at the position (the stub is not
    called: the value is taken as it is), and its result is bound to the
    field's variable for a required field and stored under the field's id in
    [opt_fields] for an optional one.  No error is reported in any mode. *)
Theorem field_crown_loads_present_value (self : BuiltinInputExtractionGen)
    (id : string) (st st' : GenState) (code : Code) (pp q : CrownPath)
    (el : CrownPathElem) (n : nat) (f : InputField) (l : Loader)
    (ns : Namespace) (store : Store) (parent raw v : value)
    (m : list (value * value)) :
  _path st = pp ++ [el] ->
  _parent_path st = Some q ->
  len_known st el n ->
  name_to_field_get (_name_to_field st) id = Some f ->
  loaders_get (_field_loaders self) id = Some l ->
  _gen_field_crown self id st = (Ok code, st') ->
  loader_bound ns id l ->
  read_var ns store (V_path B_data (suffix_of st q)) = inl parent ->
  py_getitem parent (elem_value el) = inl raw ->
  apply_loader l raw = Loaded v ->
  (is_required f = false ->
   locals_get (locals store) V_opt_fields = Some (VDict m)) ->
  let store1 := after_call l id raw (set_local (V_raw_field id) raw store) in
  exec ns code store =
    (Done,
     if is_required f then set_local (V_field id) v store1
     else set_local V_opt_fields (VDict (dict_set m (VStr id) v)) store1).
Proof.
  exact (exec_field_crown_present self id st st' code pp q el n f l ns store
           parent raw v m).
Qed.

Definition loaders_namespace : Namespace :=
  [(V_field_loader "f1", NsLoader identity_loader);
   (V_field_loader "f2", NsLoader identity_loader)].

Definition both_keys : value := VDict [(VStr "x", VInt 1); (VStr "y", VInt 2)].

Definition both_keys_store : Store :=
  set_local V_opt_fields (VDict [])
            (set_local (V_path B_data None) both_keys empty_store).

Lemma field_crown_loads_present_value_witness :
  exec loaders_namespace (code_of required_field_result) both_keys_store =
    (Done,
     set_local (V_field "f1") (VInt 1)
       (log_call "f1" (VInt 1)
          (set_local (V_raw_field "f1") (VInt 1) both_keys_store))) /\
  exec loaders_namespace (code_of optional_field_result) both_keys_store =
    (Done,
     set_local V_opt_fields (VDict [(VStr "f2", VInt 2)])
       (log_call "f2" (VInt 2)
          (set_local (V_raw_field "f2") (VInt 2) both_keys_store))).
Proof.
  split.
  - exact (field_crown_loads_present_value (optional_gen FIRST) "f1"
             (entering (optional_gen FIRST) "x" (InpFieldCrown "f1"))
             (snd required_field_result) (code_of required_field_result)
             [] [] (Key "x") 0 (mkField "f1" true) identity_loader
             loaders_namespace both_keys_store both_keys (VInt 1) (VInt 1) []
             eq_refl eq_refl I eq_refl eq_refl eq_refl eq_refl eq_refl eq_refl
             eq_refl (fun _ => eq_refl)).
  - exact (field_crown_loads_present_value (optional_gen FIRST) "f2"
             (entering (optional_gen FIRST) "y" (InpFieldCrown "f2"))
             (snd optional_field_result) (code_of optional_field_result)
             [] [] (Key "y") 0 (mkField "f2" false) identity_loader
             loaders_namespace both_keys_store both_keys (VInt 2) (VInt 2) []
             eq_refl eq_refl I eq_refl eq_refl eq_refl eq_refl eq_refl eq_refl
             eq_refl (fun _ => eq_refl)).
Defined.

(** ** A field whose loader rejects the value *)

(** X2: the code emitted for a field crown, run where the parent container
    has the field's position and the field's loader rejects what is there.
    The loader's error is reported with the path of the field in front of its
    trail when a debug trail is kept: it is raised in the modes [NONE]
    (bare) and [FIRST], and in mode [ALL] it is appended to [errors] and the
    run goes on with the field left unbound. *)
Theorem field_crown_reports_loader_error (self : BuiltinInputExtractionGen)
    (id : string) (st st' : GenState) (code : Code) (pp q : CrownPath)
    (el : CrownPathElem) (n : nat) (f : InputField) (l : Loader)
    (ns : Namespace) (store : Store) (parent raw : value) (x : Exn) :
  _path st = pp ++ [el] ->
  _parent_path st = Some q ->
  len_known st el n ->
  debug_trail st = _debug_trail self ->
  name_to_field_get (_name_to_field st) id = Some f ->
  loaders_get (_field_loaders self) id = Some l ->
  _gen_field_crown self id st = (Ok code, st') ->
  loader_bound ns id l ->
  read_var ns store (V_path B_data (suffix_of st q)) = inl parent ->
  py_getitem parent (elem_value el) = inl raw ->
  apply_loader l raw = Failed x ->
  exec ns code store =
    report (debug_trail st) (decorate (debug_trail st) (_path st) x)
           (after_call l id raw (set_local (V_raw_field id) raw store)).
Proof.
  intros Hp Hq Hn Hmode Hf Hl Hgen Hns Hparent Hitem Hv.
  rewrite (_gen_field_crown_eq self id st pp q el n f l Hp Hq Hn Hf Hl) in Hgen.
  inversion Hgen; subst code st'; clear Hgen.
  rewrite exec_one.
  rewrite (exec_read_found ns _ _ _ _ _ _ _ _ Hparent Hitem).
  rewrite (exec_field_assigment_failed ns _ _ _ _ _ x _
             (after_call l id raw (set_local (V_raw_field id) raw store))).
  - rewrite <- Hmode. destruct (debug_trail st); reflexivity.
  - apply eval_processing_expr_failed; [exact Hns | | exact Hv].
    cbn [eval_expr]. rewrite read_var_set_local_same. reflexivity.
Qed.

Definition rejecting_loader : Loader :=
  LoaderFn (fun _ => Failed (fresh (LoaderError "rejected"))).

Definition rejecting_gen (mode : DebugTrail) : BuiltinInputExtractionGen :=
  mkGen [mkField "f1" true]
        (mkLayout (InpDictCrown [("x", InpFieldCrown "f1")] ExtraIgnore)
                  NoExtraMove)
        mode false [("f1", rejecting_loader)].

Definition rejected_field_result : Res Code * GenState :=
  Eval vm_compute in
    _gen_field_crown (rejecting_gen FIRST) "f1"
      (entering (rejecting_gen FIRST) "x" (InpFieldCrown "f1")).

Definition rejecting_namespace : Namespace :=
  [(V_field_loader "f1", NsLoader rejecting_loader)].

Lemma field_crown_reports_loader_error_witness :
  exec rejecting_namespace (code_of rejected_field_result) both_keys_store =
    (Throw (mkExn (LoaderError "rejected") [Key "x"]),
     log_call "f1" (VInt 1)
       (set_local (V_raw_field "f1") (VInt 1) both_keys_store)).
Proof.
  exact (field_crown_reports_loader_error (rejecting_gen FIRST) "f1"
           (entering (rejecting_gen FIRST) "x" (InpFieldCrown "f1"))
           (snd rejected_field_result) (code_of rejected_field_result)
           [] [] (Key "x") 0 (mkField "f1" true) rejecting_loader
           rejecting_namespace both_keys_store both_keys (VInt 1)
           (fresh (LoaderError "rejected"))
           eq_refl eq_refl I eq_refl eq_refl eq_refl eq_refl eq_refl eq_refl
           eq_refl eq_refl).
Defined.

(** ** A field whose list item is absent *)

Lemma exec_on_missing_item (ns : Namespace) (mode : DebugTrail) (i n : nat)
    (q : CrownPath) (store : Store) (ignore : bool) :
  exec ns [on_lookup_error mode ignore (Idx i) q (X_NoRequiredItemsError n)]
       store =
  if ignore then (Done, store)
  else match mode with
       | ALL => (Done, store)
       | m => (Throw (decorate m q (fresh (NoRequiredItemsError n))), store)
       end.
Proof.
  rewrite exec_one. unfold on_lookup_error. destruct ignore; [reflexivity |].
  destruct mode; cbn [exec_stmt]; try reflexivity.
  rewrite (eval_err_with_trail_at ns FIRST (X_NoRequiredItemsError n) q store
             (fresh (NoRequiredItemsError n))) by reflexivity.
  reflexivity.
Qed.

(** A field crown at an index that the parent list does not have. *)
Lemma exec_field_crown_absent (self : BuiltinInputExtractionGen)
    (id : string) (i n : nat) (st st' : GenState) (code : Code)
    (pp q : CrownPath) (f : InputField) (l : Loader) (ns : Namespace)
    (store : Store) (items : list value) :
  _path st = pp ++ [Idx i] ->
  _parent_path st = Some q ->
  parent_len st = Some n ->
  name_to_field_get (_name_to_field st) id = Some f ->
  loaders_get (_field_loaders self) id = Some l ->
  _gen_field_crown self id st = (Ok code, st') ->
  read_var ns store (V_path B_data (suffix_of st q)) = inl (VList items) ->
  List.length items <= i ->
  exec ns code store =
    if is_required f then
      match debug_trail st with
      | ALL => (Done, store)
      | m => (Throw (decorate m q (fresh (NoRequiredItemsError n))), store)
      end
    else (Done, store).
Proof.
  intros Hp Hq Hn Hf Hl Hgen Hparent Hshort.
  rewrite (_gen_field_crown_eq self id st pp q (Idx i) n f l Hp Hq Hn Hf Hl)
    in Hgen.
  inversion Hgen; subst code st'; clear Hgen.
  rewrite exec_one.
  assert (Hitem : py_getitem (VList items) (elem_value (Idx i)) = inr IndexError).
  { rewrite py_getitem_idx.
    rewrite (proj2 (nth_error_None items i) Hshort). reflexivity. }
  rewrite (exec_read_failed ns _ _ _ _ _ _ _ _ Hparent Hitem).
  unfold read_handlers. cbn [read_errors app run_handlers existsb exc_matches
                              exn_kind fresh orb].
  fold (exec ns).
  pose proof (exec_on_missing_item ns (debug_trail st) i n q
                (set_caught (Some (fresh IndexError)) store)
                (negb (is_required f))) as Hrun.
  unfold exec in Hrun. rewrite Hrun. clear Hrun.
  destruct (is_required f); cbn [negb].
  - destruct (debug_trail st); destruct store; reflexivity.
  - destruct store; reflexivity.
Qed.

(** X3: the code emitted for a field crown at index [i] of a list crown, run
    where the parent container is a list too short to have the index.  For an
    optional field the code does nothing.  For a required field the modes
    [NONE] and [FIRST] raise [NoRequiredItemsError(n)], [n] being the number
    of items the parent crown declares: bare in mode [NONE], with the path of
    the parent in mode [FIRST]; mode [ALL] does nothing at the read: the
    statement emitted there is [pass], no error is appended and no loader is
    called. *)
Theorem field_crown_absent_item (self : BuiltinInputExtractionGen)
    (id : string) (i n : nat) (st st' : GenState) (code : Code)
    (pp q : CrownPath) (f : InputField) (l : Loader) (ns : Namespace)
    (store : Store) (items : list value) :
  _path st = pp ++ [Idx i] ->
  _parent_path st = Some q ->
  parent_len st = Some n ->
  name_to_field_get (_name_to_field st) id = Some f ->
  loaders_get (_field_loaders self) id = Some l ->
  _gen_field_crown self id st = (Ok code, st') ->
  read_var ns store (V_path B_data (suffix_of st q)) = inl (VList items) ->
  List.length items <= i ->
  exec ns code store =
    if is_required f then
      match debug_trail st with
      | ALL => (Done, store)
      | m => (Throw (decorate m q (fresh (NoRequiredItemsError n))), store)
      end
    else (Done, store).
Proof.
  exact (exec_field_crown_absent self id i n st st' code pp q f l ns store
           items).
Qed.

(** The tracker on entering the child at index [i] of the root. *)
Definition entering_item (self : BuiltinInputExtractionGen) (i : nat)
    (child : InpCrown) : GenState :=
  with_position [Idx i] (Some [])
    [crown (_name_layout self); child] (_create_state self []).

Definition third_item_first : Res Code * GenState :=
  Eval vm_compute in
    _gen_field_crown (list_gen FIRST ExtraForbid false) "c"
      (entering_item (list_gen FIRST ExtraForbid false) 2 (InpFieldCrown "c")).

Definition third_item_all : Res Code * GenState :=
  Eval vm_compute in
    _gen_field_crown (list_gen ALL ExtraForbid false) "c"
      (entering_item (list_gen ALL ExtraForbid false) 2 (InpFieldCrown "c")).

Lemma field_crown_absent_item_witness :
  exec [] (code_of third_item_first) two_items_store =
    (Throw (mkExn (NoRequiredItemsError 3) []), two_items_store) /\
  exec [] (code_of third_item_all) two_items_store = (Done, two_items_store).
Proof.
  split.
  - exact (field_crown_absent_item (list_gen FIRST ExtraForbid false) "c" 2 3
             (entering_item (list_gen FIRST ExtraForbid false) 2
                            (InpFieldCrown "c"))
             (snd third_item_first) (code_of third_item_first) [] []
             (mkField "c" true) identity_loader [] two_items_store
             [VInt 1; VInt 2]
             eq_refl eq_refl eq_refl eq_refl eq_refl eq_refl eq_refl
             (le_n 2)).
  - exact (field_crown_absent_item (list_gen ALL ExtraForbid false) "c" 2 3
             (entering_item (list_gen ALL ExtraForbid false) 2
                            (InpFieldCrown "c"))
             (snd third_item_all) (code_of third_item_all) [] []
             (mkField "c" true) identity_loader [] two_items_store
             [VInt 1; VInt 2]
             eq_refl eq_refl eq_refl eq_refl eq_refl eq_refl eq_refl
             (le_n 2)).
Defined.

(** ** Branch crowns without children *)

Definition is_instance (abc : AbcKind) (v : value) : bool :=
  match abc with
  | CollectionsMapping => is_mapping v
  | CollectionsSequence => is_sequence v
  end.

Lemma isinstance_check_raises (ns : Namespace) (mode : DebugTrail) (data : Var)
    (abc : AbcKind) (kind : ContainerKind) (p : CrownPath) (v : value)
    (store : Store) (rest : Code) :
  read_var ns store data = inl v ->
  is_instance abc v = false ->
  exec ns
    (S_if (C_not_isinstance data abc)
       [S_raise (with_trail_at mode (X_TypeLoadError kind) p)] [] :: rest)
    store
  = (Throw (decorate mode p (fresh (TypeLoadError kind))), store).
Proof.
  intros H Hv. rewrite exec_cons.
  destruct abc; cbn [exec_stmt eval_cond]; rewrite H; simpl in Hv; rewrite Hv;
    cbn [negb run_block exec_stmt];
    rewrite (@eval_err_with_trail_at ns mode _ p store
               (fresh (TypeLoadError kind))) by reflexivity;
    reflexivity.
Qed.

(** The store once a branch crown has set up its overflow holder, which it
    does only when the name layout moves extra data somewhere. *)
Definition init_holder (self : BuiltinInputExtractionGen) (x : Var)
    (v : value) (store : Store) : Store :=
  if _can_collect_extra self then set_local x v store else store.

Lemma read_var_init_holder (self : BuiltinInputExtractionGen) (ns : Namespace)
    (s : option nat) (h : value) (store : Store) (s' : option nat) :
  read_var ns (init_holder self (V_path B_extra s) h store) (V_path B_data s') =
  read_var ns store (V_path B_data s').
Proof. unfold init_holder. destruct (_can_collect_extra self); reflexivity. Qed.

Lemma gen_init_holder (self : BuiltinInputExtractionGen) (h : value)
    (st s : GenState) (code : Code) :
  (if _can_collect_extra self then
     extra <- v_extra ;; ret [S_assign (T_var extra) (E_const h)]
   else ret []) st = (Ok code, s) ->
  s = (if _can_collect_extra self then alloc (_path st) st else st) /\
  forall ns store,
    exec ns code store = (Done, init_holder self (extra_name st) h store).
Proof.
  unfold init_holder. destruct (_can_collect_extra self); intros H.
  - unfold bind in H. rewrite v_extra_eq in H. inversion H; subst.
    split; reflexivity.
  - inversion H; subst. split; reflexivity.
Qed.

(** X4: a dict crown that declares no key checks the type of its value by
    itself: the emitted code raises [TypeLoadError(dict)], with the crown's
    path when a debug trail is kept, when the value at the crown's position is
    not a mapping, at the root and below it, under every extra policy and in
    every mode. *)
Theorem childless_dict_crown_rejects_non_mapping
    (self : BuiltinInputExtractionGen)
    (dispatch : InpCrown -> CrownPathElem -> Gen Code)
    (policy : ExtraPolicy) (st st' : GenState) (code : Code) (ns : Namespace)
    (store : Store) (v : value) :
  _gen_dict_crown self dispatch [] policy st = (Ok code, st') ->
  is_mapping v = false ->
  let raised :=
    Throw (decorate (debug_trail st) (_path st) (fresh (TypeLoadError KDict))) in
  (_path st = [] ->
   read_var ns store (V_path B_data None) = inl v ->
   exec ns code store =
     (raised, init_holder self (V_path B_extra None) (VDict []) store)) /\
  (forall pp el q n parent,
     _path st = pp ++ [el] ->
     _parent_path st = Some q ->
     len_known st el n ->
     read_var ns store (parent_data_name st q) = inl parent ->
     py_getitem parent (elem_value el) = inl v ->
     exec ns code store =
       (raised,
        init_holder self (extra_name st) (VDict [])
                    (set_local (data_name st) v store))).
Proof.
  intros Hgen Hv raised. unfold _gen_dict_crown in Hgen.
  apply bind_ok in Hgen as (read & s1 & Hread & Hgen).
  apply bind_ok in Hgen as (init & s2 & Hinit & Hgen).
  apply bind_ok in Hgen as (children & s3 & Hch & Hgen).
  apply ret_ok in Hch as [<- <-].
  apply bind_ok in Hgen as (check & s4 & Hcheck & Hgen).
  apply bind_ok in Hgen as (extra & s5 & _ & Hgen).
  apply bind_ok in Hgen as (to_parent & s6 & _ & Hgen).
  apply ret_ok in Hgen as [<- _].
  destruct (gen_init_holder self (VDict []) s1 s2 init Hinit) as [Hs2 Hrun].
  unfold bind in Hcheck. rewrite v_data_eq, with_trail_eq in Hcheck.
  unfold ret in Hcheck. autorewrite with alloc in Hcheck.
  inversion Hcheck; subst check s4; clear Hcheck.
  assert (Hs2' : data_name s2 = data_name s1 /\ _path s2 = _path s1 /\
                 debug_trail s2 = debug_trail s1).
  { rewrite Hs2. unfold data_name.
    destruct (_can_collect_extra self); autorewrite with alloc; repeat split. }
  destruct Hs2' as (Hd & Hpath & Hmode).
  fold (data_name s2). rewrite Hd, Hpath, Hmode.
  split.
  - intros Hroot Hdata.
    rewrite (gen_read_own_data_root self st Hroot) in Hread.
    inversion Hread; subst read s1; clear Hread.
    cbn [app]. rewrite (exec_app_done ns _ _ _ _ (Hrun ns store)).
    subst raised. unfold extra_name, data_name. rewrite Hroot.
    cbn [suffix_of app].
    apply (isinstance_check_raises ns _ _ CollectionsMapping KDict _ v);
      [| exact Hv].
    rewrite read_var_init_holder. exact Hdata.
  - intros pp el q n parent Hp Hq Hn Hparent Hitem.
    rewrite (gen_read_own_data_eq self st pp q el n Hp Hq Hn) in Hread.
    inversion Hread; subst read s1; clear Hread.
    destruct (after_read_own_data st q) as (-> & -> & ->).
    cbn [app]. rewrite exec_cons.
    rewrite (exec_read_found ns _ _ _ _ _ _ [] _ Hparent Hitem).
    cbn [exec run_block].
    change (run_block (exec_stmt ns) ?c ?s) with (exec ns c s).
    rewrite (exec_app_done ns _ _ _ _ (Hrun ns _)).
    cbn [app].
    assert (Hx : extra_name (mark_checked q (alloc q (alloc (_path st) st))) =
                 extra_name st).
    { unfold extra_name. autorewrite with alloc.
      rewrite suffix_of_alloc_other by apply allocated_alloc.
      autorewrite with alloc. reflexivity. }
    rewrite Hx.
    apply (isinstance_check_raises ns _ _ CollectionsMapping KDict _ v);
      [| exact Hv].
    unfold extra_name, data_name. rewrite read_var_init_holder.
    apply read_var_set_local_same.
Qed.

Definition childless_gen : BuiltinInputExtractionGen :=
  mkGen []
        (mkLayout (InpDictCrown [("y", InpDictCrown [] ExtraIgnore)] ExtraIgnore)
                  NoExtraMove)
        FIRST false [].

Definition childless_root_result : Res Code * GenState :=
  Eval vm_compute in
    _gen_dict_crown childless_gen (_gen_crown_dispatch childless_gen) []
                    ExtraIgnore (_create_state childless_gen []).

Definition childless_nested_result : Res Code * GenState :=
  Eval vm_compute in
    _gen_dict_crown childless_gen (_gen_crown_dispatch childless_gen) []
                    ExtraIgnore
                    (entering childless_gen "y" (InpDictCrown [] ExtraIgnore)).

Definition number_input_store : Store :=
  set_local (V_path B_data None) (VInt 5) empty_store.

Definition number_item_store : Store :=
  set_local (V_path B_data None) (VDict [(VStr "y", VInt 5)]) empty_store.

Lemma childless_dict_crown_rejects_non_mapping_witness :
  exec [] (code_of childless_root_result) number_input_store =
    (Throw (mkExn (TypeLoadError KDict) []), number_input_store) /\
  exec [] (code_of childless_nested_result) number_item_store =
    (Throw (mkExn (TypeLoadError KDict) [Key "y"]),
     set_local (V_path B_data (Some 1)) (VInt 5) number_item_store).
Proof.
  split.
  - exact (proj1 (childless_dict_crown_rejects_non_mapping childless_gen
                    (_gen_crown_dispatch childless_gen) ExtraIgnore
                    (_create_state childless_gen [])
                    (snd childless_root_result) (code_of childless_root_result)
                    [] number_input_store (VInt 5) eq_refl eq_refl)
                 eq_refl eq_refl).
  - exact (proj2 (childless_dict_crown_rejects_non_mapping childless_gen
                    (_gen_crown_dispatch childless_gen) ExtraIgnore
                    (entering childless_gen "y" (InpDictCrown [] ExtraIgnore))
                    (snd childless_nested_result)
                    (code_of childless_nested_result)
                    [] number_item_store (VInt 5) eq_refl eq_refl)
                 [] (Key "y") [] 0 (VDict [(VStr "y", VInt 5)])
                 eq_refl eq_refl I eq_refl eq_refl).
Defined.

Lemma gen_strict_check (self : BuiltinInputExtractionGen) (st s : GenState)
    (code : Code) :
  (if _strict_coercion self then
     data <- v_data ;;
     x <- with_trail (X_TypeLoadError KList) None ;;
     ret [S_if (C_type_is_str data) [S_raise x] []]
   else ret []) st = (Ok code, s) ->
  s = (if _strict_coercion self then alloc (_path st) st else st) /\
  forall ns store v,
    read_var ns store (data_name st) = inl v ->
    type_is_str v = false ->
    exec ns code store = (Done, store).
Proof.
  destruct (_strict_coercion self); intros H.
  - unfold bind in H. rewrite v_data_eq, with_trail_eq in H.
    inversion H; subst. split; [reflexivity |].
    intros ns store v Hd Hv. rewrite exec_one. cbn [exec_stmt eval_cond].
    fold (data_name st). rewrite Hd, Hv. reflexivity.
  - inversion H; subst. split; [reflexivity |]. reflexivity.
Qed.

Lemma is_sequence_not_str (v : value) :
  is_sequence v = false -> type_is_str v = false.
Proof. destruct v; simpl; congruence. Qed.

Lemma names_alloc_own (st : GenState) :
  let s := alloc (_path st) st in
  data_name s = data_name st /\ extra_name s = extra_name st /\
  _path s = _path st /\ debug_trail s = debug_trail st.
Proof.
  cbv zeta. unfold data_name, extra_name. autorewrite with alloc.
  repeat split.
Qed.

Lemma names_after_read (st : GenState) (q : CrownPath) :
  let s1 := mark_checked q (alloc q (alloc (_path st) st)) in
  data_name s1 = data_name st /\ extra_name s1 = extra_name st /\
  _path s1 = _path st /\ debug_trail s1 = debug_trail st.
Proof.
  cbv zeta. unfold data_name, extra_name. autorewrite with alloc.
  rewrite suffix_of_alloc_other by apply allocated_alloc.
  autorewrite with alloc. repeat split.
Qed.

(** X5: a list crown that declares no item checks the type of its value by
    itself: the emitted code raises [TypeLoadError(list)], with the crown's
    path when a debug trail is kept, when the value at the crown's position is
    not a sequence, at the root and below it, under every extra policy, in
    every mode and with or without strict coercion. *)
Theorem childless_list_crown_rejects_non_sequence
    (self : BuiltinInputExtractionGen)
    (dispatch : InpCrown -> CrownPathElem -> Gen Code)
    (policy : ExtraPolicy) (st st' : GenState) (code : Code) (ns : Namespace)
    (store : Store) (v : value) :
  _gen_list_crown self dispatch [] policy st = (Ok code, st') ->
  is_sequence v = false ->
  let raised :=
    Throw (decorate (debug_trail st) (_path st) (fresh (TypeLoadError KList))) in
  (_path st = [] ->
   read_var ns store (V_path B_data None) = inl v ->
   exec ns code store =
     (raised, init_holder self (V_path B_extra None) (VList []) store)) /\
  (forall pp el q n parent,
     _path st = pp ++ [el] ->
     _parent_path st = Some q ->
     len_known st el n ->
     read_var ns store (parent_data_name st q) = inl parent ->
     py_getitem parent (elem_value el) = inl v ->
     exec ns code store =
       (raised,
        init_holder self (extra_name st) (VList [])
                    (set_local (data_name st) v store))).
Proof.
  intros Hgen Hv raised. unfold _gen_list_crown in Hgen.
  apply bind_ok in Hgen as (read & s1 & Hread & Hgen).
  apply bind_ok in Hgen as (strict & s2 & Hstrict & Hgen).
  apply bind_ok in Hgen as (init & s3 & Hinit & Hgen).
  apply bind_ok in Hgen as (children & s4 & Hch & Hgen).
  apply ret_ok in Hch as [<- <-].
  apply bind_ok in Hgen as (check & s5 & Hcheck & Hgen).
  apply bind_ok in Hgen as (len_check & s6 & _ & Hgen).
  apply bind_ok in Hgen as (to_parent & s7 & _ & Hgen).
  apply ret_ok in Hgen as [<- _].
  destruct (gen_strict_check self s1 s2 strict Hstrict) as [Hs2 Hpass].
  destruct (gen_init_holder self (extra_list_literal []) s2 s3 init Hinit)
    as [Hs3 Hrun].
  unfold bind in Hcheck. rewrite v_data_eq, with_trail_eq in Hcheck.
  unfold ret in Hcheck. autorewrite with alloc in Hcheck.
  inversion Hcheck; subst check s5; clear Hcheck.
  assert (Hn2 : data_name s2 = data_name s1 /\ extra_name s2 = extra_name s1 /\
                _path s2 = _path s1 /\ debug_trail s2 = debug_trail s1).
  { rewrite Hs2. destruct (_strict_coercion self);
      [apply names_alloc_own | repeat split]. }
  assert (Hn3 : data_name s3 = data_name s2 /\ extra_name s3 = extra_name s2 /\
                _path s3 = _path s2 /\ debug_trail s3 = debug_trail s2).
  { rewrite Hs3. destruct (_can_collect_extra self);
      [apply names_alloc_own | repeat split]. }
  destruct Hn2 as (Hd2 & Hx2 & Hp2 & Hm2), Hn3 as (Hd3 & Hx3 & Hp3 & Hm3).
  fold (data_name s3). rewrite Hd3, Hp3, Hm3, Hd2, Hp2, Hm2.
  rewrite Hx2 in Hrun. cbn [extra_list_literal List.map] in Hrun.
  pose proof (is_sequence_not_str v Hv) as Hstr.
  split.
  - intros Hroot Hdata.
    rewrite (gen_read_own_data_root self st Hroot) in Hread.
    inversion Hread; subst read s1; clear Hread.
    assert (Hd : read_var ns store (data_name st) = inl v).
    { unfold data_name. rewrite Hroot. exact Hdata. }
    cbn [app]. rewrite (exec_app_done ns _ _ _ _ (Hpass ns store v Hd Hstr)).
    rewrite (exec_app_done ns _ _ _ _ (Hrun ns store)).
    subst raised. unfold extra_name, data_name. rewrite Hroot.
    cbn [suffix_of app].
    apply (isinstance_check_raises ns _ _ CollectionsSequence KList _ v);
      [| exact Hv].
    rewrite read_var_init_holder. exact Hdata.
  - intros pp el q n parent Hp Hq Hn Hparent Hitem.
    rewrite (gen_read_own_data_eq self st pp q el n Hp Hq Hn) in Hread.
    inversion Hread; subst read s1; clear Hread.
    destruct (names_after_read st q) as (Hd1 & Hx1 & Hp1 & Hm1).
    rewrite Hd1 in *. rewrite Hx1 in *. rewrite Hp1, Hm1.
    cbn [app]. rewrite exec_cons.
    rewrite (exec_read_found ns _ _ _ _ _ _ [] _ Hparent Hitem).
    cbn [exec run_block].
    change (run_block (exec_stmt ns) ?c ?s) with (exec ns c s).
    rewrite (exec_app_done ns _ _ _ _
               (Hpass ns _ v (read_var_set_local_same ns _ v store) Hstr)).
    rewrite (exec_app_done ns _ _ _ _ (Hrun ns _)).
    cbn [app].
    apply (isinstance_check_raises ns _ _ CollectionsSequence KList _ v);
      [| exact Hv].
    unfold extra_name, data_name. rewrite read_var_init_holder.
    apply read_var_set_local_same.
Qed.

Definition childless_list_gen : BuiltinInputExtractionGen :=
  mkGen []
        (mkLayout (InpDictCrown [("y", InpListCrown [] ExtraIgnore)] ExtraIgnore)
                  NoExtraMove)
        FIRST true [].

Definition childless_list_root_result : Res Code * GenState :=
  Eval vm_compute in
    _gen_list_crown childless_list_gen (_gen_crown_dispatch childless_list_gen)
                    [] ExtraIgnore (_create_state childless_list_gen []).

Definition childless_list_nested_result : Res Code * GenState :=
  Eval vm_compute in
    _gen_list_crown childless_list_gen (_gen_crown_dispatch childless_list_gen)
                    [] ExtraIgnore
                    (entering childless_list_gen "y"
                              (InpListCrown [] ExtraIgnore)).

Lemma childless_list_crown_rejects_non_sequence_witness :
  exec [] (code_of childless_list_root_result) number_input_store =
    (Throw (mkExn (TypeLoadError KList) []), number_input_store) /\
  exec [] (code_of childless_list_nested_result) number_item_store =
    (Throw (mkExn (TypeLoadError KList) [Key "y"]),
     set_local (V_path B_data (Some 1)) (VInt 5) number_item_store).
Proof.
  split.
  - exact (proj1 (childless_list_crown_rejects_non_sequence childless_list_gen
                    (_gen_crown_dispatch childless_list_gen) ExtraIgnore
                    (_create_state childless_list_gen [])
                    (snd childless_list_root_result)
                    (code_of childless_list_root_result)
                    [] number_input_store (VInt 5) eq_refl eq_refl)
                 eq_refl eq_refl).
  - exact (proj2 (childless_list_crown_rejects_non_sequence childless_list_gen
                    (_gen_crown_dispatch childless_list_gen) ExtraIgnore
                    (entering childless_list_gen "y"
                              (InpListCrown [] ExtraIgnore))
                    (snd childless_list_nested_result)
                    (code_of childless_list_nested_result)
                    [] number_item_store (VInt 5) eq_refl eq_refl)
                 [] (Key "y") [] 0 (VDict [(VStr "y", VInt 5)])
                 eq_refl eq_refl I eq_refl eq_refl).
Defined.

(** ** Collecting the keys that a dict crown does not declare *)

Lemma py_eqb_sym (a b : value) : py_eqb a b = py_eqb b a.
Proof.
  destruct a, b; simpl; try reflexivity;
    first [apply String.eqb_sym | apply Z.eqb_sym].
Qed.

Lemma py_eqb_trans (a b c : value) :
  py_eqb a b = true -> py_eqb b c = true -> py_eqb a c = true.
Proof.
  destruct a, b; simpl; try discriminate; destruct c; simpl;
    try discriminate; intros H1 H2;
    try (apply Z.eqb_eq in H1; apply Z.eqb_eq in H2; apply Z.eqb_eq; congruence);
    try reflexivity.
  apply String.eqb_eq in H1; apply String.eqb_eq in H2; apply String.eqb_eq;
    congruence.
Qed.

Lemma py_eqb_congr (a b c : value) :
  py_eqb a b = true -> py_eqb a c = py_eqb b c.
Proof.
  intros H. destruct (py_eqb b c) eqn:E.
  - exact (py_eqb_trans a b c H E).
  - destruct (py_eqb a c) eqn:E'; [| reflexivity].
    rewrite py_eqb_sym in H. rewrite (py_eqb_trans b a c H E') in E.
    discriminate.
Qed.

Lemma set_mem_congr (a b : value) (s : list value) :
  py_eqb a b = true -> set_mem a s = set_mem b s.
Proof.
  intros H. unfold set_mem. induction s as [|x s IH]; simpl; [reflexivity |].
  rewrite IH, (py_eqb_congr a b x H). reflexivity.
Qed.

Lemma dict_get_congr (m : list (value * value)) (a b : value) :
  py_eqb a b = true -> dict_get m a = dict_get m b.
Proof.
  intros H. induction m as [|[k v] m IH]; simpl; [reflexivity |].
  rewrite IH, (py_eqb_sym k a), (py_eqb_sym k b), (py_eqb_congr a b k H).
  reflexivity.
Qed.

Lemma dict_get_dict_set (m : list (value * value)) (k v x : value) :
  dict_get (dict_set m k v) x = if py_eqb k x then Some v else dict_get m x.
Proof.
  induction m as [|[k' v'] m IH]; simpl; [reflexivity |].
  destruct (py_eqb k' k) eqn:E; simpl.
  - rewrite (py_eqb_congr k' k x E).
    destruct (py_eqb k x); reflexivity.
  - rewrite IH. destruct (py_eqb k' x) eqn:E1, (py_eqb k x) eqn:E2;
      try reflexivity.
    rewrite (py_eqb_sym k x) in E2.
    rewrite (py_eqb_trans k' x k E1 E2) in E. discriminate.
Qed.

Lemma set_mem_app (x : value) (a b : list value) :
  set_mem x (a ++ b) = set_mem x a || set_mem x b.
Proof. unfold set_mem. apply existsb_app. Qed.

Lemma set_mem_set_add_all (x : value) (xs acc : list value) :
  set_mem x (set_add_all xs acc) = set_mem x xs || set_mem x acc.
Proof.
  revert acc; induction xs as [|a xs IH]; intros acc; simpl; [reflexivity |].
  rewrite IH. change (existsb (py_eqb x) xs) with (set_mem x xs).
  destruct (set_mem a acc) eqn:Ea.
  - destruct (py_eqb x a) eqn:Ex; simpl; [| reflexivity].
    rewrite (set_mem_congr x a acc Ex), Ea. apply orb_true_r.
  - rewrite set_mem_app. simpl. rewrite orb_false_r.
    destruct (py_eqb x a), (set_mem x xs), (set_mem x acc); reflexivity.
Qed.

Lemma set_mem_set_diff (x : value) (a b : list value) :
  set_mem x (set_diff a b) = set_mem x a && negb (set_mem x b).
Proof.
  unfold set_diff. induction a as [|y a IH]; simpl; [reflexivity |].
  change (existsb (py_eqb x) a) with (set_mem x a).
  destruct (set_mem y b) eqn:Ey; simpl.
  - change (existsb (py_eqb x) ?l) with (set_mem x l). rewrite IH.
    destruct (py_eqb x y) eqn:Ex; simpl; [| reflexivity].
    rewrite (set_mem_congr x y b Ex), Ey. simpl. rewrite andb_false_r.
    reflexivity.
  - change (existsb (py_eqb x) ?l) with (set_mem x l). rewrite IH.
    destruct (py_eqb x y) eqn:Ex; simpl; [| reflexivity].
    rewrite (set_mem_congr x y b Ex), Ey. reflexivity.
Qed.

Lemma set_mem_keys (m : list (value * value)) (k : value) :
  set_mem k (List.map fst m) =
  match dict_get m k with Some _ => true | None => false end.
Proof.
  induction m as [|[k' v] m IH]; simpl; [reflexivity |].
  rewrite (py_eqb_sym k k'). destruct (py_eqb k' k); simpl; [reflexivity |].
  exact IH.
Qed.

Lemma collect_keys_lookup (m : list (value * value)) (keys : list value) :
  Forall (readable m) keys ->
  forall (acc : list (value * value)) (k : value),
    dict_get (collect_keys m keys acc) k =
    if set_mem k keys then dict_get m k else dict_get acc k.
Proof.
  induction 1 as [|key keys [Hh (x & Hx)] _ IH]; intros acc k.
  - reflexivity.
  - unfold collect_keys. cbn [fold_left]. rewrite Hx.
    fold (collect_keys m keys (dict_set acc key x)).
    rewrite IH, dict_get_dict_set. unfold set_mem. cbn [existsb].
    change (existsb (py_eqb k) keys) with (set_mem k keys).
    rewrite (py_eqb_sym k key).
    destruct (set_mem k keys); [rewrite orb_true_r; reflexivity |].
    rewrite orb_false_r.
    destruct (py_eqb key k) eqn:E; [| reflexivity].
    rewrite <- (dict_get_congr m key k E). symmetry. exact Hx.
Qed.

Lemma gen_dict_extra_collect (map : list (string * InpCrown)) (st : GenState) :
  exists st',
    gen_dict_extra map ExtraCollect st =
    (Ok [S_for_key (E_set_diff (data_name st) (known_keys_name st))
           (collect_body (suffix_of st (_path st)) (suffix_of st (_path st)))],
     st') /\
    ctx_namespace st' =
    ctx_namespace st ++
      [(known_keys_name st, NsValue (VSet (declared_keys map)))].
Proof.
  eexists. unfold gen_dict_extra.
  unfold bind at 1. unfold bind at 1. rewrite v_known_keys_eq. cbv beta iota.
  unfold ns_add, modify. cbv beta iota.
  unfold bind at 1. rewrite v_data_eq. cbv beta iota.
  unfold bind at 1. rewrite v_extra_eq. cbv beta iota.
  unfold bind at 1. rewrite v_known_keys_eq. cbv beta iota.
  unfold ret.
  repeat (rewrite ?alloc_with_ctx, ?suffix_of_with_ctx;
          cbn [_path debug_trail with_ctx_namespace ctx_namespace];
          autorewrite with alloc).
  unfold data_name, known_keys_name, collect_body, declared_keys.
  split; [reflexivity |].
  destruct (alloc_fields (_path st) st) as (_ & _ & _ & _ & _ & _ & -> & _).
  reflexivity.
Qed.

(** X6: what a dict crown with extra policy [Collect] does about extra keys.
    The generator puts the set of the keys the crown declares into the
    namespace under the crown's [known_keys] name.  The loop it emits, run
    where the crown's value is a mapping [m] with hashable keys and the
    crown's overflow holder is a mapping, copies into the holder every key of
    [m] that the crown does not declare, with the value [m] has there; the
    entries of the holder under other keys, the other variables but the loop
    variable [key], the errors and the calls made so far stay as they are. *)
Theorem collect_loop_copies_undeclared_keys (map : list (string * InpCrown))
    (st st' : GenState) (code : Code) (ns : Namespace) (store : Store)
    (m acc : list (value * value)) :
  gen_dict_extra map ExtraCollect st = (Ok code, st') ->
  read_var ns store (known_keys_name st) = inl (VSet (declared_keys map)) ->
  locals_get (locals store) (data_name st) = Some (VDict m) ->
  locals_get (locals store) (extra_name st) = Some (VDict acc) ->
  Forall (fun kv => hashable (fst kv) = true) m ->
  ctx_namespace st' =
    ctx_namespace st ++
      [(known_keys_name st, NsValue (VSet (declared_keys map)))] /\
  exists store' extra,
    exec ns code store = (Done, store') /\
    locals_get (locals store') (extra_name st) = Some (VDict extra) /\
    (forall k,
       dict_get extra k =
       if set_mem k (declared_keys map) then dict_get acc k
       else match dict_get m k with
            | Some x => Some x
            | None => dict_get acc k
            end) /\
    (forall y, y <> extra_name st -> y <> V_key ->
               locals_get (locals store') y = locals_get (locals store) y) /\
    errors store' = errors store /\
    calls store' = calls store.
Proof.
  intros Hgen Hknown Hdata Hextra Hkeys.
  destruct (gen_dict_extra_collect map st) as (s1 & Heq & Hctx).
  rewrite Heq in Hgen. inversion Hgen; subst code st'; clear Hgen Heq.
  split; [exact Hctx |].
  pose proof (undeclared_keys_readable m map Hkeys) as Hread.
  destruct (run_collect ns _ _ m _ Hread store acc Hdata Hextra)
    as (store' & Hrun & Hx & Hsame & Herr & Hcalls & _).
  exists store', (collect_keys m (undeclared_keys m map) acc).
  split; [| split; [exact Hx | split; [| split; [exact Hsame |
                                         split; [exact Herr | exact Hcalls]]]]].
  - rewrite exec_one. cbn [exec_stmt eval_expr].
    rewrite (read_var_local ns store _ _ Hdata). cbn [py_set].
    rewrite Hknown. fold (undeclared_keys m map). exact Hrun.
  - intros k. rewrite (collect_keys_lookup m _ Hread).
    unfold undeclared_keys.
    rewrite set_mem_set_diff, set_mem_set_add_all, set_mem_keys.
    unfold set_mem at 1. cbn [existsb]. rewrite orb_false_r.
    destruct (dict_get m k), (set_mem k (declared_keys map)); reflexivity.
Qed.

Definition collect_result : Res Code * GenState :=
  Eval vm_compute in
    gen_dict_extra [("x", InpFieldCrown "f1")] ExtraCollect
                   (_create_state (collecting_gen NONE) []).

Definition collect_input : list (value * value) :=
  [(VStr "x", VInt 1); (VStr "u", VInt 4)].

Definition collect_store : Store :=
  set_local (V_path B_extra None) (VDict [])
            (set_local (V_path B_data None) (VDict collect_input) empty_store).

Lemma collect_input_hashable :
  Forall (fun kv : value * value => hashable (fst kv) = true) collect_input.
Proof. repeat constructor. Qed.

Lemma collect_loop_copies_undeclared_keys_witness :
  ctx_namespace (snd collect_result) =
    [(V_path B_known_keys None, NsValue (VSet [VStr "x"]))] /\
  exists store' extra,
    exec (ctx_namespace (snd collect_result)) (code_of collect_result)
         collect_store = (Done, store') /\
    locals_get (locals store') (V_path B_extra None) = Some (VDict extra) /\
    (forall k,
       dict_get extra k =
       if set_mem k [VStr "x"] then None
       else match dict_get collect_input k with
            | Some x => Some x
            | None => None
            end) /\
    (forall y, y <> V_path B_extra None -> y <> V_key ->
               locals_get (locals store') y =
               locals_get (locals collect_store) y) /\
    errors store' = errors collect_store /\
    calls store' = calls collect_store.
Proof.
  exact (collect_loop_copies_undeclared_keys [("x", InpFieldCrown "f1")]
           (_create_state (collecting_gen NONE) []) (snd collect_result)
           (code_of collect_result) (ctx_namespace (snd collect_result))
           collect_store collect_input []
           eq_refl eq_refl eq_refl eq_refl
           collect_input_hashable).
Defined.

Example collect_loop_run :
  locals_get
    (locals (snd (exec (ctx_namespace (snd collect_result))
                       (code_of collect_result) collect_store)))
    (V_path B_extra None) = Some (VDict [(VStr "u", VInt 4)]).
Proof. vm_compute. reflexivity. Qed.

(** ** Handing the overflow of a crown to its parent *)

Lemma _gen_add_self_extra_to_parent_extra_eq (st : GenState)
    (pp q : CrownPath) (el : CrownPathElem) :
  _path st = pp ++ [el] ->
  _parent_path st = Some q ->
  allocated st (_path st) ->
  _gen_add_self_extra_to_parent_extra st =
  (Ok [S_assign (T_item (V_path B_extra (suffix_of st q))
                        (I_const (elem_value el)))
                (E_var (extra_name st))],
   alloc (_path st) (alloc q st)).
Proof.
  intros Hp Hq Ha. unfold _gen_add_self_extra_to_parent_extra.
  unfold bind at 1. rewrite path_eq. cbv beta iota.
  destruct (_path st) as [|a p] eqn:E.
  { destruct pp; discriminate. }
  unfold bind at 1. rewrite (v_parent_extra_eq st q Hq). cbv beta iota.
  unfold bind at 1. rewrite path_eq. cbv beta iota.
  rewrite alloc_path, E, Hp, last_path_elem_snoc.
  unfold bind at 1. unfold ret at 1. cbv beta iota.
  unfold bind at 1. rewrite v_extra_eq. cbv beta iota.
  rewrite alloc_path, E. unfold ret, extra_name. rewrite E, <- Hp.
  rewrite (suffix_of_alloc_other (a :: p) q st Ha). reflexivity.
Qed.

(** X7: how the overflow of a nested crown reaches its parent.  At the root
    nothing is emitted.  Below the root the one statement emitted stores the
    holder of the crown in the holder of the parent crown, under the crown's
    key when the parent holder is a mapping and at the crown's index when it
    is a list that has the index; nothing else changes. *)
Theorem nested_overflow_goes_under_own_key (st st' : GenState) (code : Code) :
  _gen_add_self_extra_to_parent_extra st = (Ok code, st') ->
  (_path st = [] -> code = []) /\
  (forall pp el q ns store h v,
     _path st = pp ++ [el] ->
     _parent_path st = Some q ->
     allocated st (_path st) ->
     read_var ns store (extra_name st) = inl v ->
     read_var ns store (V_path B_extra (suffix_of st q)) = inl h ->
     settable h el ->
     exec ns code store =
       (Done, set_local (V_path B_extra (suffix_of st q)) (put h el v) store)).
Proof.
  intros Hgen. split.
  - intros Hroot. unfold _gen_add_self_extra_to_parent_extra in Hgen.
    unfold bind in Hgen. rewrite path_eq, Hroot in Hgen.
    inversion Hgen. reflexivity.
  - intros pp el q ns store h v Hp Hq Ha Hv Hh Hset.
    rewrite (_gen_add_self_extra_to_parent_extra_eq st pp q el Hp Hq Ha)
      in Hgen.
    inversion Hgen; subst code st'; clear Hgen.
    rewrite exec_one. cbn [exec_stmt eval_expr]. rewrite Hv.
    cbn [assign eval_index]. rewrite Hh, (py_setitem_put h el v Hset).
    reflexivity.
Qed.

Definition nested_holder_state : GenState :=
  alloc [Key "y"]
    (entering (collecting_gen NONE) "y"
              (InpDictCrown [("z", InpFieldCrown "f2")] ExtraCollect)).

Definition to_parent_result : Res Code * GenState :=
  Eval vm_compute in _gen_add_self_extra_to_parent_extra nested_holder_state.

Definition holders_store : Store :=
  set_local (V_path B_extra (Some 1)) (VDict [(VStr "w", VInt 3)])
            (set_local (V_path B_extra None) (VDict []) empty_store).

Lemma nested_overflow_goes_under_own_key_witness :
  exec [] (code_of to_parent_result) holders_store =
    (Done,
     set_local (V_path B_extra None)
               (VDict [(VStr "y", VDict [(VStr "w", VInt 3)])]) holders_store).
Proof.
  exact (proj2 (nested_overflow_goes_under_own_key nested_holder_state
                  (snd to_parent_result) (code_of to_parent_result) eq_refl)
               [] (Key "y") [] [] holders_store (VDict [])
               (VDict [(VStr "w", VInt 3)])
               eq_refl eq_refl (or_intror (ex_intro _ 1 eq_refl))
               eq_refl eq_refl I).
Defined.

(** ** Extra targets when the root collects *)

Lemma read_var_set_local_other (ns : Namespace) (x y : Var) (v : value)
    (store : Store) :
  x <> y -> read_var ns (set_local x v store) y = read_var ns store y.
Proof.
  intros H. unfold read_var.
  rewrite (locals_get_set_local_other x y v store H). reflexivity.
Qed.

Lemma loaders_bound_at (self : BuiltinInputExtractionGen) (ns : Namespace)
    (id : string) (l : Loader) :
  loaders_bound self ns ->
  loaders_get (_field_loaders self) id = Some l ->
  loader_bound ns id l.
Proof. intros H Hl. destruct l; [exact I | exact (H _ _ Hl)]. Qed.

(** The loader of the field [t] accepts [v] and returns [r]. *)
Definition accepts (self : BuiltinInputExtractionGen) (t : string)
    (v r : value) : Prop :=
  exists l, loaders_get (_field_loaders self) t = Some l /\
            apply_loader l v = Loaded r.

Lemma exec_targets_collected (self : BuiltinInputExtractionGen)
    (ns : Namespace) (v : value) (targets : list string) :
  forall (st st' : GenState) (code : Code) (store : Store),
    _path st = [] ->
    gen_targets_collected self targets st = (Ok code, st') ->
    loaders_bound self ns ->
    (forall t, In t targets -> exists r, accepts self t v r) ->
    read_var ns store (V_path B_extra None) = inl v ->
    exists store',
      exec ns code store = (Done, store') /\
      calls store' =
        calls store ++
        List.map (fun t => (t, v)) (filter (calls_loader self) targets) /\
      (forall t r, In t targets -> accepts self t v r ->
                   locals_get (locals store') (V_field t) = Some r) /\
      (forall y, (forall t, In t targets -> y <> V_field t) ->
                 locals_get (locals store') y = locals_get (locals store) y) /\
      errors store' = errors store.
Proof.
  induction targets as [|t rest IH];
    intros st st' code store Hroot Hgen Hns Hall Hv.
  - inversion Hgen; subst. exists store.
    split; [reflexivity |]. split; [simpl; rewrite app_nil_r; reflexivity |].
    split; [intros t r [] |]. split; reflexivity.
  - cbn [gen_targets_collected] in Hgen.
    unfold bind at 1 in Hgen. unfold get at 1 in Hgen. cbv beta iota in Hgen.
    destruct (name_to_field_get (_name_to_field st) t) as [f|] eqn:Ef;
      [| discriminate].
    pose proof (name_to_field_get_id _ _ _ Ef) as Hid.
    unfold bind at 1 in Hgen. rewrite v_extra_eq, Hroot in Hgen.
    cbv beta iota in Hgen. cbn [suffix_of alloc] in Hgen.
    destruct (Hall t (or_introl eq_refl)) as (r & l & El & Hr).
    apply bind_ok in Hgen as (c & s1 & Hc & Hgen).
    rewrite (_gen_field_assigment_eq self _ t _ l st El) in Hc.
    inversion Hc; subst c s1; clear Hc.
    apply bind_ok in Hgen as (cs & s2 & Hcs & Hgen).
    apply ret_ok in Hgen as [<- _].
    rewrite Hid.
    set (store1 := set_local (V_field t) r (after_call l t v store)).
    assert (Hfirst :
      exec ns (field_assigment_code (_debug_trail self) (debug_trail st)
                 (_path st) (T_var (V_field t))
                 (processing_expr l t (E_var (V_path B_extra None)))) store =
      (Done, store1)).
    { apply exec_field_assigment_loaded.
      apply eval_processing_expr_of;
        [exact (loaders_bound_at self ns t l Hns El) | | exact Hr].
      cbn [eval_expr]. rewrite Hv. reflexivity. }
    destruct (IH st s2 cs store1 Hroot Hcs Hns
                 (fun u Hu => Hall u (or_intror Hu)))
      as (store' & Hrun & Hcalls & Hbound & Hother & Herr).
    { unfold store1. rewrite read_var_set_local_other by discriminate.
      rewrite read_var_after_call. exact Hv. }
    exists store'. split; [| split; [| split; [| split]]].
    + rewrite (exec_app_done ns _ cs store store1 Hfirst). exact Hrun.
    + rewrite Hcalls. unfold store1. cbn [calls set_local].
      rewrite calls_after_call. cbn [filter]. unfold calls_loader at 2.
      rewrite El. destruct l; cbn [List.map]; rewrite <- app_assoc;
        reflexivity.
    + intros u ru Hin Hu.
      destruct (in_dec string_dec u rest) as [Hrest | Hrest].
      * exact (Hbound u ru Hrest Hu).
      * destruct Hin as [<- | Hin]; [| contradiction].
        rewrite Hother.
        -- unfold store1. rewrite locals_get_set_local_same.
           destruct Hu as (l' & El' & Hr'). congruence.
        -- intros w Hw Heq. inversion Heq; subst w. exact (Hrest Hw).
    + intros y Hy. rewrite Hother by (intros u Hu; apply Hy; right; exact Hu).
      unfold store1.
      rewrite locals_get_set_local_other
        by (apply not_eq_sym, Hy; left; reflexivity).
      destruct l; reflexivity.
    + rewrite Herr. unfold store1. destruct l; reflexivity.
Qed.

(** X8: with [extra_move = Targets(targets)] and a root crown of policy
    [Collect], the code emitted by [_gen_extra_targets_assigment] hands the
    overflow holder of the root to the loader of every target, required or
    optional, in order.  Run where every target's loader accepts what the
    holder holds, it completes; it calls the loaders with the holder's value
    and nothing else; it binds every target to what its loader returned, in
    the target's own variable (never in [opt_fields]); and it leaves every
    other variable and the errors as they were. *)
Theorem collected_targets_receive_root_overflow
    (self : BuiltinInputExtractionGen) (targets : list string)
    (st st' : GenState) (code : Code) (ns : Namespace) (store : Store)
    (v : value) :
  extra_move (_name_layout self) = ExtraTargets targets ->
  root_policy (crown (_name_layout self)) = Some ExtraCollect ->
  _path st = [] ->
  _gen_extra_targets_assigment self st = (Ok code, st') ->
  loaders_bound self ns ->
  (forall t, In t targets -> exists r, accepts self t v r) ->
  read_var ns store (V_path B_extra None) = inl v ->
  exists store',
    exec ns code store = (Done, store') /\
    calls store' =
      calls store ++
      List.map (fun t => (t, v)) (filter (calls_loader self) targets) /\
    (forall t r, In t targets -> accepts self t v r ->
                 locals_get (locals store') (V_field t) = Some r) /\
    (forall y, (forall t, In t targets -> y <> V_field t) ->
               locals_get (locals store') y = locals_get (locals store) y) /\
    errors store' = errors store.
Proof.
  intros Hmove Hpolicy Hroot Hgen Hns Hall Hv.
  unfold _gen_extra_targets_assigment in Hgen. rewrite Hmove in Hgen.
  apply bind_ok in Hgen as (policy & s1 & Hp & Hgen).
  assert (policy = ExtraCollect /\ s1 = st) as [-> ->].
  { destruct (crown (_name_layout self)); simpl in Hpolicy, Hp;
      try discriminate; inversion Hpolicy; inversion Hp; subst; split;
      reflexivity. }
  exact (exec_targets_collected self ns v targets st st' code store
           Hroot Hgen Hns Hall Hv).
Qed.

(** A layout that routes extra data to the required field ["rest"] and the
    optional field ["more"], under a root that collects extra keys. *)
Definition collect_targets_gen : BuiltinInputExtractionGen :=
  mkGen [mkField "f1" true; mkField "rest" true; mkField "more" false]
        (mkLayout (InpDictCrown [("x", InpFieldCrown "f1")] ExtraCollect)
                  (ExtraTargets ["rest"; "more"]))
        FIRST false
        [("f1", identity_loader); ("rest", identity_loader);
         ("more", identity_loader)].

Definition collect_targets_result : Res Code * GenState :=
  Eval vm_compute in
    _gen_extra_targets_assigment collect_targets_gen
      (_create_state collect_targets_gen []).

Definition collect_targets_namespace : Namespace :=
  Eval vm_compute in proc_namespace (compiled collect_targets_gen).

Lemma collect_targets_loaders_bound :
  loaders_bound collect_targets_gen collect_targets_namespace.
Proof.
  intros id loader H.
  cbn [collect_targets_gen _field_loaders loaders_get] in H.
  destruct (String.eqb "f1" id) eqn:E1.
  { apply String.eqb_eq in E1; subst id. inversion H. reflexivity. }
  destruct (String.eqb "rest" id) eqn:E2.
  { apply String.eqb_eq in E2; subst id. inversion H. reflexivity. }
  destruct (String.eqb "more" id) eqn:E3; [| discriminate].
  apply String.eqb_eq in E3; subst id. inversion H. reflexivity.
Defined.

Definition overflow_held : value := VDict [(VStr "u", VInt 4)].

Lemma collect_targets_accept :
  forall t, In t ["rest"; "more"] ->
            exists r, accepts collect_targets_gen t overflow_held r.
Proof.
  intros t [<- | [<- | []]];
    exists overflow_held, identity_loader; split; reflexivity.
Defined.

Definition overflow_store : Store :=
  set_local (V_path B_extra None) overflow_held empty_store.

Lemma collected_targets_receive_root_overflow_witness :
  exists store',
    exec collect_targets_namespace (code_of collect_targets_result)
         overflow_store = (Done, store') /\
    calls store' =
      calls overflow_store ++
      List.map (fun t => (t, overflow_held))
               (filter (calls_loader collect_targets_gen) ["rest"; "more"]) /\
    (forall t r, In t ["rest"; "more"] ->
                 accepts collect_targets_gen t overflow_held r ->
                 locals_get (locals store') (V_field t) = Some r) /\
    (forall y, (forall t, In t ["rest"; "more"] -> y <> V_field t) ->
               locals_get (locals store') y =
               locals_get (locals overflow_store) y) /\
    errors store' = errors overflow_store.
Proof.
  exact (collected_targets_receive_root_overflow collect_targets_gen
           ["rest"; "more"] (_create_state collect_targets_gen [])
           (snd collect_targets_result) (code_of collect_targets_result)
           collect_targets_namespace overflow_store overflow_held
           eq_refl eq_refl eq_refl eq_refl collect_targets_loaders_bound
           collect_targets_accept eq_refl).
Defined.

Example collected_targets_run :
  let (c, st) := run (compiled collect_targets_gen)
                     (VDict [(VStr "x", VInt 1); (VStr "u", VInt 4)]) in
  c = Done /\
  calls st = [("f1", VInt 1); ("rest", overflow_held); ("more", overflow_held)] /\
  locals_get (locals st) (V_field "more") = Some overflow_held /\
  locals_get (locals st) V_opt_fields = None.
Proof. vm_compute. repeat split. Qed.

(** ** The end of the procedure in mode [ALL] *)

(** The statement that closes the procedure in mode [ALL]. *)
Definition epilogue_all : Code :=
  [S_if C_errors
     [S_if C_has_unexpected_error [S_raise X_CompatExceptionGroup] [];
      S_raise X_LoadExceptionGroup] []].

(** What the closing statement makes of the errors collected so far. *)
Definition finish (s : Store) : Completion * Store :=
  match errors s with
  | None => (Throw (fresh UnboundLocalError), s)
  | Some [] => (Done, s)
  | Some es =>
      match has_unexpected_error s with
      | None => (Throw (fresh UnboundLocalError), s)
      | Some true =>
          (Throw (fresh (CompatExceptionGroup
                           (List.map render_trail_as_note es))), s)
      | Some false =>
          (Throw (fresh (LoadExceptionGroup
                           (List.map render_trail_as_note es))), s)
      end
  end.

Lemma exec_epilogue_all (ns : Namespace) (s : Store) :
  exec ns epilogue_all s = finish s.
Proof.
  unfold epilogue_all, finish. rewrite exec_one. cbn [exec_stmt eval_cond].
  destruct (errors s) as [[|e es]|] eqn:E; cbn [List.length Nat.eqb negb];
    try reflexivity.
  cbn [run_block exec_stmt eval_cond].
  destruct (has_unexpected_error s) as [[|]|]; cbn [run_block exec_stmt eval_err];
    rewrite ?E; reflexivity.
Qed.

(** X9: in mode [ALL] the emitted procedure is a main part followed by one
    closing statement, and its outcome is this: an exception that leaves the
    main part leaves the procedure; when the main part completes, the
    procedure returns normally only if no error was collected, and otherwise
    raises a group holding exactly the collected errors, in order, each
    rendered with its trail: [CompatExceptionGroup] when an unexpected error
    was recorded, [LoadExceptionGroup] when none was. *)
Theorem all_mode_groups_collected_errors (self : BuiltinInputExtractionGen)
    (st st' : GenState) (code : Code) :
  call self st = (Ok code, st') ->
  _debug_trail self = ALL ->
  exists main,
    code = main ++ epilogue_all /\
    forall ns store,
      exec ns code store =
      match exec ns main store with
      | (Done, s) => finish s
      | thrown => thrown
      end.
Proof.
  intros H Hmode. unfold call in H. rewrite Hmode in H.
  apply bind_ok in H as (u & s1 & _ & H).
  apply bind_ok in H as (r & s2 & _ & H).
  destruct r as [body|]; [| discriminate].
  apply bind_ok in H as (targets & s3 & _ & H).
  apply ret_ok in H as [<- _].
  eexists. split.
  - rewrite !app_assoc. unfold epilogue_all. reflexivity.
  - intros ns store. rewrite !app_assoc. rewrite exec_app.
    destruct (exec ns _ store) as [[|e] s]; [| reflexivity].
    apply exec_epilogue_all.
Qed.

Lemma all_mode_groups_collected_errors_witness :
  exists main,
    code_of example_call = main ++ epilogue_all /\
    forall ns store,
      exec ns (code_of example_call) store =
      match exec ns main store with
      | (Done, s) => finish s
      | thrown => thrown
      end.
Proof.
  exact (all_mode_groups_collected_errors (example_gen ALL)
           (_create_state (example_gen ALL) []) (snd example_call)
           (code_of example_call) eq_refl eq_refl).
Defined.

(** Two required keys are absent: both are reported, in one group. *)
Example two_errors_one_group :
  fst (run (compiled (example_gen ALL)) (VDict [(VStr "y", VDict [])])) =
  Throw (mkExn (LoadExceptionGroup
                  [mkExn (NoRequiredFieldsError ["x"]) [];
                   mkExn (NoRequiredFieldsError ["z"]) [Key "y"]]) []).
Proof. vm_compute. reflexivity. Qed.

(** ** Names of the paths of one compilation *)

(** X10: in the tracker that a compilation leaves, the paths that received a
    suffix have pairwise different suffixes, none above the counter
    [_last_path_idx]; so the variables named after two different paths of the
    crown tree, the root among them, are different variables. *)
Theorem compiled_path_names_are_distinct (self : BuiltinInputExtractionGen)
    (ctx : Namespace) (code : Code) (st' : GenState) :
  call self (_create_state self ctx) = (Ok code, st') ->
  (forall p n, suffix_get (path_to_suffix st') p = Some n ->
               n <= _last_path_idx st') /\
  (forall b p q, allocated st' p -> allocated st' q ->
                 V_path b (suffix_of st' p) = V_path b (suffix_of st' q) ->
                 p = q).
Proof.
  intros H.
  destruct (plans_once_call self _ code st' H
              (tracker_ok__create_state self ctx)) as (Hok & _ & _).
  split.
  - exact (ok_bound st' Hok).
  - intros b p q Hp Hq Heq. inversion Heq as [Hs].
    exact (suffix_of_inj st' p q Hok Hp Hq Hs).
Qed.

Lemma compiled_path_names_are_distinct_witness :
  (forall p n, suffix_get (path_to_suffix (snd example_call)) p = Some n ->
               n <= _last_path_idx (snd example_call)) /\
  (forall b p q, allocated (snd example_call) p ->
                 allocated (snd example_call) q ->
                 V_path b (suffix_of (snd example_call) p) =
                 V_path b (suffix_of (snd example_call) q) ->
                 p = q).
Proof.
  exact (compiled_path_names_are_distinct (example_gen ALL) []
           (code_of example_call) (snd example_call) eq_refl).
Defined.

(** ** Every container that is read has its type check *)

(** A generator step that plans no type check. *)
Definition unplanned {A : Type} (m : Gen A) : Prop :=
  forall st a st', m st = (Ok a, st') ->
                   checked_type_paths st' = checked_type_paths st.

Lemma unplanned_ret {A : Type} (a : A) : unplanned (ret a).
Proof. intros st b st' H; apply ret_ok in H as [_ <-]; reflexivity. Qed.

Lemma unplanned_raise {A : Type} (e : PyErr) : unplanned (@raise A e).
Proof. intros st b st' H; discriminate. Qed.

Lemma unplanned_get : unplanned get.
Proof. intros st a st' H; inversion H; reflexivity. Qed.

Lemma unplanned_bind {A B : Type} (m : Gen A) (k : A -> Gen B) :
  unplanned m -> (forall a, unplanned (k a)) -> unplanned (bind m k).
Proof.
  intros Hm Hk st b st' H; apply bind_ok in H as (a & s & H1 & H2).
  rewrite (Hk a s b st' H2). exact (Hm st a s H1).
Qed.

Lemma unplanned_modify (f : GenState -> GenState) :
  (forall st, checked_type_paths (f st) = checked_type_paths st) ->
  unplanned (modify f).
Proof. intros Hf st a st' H; inversion H; apply Hf. Qed.

Lemma unplanned__with_path_suffix (b : Basis) (p : CrownPath) :
  unplanned (_with_path_suffix b p).
Proof.
  intros st a st' H. rewrite _with_path_suffix_eq in H. inversion H.
  apply alloc_checked.
Qed.

Create HintDb unplanned.

Ltac unplanned_step :=
  lazymatch goal with
  | |- unplanned (ret _) => apply unplanned_ret
  | |- unplanned (raise _) => apply unplanned_raise
  | |- unplanned get => apply unplanned_get
  | |- unplanned (bind _ _) => apply unplanned_bind; [| intros ?]
  | |- unplanned (modify _) => apply unplanned_modify; intros ?; reflexivity
  | |- unplanned (_with_path_suffix _ _) => apply unplanned__with_path_suffix
  | |- unplanned (match ?x with _ => _ end) => destruct x
  | |- unplanned (let '(_, _) := ?x in _) => destruct x
  | |- unplanned _ => solve [auto with unplanned]
  end.

Ltac unplanned_auto := repeat unplanned_step.

Lemma unplanned_path : unplanned path.
Proof. unfold path; unplanned_auto. Qed.

Lemma unplanned_parent_path : unplanned parent_path.
Proof. unfold parent_path; unplanned_auto. Qed.
#[local] Hint Resolve unplanned_path unplanned_parent_path : unplanned.

Lemma unplanned_v_data : unplanned v_data.
Proof. unfold v_data; unplanned_auto. Qed.

Lemma unplanned_v_known_keys : unplanned v_known_keys.
Proof. unfold v_known_keys; unplanned_auto. Qed.

Lemma unplanned_v_extra : unplanned v_extra.
Proof. unfold v_extra; unplanned_auto. Qed.

Lemma unplanned_v_parent_extra : unplanned v_parent_extra.
Proof. unfold v_parent_extra; unplanned_auto. Qed.
#[local] Hint Resolve unplanned_v_data unplanned_v_known_keys unplanned_v_extra
  unplanned_v_parent_extra : unplanned.

Lemma unplanned_last_path_elem (p : CrownPath) : unplanned (last_path_elem p).
Proof. unfold last_path_elem; unplanned_auto. Qed.

Lemma unplanned_crown_extra_policy (c : InpCrown) :
  unplanned (crown_extra_policy c).
Proof. unfold crown_extra_policy; unplanned_auto. Qed.

Lemma unplanned_get_field (id : string) : unplanned (get_field id).
Proof. unfold get_field; unplanned_auto. Qed.

Lemma unplanned_with_trail (x : ErrExpr) (p : option CrownPath) :
  unplanned (with_trail x p).
Proof. unfold with_trail; unplanned_auto. Qed.
#[local] Hint Resolve unplanned_last_path_elem unplanned_crown_extra_policy
  unplanned_get_field unplanned_with_trail : unplanned.

Lemma unplanned_emit_error (x : ErrExpr) : unplanned (emit_error x).
Proof. unfold emit_error; unplanned_auto. Qed.

Lemma unplanned_ns_add (name : Var) (obj : NsObj) : unplanned (ns_add name obj).
Proof. unfold ns_add; unplanned_auto. Qed.
#[local] Hint Resolve unplanned_emit_error unplanned_ns_add : unplanned.

Lemma unplanned__gen_field_assigment (self : BuiltinInputExtractionGen)
    (t : Target) (id : string) (arg : Expr) :
  unplanned (_gen_field_assigment self t id arg).
Proof. unfold _gen_field_assigment; unplanned_auto. Qed.

Lemma unplanned_to_parent : unplanned _gen_add_self_extra_to_parent_extra.
Proof. unfold _gen_add_self_extra_to_parent_extra; unplanned_auto. Qed.

Lemma unplanned_gen_dict_extra (m : list (string * InpCrown)) (p : ExtraPolicy) :
  unplanned (gen_dict_extra m p).
Proof. unfold gen_dict_extra; unplanned_auto. Qed.

Lemma unplanned_gen_list_len_check (n : nat) (p : ExtraPolicy) :
  unplanned (gen_list_len_check n p).
Proof. unfold gen_list_len_check; unplanned_auto. Qed.
#[local] Hint Resolve unplanned__gen_field_assigment unplanned_to_parent
  unplanned_gen_dict_extra unplanned_gen_list_len_check : unplanned.

(** [covers st code st']: every container whose check was planned between
    the tracker states [st] and [st'] has a type check in [code]. *)
Definition covers (st : GenState) (code : Code) (st' : GenState) : Prop :=
  forall q,
    path_in q (checked_type_paths st) = false ->
    path_in q (checked_type_paths st') = true ->
    1 <= type_checks (suffix_of st' q) code.

Definition sure (st : GenState) (code : Code) (st' : GenState) : Prop :=
  tracker_ok st -> tracker_ok st' /\ extends st st' /\ covers st code st'.

Definition plans_surely (m : Gen Code) : Prop :=
  forall st code st', m st = (Ok code, st') -> sure st code st'.

Lemma sure_app (st s1 s2 : GenState) (c1 c2 : Code) :
  sure st c1 s1 -> sure s1 c2 s2 -> sure st (c1 ++ c2) s2.
Proof.
  intros H1 H2 Hok.
  destruct (H1 Hok) as (Hok1 & He1 & Hc1).
  destruct (H2 Hok1) as (Hok2 & He2 & Hc2).
  split; [exact Hok2 |]. split; [exact (extends_trans _ _ _ He1 He2) |].
  intros q Hu Hc. rewrite type_checks_app.
  destruct (path_in q (checked_type_paths s1)) eqn:E.
  - pose proof (Hc1 q Hu E) as Hge.
    rewrite (suffix_of_extends _ _ _ He2 (ok_checked s1 Hok1 q E)). lia.
  - pose proof (Hc2 q E Hc). lia.
Qed.

Lemma sure_unplanned {A : Type} (m : Gen A) (st st' : GenState) (a : A)
    (code : Code) :
  tracks m -> unplanned m -> m st = (Ok a, st') -> sure st code st'.
Proof.
  intros Ht Hu H Hok. destruct (Ht st a st' H Hok) as [Hok' He].
  split; [exact Hok' |]. split; [exact He |].
  intros q Hq Hq'. rewrite (Hu st a st' H) in Hq'. congruence.
Qed.

Lemma sure_refl (st : GenState) (code : Code) : sure st code st.
Proof.
  intros Hok. split; [exact Hok |]. split; [apply extends_refl |].
  intros q Hq Hq'. congruence.
Qed.

Lemma suffix_eqb_refl (s : option nat) : suffix_eqb s s = true.
Proof. destruct s; simpl; [apply Nat.eqb_refl | reflexivity]. Qed.

Lemma sure_read (self : BuiltinInputExtractionGen) (assign_to : Var)
    (ignore : bool) (st st' : GenState) (r : list Stmt * list Handler)
    (orelse : Code) :
  _gen_assigment_from_parent_data self assign_to ignore st = (Ok r, st') ->
  sure st [S_try (fst r) (snd r) orelse] st'.
Proof.
  intros H Hok.
  destruct (_gen_assigment_from_parent_data_ok self assign_to ignore st st' r H)
    as (pp & el & q & n & Hp & Hq & Hn).
  rewrite (_gen_assigment_from_parent_data_eq self assign_to ignore st pp q el n
             Hp Hq Hn) in H.
  inversion H; subst r st'; clear H. cbn [fst snd].
  destruct (tracker_ok_alloc q st Hok) as [Hok1 He1].
  destruct (tracker_ok_mark_checked q (alloc q st) Hok1 (allocated_alloc q st))
    as [Hok2 He2].
  split; [exact Hok2 |]. split; [exact (extends_trans _ _ _ He1 He2) |].
  intros x Hu Hc.
  rewrite path_in_mark_checked, alloc_checked, Hu in Hc. simpl in Hc.
  apply CrownPath_eqb_eq in Hc. subst x.
  autorewrite with alloc.
  unfold type_checks. cbn [List.map list_sum checks_in reads_from].
  rewrite suffix_eqb_refl.
  assert (Hhas :
    existsb handles_type_error (read_handlers self st el q n ignore) =
    negb (path_in q (checked_type_paths st))).
  { unfold read_handlers, bad_type_handlers, unexpected_handlers.
    destruct el; cbn [read_errors];
      destruct (path_in q (checked_type_paths st)), (_debug_trail self);
      reflexivity. }
  rewrite Hhas, Hu. simpl. lia.
Qed.

Section PlansSurely.

Variable self : BuiltinInputExtractionGen.

Lemma plans_surely_read_own_data : plans_surely (gen_read_own_data self).
Proof.
  intros st code st' H. unfold gen_read_own_data in H.
  apply bind_ok in H as (p & s0 & Hp & H). inversion Hp; subst p s0; clear Hp.
  destruct (_path st) as [|a p] eqn:E.
  - apply ret_ok in H as [<- <-]. apply sure_refl.
  - apply bind_ok in H as (data & s1 & Hd & H).
    apply bind_ok in H as (read & s2 & Hr & H).
    apply ret_ok in H as [<- <-].
    apply (sure_app st s1 s2 [] _).
    + exact (sure_unplanned v_data st s1 data [] tracks_v_data
               unplanned_v_data Hd).
    + exact (sure_read self data false s1 s2 read [] Hr).
Qed.

Lemma plans_surely__gen_field_crown (id : string) :
  plans_surely (_gen_field_crown self id).
Proof.
  intros st code st' H. unfold _gen_field_crown in H.
  apply bind_ok in H as (f & s0 & Hf & H).
  apply bind_ok in H as (read & s1 & Hr & H).
  apply bind_ok in H as (orelse & s2 & Ho & H).
  apply ret_ok in H as [<- <-].
  apply (sure_app st s0 s2 [] _).
  { exact (sure_unplanned (get_field id) st s0 f [] (tracks_get_field id)
             (unplanned_get_field id) Hf). }
  rewrite <- (app_nil_r [S_try (fst read) (snd read) orelse]).
  apply (sure_app s0 s1 s2 _ []).
  - exact (sure_read self _ _ s0 s1 read orelse Hr).
  - exact (sure_unplanned _ s1 s2 orelse []
             (tracks__gen_field_assigment self _ _ _)
             (unplanned__gen_field_assigment self _ _ _) Ho).
Qed.

Lemma unplanned_init_holder (h : value) :
  unplanned (if _can_collect_extra self then
               extra <- v_extra ;; ret [S_assign (T_var extra) (E_const h)]
             else ret []).
Proof. unplanned_auto. Qed.

Lemma tracks_init_holder (h : value) :
  tracks (if _can_collect_extra self then
            extra <- v_extra ;; ret [S_assign (T_var extra) (E_const h)]
          else ret []).
Proof. tracks_auto. Qed.

Lemma unplanned_type_check (kind : ContainerKind) (abc : AbcKind) :
  unplanned (data <- v_data ;;
             x <- with_trail (X_TypeLoadError kind) None ;;
             ret [S_if (C_not_isinstance data abc) [S_raise x] []]).
Proof. unplanned_auto. Qed.

Lemma unplanned_strict_check :
  unplanned (if _strict_coercion self then
               data <- v_data ;;
               x <- with_trail (X_TypeLoadError KList) None ;;
               ret [S_if (C_type_is_str data) [S_raise x] []]
             else ret []).
Proof. unplanned_auto. Qed.

Lemma unplanned_hand_over :
  unplanned (if _can_collect_extra self then _gen_add_self_extra_to_parent_extra
             else ret []).
Proof. unplanned_auto. Qed.

Section SureChildren.

Variable dispatch : InpCrown -> CrownPathElem -> Gen Code.

Lemma plans_surely_dict_children (m : list (string * InpCrown)) :
  Forall (fun kv => forall k, plans_surely (dispatch (snd kv) k)) m ->
  plans_surely (gen_dict_children dispatch m).
Proof.
  induction 1 as [|[key value] rest Hx _ IH]; intros st code st' H;
    cbn [gen_dict_children] in H.
  - apply ret_ok in H as [<- <-]. apply sure_refl.
  - apply bind_ok in H as (c & s1 & Hc & H).
    apply bind_ok in H as (cs & s2 & Hcs & H).
    apply ret_ok in H as [<- <-].
    exact (sure_app st s1 s2 c cs (Hx (Key key) st c s1 Hc) (IH s1 cs s2 Hcs)).
Qed.

Lemma plans_surely_list_children (m : list InpCrown) :
  Forall (fun x => forall k, plans_surely (dispatch x k)) m ->
  forall i, plans_surely (gen_list_children dispatch i m).
Proof.
  induction 1 as [|value rest Hx _ IH]; intros i st code st' H;
    cbn [gen_list_children] in H.
  - apply ret_ok in H as [<- <-]. apply sure_refl.
  - apply bind_ok in H as (c & s1 & Hc & H).
    apply bind_ok in H as (cs & s2 & Hcs & H).
    apply ret_ok in H as [<- <-].
    exact (sure_app st s1 s2 c cs (Hx (Idx i) st c s1 Hc)
             (IH (S i) s1 cs s2 Hcs)).
Qed.

Lemma plans_surely__gen_dict_crown (m : list (string * InpCrown))
    (p : ExtraPolicy) :
  plans_surely (gen_dict_children dispatch m) ->
  plans_surely (_gen_dict_crown self dispatch m p).
Proof.
  intros Hchildren st code st' H. unfold _gen_dict_crown in H.
  apply bind_ok in H as (read & s1 & Hread & H).
  apply bind_ok in H as (init & s2 & Hinit & H).
  apply bind_ok in H as (children & s3 & Hch & H).
  apply bind_ok in H as (check & s4 & Hcheck & H).
  apply bind_ok in H as (extra & s5 & Hextra & H).
  apply bind_ok in H as (to_parent & s6 & Hto & H).
  apply ret_ok in H as [<- <-].
  apply (sure_app st s1 s6 _ _ (plans_surely_read_own_data st read s1 Hread)).
  apply (sure_app s1 s2 s6 _ _
           (sure_unplanned _ s1 s2 init init (tracks_init_holder _)
              (unplanned_init_holder _) Hinit)).
  apply (sure_app s2 s3 s6 _ _ (Hchildren s2 children s3 Hch)).
  apply (sure_app s3 s4 s6 check _).
  { destruct m.
    - exact (sure_unplanned _ s3 s4 check check
               (proj1 (quiet_type_check KDict CollectionsMapping))
               (unplanned_type_check KDict CollectionsMapping) Hcheck).
    - apply ret_ok in Hcheck as [_ <-]. apply sure_refl. }
  apply (sure_app s4 s5 s6 _ _
           (sure_unplanned _ s4 s5 extra extra
              (proj1 (quiet_gen_dict_extra m p))
              (unplanned_gen_dict_extra m p) Hextra)).
  exact (sure_unplanned _ s5 s6 to_parent to_parent
           (proj1 (quiet_to_parent self)) unplanned_hand_over Hto).
Qed.

Lemma plans_surely__gen_list_crown (m : list InpCrown) (p : ExtraPolicy) :
  plans_surely (gen_list_children dispatch 0 m) ->
  plans_surely (_gen_list_crown self dispatch m p).
Proof.
  intros Hchildren st code st' H. unfold _gen_list_crown in H.
  apply bind_ok in H as (read & s1 & Hread & H).
  apply bind_ok in H as (strict & s2 & Hstrict & H).
  apply bind_ok in H as (init & s3 & Hinit & H).
  apply bind_ok in H as (children & s4 & Hch & H).
  apply bind_ok in H as (check & s5 & Hcheck & H).
  apply bind_ok in H as (len_check & s6 & Hlen & H).
  apply bind_ok in H as (to_parent & s7 & Hto & H).
  apply ret_ok in H as [<- <-].
  apply (sure_app st s1 s7 _ _ (plans_surely_read_own_data st read s1 Hread)).
  apply (sure_app s1 s2 s7 _ _
           (sure_unplanned _ s1 s2 strict strict
              (proj1 (quiet_strict_check self)) unplanned_strict_check Hstrict)).
  apply (sure_app s2 s3 s7 _ _
           (sure_unplanned _ s2 s3 init init (tracks_init_holder _)
              (unplanned_init_holder _) Hinit)).
  apply (sure_app s3 s4 s7 _ _ (Hchildren s3 children s4 Hch)).
  apply (sure_app s4 s5 s7 check _).
  { destruct m.
    - exact (sure_unplanned _ s4 s5 check check
               (proj1 (quiet_type_check KList CollectionsSequence))
               (unplanned_type_check KList CollectionsSequence) Hcheck).
    - apply ret_ok in Hcheck as [_ <-]. apply sure_refl. }
  apply (sure_app s5 s6 s7 _ _
           (sure_unplanned _ s5 s6 len_check len_check
              (proj1 (quiet_gen_list_len_check (List.length m) p))
              (unplanned_gen_list_len_check (List.length m) p) Hlen)).
  exact (sure_unplanned _ s6 s7 to_parent to_parent
           (proj1 (quiet_to_parent self)) unplanned_hand_over Hto).
Qed.

End SureChildren.

End PlansSurely.

Lemma plans_surely_add_key (c : InpCrown) (k : CrownPathElem)
    (block : Gen Code) :
  plans_surely block -> plans_surely (add_key c k block).
Proof.
  intros Hb st code st' H. unfold add_key in H.
  apply bind_ok in H as (s & s0 & Hg & H). inversion Hg; subst s s0; clear Hg.
  apply bind_ok in H as (u & s1 & Hm1 & H).
  apply bind_ok in H as (r & s2 & Hblock & H).
  apply bind_ok in H as (u' & s3 & Hm2 & H).
  apply ret_ok in H as [<- <-].
  apply (sure_app st s1 s3 [] _).
  { refine (sure_unplanned _ st s1 u [] _ _ Hm1).
    - apply tracks_modify. intros ?. repeat split.
    - apply unplanned_modify. intros ?. reflexivity. }
  rewrite <- (app_nil_r r).
  apply (sure_app s1 s2 s3 r [] (Hb s1 r s2 Hblock)).
  refine (sure_unplanned _ s2 s3 u' [] _ _ Hm2).
  - apply tracks_modify. intros ?. repeat split.
  - apply unplanned_modify. intros ?. reflexivity.
Qed.

Lemma plans_surely__gen_crown_dispatch (self : BuiltinInputExtractionGen)
    (c : InpCrown) :
  forall k, plans_surely (_gen_crown_dispatch self c k).
Proof.
  induction c as [m p IH | m p IH | id |] using InpCrown_tree_ind;
    intros k; rewrite _gen_crown_dispatch_eq; apply plans_surely_add_key;
    intros st code st' H; unfold _gen_root_crown_dispatch in H.
  - apply bind_ok in H as (r & s1 & Hr & H).
    apply bind_ok in Hr as (c & s2 & Hc & Hr).
    apply ret_ok in Hr as [<- <-]. apply ret_ok in H as [<- <-].
    apply (plans_surely__gen_dict_crown self _ m p
             (plans_surely_dict_children _ m IH) st c s2 Hc).
  - apply bind_ok in H as (r & s1 & Hr & H).
    apply bind_ok in Hr as (c & s2 & Hc & Hr).
    apply ret_ok in Hr as [<- <-]. apply ret_ok in H as [<- <-].
    apply (plans_surely__gen_list_crown self _ m p
             (plans_surely_list_children _ m IH 0) st c s2 Hc).
  - apply bind_ok in H as (r & s1 & Hr & H).
    apply ret_ok in Hr as [<- <-].
    exact (plans_surely__gen_field_crown self id st code st' H).
  - apply bind_ok in H as (r & s1 & Hr & H).
    apply ret_ok in Hr as [<- <-]. apply ret_ok in H as [<- <-].
    apply sure_refl.
Qed.

Lemma unplanned_gen_targets_collected (self : BuiltinInputExtractionGen)
    (targets : list string) :
  unplanned (gen_targets_collected self targets).
Proof.
  induction targets as [|t rest IH]; cbn [gen_targets_collected].
  - apply unplanned_ret.
  - apply unplanned_bind; [apply unplanned_get | intros s].
    destruct (name_to_field_get (_name_to_field s) t);
      [| apply unplanned_raise].
    apply unplanned_bind; [apply unplanned_v_extra | intros x].
    apply unplanned_bind; [apply unplanned__gen_field_assigment | intros c].
    apply unplanned_bind; [exact IH | intros cs]. apply unplanned_ret.
Qed.

Lemma unplanned_gen_targets_not_collected (self : BuiltinInputExtractionGen)
    (targets : list string) :
  unplanned (gen_targets_not_collected self targets).
Proof.
  induction targets as [|t rest IH]; cbn [gen_targets_not_collected].
  - apply unplanned_ret.
  - apply unplanned_bind; [apply unplanned_get | intros s].
    destruct (name_to_field_get (_name_to_field s) t) as [f|];
      [| apply unplanned_raise].
    apply unplanned_bind; [| intros c].
    + destruct (is_required f);
        [apply unplanned__gen_field_assigment | apply unplanned_ret].
    + apply unplanned_bind; [exact IH | intros cs]. apply unplanned_ret.
Qed.

Lemma unplanned__gen_extra_targets_assigment
    (self : BuiltinInputExtractionGen) :
  unplanned (_gen_extra_targets_assigment self).
Proof.
  unfold _gen_extra_targets_assigment.
  destruct (extra_move (_name_layout self)) as [|targets];
    [apply unplanned_ret |].
  apply unplanned_bind; [apply unplanned_crown_extra_policy | intros p].
  destruct p; first [apply unplanned_gen_targets_collected
                    | apply unplanned_gen_targets_not_collected].
Qed.

Lemma unplanned_add_loaders (loaders : list (string * Loader)) :
  unplanned (add_loaders loaders).
Proof.
  induction loaders as [|[id l] rest IH]; cbn [add_loaders].
  - apply unplanned_ret.
  - apply unplanned_bind; [apply unplanned_ns_add | intros _; exact IH].
Qed.

Lemma plans_surely_call (self : BuiltinInputExtractionGen) :
  plans_surely (call self).
Proof.
  intros st code st' H. unfold call in H.
  apply bind_ok in H as (u & s1 & Hload & H).
  apply bind_ok in H as (r & s2 & Hroot & H).
  destruct r as [body|]; [| discriminate].
  apply bind_ok in H as (targets & s3 & Htargets & H).
  apply ret_ok in H as [<- <-].
  assert (Hbody : sure s1 body s2).
  { unfold _gen_root_crown_dispatch in Hroot.
    destruct (crown (_name_layout self)) as [m p | m p | id |].
    - apply bind_ok in Hroot as (c & s & Hc & Hr).
      apply ret_ok in Hr as [Hr Hs]. inversion Hr; subst c s.
      refine (plans_surely__gen_dict_crown self _ m p _ s1 body s2 Hc).
      apply plans_surely_dict_children.
      apply Forall_forall. intros kv _ k.
      apply plans_surely__gen_crown_dispatch.
    - apply bind_ok in Hroot as (c & s & Hc & Hr).
      apply ret_ok in Hr as [Hr Hs]. inversion Hr; subst c s.
      refine (plans_surely__gen_list_crown self _ m p _ s1 body s2 Hc).
      apply plans_surely_list_children.
      apply Forall_forall. intros x _ k.
      apply plans_surely__gen_crown_dispatch.
    - discriminate.
    - discriminate. }
  apply (sure_app st s1 s3 [] _).
  { exact (sure_unplanned _ st s1 u [] (tracks_add_loaders _)
             (unplanned_add_loaders _) Hload). }
  apply (sure_app s1 s1 s3 _ _ (sure_refl s1 _)).
  apply (sure_app s1 s1 s3 _ _ (sure_refl s1 _)).
  apply (sure_app s1 s2 s3 _ _ Hbody).
  apply (sure_app s2 s3 s3 _ _).
  { exact (sure_unplanned _ s2 s3 targets targets
             (proj1 (quiet__gen_extra_targets_assigment self))
             (unplanned__gen_extra_targets_assigment self) Htargets). }
  apply sure_refl.
Qed.

(** X11: in the code of one compilation, every container out of which some
    position is read carries the clause for a container of the wrong type on
    exactly one of the reads out of it; and a read carries that clause only
    if it reads out of such a container.  So skipping the check on the later
    reads never leaves a container without its check. *)
Theorem every_read_container_is_checked_once
    (self : BuiltinInputExtractionGen) (ctx : Namespace) (code : Code)
    (st' : GenState) :
  call self (_create_state self ctx) = (Ok code, st') ->
  (forall q, path_in q (checked_type_paths st') = true ->
             type_checks (suffix_of st' q) code = 1) /\
  (forall sfx, 1 <= type_checks sfx code ->
               exists q, path_in q (checked_type_paths st') = true /\
                         suffix_of st' q = sfx).
Proof.
  intros H.
  pose proof (tracker_ok__create_state self ctx) as Hok0.
  destruct (plans_once_call self _ code st' H Hok0) as (_ & _ & Honce).
  destruct (plans_surely_call self _ code st' H Hok0) as (_ & _ & Hcov).
  split.
  - intros q Hq. pose proof (Hcov q eq_refl Hq) as Hge.
    destruct (Honce (suffix_of st' q)) as [Hle _]. lia.
  - intros sfx Hge. destruct (Honce sfx) as [_ Hex].
    destruct (Hex Hge) as (q & _ & Hs & _ & Hc).
    exists q. split; assumption.
Qed.

Lemma every_read_container_is_checked_once_witness :
  (forall q, path_in q (checked_type_paths (snd example_call)) = true ->
             type_checks (suffix_of (snd example_call) q)
                         (code_of example_call) = 1) /\
  (forall sfx, 1 <= type_checks sfx (code_of example_call) ->
               exists q,
                 path_in q (checked_type_paths (snd example_call)) = true /\
                 suffix_of (snd example_call) q = sfx).
Proof.
  exact (every_read_container_is_checked_once (example_gen ALL) []
           (code_of example_call) (snd example_call) eq_refl).
Defined.

(** ** A read that fails on a container already checked *)

(** Whether a failure of [container[el]] is the lookup error of the
    position: [KeyError] for a key, [IndexError] for an index. *)
Definition is_lookup (el : CrownPathElem) (kind : ExcKind) : bool :=
  match el, kind with
  | Key _, KeyError => true
  | Idx _, IndexError => true
  | _, _ => false
  end.

(** What the handler for unexpected errors does with the error [raw],
    [e] being [raw] with the trail put on. *)
Definition unexpected (mode : DebugTrail) (e raw : Exn) (store : Store)
  : Completion * Store :=
  match mode with
  | NONE => (Throw raw, store)
  | FIRST => (Throw e, store)
  | ALL =>
      match errors store with
      | Some es => (Done, set_unexpected true (set_errors (es ++ [e]) store))
      | None => (Throw (fresh UnboundLocalError), store)
      end
  end.

Lemma decorates_caught_with_trail_at (mode : DebugTrail) (p : CrownPath) :
  decorates_caught (with_trail_at mode X_e p) = true.
Proof. destruct mode; [reflexivity | |]; destruct p as [|a [|b p]]; reflexivity. Qed.

Lemma run_unexpected_handlers (ns : Namespace) (mode : DebugTrail)
    (p : CrownPath) (raw : Exn) (store : Store) :
  run_handlers (exec_stmt ns) raw store (unexpected_handlers mode mode p) =
  unexpected mode (decorate mode p raw) raw store.
Proof.
  destruct mode; cbn [unexpected_handlers run_handlers unexpected existsb
                       exc_matches orb].
  - reflexivity.
  - cbn [run_block exec_stmt].
    rewrite (eval_err_with_trail_at ns FIRST X_e p
               (set_caught (Some raw) store) raw) by reflexivity.
    rewrite decorates_caught_with_trail_at. cbn [caught set_caught].
    destruct store; reflexivity.
  - cbn [run_block exec_stmt].
    rewrite (eval_err_with_trail_at ns ALL X_e p
               (set_caught (Some raw) store) raw) by reflexivity.
    cbn [errors set_caught].
    destruct (errors store) as [es|] eqn:E; destruct store; simpl in *;
      rewrite ?E; reflexivity.
Qed.

(** X12: the read of a field's position out of a container whose type check
    went to an earlier read has no clause for a container of the wrong type.
    When such a read fails with anything but the lookup error of its position
    (a mapping given where a list is declared lacks the index as a key, say),
    the failure is not turned into a load error: mode [NONE] lets the bare
    [KeyError], [IndexError] or [TypeError] leave the procedure; mode [FIRST]
    re-raises it with the path of the field on its trail; mode [ALL] appends
    it with that path to [errors] and sets [has_unexpected_error]. *)
Theorem read_failure_after_type_check_is_unexpected
    (self : BuiltinInputExtractionGen) (id : string) (st st' : GenState)
    (code : Code) (pp q : CrownPath) (el : CrownPathElem) (n : nat)
    (f : InputField) (l : Loader) (ns : Namespace) (store : Store)
    (parent : value) (kind : ExcKind) :
  _path st = pp ++ [el] ->
  _parent_path st = Some q ->
  len_known st el n ->
  debug_trail st = _debug_trail self ->
  name_to_field_get (_name_to_field st) id = Some f ->
  loaders_get (_field_loaders self) id = Some l ->
  _gen_field_crown self id st = (Ok code, st') ->
  path_in q (checked_type_paths st) = true ->
  read_var ns store (V_path B_data (suffix_of st q)) = inl parent ->
  py_getitem parent (elem_value el) = inr kind ->
  is_lookup el kind = false ->
  exec ns code store =
    unexpected (debug_trail st)
               (decorate (debug_trail st) (_path st) (fresh kind))
               (fresh kind) store.
Proof.
  intros Hp Hq Hn Hmode Hf Hl Hgen Hchecked Hparent Hitem Hkind.
  rewrite (_gen_field_crown_eq self id st pp q el n f l Hp Hq Hn Hf Hl) in Hgen.
  inversion Hgen; subst code st'; clear Hgen.
  rewrite exec_one.
  rewrite (exec_read_failed ns _ _ _ _ _ _ _ _ Hparent Hitem).
  unfold read_handlers. rewrite Hchecked, <- Hmode.
  assert (Hskip : forall hs,
    run_handlers (exec_stmt ns) (fresh kind) store
      (([fst (fst (fst (read_errors el n)))],
        [on_lookup_error (debug_trail st) (negb (is_required f)) el q
           (snd (read_errors el n))]) :: hs) =
    run_handlers (exec_stmt ns) (fresh kind) store hs).
  { intros hs. destruct el, kind; try discriminate Hkind; reflexivity. }
  destruct (read_errors el n) as [[[lookup bad] bad_x] not_found] eqn:E.
  cbn [fst snd] in Hskip. cbn [bad_type_handlers app].
  rewrite Hskip. apply run_unexpected_handlers.
Qed.

(** The tracker on entering the second item of the root list, the root's
    type check having gone to the read of the first item. *)
Definition second_item_state : GenState :=
  mark_checked []
    (entering_item (list_gen FIRST ExtraIgnore false) 1 (InpFieldCrown "b")).

Definition second_item_result : Res Code * GenState :=
  Eval vm_compute in
    _gen_field_crown (list_gen FIRST ExtraIgnore false) "b" second_item_state.

Definition mapping_for_list : value := VDict [(VInt 0, VInt 7)].

Definition mapping_for_list_store : Store :=
  set_local (V_path B_data None) mapping_for_list empty_store.

Lemma read_failure_after_type_check_is_unexpected_witness :
  exec [] (code_of second_item_result) mapping_for_list_store =
    (Throw (mkExn KeyError [Idx 1]), mapping_for_list_store).
Proof.
  exact (read_failure_after_type_check_is_unexpected
           (list_gen FIRST ExtraIgnore false) "b" second_item_state
           (snd second_item_result) (code_of second_item_result)
           [] [] (Idx 1) 3 (mkField "b" true) identity_loader []
           mapping_for_list_store mapping_for_list KeyError
           eq_refl eq_refl eq_refl eq_refl eq_refl eq_refl eq_refl eq_refl
           eq_refl eq_refl eq_refl).
Defined.

(** A mapping whose only key is [0], given where a list of three items is
    declared: the first item is read, and the second read fails with a bare
    [KeyError] in mode [NONE]. *)
Example mapping_for_list_run :
  let (c, st) := run (compiled (list_gen NONE ExtraIgnore false))
                     mapping_for_list in
  c = Throw (mkExn KeyError []) /\ calls st = [("a", VInt 7)].
Proof. vm_compute. repeat split. Qed.

(** A mapping with the keys [0], [1] and [2] passes for a list of three. *)
Example mapping_passes_for_list :
  let (c, st) := run (compiled (list_gen NONE ExtraForbid false))
                     (VDict [(VInt 0, VInt 7); (VInt 1, VInt 8);
                             (VInt 2, VInt 9)]) in
  c = Done /\
  calls st = [("a", VInt 7); ("b", VInt 8); ("c", VInt 9)].
Proof. vm_compute. repeat split. Qed.

(** ** What a compilation that succeeds says about the layout *)

(** The ids of the field crowns of a crown tree. *)
Fixpoint crown_fields (c : InpCrown) : list string :=
  match c with
  | InpDictCrown m _ => flat_map (fun kv => crown_fields (snd kv)) m
  | InpListCrown m _ => flat_map crown_fields m
  | InpFieldCrown id => [id]
  | InpNoneCrown => []
  end.

(** The field [id] is a field of the shape and has a loader. *)
Definition field_known (self : BuiltinInputExtractionGen) (id : string) : Prop :=
  (exists f, name_to_field_get (_shape self) id = Some f) /\
  (exists l, loaders_get (_field_loaders self) id = Some l).

Section FieldsKnown.

Variable self : BuiltinInputExtractionGen.

Definition fields_known_below (c : InpCrown) : Prop :=
  forall k st code st',
    _name_to_field st = _shape self ->
    _gen_crown_dispatch self c k st = (Ok code, st') ->
    forall id, In id (crown_fields c) -> field_known self id.

Lemma dict_children_fields_known (m : list (string * InpCrown)) :
  Forall (fun kv => fields_known_below (snd kv)) m ->
  forall st code st',
    _name_to_field st = _shape self ->
    gen_dict_children (_gen_crown_dispatch self) m st = (Ok code, st') ->
    forall id, In id (flat_map (fun kv => crown_fields (snd kv)) m) ->
               field_known self id.
Proof.
  induction 1 as [|[key value] rest Hx _ IH]; intros st code st' Hf H id Hin.
  - contradiction.
  - cbn [gen_dict_children] in H.
    apply bind_ok in H as (c & s1 & Hc & H).
    apply bind_ok in H as (cs & s2 & Hcs & H).
    cbn [flat_map snd] in Hin. apply in_app_or in Hin as [Hin | Hin].
    + exact (Hx (Key key) st c s1 Hf Hc id Hin).
    + destruct (carrying__gen_crown_dispatch self value (Key key) st c s1 Hc)
        as (_ & Hf1 & _).
      exact (IH s1 cs s2 (eq_trans Hf1 Hf) Hcs id Hin).
Qed.

Lemma list_children_fields_known (m : list InpCrown) :
  Forall fields_known_below m ->
  forall i st code st',
    _name_to_field st = _shape self ->
    gen_list_children (_gen_crown_dispatch self) i m st = (Ok code, st') ->
    forall id, In id (flat_map crown_fields m) -> field_known self id.
Proof.
  induction 1 as [|value rest Hx _ IH]; intros i st code st' Hf H id Hin.
  - contradiction.
  - cbn [gen_list_children] in H.
    apply bind_ok in H as (c & s1 & Hc & H).
    apply bind_ok in H as (cs & s2 & Hcs & H).
    cbn [flat_map] in Hin. apply in_app_or in Hin as [Hin | Hin].
    + exact (Hx (Idx i) st c s1 Hf Hc id Hin).
    + destruct (carrying__gen_crown_dispatch self value (Idx i) st c s1 Hc)
        as (_ & Hf1 & _).
      exact (IH (S i) s1 cs s2 (eq_trans Hf1 Hf) Hcs id Hin).
Qed.

Lemma dict_crown_fields_known (m : list (string * InpCrown)) (p : ExtraPolicy) :
  Forall (fun kv => fields_known_below (snd kv)) m ->
  forall st code st',
    _name_to_field st = _shape self ->
    _gen_dict_crown self (_gen_crown_dispatch self) m p st = (Ok code, st') ->
    forall id, In id (crown_fields (InpDictCrown m p)) -> field_known self id.
Proof.
  intros Hm st code st' Hf H id Hin. unfold _gen_dict_crown in H.
  apply bind_ok in H as (read & s1 & Hread & H).
  apply bind_ok in H as (init & s2 & Hinit & H).
  apply bind_ok in H as (children & s3 & Hch & H).
  destruct (carrying_gen_read_own_data self st read s1 Hread) as (_ & Hf1 & _).
  assert (Hf2 : _name_to_field s2 = _name_to_field s1).
  { destruct (_can_collect_extra self).
    - apply bind_ok in Hinit as (x & s & Hx & Hinit).
      apply ret_ok in Hinit as [_ <-].
      exact (proj1 (proj2 (carrying_v_extra s1 x s Hx))).
    - apply ret_ok in Hinit as [_ <-]. reflexivity. }
  refine (dict_children_fields_known m Hm s2 children s3 _ Hch id Hin).
  congruence.
Qed.

Lemma list_crown_fields_known (m : list InpCrown) (p : ExtraPolicy) :
  Forall fields_known_below m ->
  forall st code st',
    _name_to_field st = _shape self ->
    _gen_list_crown self (_gen_crown_dispatch self) m p st = (Ok code, st') ->
    forall id, In id (crown_fields (InpListCrown m p)) -> field_known self id.
Proof.
  intros Hm st code st' Hf H id Hin. unfold _gen_list_crown in H.
  apply bind_ok in H as (read & s1 & Hread & H).
  apply bind_ok in H as (strict & s2 & Hstrict & H).
  apply bind_ok in H as (init & s3 & Hinit & H).
  apply bind_ok in H as (children & s4 & Hch & H).
  destruct (carrying_gen_read_own_data self st read s1 Hread) as (_ & Hf1 & _).
  assert (Hf2 : _name_to_field s2 = _name_to_field s1).
  { destruct (_strict_coercion self).
    - apply bind_ok in Hstrict as (x & s & Hx & Hstrict).
      apply bind_ok in Hstrict as (y & s' & Hy & Hstrict).
      apply ret_ok in Hstrict as [_ <-].
      rewrite (proj1 (proj2 (carrying_with_trail _ _ s y s' Hy))).
      exact (proj1 (proj2 (carrying_v_data s1 x s Hx))).
    - apply ret_ok in Hstrict as [_ <-]. reflexivity. }
  assert (Hf3 : _name_to_field s3 = _name_to_field s2).
  { destruct (_can_collect_extra self).
    - apply bind_ok in Hinit as (x & s & Hx & Hinit).
      apply ret_ok in Hinit as [_ <-].
      exact (proj1 (proj2 (carrying_v_extra s2 x s Hx))).
    - apply ret_ok in Hinit as [_ <-]. reflexivity. }
  refine (list_children_fields_known m Hm 0 s3 children s4 _ Hch id Hin).
  congruence.
Qed.

Lemma field_crown_known (id : string) (st st' : GenState) (code : Code) :
  _name_to_field st = _shape self ->
  _gen_field_crown self id st = (Ok code, st') ->
  field_known self id.
Proof.
  intros Hshape H. unfold _gen_field_crown in H.
  apply bind_ok in H as (f & s0 & Hf & H).
  unfold get_field, bind, get, modify in Hf. cbv beta iota in Hf.
  cbn [_name_to_field with_field_id_to_path] in Hf.
  destruct (name_to_field_get (_name_to_field st) id) as [f'|] eqn:E;
    [| discriminate].
  inversion Hf; subst f' s0; clear Hf.
  apply bind_ok in H as (read & s1 & _ & H).
  apply bind_ok in H as (orelse & s2 & Ho & _).
  unfold _gen_field_assigment in Ho.
  destruct (loaders_get (_field_loaders self) (field_id f)) as [l|] eqn:El;
    [| discriminate].
  rewrite (name_to_field_get_id _ _ _ E) in El.
  split; [exists f; rewrite <- Hshape; exact E | exists l; exact El].
Qed.

Lemma crown_fields_known (c : InpCrown) : fields_known_below c.
Proof.
  induction c as [m p IH | m p IH | id |] using InpCrown_tree_ind;
    intros k st code st' Hshape H; rewrite _gen_crown_dispatch_eq in H;
    unfold add_key in H;
    apply bind_ok in H as (s & s0 & Hg & H); inversion Hg; subst s s0; clear Hg;
    apply bind_ok in H as (u & s1 & Hm1 & H); inversion Hm1; subst u s1;
    clear Hm1;
    apply bind_ok in H as (r & s2 & Hblock & _);
    unfold _gen_root_crown_dispatch in Hblock.
  - apply bind_ok in Hblock as (o & s3 & Ho & _).
    apply bind_ok in Ho as (c & s4 & Hc & _).
    refine (dict_crown_fields_known m p IH _ c s4 _ Hc). exact Hshape.
  - apply bind_ok in Hblock as (o & s3 & Ho & _).
    apply bind_ok in Ho as (c & s4 & Hc & _).
    refine (list_crown_fields_known m p IH _ c s4 _ Hc). exact Hshape.
  - apply bind_ok in Hblock as (o & s3 & Ho & Hblock).
    apply ret_ok in Ho as [<- <-].
    intros id' [<- | []].
    refine (field_crown_known id _ s2 r _ Hblock). exact Hshape.
  - intros id' [].
Qed.

Lemma targets_collected_known (targets : list string) :
  forall st code st',
    _name_to_field st = _shape self ->
    gen_targets_collected self targets st = (Ok code, st') ->
    forall t, In t targets -> field_known self t.
Proof.
  induction targets as [|t rest IH]; intros st code st' Hshape H u Hin.
  - contradiction.
  - cbn [gen_targets_collected] in H.
    apply bind_ok in H as (s & s0 & Hg & H). inversion Hg; subst s s0; clear Hg.
    destruct (name_to_field_get (_name_to_field st) t) as [f|] eqn:E;
      [| discriminate].
    apply bind_ok in H as (x & s1 & Hx & H).
    apply bind_ok in H as (c & s2 & Hc & H).
    apply bind_ok in H as (cs & s3 & Hcs & _).
    destruct Hin as [<- | Hin].
    + unfold _gen_field_assigment in Hc.
      destruct (loaders_get (_field_loaders self) t) as [l|] eqn:El;
        [| discriminate].
      split; [exists f; rewrite <- Hshape; exact E | exists l; exact El].
    + destruct (carrying_v_extra st x s1 Hx) as (_ & Hf1 & _).
      destruct (carrying__gen_field_assigment self _ _ _ s1 c s2 Hc)
        as (_ & Hf2 & _).
      refine (IH s2 cs s3 _ Hcs u Hin). congruence.
Qed.

Lemma targets_not_collected_known (targets : list string) :
  forall st code st',
    _name_to_field st = _shape self ->
    gen_targets_not_collected self targets st = (Ok code, st') ->
    forall t, In t targets ->
      exists f, name_to_field_get (_shape self) t = Some f /\
                (is_required f = true ->
                 exists l, loaders_get (_field_loaders self) t = Some l).
Proof.
  induction targets as [|t rest IH]; intros st code st' Hshape H u Hin.
  - contradiction.
  - cbn [gen_targets_not_collected] in H.
    apply bind_ok in H as (s & s0 & Hg & H). inversion Hg; subst s s0; clear Hg.
    destruct (name_to_field_get (_name_to_field st) t) as [f|] eqn:E;
      [| discriminate].
    apply bind_ok in H as (c & s2 & Hc & H).
    apply bind_ok in H as (cs & s3 & Hcs & _).
    destruct Hin as [<- | Hin].
    + exists f. split; [rewrite <- Hshape; exact E |].
      intros Hr. rewrite Hr in Hc. unfold _gen_field_assigment in Hc.
      destruct (loaders_get (_field_loaders self) t) as [l|] eqn:El;
        [| discriminate].
      exists l. reflexivity.
    + assert (Hf2 : _name_to_field s2 = _name_to_field st).
      { destruct (is_required f).
        - exact (proj1 (proj2 (carrying__gen_field_assigment self _ _ _
                                  st c s2 Hc))).
        - apply ret_ok in Hc as [_ <-]. reflexivity. }
      refine (IH s2 cs s3 _ Hcs u Hin). congruence.
Qed.

Lemma carrying_add_loaders (loaders : list (string * Loader)) :
  carrying (add_loaders loaders).
Proof.
  induction loaders as [|[id l] rest IH]; cbn [add_loaders].
  - apply carrying_ret.
  - apply carrying_bind; [apply carrying_ns_add | intros _; exact IH].
Qed.

End FieldsKnown.

(** X13: what a compilation that succeeds says about the layout.  The root
    crown is a dict or list crown; every field crown of the crown tree names
    a field of the shape that has a loader; and every extra target names a
    field of the shape, which has a loader when the root collects extra data
    or the target is required.  So a layout that names an unknown field, or a
    field without loader, makes the generator raise instead of emitting
    code. *)
Theorem compilation_needs_known_fields (self : BuiltinInputExtractionGen)
    (p : Procedure) :
  compile self = Ok p ->
  is_branch (crown (_name_layout self)) = true /\
  (forall id, In id (crown_fields (crown (_name_layout self))) ->
              field_known self id) /\
  (forall targets t,
     extra_move (_name_layout self) = ExtraTargets targets ->
     In t targets ->
     exists f,
       name_to_field_get (_shape self) t = Some f /\
       (root_policy (crown (_name_layout self)) = Some ExtraCollect \/
        is_required f = true ->
        exists l, loaders_get (_field_loaders self) t = Some l)).
Proof.
  intros H. unfold compile in H.
  destruct (call self (_create_state self [])) as [[code|e] st'] eqn:Hcall;
    [clear H | discriminate].
  unfold call in Hcall.
  apply bind_ok in Hcall as (u & s1 & Hload & H).
  apply bind_ok in H as (r & s2 & Hroot & H).
  destruct r as [body|]; [| discriminate].
  apply bind_ok in H as (targets_code & s3 & Htargets & _).
  destruct (carrying_add_loaders _ _ u s1 Hload) as (_ & Hf1 & _).
  assert (Hshape1 : _name_to_field s1 = _shape self) by (rewrite Hf1; reflexivity).
  assert (Hshape2 : _name_to_field s2 = _shape self).
  { unfold _gen_root_crown_dispatch in Hroot.
    destruct (crown (_name_layout self)) as [m q | m q | id |];
      try discriminate;
      apply bind_ok in Hroot as (c & s & Hc & Hr);
      apply ret_ok in Hr as [_ <-].
    - refine (eq_trans (proj1 (proj2 _)) Hshape1).
      refine (carrying__gen_dict_crown self _ m q _ s1 c s Hc).
      apply carrying_gen_dict_children. apply Forall_forall. intros kv _ k.
      apply carrying__gen_crown_dispatch.
    - refine (eq_trans (proj1 (proj2 _)) Hshape1).
      refine (carrying__gen_list_crown self _ m q _ s1 c s Hc).
      apply carrying_gen_list_children. apply Forall_forall. intros x _ k.
      apply carrying__gen_crown_dispatch. }
  split; [| split].
  - unfold _gen_root_crown_dispatch in Hroot.
    destruct (crown (_name_layout self)); try reflexivity; discriminate.
  - unfold _gen_root_crown_dispatch in Hroot.
    destruct (crown (_name_layout self)) as [m q | m q | id |];
      try discriminate;
      apply bind_ok in Hroot as (c & s & Hc & _).
    + refine (dict_crown_fields_known self m q _ s1 c s Hshape1 Hc).
      apply Forall_forall. intros kv _. apply crown_fields_known.
    + refine (list_crown_fields_known self m q _ s1 c s Hshape1 Hc).
      apply Forall_forall. intros x _. apply crown_fields_known.
  - intros targets t Hmove Hin.
    unfold _gen_extra_targets_assigment in Htargets. rewrite Hmove in Htargets.
    apply bind_ok in Htargets as (policy & s & Hp & Htargets).
    assert (Hpol : root_policy (crown (_name_layout self)) = Some policy /\
                   s = s2).
    { destruct (crown (_name_layout self)); simpl in Hp; try discriminate;
        inversion Hp; split; reflexivity. }
    destruct Hpol as [Hpol ->].
    destruct policy.
    + destruct (targets_not_collected_known self targets s2 _ s3 Hshape2
                  Htargets t Hin) as (f & Hf & Hl).
      exists f. split; [exact Hf |].
      intros [Hc | Hr]; [rewrite Hpol in Hc; discriminate | exact (Hl Hr)].
    + destruct (targets_collected_known self targets s2 _ s3 Hshape2
                  Htargets t Hin) as ((f & Hf) & Hl).
      exists f. split; [exact Hf | intros _; exact Hl].
    + destruct (targets_not_collected_known self targets s2 _ s3 Hshape2
                  Htargets t Hin) as (f & Hf & Hl).
      exists f. split; [exact Hf |].
      intros [Hc | Hr]; [rewrite Hpol in Hc; discriminate | exact (Hl Hr)].
Qed.

Definition collect_targets_proc : Procedure :=
  Eval vm_compute in compiled collect_targets_gen.

Lemma compilation_needs_known_fields_witness :
  is_branch (crown (_name_layout collect_targets_gen)) = true /\
  (forall id, In id (crown_fields (crown (_name_layout collect_targets_gen))) ->
              field_known collect_targets_gen id) /\
  (forall targets t,
     extra_move (_name_layout collect_targets_gen) = ExtraTargets targets ->
     In t targets ->
     exists f,
       name_to_field_get (_shape collect_targets_gen) t = Some f /\
       (root_policy (crown (_name_layout collect_targets_gen)) =
          Some ExtraCollect \/ is_required f = true ->
        exists l, loaders_get (_field_loaders collect_targets_gen) t = Some l)).
Proof.
  assert (H : compile collect_targets_gen = Ok collect_targets_proc)
    by (vm_compute; reflexivity).
  exact (compilation_needs_known_fields collect_targets_gen
           collect_targets_proc H).
Defined.

(** The generator raises [KeyError] for a crown that names a field the shape
    does not have. *)
Example unknown_field_does_not_compile :
  compile gen_with_unknown_field = Raise Err_KeyError.
Proof. vm_compute. reflexivity. Qed.

(** ** Inputs that fit: the walk over the whole crown tree *)

Lemma ns_get_in (ns : Namespace) (x : Var) (o : NsObj) :
  NoDup (List.map fst ns) -> In (x, o) ns -> ns_get ns x = Some o.
Proof.
  induction ns as [|[y o'] ns IH]; simpl; intros Hnd Hin; [contradiction |].
  inversion Hnd as [|? ? Hnotin Hnd']; subst.
  destruct Hin as [Heq | Hin].
  - inversion Heq; subst. rewrite Var_eqb_refl. reflexivity.
  - destruct (Var_eqb y x) eqn:E.
    + apply Var_eqb_eq in E. subst y. exfalso. apply Hnotin.
      apply in_map_iff. exists (x, o). split; [reflexivity | exact Hin].
    + exact (IH Hnd' Hin).
Qed.

Lemma exec_field_crown_skipped (self : BuiltinInputExtractionGen)
    (id : string) (st st' : GenState) (code : Code) (pp q : CrownPath)
    (el : CrownPathElem) (n : nat) (f : InputField) (l : Loader)
    (ns : Namespace) (store : Store) (parent : value) (kind : ExcKind) :
  _path st = pp ++ [el] ->
  _parent_path st = Some q ->
  len_known st el n ->
  name_to_field_get (_name_to_field st) id = Some f ->
  loaders_get (_field_loaders self) id = Some l ->
  _gen_field_crown self id st = (Ok code, st') ->
  read_var ns store (V_path B_data (suffix_of st q)) = inl parent ->
  py_getitem parent (elem_value el) = inr kind ->
  is_lookup el kind = true ->
  is_required f = false ->
  exec ns code store = (Done, store).
Proof.
  intros Hp Hq Hn Hf Hl Hgen Hparent Hitem Hkind Hreq.
  rewrite (_gen_field_crown_eq self id st pp q el n f l Hp Hq Hn Hf Hl) in Hgen.
  inversion Hgen; subst code st'; clear Hgen.
  rewrite exec_one.
  rewrite (exec_read_failed ns _ _ _ _ _ _ _ _ Hparent Hitem).
  unfold read_handlers. rewrite Hreq. cbn [negb].
  destruct el, kind; try discriminate Hkind;
    cbn [read_errors app run_handlers existsb exc_matches exn_kind fresh orb
         on_lookup_error run_block exec_stmt];
    destruct store; reflexivity.
Qed.

Lemma gen_dict_extra_known (m : list (string * InpCrown)) (p : ExtraPolicy)
    (st st' : GenState) (code : Code) :
  gen_dict_extra m p st = (Ok code, st') ->
  p <> ExtraIgnore ->
  In (known_keys_name st, NsValue (VSet (declared_keys m)))
     (ctx_namespace st').
Proof.
  intros H Hp. unfold gen_dict_extra in H.
  apply bind_ok in H as (u & s0 & Hadd & H).
  assert (Hin : In (known_keys_name st, NsValue (VSet (declared_keys m)))
                   (ctx_namespace s0)).
  { destruct p; try contradiction;
      unfold bind in Hadd; rewrite v_known_keys_eq in Hadd;
      unfold ns_add, modify in Hadd; inversion Hadd; subst;
      cbn [ctx_namespace with_ctx_namespace]; apply in_or_app; right; left;
      reflexivity. }
  assert (Hrest : carries s0 st').
  { revert H. generalize st'. generalize code. generalize s0.
    change (carrying
              (data <- v_data ;;
               extra <- v_extra ;;
               match p with
               | ExtraForbid =>
                   known_keys <- v_known_keys ;;
                   on_extra <- emit_error
                                 (X_ExtraFieldsError (extra_set_var extra)) ;;
                   ret [S_assign (T_var (extra_set_var extra))
                                 (E_set_diff data known_keys);
                        S_if (C_truthy (extra_set_var extra)) [on_extra] []]
               | ExtraCollect =>
                   known_keys <- v_known_keys ;;
                   ret [S_for_key (E_set_diff data known_keys)
                          [S_assign (T_item extra (I_var V_key))
                                    (E_getitem data (I_var V_key))]]
               | ExtraIgnore => ret []
               end)).
    carrying_auto. }
  exact (proj1 Hrest _ Hin).
Qed.

Lemma gen_dict_extra_ignore (m : list (string * InpCrown)) (st : GenState) :
  exists st', gen_dict_extra m ExtraIgnore st = (Ok [], st').
Proof.
  eexists. unfold gen_dict_extra, bind. unfold ret at 1.
  rewrite v_data_eq, v_extra_eq. reflexivity.
Qed.

(** The tracker inside the region of [add_key]. *)
Definition entered (st : GenState) (c : InpCrown) (k : CrownPathElem)
  : GenState :=
  with_position (_path st ++ [k]) (Some (_path st)) (_crown_stack st ++ [c]) st.

Lemma add_key_inv {A : Type} (c : InpCrown) (k : CrownPathElem)
    (block : Gen A) (st st' : GenState) (a : A) :
  add_key c k block st = (Ok a, st') ->
  exists s1, block (entered st c k) = (Ok a, s1) /\
             ctx_namespace st' = ctx_namespace s1.
Proof.
  intros H. unfold add_key in H.
  apply bind_ok in H as (s & s0 & Hg & H). inversion Hg; subst s s0; clear Hg.
  apply bind_ok in H as (u & s1 & Hm1 & H). inversion Hm1; subst u s1; clear Hm1.
  apply bind_ok in H as (r & s2 & Hblock & H).
  apply bind_ok in H as (u' & s3 & Hm2 & H). inversion Hm2; subst u' s3.
  apply ret_ok in H as [<- <-].
  exists s2. split; [exact Hblock | reflexivity].
Qed.

Section Simulation.

Variable self : BuiltinInputExtractionGen.
Variable ns : Namespace.

Hypothesis Hnodup : NoDup (List.map fst ns).
Hypothesis Hloaders : loaders_bound self ns.

(** The holder named [x] has the value [h], in a layout that keeps holders:
    without extra targets the emitted code has none. *)
Definition held (store : Store) (x : Var) (h : value) : Prop :=
  _can_collect_extra self = true -> locals_get (locals store) x = Some h.

(** The tracker is in order at a position whose names are handed out. *)
Record ready (s : GenState) : Prop := mkReady {
  ready_ok : tracker_ok s;
  ready_alloc : allocated s (_path s);
  ready_fields : _name_to_field s = _shape self;
  ready_stack : exists rest parent,
    _crown_stack s = rest ++ [parent] /\ is_branch parent = true;
  ready_mode : debug_trail s = _debug_trail self
}.

(** The store has no local named as a set of known keys, has [opt_fields]
    when the shape has optional fields to store, and has [errors] in mode
    [ALL]. *)
Record poised (store : Store) : Prop := mkPoised {
  poised_known : forall s,
    locals_get (locals store) (V_path B_known_keys s) = None;
  poised_opt : has_optional_fields self = true ->
    exists m, locals_get (locals store) V_opt_fields = Some (VDict m);
  poised_errors : _debug_trail self = ALL ->
    exists es, errors store = Some es
}.

Lemma poised_frame (s : GenState) (n : nat) (store store' : Store) :
  frame s n store store' -> poised store -> poised store'.
Proof.
  intros [Hl He Ho _] [Hk Hopt Herr]. constructor.
  - intros sfx. rewrite (Hl (V_path B_known_keys sfx) I). apply Hk.
  - intros H. destruct (Hopt H) as (m & Hm). exact (Ho m Hm).
  - intros H. rewrite He. exact (Herr H).
Qed.

Lemma held_frame (s : GenState) (n : nat) (store store' : Store) (x : Var)
    (h : value) :
  frame s n store store' -> guarded s n x -> held store x h ->
  held store' x h.
Proof.
  intros Hf Hg Hh Hc. rewrite (frame_locals _ _ _ _ Hf x Hg). exact (Hh Hc).
Qed.

Lemma held_set_other (store : Store) (x y : Var) (v h : value) :
  x <> y -> held store y h -> held (set_local x v store) y h.
Proof.
  intros Hxy Hh Hc. rewrite (locals_get_set_local_other _ _ _ _ Hxy).
  exact (Hh Hc).
Qed.

Lemma held_init_holder (store : Store) (x : Var) (h : value) :
  held (init_holder self x h store) x h.
Proof.
  intros Hc. unfold init_holder. rewrite Hc. apply locals_get_set_local_same.
Qed.

Lemma locals_init_holder_other (store : Store) (x y : Var) (h : value) :
  x <> y ->
  locals_get (locals (init_holder self x h store)) y
  = locals_get (locals store) y.
Proof.
  intros Hxy. unfold init_holder. destruct (_can_collect_extra self);
    [apply locals_get_set_local_other; exact Hxy | reflexivity].
Qed.

Lemma frame_init_holder (st : GenState) (n : nat) (x : Var) (h : value)
    (store : Store) :
  ~ guarded st n x -> x <> V_opt_fields ->
  frame st n store (init_holder self x h store).
Proof.
  intros Hg Ho. unfold init_holder. destruct (_can_collect_extra self);
    [apply frame_set_local; assumption | apply frame_refl].
Qed.

Lemma len_known_entered (st : GenState) (c : InpCrown) (k : CrownPathElem) :
  (exists rest parent,
     _crown_stack st = rest ++ [parent] /\ is_branch parent = true) ->
  exists n, len_known (entered st c k) k n.
Proof.
  intros (rest & parent & Hs & Hb). destruct k as [key | i].
  - exists 0. exact I.
  - cbn [len_known]. unfold parent_len, entered.
    cbn [_crown_stack with_position]. rewrite Hs, !rev_unit.
    destruct parent; try discriminate; eexists; reflexivity.
Qed.

(** The code of a child, run where it fits. *)
Definition sim (c : InpCrown) : Prop :=
  forall k st code st' store pv h,
    _gen_crown_dispatch self c k st = (Ok code, st') ->
    ready st ->
    incl (ctx_namespace st') ns ->
    poised store ->
    locals_get (locals store) (V_path B_data (suffix_of st (_path st)))
      = Some pv ->
    held store (V_path B_extra (suffix_of st (_path st))) h ->
    holds pv k -> settable h k ->
    fits self c (slot_of pv k) ->
    exists store',
      exec ns code store = (Done, store') /\
      frame st (List.length (_path st)) store store' /\
      held store' (V_path B_extra (suffix_of st (_path st)))
        (if is_branch c then put h k (overflow c (item_of pv k)) else h).

Lemma sim_none : sim InpNoneCrown.
Proof.
  intros k st code st' store pv h H Hready Hctx Hpoised Hdata Hextra Hholds
         Hset Hfits.
  rewrite _gen_crown_dispatch_eq in H.
  apply add_key_inv in H as (s1 & Hblock & _).
  unfold _gen_root_crown_dispatch, _gen_none_crown in Hblock.
  apply bind_ok in Hblock as (r & s2 & Hr & Hblock).
  apply ret_ok in Hr as [<- <-]. apply ret_ok in Hblock as [<- _].
  exists store. split; [reflexivity |]. split; [apply frame_refl | exact Hextra].
Qed.

Lemma sim_field (id : string) : sim (InpFieldCrown id).
Proof.
  intros k st code st' store pv h H Hready Hctx Hpoised Hdata Hextra Hholds
         Hset Hfits.
  rewrite _gen_crown_dispatch_eq in H.
  apply add_key_inv in H as (s1 & Hblock & _).
  unfold _gen_root_crown_dispatch in Hblock.
  apply bind_ok in Hblock as (r & s2 & Hr & Hblock).
  apply ret_ok in Hr as [<- <-].
  set (s0 := entered st (InpFieldCrown id) k) in *.
  destruct (len_known_entered st (InpFieldCrown id) k (ready_stack st Hready))
    as (n & Hn).
  cbn [fits] in Hfits. destruct Hfits as (fld & l & Hfld & Hl & Hslot).
  assert (Hf0 : name_to_field_get (_name_to_field s0) id = Some fld).
  { unfold s0, entered. cbn [_name_to_field with_position].
    rewrite (ready_fields st Hready). exact Hfld. }
  assert (Hparent : read_var ns store (V_path B_data (suffix_of s0 (_path st)))
                    = inl pv).
  { apply read_var_local. exact Hdata. }
  cbn [is_branch].
  destruct (slot_of pv k) as [raw|] eqn:Eslot.
  - destruct Hslot as ((v & Hv) & Hopt).
    assert (Hm : exists m, is_required fld = false ->
                           locals_get (locals store) V_opt_fields
                           = Some (VDict m)).
    { destruct (is_required fld) eqn:Er.
      - exists []. discriminate.
      - destruct (poised_opt store Hpoised (Hopt eq_refl)) as (m & Hm).
        exists m. intros _. exact Hm. }
    destruct Hm as (m & Hm).
    pose proof (exec_field_crown_present self id s0 s1 code (_path st)
                  (_path st) k n fld l ns store pv raw v m
                  eq_refl eq_refl Hn Hf0 Hl Hblock
                  (loaders_bound_at self ns id l Hloaders Hl) Hparent
                  (slot_found pv k raw Eslot) Hv Hm) as Hrun.
    cbv zeta in Hrun. eexists. split; [exact Hrun |].
    set (store1 := after_call l id raw (set_local (V_raw_field id) raw store)).
    assert (Hf1 : frame st (List.length (_path st)) store store1).
    { apply (frame_trans _ _ _ (set_local (V_raw_field id) raw store)).
      - apply frame_set_local; [intros [] | discriminate].
      - apply frame_after_call. }
    destruct (is_required fld).
    + split.
      * apply (frame_trans _ _ _ store1 _ Hf1).
        apply frame_set_local; [intros [] | discriminate].
      * intros Hc. rewrite locals_get_set_local_other by discriminate.
        unfold store1. rewrite locals_after_call.
        rewrite locals_get_set_local_other by discriminate. exact (Hextra Hc).
    + split.
      * apply (frame_trans _ _ _ store1 _ Hf1). apply frame_set_opt.
      * intros Hc. rewrite locals_get_set_local_other by discriminate.
        unfold store1. rewrite locals_after_call.
        rewrite locals_get_set_local_other by discriminate. exact (Hextra Hc).
  - assert (Hkind : is_lookup k match k with
                                | Key _ => KeyError
                                | Idx _ => IndexError
                                end = true) by (destruct k; reflexivity).
    rewrite (exec_field_crown_skipped self id s0 s1 code (_path st) (_path st)
               k n fld l ns store pv _ eq_refl eq_refl Hn Hf0 Hl Hblock
               Hparent (slot_missing pv k Hholds Eslot) Hkind Hslot).
    exists store. split; [reflexivity |].
    split; [apply frame_refl | exact Hextra].
Qed.

Lemma ready_next (s s' : GenState) :
  ready s -> tracker_ok s' -> extends s s' -> same_position s s' ->
  carries s s' -> ready s'.
Proof.
  intros [Hok Ha Hf Hs Hm] Hok' He (Hp & _ & Hst) (_ & Hf' & Hd'). constructor.
  - exact Hok'.
  - rewrite Hp. exact (allocated_extends _ _ _ He Ha).
  - rewrite Hf'. exact Hf.
  - rewrite Hst. exact Hs.
  - rewrite Hd'. exact Hm.
Qed.

Lemma after_dispatch (c : InpCrown) (k : CrownPathElem) (st st' : GenState)
    (code : Code) :
  _gen_crown_dispatch self c k st = (Ok code, st') ->
  ready st ->
  ready st' /\ extends st st' /\ _path st' = _path st /\
  incl (ctx_namespace st) (ctx_namespace st').
Proof.
  intros H Hready.
  destruct (plans_once__gen_crown_dispatch self c k st code st' H
              (ready_ok st Hready)) as (Hok' & He & _).
  pose proof (keeps__gen_crown_dispatch self c k st code st' H) as Hpos.
  pose proof (carrying__gen_crown_dispatch self c k st code st' H) as Hcar.
  split; [exact (ready_next st st' Hready Hok' He Hpos Hcar) |].
  split; [exact He |]. split; [exact (proj1 Hpos) | exact (proj1 Hcar)].
Qed.

Lemma guarded_own_data (s : GenState) (p : CrownPath) :
  allocated s p -> guarded s (List.length p) (V_path B_data (suffix_of s p)).
Proof. intros Ha. exists p. split; [exact Ha | split; [lia | reflexivity]]. Qed.

Lemma carrying_dict_children_here (m : list (string * InpCrown)) :
  carrying (gen_dict_children (_gen_crown_dispatch self) m).
Proof.
  apply carrying_gen_dict_children. apply Forall_forall. intros kv _ k.
  apply carrying__gen_crown_dispatch.
Qed.

Lemma carrying_list_children_here (m : list InpCrown) (i : nat) :
  carrying (gen_list_children (_gen_crown_dispatch self) i m).
Proof.
  apply carrying_gen_list_children. apply Forall_forall. intros x _ k.
  apply carrying__gen_crown_dispatch.
Qed.

Lemma sim_dict_children (m : list (string * InpCrown)) :
  Forall (fun kv => sim (snd kv)) m ->
  forall s code s' store mm acc,
    gen_dict_children (_gen_crown_dispatch self) m s = (Ok code, s') ->
    ready s ->
    incl (ctx_namespace s') ns ->
    poised store ->
    locals_get (locals store) (V_path B_data (suffix_of s (_path s)))
      = Some (VDict mm) ->
    held store (V_path B_extra (suffix_of s (_path s))) (VDict acc) ->
    fits_dict_children (fits self) (VDict mm) m ->
    exists store',
      exec ns code store = (Done, store') /\
      frame s (List.length (_path s)) store store' /\
      held store' (V_path B_extra (suffix_of s (_path s)))
        (VDict (dict_nested overflow (VDict mm) m acc)) /\
      ready s' /\ extends s s' /\ _path s' = _path s.
Proof.
  induction 1 as [|[key child] rest Hx _ IH];
    intros s code s' store mm acc H Hready Hctx Hpoised Hdata Hextra Hfits.
  - apply ret_ok in H as [<- <-]. exists store.
    split; [reflexivity |]. split; [apply frame_refl |].
    split; [exact Hextra |]. split; [exact Hready |].
    split; [apply extends_refl | reflexivity].
  - cbn [gen_dict_children] in H.
    apply bind_ok in H as (c & s1 & Hc & H).
    apply bind_ok in H as (cs & s2 & Hcs & H).
    apply ret_ok in H as [<- <-].
    cbn [fits_dict_children] in Hfits. destruct Hfits as [Hfit Hfits].
    cbn [snd] in Hx.
    destruct (after_dispatch child (Key key) s s1 c Hc Hready)
      as (Hready1 & He1 & Hp1 & _).
    pose proof (proj1 (carrying_dict_children_here rest s1 cs s2 Hcs)) as Hinc.
    destruct (Hx (Key key) s c s1 store (VDict mm) (VDict acc) Hc Hready
                 (incl_tran Hinc Hctx) Hpoised Hdata Hextra I I Hfit)
      as (store1 & Hrun1 & Hframe1 & Hx1).
    assert (Hname : suffix_of s1 (_path s1) = suffix_of s (_path s)).
    { rewrite Hp1. exact (suffix_of_extends _ _ _ He1 (ready_alloc s Hready)). }
    set (acc' := if is_branch child
                 then dict_set acc (VStr key)
                        (overflow child (item_of (VDict mm) (Key key)))
                 else acc).
    destruct (IH s1 cs s2 store1 mm acc' Hcs Hready1 Hctx
                 (poised_frame _ _ _ _ Hframe1 Hpoised))
      as (store' & Hrun & Hframe & Hx' & Hready2 & He2 & Hp2).
    + rewrite Hname.
      rewrite (frame_locals _ _ _ _ Hframe1 _
                 (guarded_own_data s _ (ready_alloc s Hready))).
      exact Hdata.
    + rewrite Hname. intros Hc'. rewrite (Hx1 Hc'). unfold acc'.
      destruct (is_branch child); reflexivity.
    + exact Hfits.
    + exists store'. split; [| split; [| split; [| split; [| split]]]].
      * rewrite (exec_app_done ns c cs store store1 Hrun1). exact Hrun.
      * apply (frame_trans _ _ _ store1 _ Hframe1).
        rewrite Hp1 in Hframe.
        exact (frame_mono s s1 _ _ _ _ He1 (le_n _) Hframe).
      * rewrite <- Hname. exact Hx'.
      * exact Hready2.
      * exact (extends_trans _ _ _ He1 He2).
      * congruence.
Qed.

Lemma sim_list_children (m : list InpCrown) :
  Forall sim m ->
  forall i s code s' store l hl,
    gen_list_children (_gen_crown_dispatch self) i m s = (Ok code, s') ->
    ready s ->
    incl (ctx_namespace s') ns ->
    poised store ->
    locals_get (locals store) (V_path B_data (suffix_of s (_path s)))
      = Some (VList l) ->
    held store (V_path B_extra (suffix_of s (_path s))) (VList hl) ->
    i + List.length m <= List.length hl ->
    fits_list_children (fits self) (VList l) i m ->
    exists store',
      exec ns code store = (Done, store') /\
      frame s (List.length (_path s)) store store' /\
      held store' (V_path B_extra (suffix_of s (_path s)))
        (VList (list_nested overflow (VList l) i m hl)) /\
      ready s' /\ extends s s' /\ _path s' = _path s.
Proof.
  induction 1 as [|child rest Hx _ IH];
    intros i s code s' store l hl H Hready Hctx Hpoised Hdata Hextra Hlen Hfits.
  - apply ret_ok in H as [<- <-]. exists store.
    split; [reflexivity |]. split; [apply frame_refl |].
    split; [exact Hextra |]. split; [exact Hready |].
    split; [apply extends_refl | reflexivity].
  - cbn [gen_list_children] in H.
    apply bind_ok in H as (c & s1 & Hc & H).
    apply bind_ok in H as (cs & s2 & Hcs & H).
    apply ret_ok in H as [<- <-].
    cbn [fits_list_children] in Hfits. destruct Hfits as [Hfit Hfits].
    cbn [List.length] in Hlen.
    destruct (after_dispatch child (Idx i) s s1 c Hc Hready)
      as (Hready1 & He1 & Hp1 & _).
    pose proof (proj1 (carrying_list_children_here rest (S i) s1 cs s2 Hcs))
      as Hinc.
    assert (Hset : settable (VList hl) (Idx i)) by (simpl; lia).
    destruct (Hx (Idx i) s c s1 store (VList l) (VList hl) Hc Hready
                 (incl_tran Hinc Hctx) Hpoised Hdata Hextra I Hset Hfit)
      as (store1 & Hrun1 & Hframe1 & Hx1).
    assert (Hname : suffix_of s1 (_path s1) = suffix_of s (_path s)).
    { rewrite Hp1. exact (suffix_of_extends _ _ _ He1 (ready_alloc s Hready)). }
    set (hl' := if is_branch child
                then list_put hl i (overflow child (item_of (VList l) (Idx i)))
                else hl).
    assert (Hlen' : List.length hl' = List.length hl).
    { unfold hl'. destruct (is_branch child);
        [apply list_put_length | reflexivity]. }
    destruct (IH (S i) s1 cs s2 store1 l hl' Hcs Hready1 Hctx
                 (poised_frame _ _ _ _ Hframe1 Hpoised))
      as (store' & Hrun & Hframe & Hx' & Hready2 & He2 & Hp2).
    + rewrite Hname.
      rewrite (frame_locals _ _ _ _ Hframe1 _
                 (guarded_own_data s _ (ready_alloc s Hready))).
      exact Hdata.
    + rewrite Hname. intros Hc'. rewrite (Hx1 Hc'). unfold hl'.
      destruct (is_branch child); reflexivity.
    + rewrite Hlen'. lia.
    + exact Hfits.
    + exists store'. split; [| split; [| split; [| split; [| split]]]].
      * rewrite (exec_app_done ns c cs store store1 Hrun1). exact Hrun.
      * apply (frame_trans _ _ _ store1 _ Hframe1).
        rewrite Hp1 in Hframe.
        exact (frame_mono s s1 _ _ _ _ He1 (le_n _) Hframe).
      * rewrite <- Hname. exact Hx'.
      * exact Hready2.
      * exact (extends_trans _ _ _ He1 He2).
      * congruence.
Qed.

Lemma ready_after {A : Type} (m : Gen A) (s s' : GenState) (a : A) :
  tracks m -> keeps_position m -> carrying m ->
  m s = (Ok a, s') -> ready s ->
  ready s' /\ extends s s' /\ _path s' = _path s /\
  incl (ctx_namespace s) (ctx_namespace s').
Proof.
  intros Ht Hk Hc H Hready.
  destruct (Ht s a s' H (ready_ok s Hready)) as [Hok' He].
  pose proof (Hk s a s' H) as Hpos. pose proof (Hc s a s' H) as Hcar.
  split; [exact (ready_next s s' Hready Hok' He Hpos Hcar) |].
  split; [exact He |]. split; [exact (proj1 Hpos) | exact (proj1 Hcar)].
Qed.

Lemma names_extends (s s' : GenState) :
  extends s s' -> allocated s (_path s) -> _path s' = _path s ->
  data_name s' = data_name s /\ extra_name s' = extra_name s /\
  known_keys_name s' = known_keys_name s.
Proof.
  intros He Ha Hp. unfold data_name, extra_name, known_keys_name.
  rewrite Hp, (suffix_of_extends _ _ _ He Ha). repeat split.
Qed.

Lemma keeps_init_holder (h : value) :
  keeps_position (if _can_collect_extra self then
                    extra <- v_extra ;;
                    ret [S_assign (T_var extra) (E_const h)]
                  else ret []).
Proof. keeps_auto. Qed.

Lemma carrying_init_holder (h : value) :
  carrying (if _can_collect_extra self then
              extra <- v_extra ;; ret [S_assign (T_var extra) (E_const h)]
            else ret []).
Proof. carrying_auto. Qed.

Definition gen_type_check (kind : ContainerKind) (abc : AbcKind) : Gen Code :=
  data <- v_data ;;
  x <- with_trail (X_TypeLoadError kind) None ;;
  ret [S_if (C_not_isinstance data abc) [S_raise x] []].

Lemma keeps_gen_type_check (kind : ContainerKind) (abc : AbcKind) :
  keeps_position (gen_type_check kind abc).
Proof. unfold gen_type_check. keeps_auto. Qed.

Lemma carrying_gen_type_check (kind : ContainerKind) (abc : AbcKind) :
  carrying (gen_type_check kind abc).
Proof. unfold gen_type_check. carrying_auto. Qed.

Lemma keeps_hand_over :
  keeps_position (if _can_collect_extra self
                  then _gen_add_self_extra_to_parent_extra else ret []).
Proof.
  destruct (_can_collect_extra self);
    [apply keeps__gen_add_self_extra_to_parent_extra | apply keeps_ret].
Qed.

Lemma isinstance_check_passes (mode : DebugTrail) (data : Var) (abc : AbcKind)
    (kind : ContainerKind) (p : CrownPath) (v : value) (store : Store) :
  read_var ns store data = inl v ->
  is_instance abc v = true ->
  exec ns
    [S_if (C_not_isinstance data abc)
       [S_raise (with_trail_at mode (X_TypeLoadError kind) p)] []] store
  = (Done, store).
Proof.
  intros H Hv. rewrite exec_one.
  destruct abc; cbn [exec_stmt eval_cond]; rewrite H; simpl in Hv; rewrite Hv;
    reflexivity.
Qed.

(** The check that a branch crown without children makes of its own value,
    run where the value has the declared type. *)
Lemma sim_type_check {B : Type} (m : list B) (kind : ContainerKind)
    (abc : AbcKind) (s s' : GenState) (check : Code) (store : Store)
    (v : value) :
  match m with
  | [] => gen_type_check kind abc
  | _ :: _ => ret []
  end s = (Ok check, s') ->
  ready s ->
  locals_get (locals store) (data_name s) = Some v ->
  is_instance abc v = true ->
  exec ns check store = (Done, store) /\
  ready s' /\ extends s s' /\ _path s' = _path s /\
  incl (ctx_namespace s) (ctx_namespace s').
Proof.
  intros H Hready Hd Hv. destruct m as [|b m].
  - split.
    + unfold gen_type_check, bind in H. rewrite v_data_eq, with_trail_eq in H.
      inversion H; subst. fold (data_name s).
      exact (isinstance_check_passes _ _ abc kind _ v store
               (read_var_local ns store _ _ Hd) Hv).
    + exact (ready_after _ s s' check (proj1 (quiet_type_check kind abc))
               (keeps_gen_type_check kind abc)
               (carrying_gen_type_check kind abc) H Hready).
  - apply ret_ok in H as [<- <-].
    split; [reflexivity |]. split; [exact Hready |].
    split; [apply extends_refl |]. split; [reflexivity | apply incl_refl].
Qed.

Lemma sim_init (h : value) (s s2 : GenState) (init : Code) (store : Store) :
  (if _can_collect_extra self then
     extra <- v_extra ;; ret [S_assign (T_var extra) (E_const h)]
   else ret []) s = (Ok init, s2) ->
  ready s ->
  exec ns init store = (Done, init_holder self (extra_name s) h store) /\
  ready s2 /\ extends s s2 /\ _path s2 = _path s /\
  incl (ctx_namespace s) (ctx_namespace s2).
Proof.
  intros H Hready. split.
  - exact (proj2 (gen_init_holder self h s s2 init H) ns store).
  - exact (ready_after _ s s2 init (tracks_init_holder self h)
             (keeps_init_holder h) (carrying_init_holder h) H Hready).
Qed.

Lemma own_extra_unguarded (s : GenState) :
  ready s -> ~ guarded s (List.length (_path s)) (extra_name s).
Proof.
  intros Hready Hg.
  pose proof (guarded_name s s _ B_extra (_path s) (ready_ok s Hready)
                (extends_refl s) (ready_alloc s Hready) Hg) as Hlt.
  simpl in Hlt. lia.
Qed.

Lemma sim_dict_extra (m : list (string * InpCrown)) (policy : ExtraPolicy)
    (s s' : GenState) (extra : Code) (store : Store)
    (mm acc : list (value * value)) :
  gen_dict_extra m policy s = (Ok extra, s') ->
  ready s ->
  incl (ctx_namespace s') ns ->
  poised store ->
  locals_get (locals store) (data_name s) = Some (VDict mm) ->
  held store (extra_name s) (VDict acc) ->
  Forall (fun kv => hashable (fst kv) = true) mm ->
  (policy = ExtraForbid -> undeclared_keys mm m = []) ->
  (_can_collect_extra self = false -> policy = ExtraCollect ->
   undeclared_keys mm m = []) ->
  exists store',
    exec ns extra store = (Done, store') /\
    frame s (List.length (_path s)) store store' /\
    held store' (extra_name s) (VDict (collected policy mm m acc)) /\
    ready s' /\ extends s s' /\ _path s' = _path s.
Proof.
  intros H Hready Hctx Hpoised Hdata Hextra Hkeys Hforbid Hplain.
  destruct (ready_after _ s s' extra (proj1 (quiet_gen_dict_extra m policy))
              (keeps_gen_dict_extra m policy) (carrying_gen_dict_extra m policy)
              H Hready) as (Hready' & He & Hp & _).
  assert (Hknown : policy <> ExtraIgnore ->
                   read_var ns store (known_keys_name s)
                   = inl (VSet (declared_keys m))).
  { intros Hp'. apply read_var_global.
    - apply (poised_known store Hpoised).
    - apply (ns_get_in ns _ _ Hnodup). apply Hctx.
      exact (gen_dict_extra_known m policy s s' extra H Hp'). }
  destruct policy.
  - destruct (gen_dict_extra_forbid m s) as (s1 & Heq).
    rewrite Heq in H. inversion H; subst extra s1; clear H Heq.
    exists (set_local (extra_set_name s) (VSet []) store).
    split; [| split; [| split; [| split; [| split]]]];
      try assumption.
    + rewrite exec_cons. cbn [exec_stmt eval_expr].
      rewrite (read_var_local ns store _ _ Hdata). cbn [py_set].
      rewrite (Hknown ltac:(discriminate)). cbn [assign].
      fold (undeclared_keys mm m). rewrite (Hforbid eq_refl).
      rewrite exec_one. cbn [exec_stmt eval_cond].
      rewrite read_var_set_local_same. reflexivity.
    + apply frame_set_local; [intros [] | discriminate].
  - destruct (gen_dict_extra_collect m s) as (s1 & Heq & _).
    rewrite Heq in H. inversion H; subst extra s1; clear H Heq.
    assert (Hiter : eval_expr ns (E_set_diff (data_name s) (known_keys_name s))
                      store = (inl (VSet (undeclared_keys mm m)), store)).
    { cbn [eval_expr]. rewrite (read_var_local ns store _ _ Hdata).
      cbn [py_set]. rewrite (Hknown ltac:(discriminate)). reflexivity. }
    destruct (_can_collect_extra self) eqn:Hc.
    + pose proof (undeclared_keys_readable mm m Hkeys) as Hread.
      destruct (run_collect ns _ _ mm _ Hread store acc Hdata
                  (Hextra Hc))
        as (store' & Hrun & Hx & Hsame & Herr & _ & Hun).
      exists store'.
      split; [| split; [| split; [| split; [| split]]]];
        try assumption.
      * rewrite exec_one. cbn [exec_stmt]. rewrite Hiter. exact Hrun.
      * constructor.
        -- intros x Hx'. apply Hsame.
           ++ intros ->. exact (own_extra_unguarded s Hready Hx').
           ++ intros ->. exact Hx'.
        -- exact Herr.
        -- intros mo Hmo. exists mo.
           rewrite Hsame by discriminate. exact Hmo.
        -- exact Hun.
      * intros _. exact Hx.
    + exists store.
      split; [| split; [apply frame_refl | split; [| split; [| split]]]];
        try assumption.
      * rewrite exec_one. cbn [exec_stmt]. rewrite Hiter.
        rewrite (Hplain eq_refl eq_refl). reflexivity.
      * intros Hc'. congruence.
  - destruct (gen_dict_extra_ignore m s) as (s1 & Heq).
    rewrite Heq in H. inversion H; subst extra s1; clear H Heq.
    exists store.
    split; [reflexivity |]. split; [apply frame_refl |].
    split; [exact Hextra |]. split; [exact Hready' |].
    split; [exact He | exact Hp].
Qed.

Lemma poised_set_path (b : Basis) (sfx : option nat) (v : value)
    (store : Store) :
  b <> B_known_keys -> poised store -> poised (set_local (V_path b sfx) v store).
Proof.
  intros Hb [Hk Ho He]. constructor.
  - intros s. rewrite locals_get_set_local_other; [apply Hk |].
    intros Heq. inversion Heq. congruence.
  - intros H. destruct (Ho H) as (m & Hm). exists m.
    rewrite locals_get_set_local_other by discriminate. exact Hm.
  - exact He.
Qed.

Lemma poised_init_holder (b : Basis) (sfx : option nat) (v : value)
    (store : Store) :
  b <> B_known_keys -> poised store ->
  poised (init_holder self (V_path b sfx) v store).
Proof.
  intros Hb Hp. unfold init_holder. destruct (_can_collect_extra self);
    [apply poised_set_path; assumption | exact Hp].
Qed.

Lemma carrying_type_check_here {B : Type} (m : list B) (kind : ContainerKind)
    (abc : AbcKind) :
  carrying match m with
           | [] => gen_type_check kind abc
           | _ :: _ => ret []
           end.
Proof. destruct m; [apply carrying_gen_type_check | apply carrying_ret]. Qed.

Lemma sim_dict_middle (m : list (string * InpCrown)) (policy : ExtraPolicy) :
  Forall (fun kv => sim (snd kv)) m ->
  forall s1 s2 s3 s4 s5 init children check extra store mm,
    (if _can_collect_extra self then
       x <- v_extra ;; ret [S_assign (T_var x) (E_const (VDict []))]
     else ret []) s1 = (Ok init, s2) ->
    gen_dict_children (_gen_crown_dispatch self) m s2 = (Ok children, s3) ->
    match m with
    | [] => gen_type_check KDict CollectionsMapping
    | _ :: _ => ret []
    end s3 = (Ok check, s4) ->
    gen_dict_extra m policy s4 = (Ok extra, s5) ->
    ready s1 ->
    incl (ctx_namespace s5) ns ->
    poised store ->
    locals_get (locals store) (data_name s1) = Some (VDict mm) ->
    fits self (InpDictCrown m policy) (Some (VDict mm)) ->
    exists store',
      exec ns (init ++ children ++ check ++ extra) store = (Done, store') /\
      frame s1 (List.length (_path s1)) store store' /\
      held store' (extra_name s1)
        (overflow (InpDictCrown m policy) (VDict mm)) /\
      ready s5 /\ extends s1 s5 /\ _path s5 = _path s1.
Proof.
  intros IH s1 s2 s3 s4 s5 init children check extra store mm
         Hinit Hch Hcheck Hextra Hready Hctx Hpoised Hdata Hfits.
  cbn [fits] in Hfits. destruct Hfits as (Hkeys & Hforbid & Hplain & Hfits).
  destruct (sim_init (VDict []) s1 s2 init store Hinit Hready)
    as (Hrun2 & Hready2 & He2 & Hp2 & _).
  set (store2 := init_holder self (extra_name s1) (VDict []) store) in *.
  destruct (names_extends s1 s2 He2 (ready_alloc s1 Hready) Hp2)
    as (Hd2 & Hx2 & _).
  pose proof (proj1 (carrying_type_check_here m KDict CollectionsMapping
                       s3 check s4 Hcheck)) as Hinc34.
  pose proof (proj1 (carrying_gen_dict_extra m policy s4 extra s5 Hextra))
    as Hinc45.
  assert (Hpoised2 : poised store2).
  { unfold store2, extra_name.
    apply poised_init_holder; [discriminate | exact Hpoised]. }
  assert (Hdata2 : locals_get (locals store2) (data_name s1)
                   = Some (VDict mm)).
  { unfold store2, extra_name, data_name.
    rewrite locals_init_holder_other by discriminate. exact Hdata. }
  destruct (sim_dict_children m IH s2 children s3 store2 mm [] Hch Hready2
              (incl_tran Hinc34 (incl_tran Hinc45 Hctx)) Hpoised2)
    as (store3 & Hrun3 & Hframe3 & Hx3 & Hready3 & He3 & Hp3).
  { fold (data_name s2). rewrite Hd2. exact Hdata2. }
  { fold (extra_name s2). rewrite Hx2. apply held_init_holder. }
  { exact Hfits. }
  destruct (names_extends s2 s3 He3 (ready_alloc s2 Hready2) Hp3)
    as (Hd3 & Hx3' & _).
  assert (Hdata3 : locals_get (locals store3) (data_name s3) = Some (VDict mm)).
  { rewrite Hd3. unfold data_name.
    rewrite (frame_locals _ _ _ _ Hframe3 _
               (guarded_own_data s2 _ (ready_alloc s2 Hready2))).
    fold (data_name s2). rewrite Hd2. exact Hdata2. }
  destruct (sim_type_check m KDict CollectionsMapping s3 s4 check store3
              (VDict mm) Hcheck Hready3 Hdata3 eq_refl)
    as (Hrun4 & Hready4 & He4 & Hp4 & _).
  destruct (names_extends s3 s4 He4 (ready_alloc s3 Hready3) Hp4)
    as (Hd4 & Hx4 & _).
  destruct (sim_dict_extra m policy s4 s5 extra store3 mm
              (dict_nested overflow (VDict mm) m []) Hextra Hready4 Hctx
              (poised_frame _ _ _ _ Hframe3 Hpoised2))
    as (store5 & Hrun5 & Hframe5 & Hx5 & Hready5 & He5 & Hp5);
    try assumption.
  { rewrite Hd4. exact Hdata3. }
  { rewrite Hx4, Hx3'. exact Hx3. }
  exists store5. split; [| split; [| split; [| split; [| split]]]].
  - rewrite (exec_app_done ns init _ store store2 Hrun2).
    rewrite (exec_app_done ns children _ store2 store3 Hrun3).
    rewrite (exec_app_done ns check _ store3 store3 Hrun4). exact Hrun5.
  - apply (frame_trans _ _ _ store2).
    { apply frame_init_holder;
        [exact (own_extra_unguarded s1 Hready) | discriminate]. }
    apply (frame_trans _ _ _ store3).
    { rewrite Hp2 in Hframe3.
      exact (frame_mono s1 s2 _ _ _ _ He2 (le_n _) Hframe3). }
    rewrite Hp4, Hp3, Hp2 in Hframe5.
    exact (frame_mono s1 s4 _ _ _ _
             (extends_trans _ _ _ He2 (extends_trans _ _ _ He3 He4))
             (le_n _) Hframe5).
  - rewrite Hx4, Hx3', Hx2 in Hx5. exact Hx5.
  - exact Hready5.
  - exact (extends_trans _ _ _ He2
             (extends_trans _ _ _ He3 (extends_trans _ _ _ He4 He5))).
  - congruence.
Qed.

Lemma entered_tracking (st : GenState) (c : InpCrown) (k : CrownPathElem) :
  same_tracking st (entered st c k).
Proof. repeat split. Qed.

(** The statement that hands the holder of a crown to the holder of its
    parent, when there are holders. *)
Lemma exec_hand_over (s s' : GenState) (code : Code) (store : Store)
    (pp q : CrownPath) (k : CrownPathElem) (h v : value) :
  (if _can_collect_extra self then _gen_add_self_extra_to_parent_extra
   else ret []) s = (Ok code, s') ->
  _path s = pp ++ [k] ->
  _parent_path s = Some q ->
  allocated s (_path s) ->
  held store (extra_name s) v ->
  held store (V_path B_extra (suffix_of s q)) h ->
  settable h k ->
  exec ns code store =
    (Done, init_holder self (V_path B_extra (suffix_of s q)) (put h k v) store).
Proof.
  unfold held, init_holder. destruct (_can_collect_extra self).
  - intros H Hp Hq Ha Hv Hh Hset.
    rewrite (_gen_add_self_extra_to_parent_extra_eq s pp q k Hp Hq Ha) in H.
    inversion H; subst code s'; clear H.
    rewrite exec_one. cbn [exec_stmt eval_expr].
    rewrite (read_var_local ns store _ _ (Hv eq_refl)).
    cbn [assign eval_index].
    rewrite (read_var_local ns store _ _ (Hh eq_refl)),
            (py_setitem_put h k v Hset).
    reflexivity.
  - intros H _ _ _ _ _ _. apply ret_ok in H as [<- _]. reflexivity.
Qed.

(** The read of a nested crown's own value, where the parent has the
    position. *)
Lemma sim_read_own (c : InpCrown) (k : CrownPathElem) (st s1 : GenState)
    (read : Code) (store : Store) (pv cv : value) :
  is_branch c = true ->
  gen_read_own_data self (entered st c k) = (Ok read, s1) ->
  ready st ->
  locals_get (locals store) (V_path B_data (suffix_of st (_path st)))
    = Some pv ->
  slot_of pv k = Some cv ->
  exec ns read store = (Done, set_local (data_name s1) cv store) /\
  ready s1 /\ extends st s1 /\
  _path s1 = _path st ++ [k] /\ _parent_path s1 = Some (_path st).
Proof.
  intros Hb H Hready Hd Hslot.
  set (s0 := entered st c k) in *.
  destruct (len_known_entered st c k (ready_stack st Hready)) as (n & Hn).
  destruct (same_tracking_ok st s0 (entered_tracking st c k)
              (ready_ok st Hready)) as [Hok0 He0].
  destruct (plans_once_read_own_data self s0 read s1 H Hok0)
    as (Hok1 & He1 & _).
  destruct (keeps_gen_read_own_data self s0 read s1 H) as (Hp1 & Hpp1 & Hst1).
  destruct (carrying_gen_read_own_data self s0 read s1 H) as (_ & Hf1 & Hm1).
  rewrite (gen_read_own_data_eq self s0 (_path st) (_path st) k n
             eq_refl eq_refl Hn) in H.
  injection H as Hread Hs1.
  assert (Hdn : data_name s1 = data_name s0).
  { rewrite <- Hs1. exact (proj1 (names_after_read s0 (_path st))). }
  assert (Ha0 : allocated s0 (_path st))
    by exact (allocated_extends _ _ _ He0 (ready_alloc st Hready)).
  split; [| split; [constructor | split; [| split]]].
  - rewrite <- Hread, exec_one.
    rewrite (exec_read_found ns _ _ _ pv cv _ _ store).
    + rewrite Hdn. reflexivity.
    + unfold parent_data_name. rewrite (suffix_of_alloc_other _ _ _ Ha0).
      rewrite (suffix_of_extends _ _ _ He0 (ready_alloc st Hready)).
      apply read_var_local. exact Hd.
    + exact (slot_found pv k cv Hslot).
  - exact Hok1.
  - rewrite Hp1.
    assert (Ha : allocated
                   (mark_checked (_path st)
                      (alloc (_path st) (alloc (_path s0) s0))) (_path s0)).
    { pose proof (allocated_alloc_other (_path s0) (_path st) _
                    (allocated_alloc (_path s0) s0)) as Ha.
      destruct (mark_checked_fields (_path st)
                  (alloc (_path st) (alloc (_path s0) s0)))
        as (_ & _ & _ & _ & Hm & _).
      unfold allocated in Ha |- *. rewrite Hm. exact Ha. }
    rewrite <- Hs1. exact Ha.
  - rewrite Hf1. exact (ready_fields st Hready).
  - exists (_crown_stack st), c. rewrite Hst1. split; [reflexivity | exact Hb].
  - rewrite Hm1. exact (ready_mode st Hready).
  - exact (extends_trans _ _ _ He0 He1).
  - rewrite Hp1. reflexivity.
  - rewrite Hpp1. reflexivity.
Qed.

(** A change of the store that leaves the variables alone and goes through
    frames: nothing at all, or one more collected error. *)
Definition passing (g : Store -> Store) : Prop :=
  (forall s, locals (g s) = locals s) /\
  (forall st n a b, frame st n a b -> frame st n (g a) (g b)).

Lemma passing_id : passing (fun s => s).
Proof. split; [reflexivity | intros st n a b H; exact H]. Qed.

(** Entering a nested branch crown: the read of its value out of the parent
    container, where the parent has the position. *)
Lemma nested_entry (c : InpCrown) (k : CrownPathElem) (st s1 : GenState)
    (read : Code) (store : Store) (pv cv : value) :
  is_branch c = true ->
  gen_read_own_data self (entered st c k) = (Ok read, s1) ->
  ready st ->
  poised store ->
  locals_get (locals store) (V_path B_data (suffix_of st (_path st)))
    = Some pv ->
  slot_of pv k = Some cv ->
  let store1 := set_local (data_name s1) cv store in
  exec ns read store = (Done, store1) /\
  ready s1 /\ poised store1 /\
  locals_get (locals store1) (data_name s1) = Some cv /\
  frame st (List.length (_path st)) store store1.
Proof.
  intros Hb Hread Hready Hpoised Hd Hslot store1.
  destruct (sim_read_own c k st s1 read store pv cv Hb Hread Hready Hd Hslot)
    as (Hrun1 & Hready1 & He1 & Hp1 & Hpp1).
  split; [exact Hrun1 |]. split; [exact Hready1 |].
  split; [| split].
  - unfold store1, data_name.
    apply poised_set_path; [discriminate | exact Hpoised].
  - apply locals_get_set_local_same.
  - apply frame_set_local; [| discriminate]. intros Hg.
    pose proof (guarded_name st s1 _ B_data (_path s1) (ready_ok s1 Hready1)
                  He1 (ready_alloc s1 Hready1) Hg) as Hle.
    simpl in Hle. rewrite Hp1, length_app in Hle. simpl in Hle. lia.
Qed.

(** Leaving a nested branch crown whose code has run to its end: its holder
    goes into the holder of the parent. *)
Lemma nested_exit (g : Store -> Store) (c : InpCrown) (k : CrownPathElem)
    (st s1 s5 s6 : GenState) (read middle to_parent : Code)
    (store store5 : Store) (pv h cv v : value) :
  passing g ->
  is_branch c = true ->
  gen_read_own_data self (entered st c k) = (Ok read, s1) ->
  (if _can_collect_extra self then _gen_add_self_extra_to_parent_extra
   else ret []) s5 = (Ok to_parent, s6) ->
  same_position s1 s5 ->
  ready st -> ready s5 -> extends s1 s5 ->
  locals_get (locals store) (V_path B_data (suffix_of st (_path st)))
    = Some pv ->
  held store (V_path B_extra (suffix_of st (_path st))) h ->
  slot_of pv k = Some cv ->
  settable h k ->
  exec ns middle (set_local (data_name s1) cv store) = (Done, store5) ->
  frame s1 (List.length (_path s1)) (g (set_local (data_name s1) cv store))
        store5 ->
  held store5 (extra_name s1) v ->
  exists store',
    exec ns (read ++ middle ++ to_parent) store = (Done, store') /\
    frame st (List.length (_path st)) (g store) store' /\
    held store' (V_path B_extra (suffix_of st (_path st))) (put h k v).
Proof.
  intros [Hgl Hgf] Hb Hread Hto (Hp5 & Hpp5 & _) Hready Hready5 He5 Hd Hh Hslot
         Hset Hrun5 Hframe5 Hx5.
  destruct (sim_read_own c k st s1 read store pv cv Hb Hread Hready Hd Hslot)
    as (Hrun1 & Hready1 & He1 & Hp1 & Hpp1).
  set (store1 := set_local (data_name s1) cv store) in *.
  assert (Hlen : List.length (_path s1) = S (List.length (_path st))).
  { rewrite Hp1, length_app. simpl. lia. }
  set (px := V_path B_extra (suffix_of st (_path st))) in *.
  assert (Hpx1 : suffix_of s1 (_path st) = suffix_of st (_path st))
    by exact (suffix_of_extends _ _ _ He1 (ready_alloc st Hready)).
  assert (Hpx5 : suffix_of s5 (_path st) = suffix_of st (_path st))
    by exact (suffix_of_extends _ _ _ (extends_trans _ _ _ He1 He5)
                (ready_alloc st Hready)).
  assert (Hh5 : held store5 px h).
  { intros Hc. rewrite (frame_locals _ _ _ _ Hframe5 px).
    - rewrite Hgl. unfold store1, data_name, px.
      rewrite locals_get_set_local_other by discriminate. exact (Hh Hc).
    - exists (_path st).
      split; [exact (allocated_extends _ _ _ He1 (ready_alloc st Hready)) |].
      split; [lia | symmetry; exact Hpx1]. }
  destruct (names_extends s1 s5 He5 (ready_alloc s1 Hready1) Hp5)
    as (_ & Hxn & _).
  assert (Hrun6 : exec ns to_parent store5 =
                  (Done, init_holder self px (put h k v) store5)).
  { unfold px. rewrite <- Hpx5.
    apply (exec_hand_over s5 s6 to_parent store5 (_path st) (_path st) k h
             v Hto).
    - rewrite Hp5. exact Hp1.
    - rewrite Hpp5. exact Hpp1.
    - exact (ready_alloc s5 Hready5).
    - rewrite Hxn. exact Hx5.
    - rewrite Hpx5. exact Hh5.
    - exact Hset. }
  exists (init_holder self px (put h k v) store5).
  split; [| split].
  - rewrite (exec_app_done ns read _ store store1 Hrun1).
    rewrite (exec_app_done ns middle _ store1 store5 Hrun5). exact Hrun6.
  - apply (frame_trans _ _ _ (g store1)).
    { apply Hgf. apply frame_set_local; [| discriminate]. intros Hg.
      pose proof (guarded_name st s1 _ B_data (_path s1) (ready_ok s1 Hready1)
                    He1 (ready_alloc s1 Hready1) Hg) as Hle.
      simpl in Hle. lia. }
    apply (frame_trans _ _ _ store5).
    { apply (frame_mono st s1 _ (List.length (_path s1)) _ _ He1);
        [lia | exact Hframe5]. }
    apply frame_init_holder; [| discriminate]. intros Hg.
    pose proof (guarded_name st st _ B_extra (_path st) (ready_ok st Hready)
                  (extends_refl st) (ready_alloc st Hready) Hg) as Hlt.
    simpl in Hlt. lia.
  - apply held_init_holder.
Qed.

Lemma keeps_dict_children_here (m : list (string * InpCrown)) :
  keeps_position (gen_dict_children (_gen_crown_dispatch self) m).
Proof.
  apply keeps_gen_dict_children. apply Forall_forall. intros kv _ k.
  apply keeps__gen_crown_dispatch.
Qed.

Lemma keeps_list_children_here (m : list InpCrown) (i : nat) :
  keeps_position (gen_list_children (_gen_crown_dispatch self) i m).
Proof.
  apply keeps_gen_list_children. apply Forall_forall. intros x _ k.
  apply keeps__gen_crown_dispatch.
Qed.

Lemma keeps_type_check_here {B : Type} (m : list B) (kind : ContainerKind)
    (abc : AbcKind) :
  keeps_position match m with
                 | [] => gen_type_check kind abc
                 | _ :: _ => ret []
                 end.
Proof. destruct m; [apply keeps_gen_type_check | apply keeps_ret]. Qed.

Lemma carrying_hand_over :
  carrying (if _can_collect_extra self
            then _gen_add_self_extra_to_parent_extra else ret []).
Proof.
  destruct (_can_collect_extra self);
    [apply carrying__gen_add_self_extra_to_parent_extra | apply carrying_ret].
Qed.

(** The pieces of a dict crown between the read of its value and the
    hand-over of its holder keep the position. *)
Lemma dict_middle_position (m : list (string * InpCrown))
    (policy : ExtraPolicy) (s1 s2 s3 s4 s5 : GenState)
    (init children check extra : Code) :
  (if _can_collect_extra self then
     x <- v_extra ;; ret [S_assign (T_var x) (E_const (VDict []))]
   else ret []) s1 = (Ok init, s2) ->
  gen_dict_children (_gen_crown_dispatch self) m s2 = (Ok children, s3) ->
  match m with
  | [] => gen_type_check KDict CollectionsMapping
  | _ :: _ => ret []
  end s3 = (Ok check, s4) ->
  gen_dict_extra m policy s4 = (Ok extra, s5) ->
  same_position s1 s5.
Proof.
  intros Hinit Hch Hcheck Hextra.
  apply (same_position_trans _ s2);
    [exact (keeps_init_holder (VDict []) s1 init s2 Hinit) |].
  apply (same_position_trans _ s3);
    [exact (keeps_dict_children_here m s2 children s3 Hch) |].
  apply (same_position_trans _ s4);
    [exact (keeps_type_check_here m KDict CollectionsMapping s3 check s4
              Hcheck) |].
  exact (keeps_gen_dict_extra m policy s4 extra s5 Hextra).
Qed.

(** A nested dict crown, run where its position holds a mapping that fits. *)
Lemma sim_dict (m : list (string * InpCrown)) (policy : ExtraPolicy) :
  Forall (fun kv => sim (snd kv)) m -> sim (InpDictCrown m policy).
Proof.
  intros IH k st code st' store pv h H Hready Hctx Hpoised Hdata Hextra Hholds
         Hset Hfits.
  rewrite _gen_crown_dispatch_eq in H.
  apply add_key_inv in H as (sF & Hblock & Hns).
  unfold _gen_root_crown_dispatch in Hblock.
  apply bind_ok in Hblock as (r & s7 & Hr & Hblock).
  apply bind_ok in Hr as (c & s6 & Hc & Hr). apply ret_ok in Hr as [<- <-].
  apply ret_ok in Hblock as [<- <-].
  unfold _gen_dict_crown in Hc.
  apply bind_ok in Hc as (read & s1 & Hread & Hc).
  apply bind_ok in Hc as (init & s2 & Hinit & Hc).
  apply bind_ok in Hc as (children & s3 & Hch & Hc).
  apply bind_ok in Hc as (check & s4 & Hcheck & Hc).
  apply bind_ok in Hc as (extra & s5 & Hextra5 & Hc).
  apply bind_ok in Hc as (to_parent & sT & Hto & Hc).
  apply ret_ok in Hc as [<- <-].
  destruct (slot_of pv k) as [cv|] eqn:Hslot;
    [| cbn [fits] in Hfits; contradiction].
  destruct cv as [| b | z | str | l | mm | e];
    try (cbn [fits] in Hfits; contradiction).
  cbn [is_branch]. rewrite (item_of_found pv k _ Hslot).
  replace (read ++ init ++ children ++ check ++ extra ++ to_parent)
    with (read ++ (init ++ children ++ check ++ extra) ++ to_parent)
    by (rewrite <- !app_assoc; reflexivity).
  pose proof (dict_middle_position m policy s1 s2 s3 s4 s5 init children check
                extra Hinit Hch Hcheck Hextra5) as Hpos.
  assert (Hctx5 : incl (ctx_namespace s5) ns).
  { apply (incl_tran (proj1 (carrying_hand_over s5 to_parent sT Hto))).
    rewrite <- Hns. exact Hctx. }
  destruct (nested_entry (InpDictCrown m policy) k st s1 read store pv
              (VDict mm) eq_refl Hread Hready Hpoised Hdata Hslot)
    as (_ & Hready1 & Hpoised1 & Hd1 & _).
  destruct (sim_dict_middle m policy IH s1 s2 s3 s4 s5 init children check
              extra _ mm Hinit Hch Hcheck Hextra5 Hready1 Hctx5 Hpoised1
              Hd1 Hfits)
    as (store5 & Hrun & Hframe & Hx & Hready5 & He5 & _).
  exact (nested_exit (fun s => s) (InpDictCrown m policy) k st s1 s5 sT read
           (init ++ children ++ check ++ extra) to_parent store store5 pv h
           (VDict mm) _ passing_id eq_refl Hread Hto Hpos Hready Hready5 He5
           Hdata Hextra Hslot Hset Hrun Hframe Hx).
Qed.

Lemma keeps_strict_check :
  keeps_position (if _strict_coercion self then
                    data <- v_data ;;
                    x <- with_trail (X_TypeLoadError KList) None ;;
                    ret [S_if (C_type_is_str data) [S_raise x] []]
                  else ret []).
Proof. keeps_auto. Qed.

Lemma carrying_strict_check :
  carrying (if _strict_coercion self then
              data <- v_data ;;
              x <- with_trail (X_TypeLoadError KList) None ;;
              ret [S_if (C_type_is_str data) [S_raise x] []]
            else ret []).
Proof. carrying_auto. Qed.

Lemma sim_strict_check (s s' : GenState) (code : Code) (store : Store)
    (l : list value) :
  (if _strict_coercion self then
     data <- v_data ;;
     x <- with_trail (X_TypeLoadError KList) None ;;
     ret [S_if (C_type_is_str data) [S_raise x] []]
   else ret []) s = (Ok code, s') ->
  ready s ->
  locals_get (locals store) (data_name s) = Some (VList l) ->
  exec ns code store = (Done, store) /\
  ready s' /\ extends s s' /\ _path s' = _path s /\
  incl (ctx_namespace s) (ctx_namespace s').
Proof.
  intros H Hready Hd. split.
  - exact (proj2 (gen_strict_check self s s' code H) ns store (VList l)
             (read_var_local ns store _ _ Hd) eq_refl).
  - exact (ready_after _ s s' code (proj1 (quiet_strict_check self))
             keeps_strict_check carrying_strict_check H Hready).
Qed.

Lemma len_check_ready (n : nat) (policy : ExtraPolicy) (s s' : GenState)
    (code : Code) :
  gen_list_len_check n policy s = (Ok code, s') ->
  ready s ->
  ready s' /\ extends s s' /\ _path s' = _path s /\
  incl (ctx_namespace s) (ctx_namespace s').
Proof.
  intros H Hready.
  exact (ready_after _ s s' code (proj1 (quiet_gen_list_len_check n policy))
           (keeps_gen_list_len_check n policy)
           (carrying_gen_list_len_check n policy) H Hready).
Qed.

Lemma sim_len_check (n : nat) (policy : ExtraPolicy) (s s' : GenState)
    (code : Code) (store : Store) (l : list value) :
  gen_list_len_check n policy s = (Ok code, s') ->
  ready s ->
  locals_get (locals store) (data_name s) = Some (VList l) ->
  n <= List.length l ->
  (policy = ExtraForbid -> List.length l = n) ->
  exec ns code store = (Done, store) /\
  ready s' /\ extends s s' /\ _path s' = _path s /\
  incl (ctx_namespace s) (ctx_namespace s').
Proof.
  intros H Hready Hd Hle Hforbid. split.
  - rewrite gen_list_len_check_eq in H. inversion H; subst code s'; clear H.
    pose proof (read_var_local ns store _ _ Hd) as Hdata.
    destruct policy; rewrite exec_one; cbn [exec_stmt eval_cond];
      rewrite Hdata; cbn [py_len];
      rewrite ?(proj2 (Nat.eqb_eq _ _) (Hforbid eq_refl));
      rewrite ?(proj2 (Nat.ltb_ge _ _)) by lia; reflexivity.
  - exact (len_check_ready n policy s s' code H Hready).
Qed.

Lemma extra_list_literal_holders (m : list InpCrown) :
  extra_list_literal m =
  VList (List.map (fun child => if is_branch child then VNone else VDict []) m).
Proof.
  unfold extra_list_literal. f_equal. apply map_ext. intros []; reflexivity.
Qed.

Lemma sim_list_middle (m : list InpCrown) (policy : ExtraPolicy) :
  Forall sim m ->
  forall s1 s2 s3 s4 s5 s6 strict init children check len_check store l,
    (if _strict_coercion self then
       data <- v_data ;;
       x <- with_trail (X_TypeLoadError KList) None ;;
       ret [S_if (C_type_is_str data) [S_raise x] []]
     else ret []) s1 = (Ok strict, s2) ->
    (if _can_collect_extra self then
       x <- v_extra ;;
       ret [S_assign (T_var x) (E_const (extra_list_literal m))]
     else ret []) s2 = (Ok init, s3) ->
    gen_list_children (_gen_crown_dispatch self) 0 m s3 = (Ok children, s4) ->
    match m with
    | [] => gen_type_check KList CollectionsSequence
    | _ :: _ => ret []
    end s4 = (Ok check, s5) ->
    gen_list_len_check (List.length m) policy s5 = (Ok len_check, s6) ->
    ready s1 ->
    incl (ctx_namespace s6) ns ->
    poised store ->
    locals_get (locals store) (data_name s1) = Some (VList l) ->
    fits self (InpListCrown m policy) (Some (VList l)) ->
    exists store',
      exec ns (strict ++ init ++ children ++ check ++ len_check) store
        = (Done, store') /\
      frame s1 (List.length (_path s1)) store store' /\
      held store' (extra_name s1)
        (overflow (InpListCrown m policy) (VList l)) /\
      ready s6 /\ extends s1 s6 /\ _path s6 = _path s1.
Proof.
  intros IH s1 s2 s3 s4 s5 s6 strict init children check len_check store l
         Hstrict Hinit Hch Hcheck Hlen Hready Hctx Hpoised Hdata Hfits.
  cbn [fits] in Hfits. destruct Hfits as (Hle & Hforbid & Hfits).
  destruct (sim_strict_check s1 s2 strict store l Hstrict Hready Hdata)
    as (Hrun2 & Hready2 & He2 & Hp2 & _).
  destruct (names_extends s1 s2 He2 (ready_alloc s1 Hready) Hp2)
    as (Hd2 & Hx2 & _).
  set (hl := List.map (fun child => if is_branch child then VNone
                                    else VDict []) m).
  rewrite extra_list_literal_holders in Hinit. fold hl in Hinit.
  destruct (sim_init (VList hl) s2 s3 init store Hinit Hready2)
    as (Hrun3 & Hready3 & He3 & Hp3 & _).
  set (store3 := init_holder self (extra_name s2) (VList hl) store) in *.
  destruct (names_extends s2 s3 He3 (ready_alloc s2 Hready2) Hp3)
    as (Hd3 & Hx3 & _).
  pose proof (proj1 (carrying_type_check_here m KList CollectionsSequence
                       s4 check s5 Hcheck)) as Hinc45.
  pose proof (proj1 (carrying_gen_list_len_check (List.length m) policy
                       s5 len_check s6 Hlen)) as Hinc56.
  assert (Hpoised3 : poised store3).
  { unfold store3, extra_name.
    apply poised_init_holder; [discriminate | exact Hpoised]. }
  assert (Hdata3 : locals_get (locals store3) (data_name s3)
                   = Some (VList l)).
  { rewrite Hd3, Hd2. unfold store3, extra_name, data_name.
    rewrite locals_init_holder_other by discriminate. exact Hdata. }
  destruct (sim_list_children m IH 0 s3 children s4 store3 l hl Hch Hready3
              (incl_tran Hinc45 (incl_tran Hinc56 Hctx)) Hpoised3)
    as (store4 & Hrun4 & Hframe4 & Hx4 & Hready4 & He4 & Hp4).
  { exact Hdata3. }
  { fold (extra_name s3). rewrite Hx3. apply held_init_holder. }
  { unfold hl. rewrite length_map. simpl. lia. }
  { exact Hfits. }
  destruct (names_extends s3 s4 He4 (ready_alloc s3 Hready3) Hp4)
    as (Hd4 & Hx4' & _).
  assert (Hdata4 : locals_get (locals store4) (data_name s4)
                   = Some (VList l)).
  { rewrite Hd4. unfold data_name.
    rewrite (frame_locals _ _ _ _ Hframe4 _
               (guarded_own_data s3 _ (ready_alloc s3 Hready3))).
    exact Hdata3. }
  destruct (sim_type_check m KList CollectionsSequence s4 s5 check store4
              (VList l) Hcheck Hready4 Hdata4 eq_refl)
    as (Hrun5 & Hready5 & He5 & Hp5 & _).
  destruct (names_extends s4 s5 He5 (ready_alloc s4 Hready4) Hp5)
    as (Hd5 & Hx5 & _).
  destruct (sim_len_check (List.length m) policy s5 s6 len_check store4 l
              Hlen Hready5)
    as (Hrun6 & Hready6 & He6 & Hp6 & _).
  { rewrite Hd5. exact Hdata4. }
  { exact Hle. }
  { exact Hforbid. }
  exists store4. split; [| split; [| split; [| split; [| split]]]].
  - rewrite (exec_app_done ns strict _ store store Hrun2).
    rewrite (exec_app_done ns init _ store store3).
    + rewrite (exec_app_done ns children _ store3 store4 Hrun4).
      rewrite (exec_app_done ns check _ store4 store4 Hrun5). exact Hrun6.
    + rewrite Hrun3. reflexivity.
  - apply (frame_trans _ _ _ store3).
    { unfold store3. rewrite Hx2. apply frame_init_holder;
        [exact (own_extra_unguarded s1 Hready) | discriminate]. }
    rewrite Hp3, Hp2 in Hframe4.
    exact (frame_mono s1 s3 _ _ _ _ (extends_trans _ _ _ He2 He3) (le_n _)
             Hframe4).
  - fold (extra_name s3) in Hx4. rewrite Hx3, Hx2 in Hx4. exact Hx4.
  - exact Hready6.
  - exact (extends_trans _ _ _ He2
             (extends_trans _ _ _ He3
                (extends_trans _ _ _ He4 (extends_trans _ _ _ He5 He6)))).
  - congruence.
Qed.

Lemma list_middle_position (m : list InpCrown) (policy : ExtraPolicy)
    (s1 s2 s3 s4 s5 s6 : GenState)
    (strict init children check len_check : Code) :
  (if _strict_coercion self then
     data <- v_data ;;
     x <- with_trail (X_TypeLoadError KList) None ;;
     ret [S_if (C_type_is_str data) [S_raise x] []]
   else ret []) s1 = (Ok strict, s2) ->
  (if _can_collect_extra self then
     x <- v_extra ;;
     ret [S_assign (T_var x) (E_const (extra_list_literal m))]
   else ret []) s2 = (Ok init, s3) ->
  gen_list_children (_gen_crown_dispatch self) 0 m s3 = (Ok children, s4) ->
  match m with
  | [] => gen_type_check KList CollectionsSequence
  | _ :: _ => ret []
  end s4 = (Ok check, s5) ->
  gen_list_len_check (List.length m) policy s5 = (Ok len_check, s6) ->
  same_position s1 s6.
Proof.
  intros Hstrict Hinit Hch Hcheck Hlen.
  apply (same_position_trans _ s2);
    [exact (keeps_strict_check s1 strict s2 Hstrict) |].
  apply (same_position_trans _ s3);
    [exact (keeps_init_holder (extra_list_literal m) s2 init s3 Hinit) |].
  apply (same_position_trans _ s4);
    [exact (keeps_list_children_here m 0 s3 children s4 Hch) |].
  apply (same_position_trans _ s5);
    [exact (keeps_type_check_here m KList CollectionsSequence s4 check s5
              Hcheck) |].
  exact (keeps_gen_list_len_check (List.length m) policy s5 len_check s6 Hlen).
Qed.

(** A nested list crown, run where its position holds a list that fits. *)
Lemma sim_list (m : list InpCrown) (policy : ExtraPolicy) :
  Forall sim m -> sim (InpListCrown m policy).
Proof.
  intros IH k st code st' store pv h H Hready Hctx Hpoised Hdata Hextra Hholds
         Hset Hfits.
  rewrite _gen_crown_dispatch_eq in H.
  apply add_key_inv in H as (sF & Hblock & Hns).
  unfold _gen_root_crown_dispatch in Hblock.
  apply bind_ok in Hblock as (r & s8 & Hr & Hblock).
  apply bind_ok in Hr as (c & s7 & Hc & Hr). apply ret_ok in Hr as [<- <-].
  apply ret_ok in Hblock as [<- <-].
  unfold _gen_list_crown in Hc.
  apply bind_ok in Hc as (read & s1 & Hread & Hc).
  apply bind_ok in Hc as (strict & s2 & Hstrict & Hc).
  apply bind_ok in Hc as (init & s3 & Hinit & Hc).
  apply bind_ok in Hc as (children & s4 & Hch & Hc).
  apply bind_ok in Hc as (check & s5 & Hcheck & Hc).
  apply bind_ok in Hc as (len_check & s6 & Hlen & Hc).
  apply bind_ok in Hc as (to_parent & sT & Hto & Hc).
  apply ret_ok in Hc as [<- <-].
  destruct (slot_of pv k) as [cv|] eqn:Hslot;
    [| cbn [fits] in Hfits; contradiction].
  destruct cv as [| b | z | str | l | mm | e];
    try (cbn [fits] in Hfits; contradiction).
  cbn [is_branch]. rewrite (item_of_found pv k _ Hslot).
  replace (read ++ strict ++ init ++ children ++ check ++ len_check
                ++ to_parent)
    with (read ++ (strict ++ init ++ children ++ check ++ len_check)
               ++ to_parent)
    by (rewrite <- !app_assoc; reflexivity).
  pose proof (list_middle_position m policy s1 s2 s3 s4 s5 s6 strict init
                children check len_check Hstrict Hinit Hch Hcheck Hlen)
    as Hpos.
  assert (Hctx6 : incl (ctx_namespace s6) ns).
  { apply (incl_tran (proj1 (carrying_hand_over s6 to_parent sT Hto))).
    rewrite <- Hns. exact Hctx. }
  destruct (nested_entry (InpListCrown m policy) k st s1 read store pv
              (VList l) eq_refl Hread Hready Hpoised Hdata Hslot)
    as (_ & Hready1 & Hpoised1 & Hd1 & _).
  destruct (sim_list_middle m policy IH s1 s2 s3 s4 s5 s6 strict init children
              check len_check _ l Hstrict Hinit Hch Hcheck Hlen Hready1
              Hctx6 Hpoised1 Hd1 Hfits)
    as (store6 & Hrun & Hframe & Hx & Hready6 & He6 & _).
  exact (nested_exit (fun s => s) (InpListCrown m policy) k st s1 s6 sT read
           (strict ++ init ++ children ++ check ++ len_check) to_parent store
           store6 pv h (VList l) _ passing_id eq_refl Hread Hto Hpos Hready
           Hready6 He6 Hdata Hextra Hslot Hset Hrun Hframe Hx).
Qed.

(** Every crown, as a child: on a position that fits, its code completes,
    leaves the names of the crowns above alone, and leaves its overflow in
    the holder of its parent. *)
Lemma sim_all (c : InpCrown) : sim c.
Proof.
  induction c as [m p IH | m p IH | id |] using InpCrown_tree_ind.
  - apply sim_dict. exact IH.
  - apply sim_list. exact IH.
  - apply sim_field.
  - apply sim_none.
Qed.

Lemma sim_all_dict (m : list (string * InpCrown)) :
  Forall (fun kv => sim (snd kv)) m.
Proof. apply Forall_forall. intros kv _. apply sim_all. Qed.

Lemma sim_all_list (m : list InpCrown) : Forall sim m.
Proof. apply Forall_forall. intros x _. apply sim_all. Qed.

Lemma hand_over_root (s s' : GenState) (code : Code) :
  (if _can_collect_extra self then _gen_add_self_extra_to_parent_extra
   else ret []) s = (Ok code, s') ->
  _path s = [] -> code = [] /\ s' = s.
Proof.
  intros H Hroot. destruct (_can_collect_extra self).
  - unfold _gen_add_self_extra_to_parent_extra, bind in H.
    rewrite path_eq, Hroot in H. inversion H. split; reflexivity.
  - inversion H. split; reflexivity.
Qed.

(** *** The code of a branch crown, in pieces *)

(** The code of a dict crown between the read of its value and the hand-over
    of its holder. *)
Definition dict_middle_of (m : list (string * InpCrown)) (policy : ExtraPolicy)
    (s1 : GenState) (code : Code) (s5 : GenState) : Prop :=
  exists init s2 children s3 check s4 extra,
    (if _can_collect_extra self then
       x <- v_extra ;; ret [S_assign (T_var x) (E_const (VDict []))]
     else ret []) s1 = (Ok init, s2) /\
    gen_dict_children (_gen_crown_dispatch self) m s2 = (Ok children, s3) /\
    match m with
    | [] => gen_type_check KDict CollectionsMapping
    | _ :: _ => ret []
    end s3 = (Ok check, s4) /\
    gen_dict_extra m policy s4 = (Ok extra, s5) /\
    code = init ++ children ++ check ++ extra.

Definition list_middle_of (m : list InpCrown) (policy : ExtraPolicy)
    (s1 : GenState) (code : Code) (s6 : GenState) : Prop :=
  exists strict s2 init s3 children s4 check s5 len_check,
    (if _strict_coercion self then
       data <- v_data ;;
       x <- with_trail (X_TypeLoadError KList) None ;;
       ret [S_if (C_type_is_str data) [S_raise x] []]
     else ret []) s1 = (Ok strict, s2) /\
    (if _can_collect_extra self then
       x <- v_extra ;;
       ret [S_assign (T_var x) (E_const (extra_list_literal m))]
     else ret []) s2 = (Ok init, s3) /\
    gen_list_children (_gen_crown_dispatch self) 0 m s3 = (Ok children, s4) /\
    match m with
    | [] => gen_type_check KList CollectionsSequence
    | _ :: _ => ret []
    end s4 = (Ok check, s5) /\
    gen_list_len_check (List.length m) policy s5 = (Ok len_check, s6) /\
    code = strict ++ init ++ children ++ check ++ len_check.

Definition middle_of (c : InpCrown) (s1 : GenState) (code : Code)
    (s5 : GenState) : Prop :=
  match c with
  | InpDictCrown m policy => dict_middle_of m policy s1 code s5
  | InpListCrown m policy => list_middle_of m policy s1 code s5
  | InpFieldCrown _ | InpNoneCrown => False
  end.

(** The code of a branch crown as a child: the read, the middle, the
    hand-over. *)
Lemma child_code (c : InpCrown) (k : CrownPathElem) (st st' : GenState)
    (code : Code) :
  is_branch c = true ->
  _gen_crown_dispatch self c k st = (Ok code, st') ->
  exists read s1 middle s5 to_parent sT,
    gen_read_own_data self (entered st c k) = (Ok read, s1) /\
    middle_of c s1 middle s5 /\
    (if _can_collect_extra self then _gen_add_self_extra_to_parent_extra
     else ret []) s5 = (Ok to_parent, sT) /\
    code = read ++ middle ++ to_parent /\
    incl (ctx_namespace s5) (ctx_namespace st').
Proof.
  intros Hb H. rewrite _gen_crown_dispatch_eq in H.
  apply add_key_inv in H as (sF & Hblock & Hns).
  unfold _gen_root_crown_dispatch in Hblock.
  destruct c as [m policy | m policy | id |]; try discriminate.
  - apply bind_ok in Hblock as (r & s7 & Hr & Hblock).
    apply bind_ok in Hr as (c & s6 & Hc & Hr). apply ret_ok in Hr as [<- <-].
    apply ret_ok in Hblock as [<- <-].
    unfold _gen_dict_crown in Hc.
    apply bind_ok in Hc as (read & s1 & Hread & Hc).
    apply bind_ok in Hc as (init & s2 & Hinit & Hc).
    apply bind_ok in Hc as (children & s3 & Hch & Hc).
    apply bind_ok in Hc as (check & s4 & Hcheck & Hc).
    apply bind_ok in Hc as (extra & s5 & Hextra5 & Hc).
    apply bind_ok in Hc as (to_parent & sT & Hto & Hc).
    apply ret_ok in Hc as [<- <-].
    exists read, s1, (init ++ children ++ check ++ extra), s5, to_parent, sT.
    split; [exact Hread |]. split.
    { exists init, s2, children, s3, check, s4, extra.
      repeat (split; [assumption |]). reflexivity. }
    split; [exact Hto |]. split.
    { rewrite <- !app_assoc. reflexivity. }
    rewrite Hns. exact (proj1 (carrying_hand_over s5 to_parent sT Hto)).
  - apply bind_ok in Hblock as (r & s8 & Hr & Hblock).
    apply bind_ok in Hr as (c & s7 & Hc & Hr). apply ret_ok in Hr as [<- <-].
    apply ret_ok in Hblock as [<- <-].
    unfold _gen_list_crown in Hc.
    apply bind_ok in Hc as (read & s1 & Hread & Hc).
    apply bind_ok in Hc as (strict & s2 & Hstrict & Hc).
    apply bind_ok in Hc as (init & s3 & Hinit & Hc).
    apply bind_ok in Hc as (children & s4 & Hch & Hc).
    apply bind_ok in Hc as (check & s5 & Hcheck & Hc).
    apply bind_ok in Hc as (len_check & s6 & Hlen & Hc).
    apply bind_ok in Hc as (to_parent & sT & Hto & Hc).
    apply ret_ok in Hc as [<- <-].
    exists read, s1, (strict ++ init ++ children ++ check ++ len_check), s6,
           to_parent, sT.
    split; [exact Hread |]. split.
    { exists strict, s2, init, s3, children, s4, check, s5, len_check.
      repeat (split; [assumption |]). reflexivity. }
    split; [exact Hto |]. split.
    { rewrite <- !app_assoc. reflexivity. }
    rewrite Hns. exact (proj1 (carrying_hand_over s6 to_parent sT Hto)).
Qed.

Lemma middle_position (c : InpCrown) (s1 s5 : GenState) (code : Code) :
  middle_of c s1 code s5 -> same_position s1 s5.
Proof.
  destruct c as [m policy | m policy | id |]; cbn [middle_of];
    try contradiction.
  - intros (init & s2 & children & s3 & check & s4 & extra & Hinit & Hch
            & Hcheck & Hextra & _).
    exact (dict_middle_position m policy s1 s2 s3 s4 s5 init children check
             extra Hinit Hch Hcheck Hextra).
  - intros (strict & s2 & init & s3 & children & s4 & check & s5' & len_check
            & Hstrict & Hinit & Hch & Hcheck & Hlen & _).
    exact (list_middle_position m policy s1 s2 s3 s4 s5' s5 strict init
             children check len_check Hstrict Hinit Hch Hcheck Hlen).
Qed.

(** The code of a branch crown at the root: the middle alone. *)
Lemma root_code (c : InpCrown) (s1 s2 : GenState) (body : Code) :
  _gen_root_crown_dispatch self (_gen_crown_dispatch self) c s1
    = (Ok (Some body), s2) ->
  _path s1 = [] ->
  middle_of c s1 body s2 /\ _path s2 = [].
Proof.
  intros H Hroot. unfold _gen_root_crown_dispatch in H.
  destruct c as [m policy | m policy | id |]; try discriminate.
  - apply bind_ok in H as (c & sF & Hc & Hr). apply ret_ok in Hr as [Hr <-].
    inversion Hr; subst c; clear Hr.
    unfold _gen_dict_crown in Hc.
    apply bind_ok in Hc as (read & s1' & Hread & Hc).
    rewrite (gen_read_own_data_root self s1 Hroot) in Hread.
    inversion Hread; subst read s1'; clear Hread.
    apply bind_ok in Hc as (init & s2' & Hinit & Hc).
    apply bind_ok in Hc as (children & s3 & Hch & Hc).
    apply bind_ok in Hc as (check & s4 & Hcheck & Hc).
    apply bind_ok in Hc as (extra & s5 & Hextra & Hc).
    apply bind_ok in Hc as (to_parent & sT & Hto & Hc).
    apply ret_ok in Hc as [<- <-].
    destruct (dict_middle_position m policy s1 s2' s3 s4 s5 init children
                check extra Hinit Hch Hcheck Hextra) as (Hp5 & _).
    destruct (hand_over_root s5 sT to_parent Hto) as [-> ->];
      [congruence |].
    split; [| congruence].
    exists init, s2', children, s3, check, s4, extra.
    repeat (split; [assumption |]). cbn [app]. rewrite !app_nil_r.
    reflexivity.
  - apply bind_ok in H as (c & sF & Hc & Hr). apply ret_ok in Hr as [Hr <-].
    inversion Hr; subst c; clear Hr.
    unfold _gen_list_crown in Hc.
    apply bind_ok in Hc as (read & s1' & Hread & Hc).
    rewrite (gen_read_own_data_root self s1 Hroot) in Hread.
    inversion Hread; subst read s1'; clear Hread.
    apply bind_ok in Hc as (strict & s2' & Hstrict & Hc).
    apply bind_ok in Hc as (init & s3 & Hinit & Hc).
    apply bind_ok in Hc as (children & s4 & Hch & Hc).
    apply bind_ok in Hc as (check & s5 & Hcheck & Hc).
    apply bind_ok in Hc as (len_check & s6 & Hlen & Hc).
    apply bind_ok in Hc as (to_parent & sT & Hto & Hc).
    apply ret_ok in Hc as [<- <-].
    destruct (list_middle_position m policy s1 s2' s3 s4 s5 s6 strict init
                children check len_check Hstrict Hinit Hch Hcheck Hlen)
      as (Hp6 & _).
    destruct (hand_over_root s6 sT to_parent Hto) as [-> ->];
      [congruence |].
    split; [| congruence].
    exists strict, s2', init, s3, children, s4, check, s5, len_check.
    repeat (split; [assumption |]). cbn [app]. rewrite !app_nil_r.
    reflexivity.
Qed.

(** The middle of a branch crown, run where the crown's value fits. *)
Lemma sim_middle (c : InpCrown) (s1 s5 : GenState) (middle : Code)
    (store : Store) (cv : value) :
  middle_of c s1 middle s5 ->
  ready s1 ->
  incl (ctx_namespace s5) ns ->
  poised store ->
  locals_get (locals store) (data_name s1) = Some cv ->
  fits self c (Some cv) ->
  exists store',
    exec ns middle store = (Done, store') /\
    frame s1 (List.length (_path s1)) store store' /\
    held store' (extra_name s1) (overflow c cv) /\
    ready s5 /\ extends s1 s5.
Proof.
  intros Hmid Hready Hctx Hpoised Hdata Hfits.
  destruct c as [m policy | m policy | id |]; cbn [middle_of] in Hmid;
    try contradiction.
  - destruct Hmid as (init & s2 & children & s3 & check & s4 & extra & Hinit
                      & Hch & Hcheck & Hextra & ->).
    destruct cv as [| b | z | str | l | mm | e];
      try (cbn [fits] in Hfits; contradiction).
    destruct (sim_dict_middle m policy (sim_all_dict m) s1 s2 s3 s4 s5 init
                children check extra store mm Hinit Hch Hcheck Hextra Hready
                Hctx Hpoised Hdata Hfits)
      as (store' & Hrun & Hframe & Hx & Hready5 & He5 & _).
    exists store'. repeat (split; [assumption |]). exact He5.
  - destruct Hmid as (strict & s2 & init & s3 & children & s4 & check & s5'
                      & len_check & Hstrict & Hinit & Hch & Hcheck & Hlen
                      & ->).
    destruct cv as [| b | z | str | l | mm | e];
      try (cbn [fits] in Hfits; contradiction).
    destruct (sim_list_middle m policy (sim_all_list m) s1 s2 s3 s4 s5' s5
                strict init children check len_check store l Hstrict Hinit
                Hch Hcheck Hlen Hready Hctx Hpoised Hdata Hfits)
      as (store' & Hrun & Hframe & Hx & Hready6 & He6 & _).
    exists store'. repeat (split; [assumption |]). exact He6.
Qed.

(** The root crown, run on an input that fits: the code completes, collects
    no error, and leaves the overflow of the whole input in the root's
    holder. *)
Lemma sim_root (c : InpCrown) (s1 s2 : GenState) (body : Code) (store : Store)
    (input : value) :
  _gen_root_crown_dispatch self (_gen_crown_dispatch self) c s1
    = (Ok (Some body), s2) ->
  ready s1 ->
  _path s1 = [] ->
  incl (ctx_namespace s2) ns ->
  poised store ->
  locals_get (locals store) (V_path B_data None) = Some input ->
  fits self c (Some input) ->
  exists store',
    exec ns body store = (Done, store') /\
    frame s1 0 store store' /\
    held store' (V_path B_extra None) (overflow c input) /\
    _path s2 = [].
Proof.
  intros H Hready Hroot Hctx Hpoised Hdata Hfits.
  destruct (root_code c s1 s2 body H Hroot) as [Hmid Hroot2].
  destruct (sim_middle c s1 s2 body store input Hmid Hready Hctx Hpoised)
    as (store' & Hrun & Hframe & Hx & _).
  { unfold data_name. rewrite Hroot. exact Hdata. }
  { exact Hfits. }
  exists store'. rewrite Hroot in Hframe.
  unfold extra_name in Hx. rewrite Hroot in Hx.
  split; [exact Hrun |]. split; [exact Hframe |].
  split; [exact Hx | exact Hroot2].
Qed.

(** *** Inputs that fit but for one node *)

(** The store with one more collected error. *)
Definition appended (e : Exn) (store : Store) : Store :=
  match errors store with
  | Some es => set_errors (es ++ [e]) store
  | None => store
  end.

Lemma passing_appended (e : Exn) : passing (appended e).
Proof.
  split.
  - intros s. unfold appended. destruct (errors s); reflexivity.
  - intros st n a b [Hl He Ho Hu]. unfold appended. rewrite He.
    destruct (errors a) eqn:Ea; constructor;
      cbn [locals errors has_unexpected_error set_errors]; auto; congruence.
Qed.

Lemma report_all (e : Exn) (store : Store) (es : list Exn) :
  errors store = Some es -> report ALL e store = (Done, appended e store).
Proof. intros H. unfold report, appended. rewrite H. reflexivity. Qed.

Lemma poised_appended (e : Exn) (store : Store) :
  poised store -> poised (appended e store).
Proof.
  intros [Hk Ho He]. unfold appended.
  destruct (errors store) eqn:E; constructor; cbn [locals errors set_errors];
    auto.
  - intros _. eexists. reflexivity.
  - rewrite E. exact He.
Qed.

(** Holders of one kind: two mappings, or two lists of one length. *)
Definition shape (h h' : value) : Prop :=
  match h, h' with
  | VDict _, VDict _ => True
  | VList a, VList b => List.length a = List.length b
  | _, _ => False
  end.

Lemma shape_put (h : value) (k : CrownPathElem) (v : value) :
  settable h k -> shape h (put h k v).
Proof.
  destruct h as [| b | z | s | l | m | e], k as [key | i]; simpl;
    try contradiction; intros _; [| exact I].
  symmetry. apply list_put_length.
Qed.

Lemma init_ready (h : value) (s s2 : GenState) (init : Code) :
  (if _can_collect_extra self then
     extra <- v_extra ;; ret [S_assign (T_var extra) (E_const h)]
   else ret []) s = (Ok init, s2) ->
  ready s ->
  ready s2 /\ extends s s2 /\ _path s2 = _path s /\
  incl (ctx_namespace s) (ctx_namespace s2).
Proof.
  intros H Hready. exact (proj2 (sim_init h s s2 init empty_store H Hready)).
Qed.

Lemma type_check_ready {B : Type} (m : list B) (kind : ContainerKind)
    (abc : AbcKind) (s s' : GenState) (check : Code) :
  match m with
  | [] => gen_type_check kind abc
  | _ :: _ => ret []
  end s = (Ok check, s') ->
  ready s ->
  ready s' /\ extends s s' /\ _path s' = _path s /\
  incl (ctx_namespace s) (ctx_namespace s').
Proof.
  intros H Hready. destruct m as [|b m].
  - exact (ready_after _ s s' check (proj1 (quiet_type_check kind abc))
             (keeps_gen_type_check kind abc)
             (carrying_gen_type_check kind abc) H Hready).
  - apply ret_ok in H as [_ <-]. split; [exact Hready |].
    split; [apply extends_refl |]. split; [reflexivity | apply incl_refl].
Qed.

Lemma strict_ready (s s' : GenState) (code : Code) :
  (if _strict_coercion self then
     data <- v_data ;;
     x <- with_trail (X_TypeLoadError KList) None ;;
     ret [S_if (C_type_is_str data) [S_raise x] []]
   else ret []) s = (Ok code, s') ->
  ready s ->
  ready s' /\ extends s s' /\ _path s' = _path s /\
  incl (ctx_namespace s) (ctx_namespace s').
Proof.
  intros H Hready.
  exact (ready_after _ s s' code (proj1 (quiet_strict_check self))
           keeps_strict_check carrying_strict_check H Hready).
Qed.

Lemma dict_extra_ready (m : list (string * InpCrown)) (policy : ExtraPolicy)
    (s s' : GenState) (extra : Code) :
  gen_dict_extra m policy s = (Ok extra, s') ->
  ready s ->
  ready s' /\ extends s s' /\ _path s' = _path s /\
  incl (ctx_namespace s) (ctx_namespace s').
Proof.
  intros H Hready.
  exact (ready_after _ s s' extra (proj1 (quiet_gen_dict_extra m policy))
           (keeps_gen_dict_extra m policy) (carrying_gen_dict_extra m policy)
           H Hready).
Qed.

Lemma dict_children_ready (m : list (string * InpCrown)) :
  forall s code s',
    gen_dict_children (_gen_crown_dispatch self) m s = (Ok code, s') ->
    ready s ->
    ready s' /\ extends s s' /\ _path s' = _path s /\
    incl (ctx_namespace s) (ctx_namespace s').
Proof.
  induction m as [|[key child] rest IH]; intros s code s' H Hready.
  - apply ret_ok in H as [_ <-]. split; [exact Hready |].
    split; [apply extends_refl |]. split; [reflexivity | apply incl_refl].
  - cbn [gen_dict_children] in H.
    apply bind_ok in H as (c & s1 & Hc & H).
    apply bind_ok in H as (cs & s2 & Hcs & H).
    apply ret_ok in H as [_ <-].
    destruct (after_dispatch child (Key key) s s1 c Hc Hready)
      as (Hready1 & He1 & Hp1 & Hi1).
    destruct (IH s1 cs s2 Hcs Hready1) as (Hready2 & He2 & Hp2 & Hi2).
    split; [exact Hready2 |]. split; [exact (extends_trans _ _ _ He1 He2) |].
    split; [congruence | exact (incl_tran Hi1 Hi2)].
Qed.

Lemma list_children_ready (m : list InpCrown) :
  forall i s code s',
    gen_list_children (_gen_crown_dispatch self) i m s = (Ok code, s') ->
    ready s ->
    ready s' /\ extends s s' /\ _path s' = _path s /\
    incl (ctx_namespace s) (ctx_namespace s').
Proof.
  induction m as [|child rest IH]; intros i s code s' H Hready.
  - apply ret_ok in H as [_ <-]. split; [exact Hready |].
    split; [apply extends_refl |]. split; [reflexivity | apply incl_refl].
  - cbn [gen_list_children] in H.
    apply bind_ok in H as (c & s1 & Hc & H).
    apply bind_ok in H as (cs & s2 & Hcs & H).
    apply ret_ok in H as [_ <-].
    destruct (after_dispatch child (Idx i) s s1 c Hc Hready)
      as (Hready1 & He1 & Hp1 & Hi1).
    destruct (IH (S i) s1 cs s2 Hcs Hready1) as (Hready2 & He2 & Hp2 & Hi2).
    split; [exact Hready2 |]. split; [exact (extends_trans _ _ _ He1 He2) |].
    split; [congruence | exact (incl_tran Hi1 Hi2)].
Qed.

Lemma middle_ready (c : InpCrown) (s1 s5 : GenState) (code : Code) :
  middle_of c s1 code s5 -> ready s1 ->
  ready s5 /\ extends s1 s5.
Proof.
  intros Hmid Hready.
  destruct c as [m policy | m policy | id |]; cbn [middle_of] in Hmid;
    try contradiction.
  - destruct Hmid as (init & s2 & children & s3 & check & s4 & extra & Hinit
                      & Hch & Hcheck & Hextra & _).
    destruct (init_ready _ s1 s2 init Hinit Hready) as (R2 & E2 & _).
    destruct (dict_children_ready m s2 children s3 Hch R2) as (R3 & E3 & _).
    destruct (type_check_ready m _ _ s3 s4 check Hcheck R3) as (R4 & E4 & _).
    destruct (dict_extra_ready m policy s4 s5 extra Hextra R4)
      as (R5 & E5 & _).
    split; [exact R5 |].
    exact (extends_trans _ _ _ E2
             (extends_trans _ _ _ E3 (extends_trans _ _ _ E4 E5))).
  - destruct Hmid as (strict & s2 & init & s3 & children & s4 & check & s5'
                      & len_check & Hstrict & Hinit & Hch & Hcheck & Hlen
                      & _).
    destruct (strict_ready s1 s2 strict Hstrict Hready) as (R2 & E2 & _).
    destruct (init_ready _ s2 s3 init Hinit R2) as (R3 & E3 & _).
    destruct (list_children_ready m 0 s3 children s4 Hch R3) as (R4 & E4 & _).
    destruct (type_check_ready m _ _ s4 s5' check Hcheck R4) as (R5 & E5 & _).
    destruct (len_check_ready _ policy s5' s5 len_check Hlen R5)
      as (R6 & E6 & _).
    split; [exact R6 |].
    exact (extends_trans _ _ _ E2
             (extends_trans _ _ _ E3
                (extends_trans _ _ _ E4 (extends_trans _ _ _ E5 E6)))).
Qed.

(** What code that reports the error [e] comes to: in the modes [NONE] and
    [FIRST] the error is raised; in mode [ALL] it is collected and the code
    runs to its end. *)
Definition flops_middle (e : Exn) (s1 : GenState) (code : Code)
    (store : Store) : Prop :=
  match _debug_trail self with
  | ALL =>
      exists store' v,
        exec ns code store = (Done, store') /\
        frame s1 (List.length (_path s1)) (appended e store) store' /\
        held store' (extra_name s1) v
  | NONE | FIRST => exists store', exec ns code store = (Throw e, store')
  end.

Definition flops_child (e : Exn) (st : GenState) (h : value) (code : Code)
    (store : Store) : Prop :=
  match _debug_trail self with
  | ALL =>
      exists store' h',
        exec ns code store = (Done, store') /\
        frame st (List.length (_path st)) (appended e store) store' /\
        held store' (V_path B_extra (suffix_of st (_path st))) h' /\
        shape h h'
  | NONE | FIRST => exists store', exec ns code store = (Throw e, store')
  end.

(** The error of the one node that does not fit, [rel] below the crown. *)
Definition blame (kind : ExcKind) (p rel : CrownPath) : Exn :=
  decorate (_debug_trail self) (p ++ rel) (fresh kind).

(** The crown whose code is being generated is the last one entered. *)
Definition top_is (c : InpCrown) (s : GenState) : Prop :=
  exists rest, _crown_stack s = rest ++ [c].

Definition mfail (c : InpCrown) (cv : value) (kind : ExcKind)
    (rel : CrownPath) : Prop :=
  forall s1 middle s5 store,
    middle_of c s1 middle s5 ->
    ready s1 ->
    top_is c s1 ->
    incl (ctx_namespace s5) ns ->
    poised store ->
    locals_get (locals store) (data_name s1) = Some cv ->
    flops_middle (blame kind (_path s1) rel) s1 middle store.

Definition cfail (c : InpCrown) (cv : value) (kind : ExcKind)
    (rel : CrownPath) : Prop :=
  forall k st code st' store pv h,
    _gen_crown_dispatch self c k st = (Ok code, st') ->
    ready st ->
    incl (ctx_namespace st') ns ->
    poised store ->
    locals_get (locals store) (V_path B_data (suffix_of st (_path st)))
      = Some pv ->
    held store (V_path B_extra (suffix_of st (_path st))) h ->
    settable h k ->
    slot_of pv k = Some cv ->
    flops_child (blame kind (_path st) (k :: rel)) st h code store.

Lemma mfail_cfail (c : InpCrown) (cv : value) (kind : ExcKind)
    (rel : CrownPath) :
  is_branch c = true -> mfail c cv kind rel -> cfail c cv kind rel.
Proof.
  intros Hb Hm k st code st' store pv h H Hready Hctx Hpoised Hdata Hextra Hset
         Hslot.
  destruct (child_code c k st st' code Hb H)
    as (read & s1 & middle & s5 & to_parent & sT & Hread & Hmid & Hto & ->
        & Hinc).
  destruct (sim_read_own c k st s1 read store pv cv Hb Hread Hready Hdata
              Hslot) as (Hrun1 & _ & _ & Hp1 & _).
  destruct (nested_entry c k st s1 read store pv cv Hb Hread Hready Hpoised
              Hdata Hslot)
    as (_ & Hready1 & Hpoised1 & Hd1 & _).
  assert (Htop : top_is c s1).
  { exists (_crown_stack st).
    exact (proj2 (proj2 (keeps_gen_read_own_data self _ read s1 Hread))). }
  pose proof (Hm s1 middle s5 _ Hmid Hready1 Htop (incl_tran Hinc Hctx)
                Hpoised1 Hd1) as Hflop.
  assert (Hpath : _path s1 ++ rel = _path st ++ k :: rel).
  { rewrite Hp1, <- app_assoc. reflexivity. }
  unfold blame in *. rewrite Hpath in Hflop.
  set (e := decorate (_debug_trail self) (_path st ++ k :: rel) (fresh kind))
    in *.
  unfold flops_middle in Hflop. unfold flops_child.
  destruct (_debug_trail self).
  - destruct Hflop as (store5 & Hrun5). exists store5.
    rewrite (exec_app_done ns read _ store _ Hrun1).
    exact (exec_app_throw ns middle _ _ _ _ Hrun5).
  - destruct Hflop as (store5 & Hrun5). exists store5.
    rewrite (exec_app_done ns read _ store _ Hrun1).
    exact (exec_app_throw ns middle _ _ _ _ Hrun5).
  - destruct Hflop as (store5 & v & Hrun5 & Hframe5 & Hx5).
    destruct (middle_ready c s1 s5 middle Hmid Hready1) as [Hready5 He5].
    destruct (nested_exit (appended e) c k st s1 s5 sT read middle to_parent
                store store5 pv h cv v (passing_appended e) Hb Hread Hto
                (middle_position c s1 s5 middle Hmid) Hready Hready5 He5
                Hdata Hextra Hslot Hset Hrun5)
      as (store' & Hrun & Hframe & Hx).
    { destruct (passing_appended e) as [_ Hgf].
      unfold appended in Hframe5 |- *. cbn [errors set_local] in *.
      destruct (errors store); exact Hframe5. }
    { exact Hx5. }
    exists store', (put h k v).
    split; [exact Hrun |]. split; [exact Hframe |].
    split; [exact Hx | exact (shape_put h k v Hset)].
Qed.

Lemma gen_dict_children_app (d : InpCrown -> CrownPathElem -> Gen Code)
    (a b : list (string * InpCrown)) :
  forall s code s',
    gen_dict_children d (a ++ b) s = (Ok code, s') ->
    exists ca s1 cb,
      gen_dict_children d a s = (Ok ca, s1) /\
      gen_dict_children d b s1 = (Ok cb, s') /\
      code = ca ++ cb.
Proof.
  induction a as [|[key child] a IH]; intros s code s' H.
  - exists [], s, code. repeat split. exact H.
  - cbn [app gen_dict_children] in H.
    apply bind_ok in H as (c & s1 & Hc & H).
    apply bind_ok in H as (cs & s2 & Hcs & H).
    apply ret_ok in H as [<- <-].
    destruct (IH s1 cs s2 Hcs) as (ca & sa & cb & Ha & Hb & ->).
    exists (c ++ ca), sa, cb. split; [| split].
    + cbn [gen_dict_children]. unfold bind at 1. rewrite Hc.
      unfold bind at 1. rewrite Ha. reflexivity.
    + exact Hb.
    + rewrite app_assoc. reflexivity.
Qed.

Lemma gen_list_children_app (d : InpCrown -> CrownPathElem -> Gen Code)
    (a b : list InpCrown) :
  forall i s code s',
    gen_list_children d i (a ++ b) s = (Ok code, s') ->
    exists ca s1 cb,
      gen_list_children d i a s = (Ok ca, s1) /\
      gen_list_children d (i + List.length a) b s1 = (Ok cb, s') /\
      code = ca ++ cb.
Proof.
  induction a as [|child a IH]; intros i s code s' H.
  - exists [], s, code. cbn [List.length]. rewrite Nat.add_0_r.
    repeat split. exact H.
  - cbn [app gen_list_children] in H.
    apply bind_ok in H as (c & s1 & Hc & H).
    apply bind_ok in H as (cs & s2 & Hcs & H).
    apply ret_ok in H as [<- <-].
    destruct (IH (S i) s1 cs s2 Hcs) as (ca & sa & cb & Ha & Hb & ->).
    exists (c ++ ca), sa, cb. split; [| split].
    + cbn [gen_list_children]. unfold bind at 1. rewrite Hc.
      unfold bind at 1. rewrite Ha. reflexivity.
    + cbn [List.length]. rewrite Nat.add_succ_r. exact Hb.
    + rewrite app_assoc. reflexivity.
Qed.

(** A later state of the same crown: same position, names kept. *)
Record later (s1 s : GenState) : Prop := mkLater {
  later_ready : ready s;
  later_extends : extends s1 s;
  later_path : _path s = _path s1
}.

Lemma later_refl (s : GenState) : ready s -> later s s.
Proof. intros H. constructor; [exact H | apply extends_refl | reflexivity]. Qed.

Lemma later_step (s1 s s' : GenState) :
  later s1 s ->
  ready s' /\ extends s s' /\ _path s' = _path s /\
  incl (ctx_namespace s) (ctx_namespace s') ->
  later s1 s'.
Proof.
  intros [R E P] (R' & E' & P' & _). constructor.
  - exact R'.
  - exact (extends_trans _ _ _ E E').
  - congruence.
Qed.

Lemma later_names (s1 s : GenState) :
  ready s1 -> later s1 s ->
  data_name s = data_name s1 /\ extra_name s = extra_name s1.
Proof.
  intros R1 [_ E P].
  destruct (names_extends s1 s E (ready_alloc s1 R1) P) as (Hd & Hx & _).
  split; assumption.
Qed.

Lemma later_frame (s1 s : GenState) (a b : Store) :
  later s1 s -> frame s (List.length (_path s)) a b ->
  frame s1 (List.length (_path s1)) a b.
Proof.
  intros [_ E P] H. rewrite P in H.
  exact (frame_mono s1 s _ _ _ _ E (le_n _) H).
Qed.

Lemma own_data_frame (s : GenState) (a b : Store) :
  ready s -> frame s (List.length (_path s)) a b ->
  locals_get (locals b) (data_name s) = locals_get (locals a) (data_name s).
Proof.
  intros R H. unfold data_name.
  exact (frame_locals _ _ _ _ H _ (guarded_own_data s _ (ready_alloc s R))).
Qed.

Lemma locals_appended (e : Exn) (store : Store) :
  locals (appended e store) = locals store.
Proof. unfold appended. destruct (errors store); reflexivity. Qed.

Lemma frame_appended (e : Exn) (st : GenState) (n : nat) (a b : Store) :
  frame st n a b -> frame st n (appended e a) (appended e b).
Proof. exact (proj2 (passing_appended e) st n a b). Qed.

(** A dict crown, one of whose children holds the node that does not fit. *)
Lemma spine_dict (before : list (string * InpCrown)) (key : string)
    (child : InpCrown) (after : list (string * InpCrown))
    (policy : ExtraPolicy) (mm : list (value * value)) (cv : value)
    (kind : ExcKind) (rel : CrownPath) :
  Forall (fun kv => hashable (fst kv) = true) mm ->
  (policy = ExtraForbid ->
   undeclared_keys mm (before ++ (key, child) :: after) = []) ->
  (_can_collect_extra self = false -> policy = ExtraCollect ->
   undeclared_keys mm (before ++ (key, child) :: after) = []) ->
  fits_dict_children (fits self) (VDict mm) before ->
  fits_dict_children (fits self) (VDict mm) after ->
  slot_of (VDict mm) (Key key) = Some cv ->
  cfail child cv kind rel ->
  mfail (InpDictCrown (before ++ (key, child) :: after) policy) (VDict mm)
        kind (Key key :: rel).
Proof.
  intros Hkeys Hforbid Hplain Hfb Hfa Hslot Hchild s1 middle s5 store Hmid R1
         _ Hctx Hpoised Hdata.
  cbn [middle_of] in Hmid.
  destruct Hmid as (init & s2 & children & s3 & check & s4 & extra & Hinit
                    & Hch & Hcheck & Hextra & ->).
  assert (Hnochk : check = [] /\ s4 = s3).
  { destruct before; cbn [app] in Hcheck; apply ret_ok in Hcheck as [<- <-];
      split; reflexivity. }
  destruct Hnochk as [-> ->].
  apply gen_dict_children_app in Hch as (cb & sa & crest & Hcb & Hrest & ->).
  cbn [gen_dict_children] in Hrest.
  apply bind_ok in Hrest as (cc & sb & Hcc & Hrest).
  apply bind_ok in Hrest as (ca & sc & Hca & Hrest).
  apply ret_ok in Hrest as [<- <-].
  pose proof (init_ready _ s1 s2 init Hinit R1) as S2.
  pose proof (later_step s1 s1 s2 (later_refl s1 R1) S2) as L2.
  pose proof (dict_children_ready before s2 cb sa Hcb (later_ready _ _ L2))
    as SA.
  pose proof (later_step s1 s2 sa L2 SA) as LA.
  pose proof (after_dispatch child (Key key) sa sb cc Hcc (later_ready _ _ LA))
    as SB.
  pose proof (later_step s1 sa sb LA SB) as LB.
  pose proof (dict_children_ready after sb ca sc Hca (later_ready _ _ LB))
    as SC.
  pose proof (later_step s1 sb sc LB SC) as LC.
  pose proof (dict_extra_ready _ policy sc s5 extra Hextra (later_ready _ _ LC))
    as S5.
  assert (IC : incl (ctx_namespace sc) ns)
    by exact (incl_tran (proj2 (proj2 (proj2 S5))) Hctx).
  assert (IB : incl (ctx_namespace sb) ns)
    by exact (incl_tran (proj2 (proj2 (proj2 SC))) IC).
  assert (IA : incl (ctx_namespace sa) ns)
    by exact (incl_tran (proj2 (proj2 (proj2 SB))) IB).
  destruct (later_names s1 s2 R1 L2) as [D2 X2].
  destruct (later_names s1 sa R1 LA) as [DA XA].
  destruct (later_names s1 sb R1 LB) as [DB XB].
  destruct (later_names s1 sc R1 LC) as [DC XC].
  pose proof (proj1 (sim_init (VDict []) s1 s2 init store Hinit R1)) as Hrun2.
  set (store2 := init_holder self (extra_name s1) (VDict []) store) in *.
  assert (F2 : frame s1 (List.length (_path s1)) store store2).
  { apply frame_init_holder;
      [exact (own_extra_unguarded s1 R1) | discriminate]. }
  assert (P2 : poised store2) by exact (poised_frame _ _ _ _ F2 Hpoised).
  assert (Hd2 : locals_get (locals store2) (data_name s1) = Some (VDict mm)).
  { rewrite (own_data_frame s1 _ _ R1 F2). exact Hdata. }
  destruct (sim_dict_children before (sim_all_dict before) s2 cb sa store2 mm
              [] Hcb (later_ready _ _ L2) IA P2)
    as (storeA & HrunA & FA & HxA & _).
  { fold (data_name s2). rewrite D2. exact Hd2. }
  { fold (extra_name s2). rewrite X2. apply held_init_holder. }
  { exact Hfb. }
  fold (extra_name s2) in HxA. rewrite X2 in HxA.
  pose proof (later_frame s1 s2 _ _ L2 FA) as FA1.
  set (accA := dict_nested overflow (VDict mm) before []) in *.
  assert (PA : poised storeA) by exact (poised_frame _ _ _ _ FA P2).
  assert (HdA : locals_get (locals storeA) (data_name s1) = Some (VDict mm)).
  { rewrite (own_data_frame s1 _ _ R1 FA1). exact Hd2. }
  pose proof (Hchild (Key key) sa cc sb storeA (VDict mm) (VDict accA) Hcc
                (later_ready _ _ LA) IB PA) as Hflop.
  fold (data_name sa) (extra_name sa) in Hflop. rewrite DA, XA in Hflop.
  specialize (Hflop HdA HxA I Hslot).
  rewrite (later_path _ _ LA) in Hflop.
  set (e := blame kind (_path s1) (Key key :: rel)) in *.
  unfold flops_child in Hflop. unfold flops_middle.
  destruct (_debug_trail self) eqn:Hmode.
  - destruct Hflop as (storeB & HrunB). exists storeB.
    rewrite (exec_app_done ns init _ store store2 Hrun2).
    rewrite <- !app_assoc.
    rewrite (exec_app_done ns cb _ store2 storeA HrunA).
    exact (exec_app_throw ns cc _ _ _ _ HrunB).
  - destruct Hflop as (storeB & HrunB). exists storeB.
    rewrite (exec_app_done ns init _ store store2 Hrun2).
    rewrite <- !app_assoc.
    rewrite (exec_app_done ns cb _ store2 storeA HrunA).
    exact (exec_app_throw ns cc _ _ _ _ HrunB).
  - destruct Hflop as (storeB & h' & HrunB & FB & HxB & Hshape).
    destruct h' as [| b | z | str | l | accB | x]; try contradiction.
    change (V_path B_extra (suffix_of sa (_path sa))) with (extra_name sa)
      in HxB.
    rewrite XA in HxB.
    pose proof (later_frame s1 sa _ _ LA FB) as FB1.
    assert (PB : poised storeB)
      by exact (poised_frame _ _ _ _ FB (poised_appended e storeA PA)).
    assert (HdB : locals_get (locals storeB) (data_name s1)
                  = Some (VDict mm)).
    { rewrite (own_data_frame s1 _ _ R1 FB1), locals_appended. exact HdA. }
    destruct (sim_dict_children after (sim_all_dict after) sb ca sc storeB mm
                accB Hca (later_ready _ _ LB) IC PB)
      as (store3 & Hrun3 & F3 & Hx3 & _).
    { fold (data_name sb). rewrite DB. exact HdB. }
    { fold (extra_name sb). rewrite XB. exact HxB. }
    { exact Hfa. }
    fold (extra_name sb) in Hx3. rewrite XB in Hx3.
    pose proof (later_frame s1 sb _ _ LB F3) as F31.
    destruct (sim_dict_extra _ policy sc s5 extra store3 mm
                (dict_nested overflow (VDict mm) after accB) Hextra
                (later_ready _ _ LC) Hctx (poised_frame _ _ _ _ F3 PB))
      as (store5 & Hrun5 & F5 & Hx5 & _); try assumption.
    { rewrite DC, (own_data_frame s1 _ _ R1 F31). exact HdB. }
    { rewrite XC. exact Hx3. }
    rewrite XC in Hx5.
    exists store5. eexists.
    split; [| split; [| exact Hx5]].
    + rewrite (exec_app_done ns init _ store store2 Hrun2).
      rewrite <- !app_assoc.
      rewrite (exec_app_done ns cb _ store2 storeA HrunA).
      rewrite (exec_app_done ns cc _ storeA storeB HrunB).
      rewrite (exec_app_done ns ca _ storeB store3 Hrun3).
      cbn [app]. exact Hrun5.
    + apply (frame_trans _ _ _ (appended e store2));
        [exact (frame_appended e _ _ _ _ F2) |].
      apply (frame_trans _ _ _ (appended e storeA));
        [exact (frame_appended e _ _ _ _ FA1) |].
      apply (frame_trans _ _ _ storeB); [exact FB1 |].
      apply (frame_trans _ _ _ store3); [exact F31 |].
      exact (later_frame s1 sc _ _ LC F5).
Qed.

Lemma list_nested_length (ov : InpCrown -> value -> value) (container : value)
    (m : list InpCrown) :
  forall i acc,
    List.length (list_nested ov container i m acc) = List.length acc.
Proof.
  induction m as [|child m IH]; intros i acc; cbn [list_nested];
    [reflexivity |].
  rewrite IH. destruct (is_branch child);
    [apply list_put_length | reflexivity].
Qed.

(** A list crown, one of whose children holds the node that does not fit. *)
Lemma spine_list (before : list InpCrown) (child : InpCrown)
    (after : list InpCrown) (policy : ExtraPolicy) (l : list value)
    (cv : value) (kind : ExcKind) (rel : CrownPath) :
  List.length (before ++ child :: after) <= List.length l ->
  (policy = ExtraForbid ->
   List.length l = List.length (before ++ child :: after)) ->
  fits_list_children (fits self) (VList l) 0 before ->
  fits_list_children (fits self) (VList l) (S (List.length before)) after ->
  slot_of (VList l) (Idx (List.length before)) = Some cv ->
  cfail child cv kind rel ->
  mfail (InpListCrown (before ++ child :: after) policy) (VList l)
        kind (Idx (List.length before) :: rel).
Proof.
  intros Hle Hforbid Hfb Hfa Hslot Hchild s1 middle s6 store Hmid R1
         _ Hctx Hpoised Hdata.
  cbn [middle_of] in Hmid.
  destruct Hmid as (strict & s2 & init & s3 & children & s4 & check & s5
                    & len_check & Hstrict & Hinit & Hch & Hcheck & Hlen & ->).
  assert (Hnochk : check = [] /\ s5 = s4).
  { destruct before; cbn [app] in Hcheck; apply ret_ok in Hcheck as [<- <-];
      split; reflexivity. }
  destruct Hnochk as [-> ->].
  apply gen_list_children_app in Hch as (cb & sa & crest & Hcb & Hrest & ->).
  cbn [Nat.add gen_list_children] in Hrest.
  apply bind_ok in Hrest as (cc & sb & Hcc & Hrest).
  apply bind_ok in Hrest as (ca & sc & Hca & Hrest).
  apply ret_ok in Hrest as [<- <-].
  set (m := before ++ child :: after) in *.
  set (nb := List.length before) in *.
  pose proof (strict_ready s1 s2 strict Hstrict R1) as S2.
  pose proof (later_step s1 s1 s2 (later_refl s1 R1) S2) as L2.
  pose proof (init_ready _ s2 s3 init Hinit (later_ready _ _ L2)) as S3.
  pose proof (later_step s1 s2 s3 L2 S3) as L3.
  pose proof (list_children_ready before 0 s3 cb sa Hcb (later_ready _ _ L3))
    as SA.
  pose proof (later_step s1 s3 sa L3 SA) as LA.
  pose proof (after_dispatch child (Idx nb) sa sb cc Hcc (later_ready _ _ LA))
    as SB.
  pose proof (later_step s1 sa sb LA SB) as LB.
  pose proof (list_children_ready after (S nb) sb ca sc Hca
                (later_ready _ _ LB)) as SC.
  pose proof (later_step s1 sb sc LB SC) as LC.
  pose proof (len_check_ready _ policy sc s6 len_check Hlen
                (later_ready _ _ LC)) as S6.
  assert (IC : incl (ctx_namespace sc) ns)
    by exact (incl_tran (proj2 (proj2 (proj2 S6))) Hctx).
  assert (IB : incl (ctx_namespace sb) ns)
    by exact (incl_tran (proj2 (proj2 (proj2 SC))) IC).
  assert (IA : incl (ctx_namespace sa) ns)
    by exact (incl_tran (proj2 (proj2 (proj2 SB))) IB).
  destruct (later_names s1 s2 R1 L2) as [D2 X2].
  destruct (later_names s1 s3 R1 L3) as [D3 X3].
  destruct (later_names s1 sa R1 LA) as [DA XA].
  destruct (later_names s1 sb R1 LB) as [DB XB].
  destruct (later_names s1 sc R1 LC) as [DC XC].
  pose proof (proj1 (sim_strict_check s1 s2 strict store l Hstrict R1 Hdata))
    as Hrun2.
  set (hl := List.map (fun x => if is_branch x then VNone else VDict []) m).
  rewrite extra_list_literal_holders in Hinit. fold hl in Hinit.
  pose proof (proj1 (sim_init (VList hl) s2 s3 init store Hinit
                       (later_ready _ _ L2))) as Hrun3.
  rewrite X2 in Hrun3.
  set (store3 := init_holder self (extra_name s1) (VList hl) store) in *.
  assert (F3 : frame s1 (List.length (_path s1)) store store3).
  { apply frame_init_holder;
      [exact (own_extra_unguarded s1 R1) | discriminate]. }
  assert (P3 : poised store3) by exact (poised_frame _ _ _ _ F3 Hpoised).
  assert (Hd3 : locals_get (locals store3) (data_name s1) = Some (VList l)).
  { rewrite (own_data_frame s1 _ _ R1 F3). exact Hdata. }
  assert (Hhl : List.length hl = List.length m)
    by (unfold hl; apply length_map).
  assert (Hm : List.length m = nb + S (List.length after)).
  { unfold m, nb. rewrite length_app. reflexivity. }
  destruct (sim_list_children before (sim_all_list before) 0 s3 cb sa store3 l
              hl Hcb (later_ready _ _ L3) IA P3)
    as (storeA & HrunA & FA & HxA & _).
  { fold (data_name s3). rewrite D3. exact Hd3. }
  { fold (extra_name s3). rewrite X3. apply held_init_holder. }
  { fold nb. lia. }
  { exact Hfb. }
  fold (extra_name s3) in HxA. rewrite X3 in HxA.
  pose proof (later_frame s1 s3 _ _ L3 FA) as FA1.
  set (hlA := list_nested overflow (VList l) 0 before hl) in *.
  assert (HhlA : List.length hlA = List.length hl)
    by apply list_nested_length.
  assert (PA : poised storeA) by exact (poised_frame _ _ _ _ FA P3).
  assert (HdA : locals_get (locals storeA) (data_name s1) = Some (VList l)).
  { rewrite (own_data_frame s1 _ _ R1 FA1). exact Hd3. }
  pose proof (Hchild (Idx nb) sa cc sb storeA (VList l) (VList hlA) Hcc
                (later_ready _ _ LA) IB PA) as Hflop.
  fold (data_name sa) (extra_name sa) in Hflop. rewrite DA, XA in Hflop.
  assert (Hset : settable (VList hlA) (Idx nb)) by (simpl; lia).
  specialize (Hflop HdA HxA Hset Hslot).
  rewrite (later_path _ _ LA) in Hflop.
  set (e := blame kind (_path s1) (Idx nb :: rel)) in *.
  unfold flops_child in Hflop. unfold flops_middle.
  destruct (_debug_trail self) eqn:Hmode.
  - destruct Hflop as (storeB & HrunB). exists storeB.
    rewrite (exec_app_done ns strict _ store store Hrun2).
    rewrite (exec_app_done ns init _ store store3 Hrun3).
    rewrite <- !app_assoc.
    rewrite (exec_app_done ns cb _ store3 storeA HrunA).
    exact (exec_app_throw ns cc _ _ _ _ HrunB).
  - destruct Hflop as (storeB & HrunB). exists storeB.
    rewrite (exec_app_done ns strict _ store store Hrun2).
    rewrite (exec_app_done ns init _ store store3 Hrun3).
    rewrite <- !app_assoc.
    rewrite (exec_app_done ns cb _ store3 storeA HrunA).
    exact (exec_app_throw ns cc _ _ _ _ HrunB).
  - destruct Hflop as (storeB & h' & HrunB & FB & HxB & Hshape).
    destruct h' as [| b | z | str | hlB | accB | x]; try contradiction.
    simpl in Hshape.
    change (V_path B_extra (suffix_of sa (_path sa))) with (extra_name sa)
      in HxB.
    rewrite XA in HxB.
    pose proof (later_frame s1 sa _ _ LA FB) as FB1.
    assert (PB : poised storeB)
      by exact (poised_frame _ _ _ _ FB (poised_appended e storeA PA)).
    assert (HdB : locals_get (locals storeB) (data_name s1)
                  = Some (VList l)).
    { rewrite (own_data_frame s1 _ _ R1 FB1), locals_appended. exact HdA. }
    destruct (sim_list_children after (sim_all_list after) (S nb) sb ca sc
                storeB l hlB Hca (later_ready _ _ LB) IC PB)
      as (storeC & HrunC & FC & HxC & _).
    { fold (data_name sb). rewrite DB. exact HdB. }
    { fold (extra_name sb). rewrite XB. exact HxB. }
    { lia. }
    { exact Hfa. }
    fold (extra_name sb) in HxC. rewrite XB in HxC.
    pose proof (later_frame s1 sb _ _ LB FC) as FC1.
    destruct (sim_len_check (List.length m) policy sc s6 len_check storeC l
                Hlen (later_ready _ _ LC))
      as (Hrun6 & _).
    { rewrite DC, (own_data_frame s1 _ _ R1 FC1). exact HdB. }
    { exact Hle. }
    { exact Hforbid. }
    exists storeC. eexists.
    split; [| split; [| exact HxC]].
    + rewrite (exec_app_done ns strict _ store store Hrun2).
      rewrite (exec_app_done ns init _ store store3 Hrun3).
      rewrite <- !app_assoc.
      rewrite (exec_app_done ns cb _ store3 storeA HrunA).
      rewrite (exec_app_done ns cc _ storeA storeB HrunB).
      rewrite (exec_app_done ns ca _ storeB storeC HrunC).
      cbn [app]. exact Hrun6.
    + apply (frame_trans _ _ _ (appended e store3));
        [exact (frame_appended e _ _ _ _ F3) |].
      apply (frame_trans _ _ _ (appended e storeA));
        [exact (frame_appended e _ _ _ _ FA1) |].
      apply (frame_trans _ _ _ storeB); [exact FB1 |].
      exact FC1.
Qed.

Lemma blame_here (kind : ExcKind) (p : CrownPath) :
  blame kind p [] = decorate (_debug_trail self) p (fresh kind).
Proof. unfold blame. rewrite app_nil_r. reflexivity. Qed.

(** A [Forbid] dict crown on a mapping that has keys it does not declare,
    everything below the crown being in order. *)
Lemma extra_keys_mfail (m : list (string * InpCrown))
    (mm : list (value * value)) (ks : list value) :
  Forall (fun kv => hashable (fst kv) = true) mm ->
  fits_dict_children (fits self) (VDict mm) m ->
  undeclared_keys mm m = ks -> ks <> [] ->
  mfail (InpDictCrown m ExtraForbid) (VDict mm) (ExtraFieldsError ks) [].
Proof.
  intros Hkeys Hfits Hks Hne s1 middle s5 store Hmid R1 _ Hctx Hpoised Hdata.
  cbn [middle_of] in Hmid.
  destruct Hmid as (init & s2 & children & s3 & check & s4 & extra & Hinit
                    & Hch & Hcheck & Hextra & ->).
  pose proof (init_ready _ s1 s2 init Hinit R1) as S2.
  pose proof (later_step s1 s1 s2 (later_refl s1 R1) S2) as L2.
  pose proof (dict_children_ready m s2 children s3 Hch (later_ready _ _ L2))
    as S3.
  pose proof (later_step s1 s2 s3 L2 S3) as L3.
  pose proof (type_check_ready m KDict CollectionsMapping s3 s4 check Hcheck
                (later_ready _ _ L3)) as S4.
  pose proof (later_step s1 s3 s4 L3 S4) as L4.
  pose proof (dict_extra_ready m ExtraForbid s4 s5 extra Hextra
                (later_ready _ _ L4)) as S5.
  assert (I4 : incl (ctx_namespace s4) ns)
    by exact (incl_tran (proj2 (proj2 (proj2 S5))) Hctx).
  assert (I3 : incl (ctx_namespace s3) ns)
    by exact (incl_tran (proj2 (proj2 (proj2 S4))) I4).
  destruct (later_names s1 s2 R1 L2) as [D2 X2].
  destruct (later_names s1 s3 R1 L3) as [D3 X3].
  destruct (later_names s1 s4 R1 L4) as [D4 X4].
  pose proof (proj1 (sim_init (VDict []) s1 s2 init store Hinit R1)) as Hrun2.
  set (store2 := init_holder self (extra_name s1) (VDict []) store) in *.
  assert (F2 : frame s1 (List.length (_path s1)) store store2).
  { apply frame_init_holder;
      [exact (own_extra_unguarded s1 R1) | discriminate]. }
  assert (P2 : poised store2) by exact (poised_frame _ _ _ _ F2 Hpoised).
  assert (Hd2 : locals_get (locals store2) (data_name s1) = Some (VDict mm)).
  { rewrite (own_data_frame s1 _ _ R1 F2). exact Hdata. }
  destruct (sim_dict_children m (sim_all_dict m) s2 children s3 store2 mm
              [] Hch (later_ready _ _ L2) I3 P2)
    as (store3 & Hrun3 & F3 & Hx3 & _).
  { fold (data_name s2). rewrite D2. exact Hd2. }
  { fold (extra_name s2). rewrite X2. apply held_init_holder. }
  { exact Hfits. }
  fold (extra_name s2) in Hx3. rewrite X2 in Hx3.
  pose proof (later_frame s1 s2 _ _ L2 F3) as F31.
  assert (P3 : poised store3) by exact (poised_frame _ _ _ _ F3 P2).
  assert (Hd3 : locals_get (locals store3) (data_name s1) = Some (VDict mm)).
  { rewrite (own_data_frame s1 _ _ R1 F31). exact Hd2. }
  destruct (sim_type_check m KDict CollectionsMapping s3 s4 check store3
              (VDict mm) Hcheck (later_ready _ _ L3))
    as (Hrun4 & _); [rewrite D3; exact Hd3 | reflexivity |].
  assert (Hknown : read_var ns store3 (known_keys_name s4)
                   = inl (VSet (declared_keys m))).
  { apply read_var_global.
    - apply (poised_known store3 P3).
    - apply (ns_get_in ns _ _ Hnodup). apply Hctx.
      apply (gen_dict_extra_known m ExtraForbid s4 s5 extra Hextra).
      discriminate. }
  pose proof (exec_forbid_check m s4 s5 extra ns store3 mm Hextra) as Hrun5.
  rewrite D4 in Hrun5.
  specialize (Hrun5 (read_var_local ns store3 _ _ Hd3) Hknown).
  cbv zeta in Hrun5. rewrite Hks in Hrun5.
  destruct ks as [|k0 ks]; [contradiction |].
  rewrite (ready_mode s4 (later_ready _ _ L4)), (later_path _ _ L4) in Hrun5.
  rewrite <- (blame_here (ExtraFieldsError (k0 :: ks)) (_path s1)) in Hrun5.
  set (e := blame (ExtraFieldsError (k0 :: ks)) (_path s1) []) in *.
  set (store4 := set_local (extra_set_name s4) (VSet (k0 :: ks)) store3) in *.
  assert (F4 : frame s1 (List.length (_path s1)) store store4).
  { apply (frame_trans _ _ _ store2 _ F2).
    apply (frame_trans _ _ _ store3 _ F31).
    apply frame_set_local; [intros [] | discriminate]. }
  assert (Hmain : exec ns (init ++ children ++ check ++ extra) store
                  = exec ns extra store3).
  { rewrite (exec_app_done ns init _ store store2 Hrun2).
    rewrite (exec_app_done ns children _ store2 store3 Hrun3).
    exact (exec_app_done ns check _ store3 store3 Hrun4). }
  unfold flops_middle. rewrite Hmain, Hrun5.
  destruct (_debug_trail self) eqn:Hmode.
  - exists store4. reflexivity.
  - exists store4. reflexivity.
  - destruct (poised_errors store4 (poised_frame _ _ _ _ F4 Hpoised) Hmode)
      as (es & Hes).
    exists (appended e store4), (VDict (dict_nested overflow (VDict mm) m [])).
    split; [exact (report_all e store4 es Hes) |].
    split; [exact (frame_appended e _ _ _ _ F4) |].
    intros Hc. rewrite locals_appended. unfold store4, extra_set_name.
    rewrite locals_get_set_local_other by discriminate. exact (Hx3 Hc).
Qed.

(** A [Forbid] list crown on a list longer than declared, whose declared
    items are in order. *)
Lemma too_long_mfail (m : list InpCrown) (l : list value) :
  List.length m < List.length l ->
  fits_list_children (fits self) (VList l) 0 m ->
  mfail (InpListCrown m ExtraForbid) (VList l)
        (ExtraItemsError (List.length m)) [].
Proof.
  intros Hlong Hfits s1 middle s6 store Hmid R1 _ Hctx Hpoised Hdata.
  cbn [middle_of] in Hmid.
  destruct Hmid as (strict & s2 & init & s3 & children & s4 & check & s5
                    & len_check & Hstrict & Hinit & Hch & Hcheck & Hlen & ->).
  pose proof (strict_ready s1 s2 strict Hstrict R1) as S2.
  pose proof (later_step s1 s1 s2 (later_refl s1 R1) S2) as L2.
  pose proof (init_ready _ s2 s3 init Hinit (later_ready _ _ L2)) as S3.
  pose proof (later_step s1 s2 s3 L2 S3) as L3.
  pose proof (list_children_ready m 0 s3 children s4 Hch (later_ready _ _ L3))
    as S4.
  pose proof (later_step s1 s3 s4 L3 S4) as L4.
  pose proof (type_check_ready m KList CollectionsSequence s4 s5 check Hcheck
                (later_ready _ _ L4)) as S5.
  pose proof (later_step s1 s4 s5 L4 S5) as L5.
  pose proof (len_check_ready _ ExtraForbid s5 s6 len_check Hlen
                (later_ready _ _ L5)) as S6.
  assert (I5 : incl (ctx_namespace s5) ns)
    by exact (incl_tran (proj2 (proj2 (proj2 S6))) Hctx).
  assert (I4 : incl (ctx_namespace s4) ns)
    by exact (incl_tran (proj2 (proj2 (proj2 S5))) I5).
  destruct (later_names s1 s2 R1 L2) as [D2 X2].
  destruct (later_names s1 s3 R1 L3) as [D3 X3].
  destruct (later_names s1 s4 R1 L4) as [D4 X4].
  destruct (later_names s1 s5 R1 L5) as [D5 X5].
  pose proof (proj1 (sim_strict_check s1 s2 strict store l Hstrict R1 Hdata))
    as Hrun2.
  set (hl := List.map (fun x => if is_branch x then VNone else VDict []) m).
  rewrite extra_list_literal_holders in Hinit. fold hl in Hinit.
  pose proof (proj1 (sim_init (VList hl) s2 s3 init store Hinit
                       (later_ready _ _ L2))) as Hrun3.
  rewrite X2 in Hrun3.
  set (store3 := init_holder self (extra_name s1) (VList hl) store) in *.
  assert (F3 : frame s1 (List.length (_path s1)) store store3).
  { apply frame_init_holder;
      [exact (own_extra_unguarded s1 R1) | discriminate]. }
  assert (P3 : poised store3) by exact (poised_frame _ _ _ _ F3 Hpoised).
  assert (Hd3 : locals_get (locals store3) (data_name s1) = Some (VList l)).
  { rewrite (own_data_frame s1 _ _ R1 F3). exact Hdata. }
  destruct (sim_list_children m (sim_all_list m) 0 s3 children s4 store3 l
              hl Hch (later_ready _ _ L3) I4 P3)
    as (store4 & Hrun4 & F4 & Hx4 & _).
  { fold (data_name s3). rewrite D3. exact Hd3. }
  { fold (extra_name s3). rewrite X3. apply held_init_holder. }
  { unfold hl. rewrite length_map. simpl. lia. }
  { exact Hfits. }
  fold (extra_name s3) in Hx4. rewrite X3 in Hx4.
  pose proof (later_frame s1 s3 _ _ L3 F4) as F41.
  assert (Hd4 : locals_get (locals store4) (data_name s1) = Some (VList l)).
  { rewrite (own_data_frame s1 _ _ R1 F41). exact Hd3. }
  destruct (sim_type_check m KList CollectionsSequence s4 s5 check store4
              (VList l) Hcheck (later_ready _ _ L4))
    as (Hrun5 & _); [rewrite D4; exact Hd4 | reflexivity |].
  pose proof (exec_list_len_check m ExtraForbid s5 s6 len_check ns store4 l
                Hlen) as Hrun6.
  rewrite D5 in Hrun6.
  specialize (Hrun6 (read_var_local ns store4 _ _ Hd4)).
  rewrite (proj2 (Nat.compare_gt_iff _ _) Hlong) in Hrun6.
  rewrite (ready_mode s5 (later_ready _ _ L5)), (later_path _ _ L5) in Hrun6.
  rewrite <- (blame_here (ExtraItemsError (List.length m)) (_path s1))
    in Hrun6.
  set (e := blame (ExtraItemsError (List.length m)) (_path s1) []) in *.
  assert (F : frame s1 (List.length (_path s1)) store store4)
    by exact (frame_trans _ _ _ store3 _ F3 F41).
  assert (Hmain : exec ns (strict ++ init ++ children ++ check ++ len_check)
                    store = exec ns len_check store4).
  { rewrite (exec_app_done ns strict _ store store Hrun2).
    rewrite (exec_app_done ns init _ store store3 Hrun3).
    rewrite (exec_app_done ns children _ store3 store4 Hrun4).
    exact (exec_app_done ns check _ store4 store4 Hrun5). }
  unfold flops_middle. rewrite Hmain, Hrun6.
  destruct (_debug_trail self) eqn:Hmode.
  - exists store4. reflexivity.
  - exists store4. reflexivity.
  - destruct (poised_errors store4 (poised_frame _ _ _ _ F Hpoised) Hmode)
      as (es & Hes).
    exists (appended e store4),
           (VList (list_nested overflow (VList l) 0 m hl)).
    split; [exact (report_all e store4 es Hes) |].
    split; [exact (frame_appended e _ _ _ _ F) |].
    intros Hc. rewrite locals_appended. exact (Hx4 Hc).
Qed.

(** *** A list shorter than declared *)

Lemma parent_len_entered (s : GenState) (c : InpCrown) (k : CrownPathElem)
    (m0 : list InpCrown) (p0 : ExtraPolicy) :
  top_is (InpListCrown m0 p0) s ->
  parent_len (entered s c k) = Some (List.length m0).
Proof.
  intros (rest & Hs). unfold parent_len, entered.
  cbn [_crown_stack with_position]. rewrite Hs, !rev_unit. reflexivity.
Qed.

Lemma top_is_kept (c : InpCrown) (s s' : GenState) :
  same_position s s' -> top_is c s -> top_is c s'.
Proof. intros (_ & _ & Hst) (rest & H). exists rest. congruence. Qed.

Lemma item_absent (l : list value) (i : nat) :
  List.length l <= i ->
  py_getitem (VList l) (elem_value (Idx i)) = inr IndexError.
Proof.
  intros H. rewrite py_getitem_idx.
  rewrite (proj2 (nth_error_None l i) H). reflexivity.
Qed.

(** A field or none crown at an index that the list does not have: nothing
    happens, unless the field is required and the mode raises. *)
Lemma missing_leaf (c : InpCrown) (i : nat) (s s' : GenState) (code : Code)
    (store : Store) (l : list value) (m0 : list InpCrown) (p0 : ExtraPolicy) :
  is_branch c = false ->
  _gen_crown_dispatch self c (Idx i) s = (Ok code, s') ->
  ready s ->
  top_is (InpListCrown m0 p0) s ->
  locals_get (locals store) (data_name s) = Some (VList l) ->
  List.length l <= i ->
  exec ns code store = (Done, store) \/
  (_debug_trail self <> ALL /\
   exec ns code store =
     (Throw (blame (NoRequiredItemsError (List.length m0)) (_path s) []),
      store)).
Proof.
  intros Hb H Hready Htop Hdata Hshort.
  rewrite _gen_crown_dispatch_eq in H.
  apply add_key_inv in H as (s1 & Hblock & _).
  unfold _gen_root_crown_dispatch in Hblock.
  destruct c as [m p | m p | id |]; try discriminate.
  - apply bind_ok in Hblock as (r & s2 & Hr & Hblock).
    apply ret_ok in Hr as [<- <-].
    set (s0 := entered s (InpFieldCrown id) (Idx i)) in *.
    destruct (field_crown_known self id s0 s1 code (ready_fields s Hready)
                Hblock) as ((f & Hf) & (l0 & Hl)).
    assert (Hf0 : name_to_field_get (_name_to_field s0) id = Some f).
    { unfold s0, entered. cbn [_name_to_field with_position].
      rewrite (ready_fields s Hready). exact Hf. }
    pose proof (exec_field_crown_absent self id i (List.length m0) s0 s1 code
                  (_path s) (_path s) f l0 ns store l eq_refl eq_refl
                  (parent_len_entered s _ _ m0 p0 Htop) Hf0 Hl Hblock
                  (read_var_local ns store _ _ Hdata) Hshort) as Hrun.
    change (debug_trail s0) with (debug_trail s) in Hrun.
    rewrite (ready_mode s Hready) in Hrun.
    rewrite blame_here.
    destruct (is_required f); [| left; exact Hrun].
    destruct (_debug_trail self);
      [right | right | left; exact Hrun];
      (split; [discriminate | exact Hrun]).
  - apply bind_ok in Hblock as (r & s2 & Hr & Hblock).
    apply ret_ok in Hr as [<- <-]. apply ret_ok in Hblock as [<- _].
    left. reflexivity.
Qed.

(** A dict or list crown at an index that the list does not have, in a mode
    that raises. *)
Lemma missing_branch (c : InpCrown) (i : nat) (s s' : GenState) (code : Code)
    (store : Store) (l : list value) (m0 : list InpCrown) (p0 : ExtraPolicy) :
  is_branch c = true ->
  _gen_crown_dispatch self c (Idx i) s = (Ok code, s') ->
  ready s ->
  top_is (InpListCrown m0 p0) s ->
  locals_get (locals store) (data_name s) = Some (VList l) ->
  List.length l <= i ->
  _debug_trail self <> ALL ->
  exists store',
    exec ns code store =
      (Throw (blame (NoRequiredItemsError (List.length m0)) (_path s) []),
       store').
Proof.
  intros Hb H Hready Htop Hdata Hshort Hmode.
  destruct (child_code c (Idx i) s s' code Hb H)
    as (read & s1 & middle & s5 & to_parent & sT & Hread & _ & _ & -> & _).
  set (s0 := entered s c (Idx i)) in *.
  destruct (same_tracking_ok s s0 (entered_tracking s c (Idx i))
              (ready_ok s Hready)) as [_ He0].
  assert (Ha0 : allocated s0 (_path s))
    by exact (allocated_extends _ _ _ He0 (ready_alloc s Hready)).
  rewrite (gen_read_own_data_eq self s0 (_path s) (_path s) (Idx i)
             (List.length m0) eq_refl eq_refl
             (parent_len_entered s _ _ m0 p0 Htop)) in Hread.
  injection Hread as Hread _.
  assert (Hparent : read_var ns store (parent_data_name s0 (_path s))
                    = inl (VList l)).
  { unfold parent_data_name. rewrite (suffix_of_alloc_other _ _ _ Ha0).
    rewrite (suffix_of_extends _ _ _ He0 (ready_alloc s Hready)).
    apply read_var_local. exact Hdata. }
  eexists. apply exec_app_throw. rewrite <- Hread, exec_one.
  rewrite (exec_read_failed ns _ _ _ _ _ _ _ _ Hparent (item_absent l i Hshort)).
  unfold read_handlers. cbn [read_errors app run_handlers existsb exc_matches
                              exn_kind fresh orb].
  fold (exec ns).
  pose proof (exec_on_missing_item ns (debug_trail s0) i (List.length m0)
                (_path s) (set_caught (Some (fresh IndexError)) store) false)
    as Hrun.
  unfold exec in Hrun. rewrite Hrun. clear Hrun.
  change (debug_trail s0) with (debug_trail s).
  rewrite (ready_mode s Hready), blame_here.
  destruct (_debug_trail self); [| | contradiction]; cbn [caught set_caught];
    reflexivity.
Qed.

(** The children of a list crown at the indices that the list does not
    have. *)
Lemma missing_items (l : list value) (m0 : list InpCrown) (p0 : ExtraPolicy)
    (rest : list InpCrown) :
  (_debug_trail self = ALL -> Forall (fun c => is_branch c = false) rest) ->
  forall i s code s' store,
    gen_list_children (_gen_crown_dispatch self) i rest s = (Ok code, s') ->
    ready s ->
    top_is (InpListCrown m0 p0) s ->
    locals_get (locals store) (data_name s) = Some (VList l) ->
    List.length l <= i ->
    exec ns code store = (Done, store) \/
    (_debug_trail self <> ALL /\
     exists store',
       exec ns code store =
         (Throw (blame (NoRequiredItemsError (List.length m0)) (_path s) []),
          store')).
Proof.
  induction rest as [|child rest IH];
    intros Hleaf i s code s' store H Hready Htop Hdata Hshort.
  - apply ret_ok in H as [<- _]. left. reflexivity.
  - cbn [gen_list_children] in H.
    apply bind_ok in H as (c & s1 & Hc & H).
    apply bind_ok in H as (cs & s2 & Hcs & H).
    apply ret_ok in H as [<- _].
    destruct (after_dispatch child (Idx i) s s1 c Hc Hready)
      as (Hready1 & He1 & Hp1 & _).
    destruct (names_extends s s1 He1 (ready_alloc s Hready) Hp1)
      as (Hd1 & _).
    assert (Hnext : exec ns c store = (Done, store) ->
                    exec ns (c ++ cs) store = (Done, store) \/
                    (_debug_trail self <> ALL /\
                     exists store',
                       exec ns (c ++ cs) store =
                         (Throw (blame (NoRequiredItemsError (List.length m0))
                                       (_path s) []), store'))).
    { intros Hrun. rewrite (exec_app_done ns c cs store store Hrun).
      rewrite <- Hp1.
      apply (IH (fun Hm => Forall_inv_tail (Hleaf Hm)) (S i) s1 cs s2 store
                Hcs Hready1).
      - exact (top_is_kept _ s s1
                 (keeps__gen_crown_dispatch self child (Idx i) s c s1 Hc) Htop).
      - rewrite Hd1. exact Hdata.
      - lia. }
    destruct (is_branch child) eqn:Hb.
    + right.
      assert (Hmode : _debug_trail self <> ALL).
      { intros Hm. pose proof (Forall_inv (Hleaf Hm)) as Hl.
        cbv beta in Hl. congruence. }
      split; [exact Hmode |].
      destruct (missing_branch child i s s1 c store l m0 p0 Hb Hc Hready Htop
                  Hdata Hshort Hmode) as (store' & Hrun).
      exists store'. exact (exec_app_throw ns c cs _ _ _ Hrun).
    + destruct (missing_leaf child i s s1 c store l m0 p0 Hb Hc Hready Htop
                  Hdata Hshort) as [Hrun | (Hmode & Hrun)].
      * exact (Hnext Hrun).
      * right. split; [exact Hmode |]. exists store.
        exact (exec_app_throw ns c cs _ _ _ Hrun).
Qed.

(** A list crown on a list shorter than declared, whose present items are in
    order.  In mode [ALL] the crowns of the absent items are field or none
    crowns. *)
Lemma too_short_mfail (pre rest : list InpCrown) (policy : ExtraPolicy)
    (l : list value) :
  List.length pre = List.length l ->
  rest <> [] ->
  fits_list_children (fits self) (VList l) 0 pre ->
  (_debug_trail self = ALL -> Forall (fun c => is_branch c = false) rest) ->
  mfail (InpListCrown (pre ++ rest) policy) (VList l)
        (NoRequiredItemsError (List.length (pre ++ rest))) [].
Proof.
  intros Hpre Hrest Hfits Hleaf s1 middle s6 store Hmid R1 Htop Hctx Hpoised
         Hdata.
  cbn [middle_of] in Hmid.
  destruct Hmid as (strict & s2 & init & s3 & children & s4 & check & s5
                    & len_check & Hstrict & Hinit & Hch & Hcheck & Hlen & ->).
  assert (Hnochk : check = [] /\ s5 = s4).
  { destruct pre; [destruct rest; [contradiction |] |]; cbn [app] in Hcheck;
      apply ret_ok in Hcheck as [<- <-]; split; reflexivity. }
  destruct Hnochk as [-> ->].
  apply gen_list_children_app in Hch as (cb & sa & crest & Hcb & Hcr & ->).
  cbn [Nat.add] in Hcr.
  set (m := pre ++ rest) in *.
  pose proof (strict_ready s1 s2 strict Hstrict R1) as S2.
  pose proof (later_step s1 s1 s2 (later_refl s1 R1) S2) as L2.
  pose proof (init_ready _ s2 s3 init Hinit (later_ready _ _ L2)) as S3.
  pose proof (later_step s1 s2 s3 L2 S3) as L3.
  pose proof (list_children_ready pre 0 s3 cb sa Hcb (later_ready _ _ L3))
    as SA.
  pose proof (later_step s1 s3 sa L3 SA) as LA.
  pose proof (list_children_ready rest (List.length pre) sa crest s4 Hcr
                (later_ready _ _ LA)) as S4.
  pose proof (later_step s1 sa s4 LA S4) as L4.
  pose proof (len_check_ready _ policy s4 s6 len_check Hlen
                (later_ready _ _ L4)) as S6.
  assert (I4 : incl (ctx_namespace s4) ns)
    by exact (incl_tran (proj2 (proj2 (proj2 S6))) Hctx).
  assert (IA : incl (ctx_namespace sa) ns)
    by exact (incl_tran (proj2 (proj2 (proj2 S4))) I4).
  destruct (later_names s1 s2 R1 L2) as [D2 X2].
  destruct (later_names s1 s3 R1 L3) as [D3 X3].
  destruct (later_names s1 sa R1 LA) as [DA XA].
  destruct (later_names s1 s4 R1 L4) as [D4 X4].
  assert (TA : top_is (InpListCrown m policy) sa).
  { apply (top_is_kept _ s1 sa); [| exact Htop].
    apply (same_position_trans _ s2 _ (keeps_strict_check s1 strict s2 Hstrict)).
    apply (same_position_trans _ s3 _ (keeps_init_holder _ s2 init s3 Hinit)).
    exact (keeps_list_children_here pre 0 s3 cb sa Hcb). }
  pose proof (proj1 (sim_strict_check s1 s2 strict store l Hstrict R1 Hdata))
    as Hrun2.
  set (hl := List.map (fun x => if is_branch x then VNone else VDict []) m).
  rewrite extra_list_literal_holders in Hinit. fold hl in Hinit.
  pose proof (proj1 (sim_init (VList hl) s2 s3 init store Hinit
                       (later_ready _ _ L2))) as Hrun3.
  rewrite X2 in Hrun3.
  set (store3 := init_holder self (extra_name s1) (VList hl) store) in *.
  assert (F3 : frame s1 (List.length (_path s1)) store store3).
  { apply frame_init_holder;
      [exact (own_extra_unguarded s1 R1) | discriminate]. }
  assert (P3 : poised store3) by exact (poised_frame _ _ _ _ F3 Hpoised).
  assert (Hd3 : locals_get (locals store3) (data_name s1) = Some (VList l)).
  { rewrite (own_data_frame s1 _ _ R1 F3). exact Hdata. }
  assert (Hm : List.length m = List.length pre + List.length rest)
    by (unfold m; apply length_app).
  assert (Hshort : List.length l < List.length m).
  { destruct rest; [contradiction |]. cbn [List.length] in Hm. lia. }
  destruct (sim_list_children pre (sim_all_list pre) 0 s3 cb sa store3 l
              hl Hcb (later_ready _ _ L3) IA P3)
    as (storeA & HrunA & FA & HxA & _).
  { fold (data_name s3). rewrite D3. exact Hd3. }
  { fold (extra_name s3). rewrite X3. apply held_init_holder. }
  { unfold hl. rewrite length_map. lia. }
  { exact Hfits. }
  fold (extra_name s3) in HxA. rewrite X3 in HxA.
  pose proof (later_frame s1 s3 _ _ L3 FA) as FA1.
  assert (HdA : locals_get (locals storeA) (data_name s1) = Some (VList l)).
  { rewrite (own_data_frame s1 _ _ R1 FA1). exact Hd3. }
  assert (F : frame s1 (List.length (_path s1)) store storeA)
    by exact (frame_trans _ _ _ store3 _ F3 FA1).
  assert (Hmain : exec ns (strict ++ init ++ (cb ++ crest) ++ [] ++ len_check)
                    store = exec ns (crest ++ len_check) storeA).
  { rewrite (exec_app_done ns strict _ store store Hrun2).
    rewrite (exec_app_done ns init _ store store3 Hrun3).
    rewrite <- !app_assoc.
    rewrite (exec_app_done ns cb _ store3 storeA HrunA). reflexivity. }
  set (e := blame (NoRequiredItemsError (List.length m)) (_path s1) []) in *.
  unfold flops_middle. rewrite Hmain.
  destruct (missing_items l m policy rest Hleaf (List.length pre) sa crest s4
              storeA Hcr (later_ready _ _ LA) TA)
    as [HrunR | (Hmode & storeR & HrunR)].
  { rewrite DA. exact HdA. }
  { lia. }
  - rewrite (exec_app_done ns crest _ storeA storeA HrunR).
    pose proof (exec_list_len_check m policy s4 s6 len_check ns storeA l
                  Hlen) as Hrun6.
    rewrite D4 in Hrun6.
    specialize (Hrun6 (read_var_local ns storeA _ _ HdA)).
    rewrite (proj2 (Nat.compare_lt_iff _ _) Hshort) in Hrun6.
    rewrite (ready_mode s4 (later_ready _ _ L4)), (later_path _ _ L4)
      in Hrun6.
    rewrite <- (blame_here (NoRequiredItemsError (List.length m)) (_path s1))
      in Hrun6.
    fold e in Hrun6. rewrite Hrun6.
    destruct (_debug_trail self) eqn:Hmode.
    + exists storeA. reflexivity.
    + exists storeA. reflexivity.
    + destruct (poised_errors storeA (poised_frame _ _ _ _ F Hpoised) Hmode)
        as (es & Hes).
      exists (appended e storeA),
             (VList (list_nested overflow (VList l) 0 pre hl)).
      split; [exact (report_all e storeA es Hes) |].
      split; [exact (frame_appended e _ _ _ _ F) |].
      intros Hc. rewrite locals_appended. exact (HxA Hc).
  - rewrite (later_path _ _ LA) in HrunR. fold e in HrunR.
    rewrite (exec_app_throw ns crest _ _ _ _ HrunR).
    destruct (_debug_trail self); [| | contradiction];
      exists storeR; reflexivity.
Qed.

(** *** The path to the node that does not fit *)

Section Spine.

(** What is wrong at the one node, and the error it is reported with. *)
Variable flaw : InpCrown -> value -> Prop.
Variable kind : ExcKind.

(** [off c v rel]: the value [v] fits the crown [c] everywhere but at the
    crown reached by the path [rel], where [flaw] holds.  The crowns on the
    way get what they expect, and so do all their other children. *)
Inductive off : InpCrown -> value -> CrownPath -> Prop :=
| off_here (c : InpCrown) (v : value) :
    flaw c v -> off c v []
| off_dict (before : list (string * InpCrown)) (key : string)
    (child : InpCrown) (after : list (string * InpCrown))
    (policy : ExtraPolicy) (mm : list (value * value)) (cv : value)
    (rel : CrownPath) :
    Forall (fun kv => hashable (fst kv) = true) mm ->
    (policy = ExtraForbid ->
     undeclared_keys mm (before ++ (key, child) :: after) = []) ->
    (_can_collect_extra self = false -> policy = ExtraCollect ->
     undeclared_keys mm (before ++ (key, child) :: after) = []) ->
    fits_dict_children (fits self) (VDict mm) before ->
    fits_dict_children (fits self) (VDict mm) after ->
    slot_of (VDict mm) (Key key) = Some cv ->
    off child cv rel ->
    off (InpDictCrown (before ++ (key, child) :: after) policy) (VDict mm)
        (Key key :: rel)
| off_list (before : list InpCrown) (child : InpCrown)
    (after : list InpCrown) (policy : ExtraPolicy) (l : list value)
    (cv : value) (rel : CrownPath) :
    List.length (before ++ child :: after) <= List.length l ->
    (policy = ExtraForbid ->
     List.length l = List.length (before ++ child :: after)) ->
    fits_list_children (fits self) (VList l) 0 before ->
    fits_list_children (fits self) (VList l) (S (List.length before)) after ->
    slot_of (VList l) (Idx (List.length before)) = Some cv ->
    off child cv rel ->
    off (InpListCrown (before ++ child :: after) policy) (VList l)
        (Idx (List.length before) :: rel).

Hypothesis flaw_branch : forall c v, flaw c v -> is_branch c = true.
Hypothesis flaw_mfail : forall c v, flaw c v -> mfail c v kind [].

Lemma off_branch (c : InpCrown) (v : value) (rel : CrownPath) :
  off c v rel -> is_branch c = true.
Proof. intros H. destruct H; [eapply flaw_branch; eassumption | |]; reflexivity. Qed.

Lemma off_mfail (c : InpCrown) (v : value) (rel : CrownPath) :
  off c v rel -> mfail c v kind rel.
Proof.
  induction 1 as [c v Hflaw
                 | before key child after policy mm cv rel Hk Hf Hn Hb Ha Hs
                     Hoff IH
                 | before child after policy l cv rel Hle Hf Hb Ha Hs Hoff IH].
  - exact (flaw_mfail c v Hflaw).
  - apply (spine_dict before key child after policy mm cv kind rel Hk Hf Hn Hb
             Ha Hs).
    exact (mfail_cfail child cv kind rel (off_branch _ _ _ Hoff) IH).
  - apply (spine_list before child after policy l cv kind rel Hle Hf Hb Ha Hs).
    exact (mfail_cfail child cv kind rel (off_branch _ _ _ Hoff) IH).
Qed.

End Spine.

(** The code of the root crown on an input that fits but for one node. *)
Lemma flop_root (c : InpCrown) (s1 s2 : GenState) (body : Code) (store : Store)
    (input : value) (kind : ExcKind) (rel : CrownPath) :
  _gen_root_crown_dispatch self (_gen_crown_dispatch self) c s1
    = (Ok (Some body), s2) ->
  ready s1 ->
  _path s1 = [] ->
  _crown_stack s1 = [c] ->
  incl (ctx_namespace s2) ns ->
  poised store ->
  locals_get (locals store) (V_path B_data None) = Some input ->
  mfail c input kind rel ->
  match _debug_trail self with
  | ALL =>
      exists store' v,
        exec ns body store = (Done, store') /\
        frame s1 0 (appended (blame kind [] rel) store) store' /\
        held store' (V_path B_extra None) v /\
        _path s2 = []
  | NONE | FIRST =>
      exists store', exec ns body store = (Throw (blame kind [] rel), store')
  end.
Proof.
  intros H Hready Hroot Hstack Hctx Hpoised Hdata Hfail.
  destruct (root_code c s1 s2 body H Hroot) as [Hmid Hroot2].
  assert (Htop : top_is c s1) by (exists []; exact Hstack).
  pose proof (Hfail s1 body s2 store Hmid Hready Htop Hctx Hpoised) as Hflop.
  unfold data_name in Hflop. rewrite Hroot in Hflop.
  specialize (Hflop Hdata). unfold flops_middle in Hflop.
  unfold extra_name in Hflop. rewrite Hroot in Hflop. cbn [List.length] in Hflop.
  destruct (_debug_trail self).
  - exact Hflop.
  - exact Hflop.
  - destruct Hflop as (store' & v & Hrun & Hframe & Hx).
    exists store', v.
    split; [exact Hrun |]. split; [exact Hframe |].
    split; [exact Hx | exact Hroot2].
Qed.

End Simulation.

(** ** The whole procedure *)

Lemma keeps_add_loaders (loaders : list (string * Loader)) :
  keeps_position (add_loaders loaders).
Proof.
  induction loaders as [|[id l] rest IH]; cbn [add_loaders].
  - apply keeps_ret.
  - apply keeps_bind; [apply keeps_ns_add | intros _; exact IH].
Qed.

Lemma add_loaders_in (loaders : list (string * Loader)) :
  forall st u st' id l,
    add_loaders loaders st = (Ok u, st') ->
    loaders_get loaders id = Some l ->
    In (V_field_loader id, NsLoader l) (ctx_namespace st').
Proof.
  induction loaders as [|[k l0] rest IH]; intros st u st' id l H Hget;
    [discriminate |].
  cbn [add_loaders] in H. apply bind_ok in H as (u0 & s0 & Hadd & H).
  cbn [loaders_get] in Hget. destruct (String.eqb k id) eqn:E.
  - apply String.eqb_eq in E; subst k. inversion Hget; subst l0.
    apply (proj1 (carrying_add_loaders rest s0 u st' H)).
    unfold ns_add, modify in Hadd. inversion Hadd; subst.
    cbn [ctx_namespace with_ctx_namespace].
    apply in_or_app; right; left; reflexivity.
  - exact (IH s0 u st' id l H Hget).
Qed.

Lemma carrying_gen_targets_collected (self : BuiltinInputExtractionGen)
    (targets : list string) :
  carrying (gen_targets_collected self targets).
Proof.
  induction targets as [|t rest IH]; cbn [gen_targets_collected].
  - apply carrying_ret.
  - apply carrying_bind; [apply carrying_get | intros st].
    destruct (name_to_field_get (_name_to_field st) t);
      [| apply carrying_raise].
    apply carrying_bind; [apply carrying_v_extra | intros x].
    apply carrying_bind; [apply carrying__gen_field_assigment | intros c].
    apply carrying_bind; [exact IH | intros cs; apply carrying_ret].
Qed.

Lemma carrying_gen_targets_not_collected (self : BuiltinInputExtractionGen)
    (targets : list string) :
  carrying (gen_targets_not_collected self targets).
Proof.
  induction targets as [|t rest IH]; cbn [gen_targets_not_collected].
  - apply carrying_ret.
  - apply carrying_bind; [apply carrying_get | intros st].
    destruct (name_to_field_get (_name_to_field st) t) as [f|];
      [| apply carrying_raise].
    apply carrying_bind.
    + destruct (is_required f);
        [apply carrying__gen_field_assigment | apply carrying_ret].
    + intros c. apply carrying_bind; [exact IH | intros cs; apply carrying_ret].
Qed.

Lemma carrying_crown_extra_policy (c : InpCrown) :
  carrying (crown_extra_policy c).
Proof.
  unfold crown_extra_policy. destruct c; try apply carrying_ret;
    apply carrying_raise.
Qed.

Lemma carrying__gen_extra_targets_assigment
    (self : BuiltinInputExtractionGen) :
  carrying (_gen_extra_targets_assigment self).
Proof.
  unfold _gen_extra_targets_assigment.
  destruct (extra_move (_name_layout self)) as [|targets];
    [apply carrying_ret |].
  apply carrying_bind; [apply carrying_crown_extra_policy | intros policy].
  destruct policy;
    first [apply carrying_gen_targets_collected
          | apply carrying_gen_targets_not_collected].
Qed.

Lemma carrying_root_dispatch (self : BuiltinInputExtractionGen)
    (c : InpCrown) :
  carrying (_gen_root_crown_dispatch self (_gen_crown_dispatch self) c).
Proof.
  unfold _gen_root_crown_dispatch.
  destruct c as [m q | m q | id |]; try apply carrying_ret.
  - apply carrying_bind; [| intros ?; apply carrying_ret].
    apply carrying__gen_dict_crown, carrying_gen_dict_children.
    apply Forall_forall. intros kv _ k. apply carrying__gen_crown_dispatch.
  - apply carrying_bind; [| intros ?; apply carrying_ret].
    apply carrying__gen_list_crown, carrying_gen_list_children.
    apply Forall_forall. intros x _ k. apply carrying__gen_crown_dispatch.
Qed.

(** The store in which the code of the root crown starts. *)
Definition entry_store (self : BuiltinInputExtractionGen) (input : value)
  : Store :=
  let s0 := set_local (V_path B_data None) input empty_store in
  let s1 := match _debug_trail self with
            | ALL => set_unexpected false (set_errors [] s0)
            | _ => s0
            end in
  if has_optional_fields self
  then set_local V_opt_fields (VDict []) s1 else s1.

Lemma exec_entry (self : BuiltinInputExtractionGen) (ns : Namespace)
    (input : value) (rest : Code) :
  exec ns
    (match _debug_trail self with
     | ALL => [S_errors_init; S_set_has_unexpected_error false]
     | _ => []
     end ++
     (if has_optional_fields self
      then [S_assign (T_var V_opt_fields) (E_const (VDict []))] else []) ++
     rest)
    (set_local (V_path B_data None) input empty_store)
  = exec ns rest (entry_store self input).
Proof.
  unfold entry_store.
  destruct (_debug_trail self), (has_optional_fields self); reflexivity.
Qed.

Lemma entry_store_data (self : BuiltinInputExtractionGen) (input : value) :
  locals_get (locals (entry_store self input)) (V_path B_data None)
    = Some input.
Proof.
  unfold entry_store.
  destruct (_debug_trail self), (has_optional_fields self); reflexivity.
Qed.

Lemma entry_store_errors (self : BuiltinInputExtractionGen) (input : value) :
  _debug_trail self = ALL -> errors (entry_store self input) = Some [].
Proof.
  intros H. unfold entry_store. rewrite H.
  destruct (has_optional_fields self); reflexivity.
Qed.

Lemma entry_store_unexpected (self : BuiltinInputExtractionGen)
    (input : value) :
  _debug_trail self = ALL ->
  has_unexpected_error (entry_store self input) = Some false.
Proof.
  intros H. unfold entry_store. rewrite H.
  destruct (has_optional_fields self); reflexivity.
Qed.

Lemma entry_store_poised (self : BuiltinInputExtractionGen) (input : value) :
  poised self (entry_store self input).
Proof.
  constructor.
  - intros s. unfold entry_store.
    destruct (_debug_trail self), (has_optional_fields self); reflexivity.
  - intros H. exists []. unfold entry_store. rewrite H.
    destruct (_debug_trail self); reflexivity.
  - intros H. exists []. exact (entry_store_errors self input H).
Qed.

Lemma exec_exit (self : BuiltinInputExtractionGen) (ns : Namespace)
    (s : Store) :
  (_debug_trail self = ALL -> errors s = Some []) ->
  exec ns
    match _debug_trail self with
    | ALL =>
        [S_if C_errors
           [S_if C_has_unexpected_error [S_raise X_CompatExceptionGroup] [];
            S_raise X_LoadExceptionGroup] []]
    | _ => []
    end s = (Done, s).
Proof.
  intros H. destruct (_debug_trail self); try reflexivity.
  fold epilogue_all. rewrite exec_epilogue_all. unfold finish.
  rewrite (H eq_refl). reflexivity.
Qed.

(** What a successful compilation is made of: the loaders are added to the
    namespace, the root crown gives the body, the extra targets their
    assignments. *)
Lemma compile_parts (self : BuiltinInputExtractionGen) (p : Procedure) :
  compile self = Ok p ->
  exists s1 body s2 tcode s3,
    _gen_root_crown_dispatch self (_gen_crown_dispatch self)
      (crown (_name_layout self)) s1 = (Ok (Some body), s2) /\
    _gen_extra_targets_assigment self s2 = (Ok tcode, s3) /\
    proc_namespace p = ctx_namespace s3 /\
    proc_code p =
      match _debug_trail self with
      | ALL => [S_errors_init; S_set_has_unexpected_error false]
      | _ => []
      end ++
      (if has_optional_fields self
       then [S_assign (T_var V_opt_fields) (E_const (VDict []))] else []) ++
      body ++ tcode ++
      match _debug_trail self with
      | ALL =>
          [S_if C_errors
             [S_if C_has_unexpected_error [S_raise X_CompatExceptionGroup] [];
              S_raise X_LoadExceptionGroup] []]
      | _ => []
      end /\
    ready self s1 /\
    _path s1 = [] /\
    _crown_stack s1 = [crown (_name_layout self)] /\
    incl (ctx_namespace s2) (ctx_namespace s3) /\
    (NoDup (List.map fst (ctx_namespace s3)) ->
     loaders_bound self (ctx_namespace s3)).
Proof.
  intros Hcomp. unfold compile in Hcomp.
  destruct (call self (_create_state self [])) as [[code | e] st'] eqn:Hcall;
    [| discriminate].
  inversion Hcomp; subst p; clear Hcomp.
  unfold call in Hcall.
  apply bind_ok in Hcall as (u & s1 & Hload & H).
  apply bind_ok in H as (r & s2 & Hroot & H).
  destruct r as [body|]; [| discriminate].
  apply bind_ok in H as (tcode & s3 & Htargets & H).
  apply ret_ok in H as [<- <-].
  set (c := crown (_name_layout self)) in *.
  destruct (tracks_add_loaders _ _ u s1 Hload
              (tracker_ok__create_state self [])) as [Hok1 _].
  destruct (keeps_add_loaders _ _ u s1 Hload) as (Hp1 & _ & Hst1).
  destruct (carrying_add_loaders _ _ u s1 Hload) as (_ & Hf1 & Hm1).
  cbn [_create_state _path _crown_stack _name_to_field debug_trail]
    in Hp1, Hst1, Hf1, Hm1.
  assert (Hbranch : is_branch c = true).
  { unfold _gen_root_crown_dispatch in Hroot.
    destruct c; try reflexivity; apply ret_ok in Hroot as [Hr _];
      discriminate Hr. }
  pose proof (proj1 (carrying__gen_extra_targets_assigment self s2 tcode s3
                       Htargets)) as Hinc23.
  pose proof (proj1 (carrying_root_dispatch self c s1 (Some body) s2 Hroot))
    as Hinc12.
  exists s1, body, s2, tcode, s3.
  split; [exact Hroot |]. split; [exact Htargets |].
  split; [reflexivity |]. split; [reflexivity |].
  split.
  { constructor.
    - exact Hok1.
    - rewrite Hp1. left. reflexivity.
    - exact Hf1.
    - exists [], c. rewrite Hst1. split; [reflexivity | exact Hbranch].
    - exact Hm1. }
  split; [exact Hp1 |]. split; [exact Hst1 |]. split; [exact Hinc23 |].
  intros Hnodup id l Hl. apply (ns_get_in _ _ _ Hnodup).
  apply Hinc23, Hinc12.
  exact (add_loaders_in _ _ u s1 id l Hload Hl).
Qed.

(** The assignments of the extra targets leave the bookkeeping of mode [ALL]
    alone when every loader accepts. *)
Lemma targets_collected_unexpected (self : BuiltinInputExtractionGen)
    (ns : Namespace) (v : value) (targets : list string) :
  forall (st st' : GenState) (code : Code) (store store' : Store),
    _path st = [] ->
    gen_targets_collected self targets st = (Ok code, st') ->
    loaders_bound self ns ->
    (forall t, In t targets -> exists r, accepts self t v r) ->
    read_var ns store (V_path B_extra None) = inl v ->
    exec ns code store = (Done, store') ->
    has_unexpected_error store' = has_unexpected_error store.
Proof.
  induction targets as [|t rest IH];
    intros st st' code store store' Hroot Hgen Hns Hall Hv Hrun.
  - inversion Hgen; subst. inversion Hrun; subst. reflexivity.
  - cbn [gen_targets_collected] in Hgen.
    unfold bind at 1 in Hgen. unfold get at 1 in Hgen. cbv beta iota in Hgen.
    destruct (name_to_field_get (_name_to_field st) t) as [f|] eqn:Ef;
      [| discriminate].
    pose proof (name_to_field_get_id _ _ _ Ef) as Hid.
    unfold bind at 1 in Hgen. rewrite v_extra_eq, Hroot in Hgen.
    cbv beta iota in Hgen. cbn [suffix_of alloc] in Hgen.
    destruct (Hall t (or_introl eq_refl)) as (r & l & El & Hr).
    apply bind_ok in Hgen as (c & s1 & Hc & Hgen).
    rewrite (_gen_field_assigment_eq self _ t _ l st El) in Hc.
    inversion Hc; subst c s1; clear Hc.
    apply bind_ok in Hgen as (cs & s2 & Hcs & Hgen).
    apply ret_ok in Hgen as [<- _].
    rewrite Hid in Hrun.
    set (store1 := set_local (V_field t) r (after_call l t v store)).
    assert (Hfirst :
      exec ns (field_assigment_code (_debug_trail self) (debug_trail st)
                 (_path st) (T_var (V_field t))
                 (processing_expr l t (E_var (V_path B_extra None)))) store =
      (Done, store1)).
    { apply exec_field_assigment_loaded.
      apply eval_processing_expr_of;
        [exact (loaders_bound_at self ns t l Hns El) | | exact Hr].
      cbn [eval_expr]. rewrite Hv. reflexivity. }
    rewrite (exec_app_done ns _ cs store store1 Hfirst) in Hrun.
    rewrite (IH st s2 cs store1 store' Hroot Hcs Hns
               (fun u Hu => Hall u (or_intror Hu))).
    + unfold store1. destruct l; reflexivity.
    + unfold store1. rewrite read_var_set_local_other by discriminate.
      rewrite read_var_after_call. exact Hv.
    + exact Hrun.
Qed.

Lemma saturated_bookkeeping (self : BuiltinInputExtractionGen)
    (fields : list InputField) (targets : list string) :
  forall store,
    errors (saturated self fields targets store) = errors store /\
    has_unexpected_error (saturated self fields targets store)
      = has_unexpected_error store.
Proof.
  induction targets as [|t rest IH]; intros store; cbn [saturated].
  - split; reflexivity.
  - destruct (name_to_field_get fields t) as [f|]; [| apply IH].
    destruct (is_required f); [| apply IH].
    destruct (loaders_get (_field_loaders self) t) as [l|];
      [| split; reflexivity].
    destruct (apply_loader l (VDict [])); [| split; reflexivity].
    destruct (IH (set_local (V_field (field_id f)) v
                    (after_call l t (VDict []) store))) as [He Hu].
    rewrite He, Hu. destruct l; split; reflexivity.
Qed.

(** The loaders of the extra targets accept what the procedure hands them:
    any value where the root crown collects extra data, an empty mapping for
    a required target where it does not. *)
Definition targets_settle (self : BuiltinInputExtractionGen) : Prop :=
  match extra_move (_name_layout self) with
  | NoExtraMove => True
  | ExtraTargets targets =>
      match root_policy (crown (_name_layout self)) with
      | Some ExtraCollect =>
          forall t v, In t targets -> exists r, accepts self t v r
      | _ => all_load self (_shape self) targets
      end
  end.

Lemma exec_targets_settled (self : BuiltinInputExtractionGen)
    (ns : Namespace) (s2 s3 : GenState) (tcode : Code) (store : Store)
    (v : value) :
  _gen_extra_targets_assigment self s2 = (Ok tcode, s3) ->
  _path s2 = [] ->
  _name_to_field s2 = _shape self ->
  loaders_bound self ns ->
  targets_settle self ->
  held self store (V_path B_extra None) v ->
  exists store',
    exec ns tcode store = (Done, store') /\
    errors store' = errors store /\
    has_unexpected_error store' = has_unexpected_error store.
Proof.
  intros Hgen Hroot Hfields Hns Hsettle Hx.
  unfold _gen_extra_targets_assigment in Hgen. unfold targets_settle in Hsettle.
  unfold held, _can_collect_extra in Hx.
  destruct (extra_move (_name_layout self)) as [|targets].
  - apply ret_ok in Hgen as [<- _]. exists store.
    split; [reflexivity |]. split; reflexivity.
  - apply bind_ok in Hgen as (policy & s2' & Hp & Hgen).
    assert (Hpol : root_policy (crown (_name_layout self)) = Some policy
                   /\ s2' = s2).
    { destruct (crown (_name_layout self)); simpl in Hp |- *;
        try discriminate; inversion Hp; subst; split; reflexivity. }
    destruct Hpol as [Hpol ->]. rewrite Hpol in Hsettle.
    assert (Hnot : policy <> ExtraCollect ->
                   exists store',
                     exec ns tcode store = (Done, store') /\
                     errors store' = errors store /\
                     has_unexpected_error store' = has_unexpected_error store).
    { intros Hne.
      assert (Hg : gen_targets_not_collected self targets s2 = (Ok tcode, s3))
        by (destruct policy;
            first [exact Hgen | exfalso; apply Hne; reflexivity]).
      assert (Hs : all_load self (_shape self) targets)
        by (destruct policy;
            first [exact Hsettle | exfalso; apply Hne; reflexivity]).
      exists (saturated self (_shape self) targets store).
      split.
      - exact (exec_targets_not_collected self (_shape self) ns targets s2 s3
                 tcode store Hfields Hg Hns Hs).
      - apply saturated_bookkeeping. }
    destruct policy; try (apply Hnot; discriminate).
    pose proof (read_var_local ns store _ _ (Hx eq_refl)) as Hv.
    destruct (exec_targets_collected self ns v targets s2 s3 tcode store
                Hroot Hgen Hns (fun t Ht => Hsettle t v Ht) Hv)
      as (store' & Hrun & _ & _ & _ & Herr).
    exists store'. split; [exact Hrun |]. split; [exact Herr |].
    exact (targets_collected_unexpected self ns v targets s2 s3 tcode store
             store' Hroot Hgen Hns (fun t Ht => Hsettle t v Ht) Hv Hrun).
Qed.

(** What the caller of the procedure sees when the crown at the path [rel]
    reports an error of the given kind and nothing else goes wrong: the bare
    error in mode [NONE], the error with the path in mode [FIRST], and in
    mode [ALL] a [LoadExceptionGroup] of that one error with the path. *)
Definition reported (mode : DebugTrail) (kind : ExcKind) (rel : CrownPath)
  : Exn :=
  match mode with
  | NONE => mkExn kind []
  | FIRST => mkExn kind rel
  | ALL => mkExn (LoadExceptionGroup [mkExn kind rel]) []
  end.

Lemma extend_fresh (kind : ExcKind) (rel : CrownPath) :
  extend_trail (fresh kind) rel = mkExn kind rel.
Proof.
  unfold extend_trail, fresh. cbn [exn_kind exn_trail].
  rewrite app_nil_r. reflexivity.
Qed.

Lemma run_flop (self : BuiltinInputExtractionGen) (p : Procedure)
    (input : value) (kind : ExcKind) (rel : CrownPath) :
  compile self = Ok p ->
  NoDup (List.map fst (proc_namespace p)) ->
  targets_settle self ->
  mfail self (proc_namespace p) (crown (_name_layout self)) input kind rel ->
  exists store',
    run p input = (Throw (reported (_debug_trail self) kind rel), store').
Proof.
  intros Hcomp Hnodup Hsettle Hfail.
  destruct (compile_parts self p Hcomp)
    as (s1 & body & s2 & tcode & s3 & Hroot & Htargets & Hns & Hcode & Hready
        & Hp1 & Hst1 & Hinc23 & Hbound).
  unfold run. rewrite Hcode. clear Hcode.
  set (ns := proc_namespace p) in *.
  assert (Hloaders : loaders_bound self ns)
    by (rewrite Hns; apply Hbound; rewrite <- Hns; exact Hnodup).
  assert (Hinc : incl (ctx_namespace s2) ns)
    by (rewrite Hns; exact Hinc23).
  rewrite exec_entry.
  pose proof (flop_root self ns _ s1 s2 body
                (entry_store self input) input kind rel Hroot Hready Hp1 Hst1
                Hinc (entry_store_poised self input)
                (entry_store_data self input) Hfail) as Hflop.
  unfold blame, reported in *. cbn [app] in Hflop.
  destruct (_debug_trail self) eqn:Hmode.
  - destruct Hflop as (store' & Hrun). exists store'.
    exact (exec_app_throw ns body _ _ _ _ Hrun).
  - destruct Hflop as (store' & Hrun). exists store'.
    rewrite (exec_app_throw ns body _ _ _ _ Hrun).
    cbn [decorate]. rewrite extend_fresh. reflexivity.
  - destruct Hflop as (store2 & v & Hrun2 & Hframe & Hx & Hp2).
    destruct (carrying_root_dispatch self _ s1 (Some body) s2 Hroot)
      as (_ & Hf2 & _).
    destruct (exec_targets_settled self ns s2 s3 tcode store2 v Htargets Hp2
                (eq_trans Hf2 (ready_fields self s1 Hready)) Hloaders Hsettle
                Hx)
      as (store3 & Hrun3 & Herr & Hun).
    exists store3.
    rewrite (exec_app_done ns body _ _ store2 Hrun2).
    rewrite (exec_app_done ns tcode _ _ store3 Hrun3).
    fold epilogue_all. rewrite exec_epilogue_all. unfold finish.
    rewrite Herr, Hun, (frame_errors _ _ _ _ Hframe),
      (frame_unexpected _ _ _ _ Hframe).
    unfold appended. rewrite (entry_store_errors self input Hmode).
    cbn [errors has_unexpected_error set_errors app].
    rewrite (entry_store_unexpected self input Hmode).
    cbn [List.map decorate]. unfold render_trail_as_note.
    rewrite extend_fresh. reflexivity.
Qed.

(** The whole procedure on an input that fits the crown tree but for the one
    node at the path [rel]. *)
Lemma run_off (self : BuiltinInputExtractionGen) (p : Procedure)
    (flaw : InpCrown -> value -> Prop) (kind : ExcKind) (input : value)
    (rel : CrownPath) :
  (forall c v, flaw c v -> is_branch c = true) ->
  (forall ns,
     NoDup (List.map fst ns) -> loaders_bound self ns ->
     forall c v, flaw c v -> mfail self ns c v kind []) ->
  compile self = Ok p ->
  NoDup (List.map fst (proc_namespace p)) ->
  targets_settle self ->
  off self flaw (crown (_name_layout self)) input rel ->
  exists store',
    run p input = (Throw (reported (_debug_trail self) kind rel), store').
Proof.
  intros Hbranch Hflaw Hcomp Hnodup Hsettle Hoff.
  apply (run_flop self p input kind rel Hcomp Hnodup Hsettle).
  destruct (compile_parts self p Hcomp)
    as (s1 & body & s2 & tcode & s3 & _ & _ & Hns & _ & _ & _ & _ & _
        & Hbound).
  assert (Hloaders : loaders_bound self (proc_namespace p))
    by (rewrite Hns; apply Hbound; rewrite <- Hns; exact Hnodup).
  exact (off_mfail self (proc_namespace p) Hnodup Hloaders flaw kind Hbranch
           (Hflaw (proc_namespace p) Hnodup Hloaders)
           (crown (_name_layout self)) input rel Hoff).
Qed.

(** The whole procedure on an input that fits the crown tree. *)
Lemma run_fitting (self : BuiltinInputExtractionGen) (p : Procedure)
    (input : value) :
  compile self = Ok p ->
  NoDup (List.map fst (proc_namespace p)) ->
  targets_settle self ->
  fits self (crown (_name_layout self)) (Some input) ->
  exists store', run p input = (Done, store').
Proof.
  intros Hcomp Hnodup Hsettle Hfits.
  destruct (compile_parts self p Hcomp)
    as (s1 & body & s2 & tcode & s3 & Hroot & Htargets & Hns & Hcode & Hready
        & Hp1 & Hst1 & Hinc23 & Hbound).
  unfold run. rewrite Hcode. clear Hcode.
  set (ns := proc_namespace p) in *.
  assert (Hloaders : loaders_bound self ns)
    by (rewrite Hns; apply Hbound; rewrite <- Hns; exact Hnodup).
  assert (Hinc : incl (ctx_namespace s2) ns)
    by (rewrite Hns; exact Hinc23).
  rewrite exec_entry.
  destruct (sim_root self ns Hnodup Hloaders _ s1 s2 body
              (entry_store self input) input Hroot Hready Hp1 Hinc
              (entry_store_poised self input) (entry_store_data self input)
              Hfits)
    as (store2 & Hrun2 & Hframe & Hx & Hp2).
  destruct (carrying_root_dispatch self _ s1 (Some body) s2 Hroot)
    as (_ & Hf2 & _).
  destruct (exec_targets_settled self ns s2 s3 tcode store2 _ Htargets Hp2
              (eq_trans Hf2 (ready_fields self s1 Hready)) Hloaders Hsettle
              Hx)
    as (store3 & Hrun3 & Herr & _).
  exists store3.
  rewrite (exec_app_done ns body _ _ store2 Hrun2).
  rewrite (exec_app_done ns tcode _ _ store3 Hrun3).
  apply exec_exit. intros Hmode.
  rewrite Herr, (frame_errors _ _ _ _ Hframe).
  exact (entry_store_errors self input Hmode).
Qed.

(** The whole procedure on an input that fits, where the root crown collects
    extra data for the targets: the last loader calls are those of the
    targets, each with the overflow of the input as the model builds it. *)
Lemma run_collecting (self : BuiltinInputExtractionGen) (p : Procedure)
    (targets : list string) (input : value) :
  compile self = Ok p ->
  extra_move (_name_layout self) = ExtraTargets targets ->
  root_policy (crown (_name_layout self)) = Some ExtraCollect ->
  NoDup (List.map fst (proc_namespace p)) ->
  fits self (crown (_name_layout self)) (Some input) ->
  (forall t, In t targets ->
     exists r, accepts self t (overflow (crown (_name_layout self)) input) r) ->
  exists store' earlier,
    run p input = (Done, store') /\
    calls store' =
      earlier ++
      List.map (fun t => (t, overflow (crown (_name_layout self)) input))
               (filter (calls_loader self) targets) /\
    (forall t r,
       In t targets ->
       accepts self t (overflow (crown (_name_layout self)) input) r ->
       locals_get (locals store') (V_field t) = Some r).
Proof.
  intros Hcomp Hmove Hpolicy Hnodup Hfits Hacc.
  destruct (compile_parts self p Hcomp)
    as (s1 & body & s2 & tcode & s3 & Hroot & Htargets & Hns & Hcode & Hready
        & Hp1 & Hst1 & Hinc23 & Hbound).
  unfold run. rewrite Hcode. clear Hcode.
  set (ns := proc_namespace p) in *.
  set (c := crown (_name_layout self)) in *.
  assert (Hloaders : loaders_bound self ns)
    by (rewrite Hns; apply Hbound; rewrite <- Hns; exact Hnodup).
  assert (Hinc : incl (ctx_namespace s2) ns)
    by (rewrite Hns; exact Hinc23).
  assert (Hcollect : _can_collect_extra self = true)
    by (unfold _can_collect_extra; rewrite Hmove; reflexivity).
  unfold _gen_extra_targets_assigment in Htargets. rewrite Hmove in Htargets.
  apply bind_ok in Htargets as (policy & s2' & Hp & Hgen).
  assert (policy = ExtraCollect /\ s2' = s2) as [-> ->].
  { fold c in Hp. destruct c; simpl in Hpolicy, Hp;
      try discriminate; inversion Hpolicy; inversion Hp; subst; split;
      reflexivity. }
  rewrite exec_entry.
  destruct (sim_root self ns Hnodup Hloaders c s1 s2 body
              (entry_store self input) input Hroot Hready Hp1 Hinc
              (entry_store_poised self input) (entry_store_data self input)
              Hfits)
    as (store2 & Hrun2 & Hframe2 & Hx2 & Hp2).
  destruct (exec_targets_collected self ns (overflow c input) targets s2 s3
              tcode store2 Hp2 Hgen Hloaders Hacc
              (read_var_local ns store2 _ _ (Hx2 Hcollect)))
    as (store3 & Hrun3 & Hcalls & Hbind & _ & Herr).
  exists store3, (calls store2). split; [| split].
  - rewrite (exec_app_done ns body _ _ store2 Hrun2).
    rewrite (exec_app_done ns tcode _ _ store3 Hrun3).
    apply exec_exit. intros Hmode.
    rewrite Herr, (frame_errors _ _ _ _ Hframe2).
    exact (entry_store_errors self input Hmode).
  - exact Hcalls.
  - exact Hbind.
Qed.

(** ** Extra keys under [Forbid] *)

(** The crown [c] is a [Forbid] dict crown and [v] a mapping with hashable
    keys in which the crown's declared keys hold what they should, and which
    has keys the crown does not declare: the keys [ks], the value of
    [set(data) - known_keys]. *)
Definition extra_keys_at (self : BuiltinInputExtractionGen) (ks : list value)
    (c : InpCrown) (v : value) : Prop :=
  exists m mm,
    c = InpDictCrown m ExtraForbid /\ v = VDict mm /\
    Forall (fun kv => hashable (fst kv) = true) mm /\
    fits_dict_children (fits self) (VDict mm) m /\
    undeclared_keys mm m = ks /\ ks <> [].

Lemma extra_keys_at_branch (self : BuiltinInputExtractionGen)
    (ks : list value) (c : InpCrown) (v : value) :
  extra_keys_at self ks c v -> is_branch c = true.
Proof. intros (m & mm & -> & _). reflexivity. Qed.

Lemma extra_keys_at_mfail (self : BuiltinInputExtractionGen)
    (ks : list value) (ns : Namespace) :
  NoDup (List.map fst ns) -> loaders_bound self ns ->
  forall c v, extra_keys_at self ks c v ->
              mfail self ns c v (ExtraFieldsError ks) [].
Proof.
  intros Hnodup Hloaders c v (m & mm & -> & -> & Hkeys & Hfits & Hks & Hne).
  exact (extra_keys_mfail self ns Hnodup Hloaders m mm ks Hkeys Hfits Hks Hne).
Qed.


Definition example_first_proc : Procedure :=
  Eval vm_compute in compiled (example_gen FIRST).

Lemma example_names_distinct :
  NoDup (List.map fst (proc_namespace example_first_proc)).
Proof.
  simpl. repeat constructor; simpl; intuition discriminate.
Defined.

(** The input of section 8 with the extra key [w] under [y]: it fits but for
    the nested crown. *)
Lemma example_input_extra_off :
  off (example_gen FIRST) (extra_keys_at (example_gen FIRST) [VStr "w"])
      (crown (_name_layout (example_gen FIRST))) example_input_extra
      [Key "y"].
Proof.
  apply (off_dict (example_gen FIRST) _ [("x", InpFieldCrown "f1")] "y"
           (InpDictCrown [("z", InpFieldCrown "f2")] ExtraForbid) []
           ExtraForbid
           [(VStr "x", VInt 1);
            (VStr "y", VDict [(VStr "z", VInt 2); (VStr "w", VInt 3)])]
           (VDict [(VStr "z", VInt 2); (VStr "w", VInt 3)]) []).
  - repeat constructor.
  - intros _. reflexivity.
  - intros _ H. discriminate H.
  - cbn [fits_dict_children fits]. split; [| exact I].
    exists (mkField "f1" true), identity_loader.
    split; [reflexivity |]. split; [reflexivity |].
    split; [eexists; reflexivity | intros H; discriminate H].
  - exact I.
  - reflexivity.
  - apply off_here.
    exists [("z", InpFieldCrown "f2")],
           [(VStr "z", VInt 2); (VStr "w", VInt 3)].
    split; [reflexivity |]. split; [reflexivity |].
    split; [repeat constructor |]. split.
    + cbn [fits_dict_children fits]. split; [| exact I].
      exists (mkField "f2" true), identity_loader.
      split; [reflexivity |]. split; [reflexivity |].
      split; [eexists; reflexivity | intros H; discriminate H].
    + split; [reflexivity | discriminate].
Defined.


(** ** The length of a list *)

Lemma fits_dict_children_app (f : InpCrown -> option value -> Prop)
    (v : value) (a b : list (string * InpCrown)) :
  fits_dict_children f v a -> fits_dict_children f v b ->
  fits_dict_children f v (a ++ b).
Proof.
  intros Ha Hb. induction a as [|[k c] a IH]; [exact Hb |].
  cbn [app fits_dict_children] in *. destruct Ha as [H Ha].
  split; [exact H | exact (IH Ha)].
Qed.

Lemma fits_list_children_app (f : InpCrown -> option value -> Prop)
    (v : value) (a b : list InpCrown) :
  forall i,
    fits_list_children f v i a ->
    fits_list_children f v (i + List.length a) b ->
    fits_list_children f v i (a ++ b).
Proof.
  induction a as [|c a IH]; intros i Ha Hb.
  - cbn [List.length] in Hb. rewrite Nat.add_0_r in Hb. exact Hb.
  - cbn [app fits_list_children List.length] in *. destruct Ha as [H Ha].
    split; [exact H |]. apply IH; [exact Ha |].
    rewrite Nat.add_succ_r in Hb. exact Hb.
Qed.

(** When what holds at the one node is that the value fits, the input fits
    the whole tree. *)
Lemma off_fits (self : BuiltinInputExtractionGen)
    (flaw : InpCrown -> value -> Prop) :
  (forall c v, flaw c v -> fits self c (Some v)) ->
  forall c v rel, off self flaw c v rel -> fits self c (Some v).
Proof.
  intros Hflaw c v rel Hoff.
  induction Hoff as [c v H
                    | before key child after policy mm cv rel Hk Hf Hn Hb Ha Hs
                        Hoff IH
                    | before child after policy l cv rel Hle Hf Hb Ha Hs Hoff
                        IH].
  - exact (Hflaw c v H).
  - cbn [fits]. split; [exact Hk |]. split; [exact Hf |]. split; [exact Hn |].
    apply fits_dict_children_app; [exact Hb |].
    cbn [fits_dict_children]. rewrite Hs. split; [exact IH | exact Ha].
  - cbn [fits]. split; [exact Hle |]. split; [exact Hf |].
    apply fits_list_children_app; [exact Hb |].
    cbn [fits_list_children Nat.add]. rewrite Hs.
    split; [exact IH | exact Ha].
Qed.

(** The crown [c] declares [n] items and [v] is a list that passes its length
    check: of length [n], or longer when the policy is not [Forbid]; the
    declared items hold what they should. *)
Definition list_in_order (self : BuiltinInputExtractionGen) (n : nat)
    (c : InpCrown) (v : value) : Prop :=
  exists m policy l,
    c = InpListCrown m policy /\ v = VList l /\ List.length m = n /\
    n <= List.length l /\
    (policy = ExtraForbid -> List.length l = n) /\
    fits_list_children (fits self) (VList l) 0 m.

(** The crown [c] declares [n] items under [Forbid] and [v] is a longer list,
    whose first [n] items hold what they should. *)
Definition too_long_at (self : BuiltinInputExtractionGen) (n : nat)
    (c : InpCrown) (v : value) : Prop :=
  exists m l,
    c = InpListCrown m ExtraForbid /\ v = VList l /\ List.length m = n /\
    n < List.length l /\
    fits_list_children (fits self) (VList l) 0 m.

(** The crown [c] declares [n] items, under any policy, and [v] is a shorter
    list: its items hold what the first crowns, [pre], expect, and the crowns
    [rest] have no item.  In mode [ALL] the crowns without item are field or
    none crowns. *)
Definition too_short_at (self : BuiltinInputExtractionGen) (n : nat)
    (c : InpCrown) (v : value) : Prop :=
  exists pre rest policy l,
    c = InpListCrown (pre ++ rest) policy /\ v = VList l /\
    List.length (pre ++ rest) = n /\
    List.length pre = List.length l /\ rest <> [] /\
    fits_list_children (fits self) (VList l) 0 pre /\
    (_debug_trail self = ALL ->
     Forall (fun x => is_branch x = false) rest).

Lemma list_in_order_fits (self : BuiltinInputExtractionGen) (n : nat)
    (c : InpCrown) (v : value) :
  list_in_order self n c v -> fits self c (Some v).
Proof.
  intros (m & policy & l & -> & -> & Hn & Hle & Hf & Hfits).
  cbn [fits]. rewrite Hn. split; [exact Hle |]. split; [exact Hf | exact Hfits].
Qed.

Lemma too_long_at_mfail (self : BuiltinInputExtractionGen) (n : nat)
    (ns : Namespace) :
  NoDup (List.map fst ns) -> loaders_bound self ns ->
  forall c v, too_long_at self n c v ->
              mfail self ns c v (ExtraItemsError n) [].
Proof.
  intros Hnodup Hloaders c v (m & l & -> & -> & <- & Hlong & Hfits).
  exact (too_long_mfail self ns Hnodup Hloaders m l Hlong Hfits).
Qed.

Lemma too_short_at_mfail (self : BuiltinInputExtractionGen) (n : nat)
    (ns : Namespace) :
  NoDup (List.map fst ns) -> loaders_bound self ns ->
  forall c v, too_short_at self n c v ->
              mfail self ns c v (NoRequiredItemsError n) [].
Proof.
  intros Hnodup Hloaders c v
         (pre & rest & policy & l & -> & -> & <- & Hpre & Hrest & Hfits
          & Hleaf).
  exact (too_short_mfail self ns Hnodup Hloaders pre rest policy l Hpre Hrest
           Hfits Hleaf).
Qed.

(** The list crown with a nested dict crown at its second position. *)
Definition nested_list_gen (mode : DebugTrail) : BuiltinInputExtractionGen :=
  mkGen [mkField "a" true; mkField "b" true]
        (mkLayout
           (InpListCrown
              [InpFieldCrown "a";
               InpDictCrown [("z", InpFieldCrown "b")] ExtraForbid]
              ExtraForbid)
           NoExtraMove)
        mode false
        [("a", identity_loader); ("b", identity_loader)].



Definition list_first_proc : Procedure :=
  Eval vm_compute in compiled (list_gen FIRST ExtraForbid false).

Lemma list_names_distinct :
  NoDup (List.map fst (proc_namespace list_first_proc)).
Proof.
  simpl. repeat constructor; simpl; intuition discriminate.
Defined.

Ltac required_field_fits f :=
  exists f, identity_loader;
  split; [reflexivity |]; split; [reflexivity |];
  unfold slot_of, ints; rewrite py_getitem_idx; simpl;
  split; [eexists; reflexivity | let H := fresh in intros H; discriminate H].

Lemma three_items_fit (l : list Z) :
  3 <= List.length l ->
  fits_list_children (fits (list_gen FIRST ExtraForbid false)) (ints l) 0
                     three_items.
Proof.
  intros H.
  destruct l as [|x [|y [|z l]]]; cbn [List.length] in H; try lia.
  cbn [three_items fits_list_children fits].
  split; [| split; [| split; [| exact I]]].
  - required_field_fits (mkField "a" true).
  - required_field_fits (mkField "b" true).
  - required_field_fits (mkField "c" true).
Defined.


(** ** The overflow of an input that fits reaches the extra targets *)

(** Two values that differ at most in the order of the entries of their
    mappings: the same value, lists alike item by item, or mappings of one
    size with alike values under every key.  The loop that collects the extra
    keys of a dict crown runs over a set, [overflow] lists the collected keys
    in the order of one enumeration of that set, and the code may use
    another: what a loader is handed is known up to [alike]. *)
Inductive alike : value -> value -> Prop :=
| alike_same (v : value) : alike v v
| alike_list (l l' : list value) :
    Forall2 alike l l' -> alike (VList l) (VList l')
| alike_dict (m m' : list (value * value)) :
    List.length m = List.length m' ->
    (forall k a, dict_get m k = Some a ->
                 exists b, dict_get m' k = Some b /\ alike a b) ->
    (forall k b, dict_get m' k = Some b ->
                 exists a, dict_get m k = Some a /\ alike a b) ->
    alike (VDict m) (VDict m').

(** X14: the whole procedure on an input that fits.  Let the layout route
    extra data to [targets] and let its root crown collect extra keys.  When
    the input fits the crown tree (every dict crown gets a mapping with
    hashable keys, and only declared keys under [Forbid]; every list crown a
    list long enough, of the declared length under [Forbid]; every field a
    value that its loader accepts, an optional field possibly nothing) and
    the loader of every target accepts the overflow of that input, in
    whatever order the entries of its mappings come, the procedure returns
    normally in every mode; the last loader calls it makes are the calls of
    the targets' loaders, all with one value, which is the overflow of the
    input up to the order of the entries of its mappings: per dict crown the
    undeclared keys it collects and the overflow of its nested crowns under
    their keys, per list crown one holder per declared item; and every target
    is bound to what its loader made of that value. *)
Theorem fitting_input_hands_overflow_to_targets
    (self : BuiltinInputExtractionGen) (p : Procedure) (targets : list string)
    (input : value) :
  compile self = Ok p ->
  extra_move (_name_layout self) = ExtraTargets targets ->
  root_policy (crown (_name_layout self)) = Some ExtraCollect ->
  NoDup (List.map fst (proc_namespace p)) ->
  fits self (crown (_name_layout self)) (Some input) ->
  (forall t v,
     In t targets ->
     alike (overflow (crown (_name_layout self)) input) v ->
     exists r, accepts self t v r) ->
  exists store' earlier v,
    alike (overflow (crown (_name_layout self)) input) v /\
    run p input = (Done, store') /\
    calls store' =
      earlier ++
      List.map (fun t => (t, v)) (filter (calls_loader self) targets) /\
    (forall t r,
       In t targets -> accepts self t v r ->
       locals_get (locals store') (V_field t) = Some r).
Proof.
  intros Hcomp Hmove Hpolicy Hnodup Hfits Hacc.
  destruct (run_collecting self p targets input Hcomp Hmove Hpolicy Hnodup
              Hfits (fun t Ht => Hacc t _ Ht (alike_same _)))
    as (store' & earlier & Hrun & Hcalls & Hbound).
  exists store', earlier, (overflow (crown (_name_layout self)) input).
  split; [apply alike_same |]. split; [exact Hrun |].
  split; [exact Hcalls | exact Hbound].
Qed.

Definition collecting_proc : Procedure :=
  Eval vm_compute in compiled (collecting_gen ALL).

Lemma collecting_input_fits :
  fits (collecting_gen ALL) (crown (_name_layout (collecting_gen ALL)))
       (Some collecting_input).
Proof.
  cbn [collecting_gen _name_layout crown collecting_input].
  cbn [fits fits_dict_children fits_list_children].
  unfold field_fits. simpl.
  repeat first [ apply Forall_nil | apply Forall_cons | split
               | discriminate | reflexivity | lia | eexists ].
Defined.

Lemma collecting_names_distinct :
  NoDup (List.map fst (proc_namespace collecting_proc)).
Proof.
  simpl. repeat constructor; simpl; intuition discriminate.
Defined.

Lemma collecting_rest_accepts :
  forall t v,
    In t ["rest"] ->
    alike (overflow (crown (_name_layout (collecting_gen ALL)))
                    collecting_input) v ->
    exists r, accepts (collecting_gen ALL) t v r.
Proof.
  intros t v [<- | []] _. eexists. exists identity_loader.
  split; reflexivity.
Defined.

Lemma fitting_input_hands_overflow_to_targets_witness :
  exists store' earlier v,
    alike (overflow (crown (_name_layout (collecting_gen ALL)))
                    collecting_input) v /\
    run collecting_proc collecting_input = (Done, store') /\
    calls store' =
      earlier ++
      List.map (fun t => (t, v))
               (filter (calls_loader (collecting_gen ALL)) ["rest"]) /\
    (forall t r,
       In t ["rest"] -> accepts (collecting_gen ALL) t v r ->
       locals_get (locals store') (V_field t) = Some r).
Proof.
  assert (H : compile (collecting_gen ALL) = Ok collecting_proc)
    by (vm_compute; reflexivity).
  exact (fitting_input_hands_overflow_to_targets (collecting_gen ALL)
           collecting_proc ["rest"] collecting_input H eq_refl eq_refl
           collecting_names_distinct collecting_input_fits
           collecting_rest_accepts).
Defined.

(** In this input every dict crown collects one key, so the order of the
    entries of the overflow is that of the emitted statements. *)
Example fitting_input_run :
  let (c, st) := run collecting_proc collecting_input in
  c = Done /\
  last_call st =
    Some ("rest",
          VDict [(VStr "y", VDict [(VStr "w", VInt 3)]);
                 (VStr "l", VList [VDict []; VDict [(VStr "r", VInt 9)]]);
                 (VStr "u", VInt 4)]).
Proof. vm_compute. split; reflexivity. Qed.

(** ** What a single target receives *)

(** The entry that the overflow of a dict crown has under the key [k]: under
    the key of a nested dict or list crown the overflow of that crown, nothing
    under the key of a field or none crown, and under a key that the crown
    does not declare what the input has there. *)
Definition handed_entry (m : list (string * InpCrown))
    (mm : list (value * value)) (k : value) : option value :=
  match find (fun kv => py_eqb (VStr (fst kv)) k) m with
  | Some (s, child) =>
      if is_branch child
      then Some (overflow child (item_of (VDict mm) (Key s)))
      else None
  | None => dict_get mm k
  end.

Lemma same_declared_key (a b : string) (k : value) :
  py_eqb (VStr a) k = true -> py_eqb (VStr b) k = true -> a = b.
Proof.
  intros Ha Hb. rewrite py_eqb_sym in Hb.
  pose proof (py_eqb_trans _ _ _ Ha Hb) as H. simpl in H.
  apply String.eqb_eq. exact H.
Qed.

Lemma find_none_undeclared (m : list (string * InpCrown)) (s : string)
    (k : value) :
  ~ In s (List.map fst m) -> py_eqb (VStr s) k = true ->
  find (fun kv => py_eqb (VStr (fst kv)) k) m = None.
Proof.
  intros Hs Hk. induction m as [|[s' c] m IH]; [reflexivity |].
  cbn [find fst]. destruct (py_eqb (VStr s') k) eqn:E.
  - exfalso. apply Hs. left. exact (same_declared_key s' s k E Hk).
  - apply IH. intros Hin. apply Hs. right. exact Hin.
Qed.

Lemma dict_nested_lookup (ov : InpCrown -> value -> value) (v : value)
    (m : list (string * InpCrown)) :
  NoDup (List.map fst m) ->
  forall acc k,
    dict_get (dict_nested ov v m acc) k =
    match find (fun kv => py_eqb (VStr (fst kv)) k) m with
    | Some (s, child) =>
        if is_branch child then Some (ov child (item_of v (Key s)))
        else dict_get acc k
    | None => dict_get acc k
    end.
Proof.
  induction m as [|[s child] m IH]; intros Hnd acc k; [reflexivity |].
  cbn [List.map fst] in Hnd. inversion Hnd as [|x xs Hs Hnd']; subst.
  cbn [dict_nested find fst]. rewrite (IH Hnd').
  destruct (py_eqb (VStr s) k) eqn:E.
  - rewrite (find_none_undeclared m s k Hs E).
    destruct (is_branch child); [| reflexivity].
    rewrite dict_get_dict_set, E. reflexivity.
  - assert (Hacc : dict_get (if is_branch child
                             then dict_set acc (VStr s)
                                    (ov child (item_of v (Key s)))
                             else acc) k = dict_get acc k).
    { destruct (is_branch child); [| reflexivity].
      rewrite dict_get_dict_set, E. reflexivity. }
    rewrite Hacc. reflexivity.
Qed.

Lemma set_mem_declared (m : list (string * InpCrown)) (k : value) :
  set_mem k (declared_keys m) =
  match find (fun kv => py_eqb (VStr (fst kv)) k) m with
  | Some _ => true
  | None => false
  end.
Proof.
  unfold set_mem, declared_keys.
  induction m as [|[s c] m IH]; [reflexivity |].
  cbn [List.map existsb find fst]. rewrite (py_eqb_sym k (VStr s)).
  destruct (py_eqb (VStr s) k); [reflexivity | exact IH].
Qed.

(** The entries of the overflow of a [Collect] dict crown. *)
Lemma overflow_collect_lookup (m : list (string * InpCrown))
    (mm : list (value * value)) (k : value) :
  NoDup (List.map fst m) ->
  Forall (fun kv => hashable (fst kv) = true) mm ->
  dict_get (collected ExtraCollect mm m
              (dict_nested overflow (VDict mm) m [])) k
  = handed_entry m mm k.
Proof.
  intros Hnd Hkeys. unfold collected, handed_entry.
  rewrite (collect_keys_lookup mm _ (undeclared_keys_readable mm m Hkeys)).
  rewrite (dict_nested_lookup overflow (VDict mm) m Hnd).
  unfold undeclared_keys.
  rewrite set_mem_set_diff, set_mem_set_add_all, set_mem_keys,
    set_mem_declared.
  cbn [set_mem existsb]. rewrite orb_false_r.
  destruct (find (fun kv => py_eqb (VStr (fst kv)) k) m) as [[s child]|].
  - cbn [negb]. rewrite andb_false_r. reflexivity.
  - cbn [negb dict_get]. rewrite andb_true_r.
    destruct (dict_get mm k); reflexivity.
Qed.

(** A dict crown that declares the key [q] with a none crown. *)
Definition skipping_gen (mode : DebugTrail) : BuiltinInputExtractionGen :=
  mkGen [mkField "f1" true; mkField "rest" true]
        (mkLayout
           (InpDictCrown [("x", InpFieldCrown "f1"); ("q", InpNoneCrown)]
                         ExtraCollect)
           (ExtraTargets ["rest"]))
        mode false
        [("f1", identity_loader); ("rest", identity_loader)].

Definition skipping_input : value :=
  VDict [(VStr "x", VInt 1); (VStr "q", VInt 8); (VStr "u", VInt 4)].

(** C2 fails as stated.  The key [q] of the input is claimed by no field
    crown, the crown declares it with a none crown, and the loader of the
    target is handed a mapping without it.  And not on every input is the
    loader invoked: without the required key [x] the procedure raises before
    any call. *)
Lemma C2_counterexample :
  slot_of skipping_input (Key "q") = Some (VInt 8) /\
  (exists handed,
     last_call (snd (run (compiled (skipping_gen NONE)) skipping_input))
       = Some ("rest", VDict handed) /\
     dict_get handed (VStr "q") = None /\
     dict_get handed (VStr "u") = Some (VInt 4)) /\
  (let (c, st) := run (compiled (skipping_gen NONE))
                      (VDict [(VStr "u", VInt 4)]) in
   c = Throw (mkExn (NoRequiredFieldsError ["x"]) []) /\ calls st = []).
Proof.
  split; [vm_compute; reflexivity |]. split.
  - exists [(VStr "u", VInt 4)]. vm_compute. repeat split.
  - vm_compute. split; reflexivity.
Qed.

(** C2: what the loader of a single extra target receives.  Let the root be
    a dict crown with policy [Collect] and distinct keys, let the layout move
    extra data to the one target [f], whose loader is a function, and let the
    input be a mapping that fits the crown tree; let the loader of [f] accept
    the overflow of the input in whatever order its entries come.  Then the
    procedure returns normally and its last loader call is the call of the
    loader of [f] with a mapping [v] that is, up to the order of entries, the
    mapping [ov] with these entries: under every input key that the root
    crown does not declare, what the input has there; under the key of every
    nested dict or list crown, the overflow of that crown on the input's
    value there (for a nested dict crown with policy [Collect] again its
    undeclared keys and the overflow of its own nested crowns, for a list
    crown one holder per declared item); and nothing under the key of a
    field crown or of a none crown. *)
Theorem C2_target_receives_undeclared_keys
    (self : BuiltinInputExtractionGen) (p : Procedure) (f : string)
    (m : list (string * InpCrown)) (mm : list (value * value)) :
  compile self = Ok p ->
  crown (_name_layout self) = InpDictCrown m ExtraCollect ->
  extra_move (_name_layout self) = ExtraTargets [f] ->
  calls_loader self f = true ->
  NoDup (List.map fst m) ->
  NoDup (List.map fst (proc_namespace p)) ->
  fits self (InpDictCrown m ExtraCollect) (Some (VDict mm)) ->
  (forall v,
     alike (overflow (InpDictCrown m ExtraCollect) (VDict mm)) v ->
     exists r, accepts self f v r) ->
  exists store' earlier v ov,
    run p (VDict mm) = (Done, store') /\
    calls store' = earlier ++ [(f, v)] /\
    alike (VDict ov) v /\
    (forall k, dict_get ov k = handed_entry m mm k).
Proof.
  intros Hcomp Hcrown Hmove Hcalls Hkeys Hnodup Hfits Hacc.
  assert (Hpolicy : root_policy (crown (_name_layout self))
                    = Some ExtraCollect) by (rewrite Hcrown; reflexivity).
  rewrite <- Hcrown in Hfits, Hacc.
  destruct (run_collecting self p [f] (VDict mm) Hcomp Hmove Hpolicy Hnodup
              Hfits)
    as (store' & earlier & Hrun & Hlast & _).
  { intros t [<- | []]. exact (Hacc _ (alike_same _)). }
  cbn [filter] in Hlast. rewrite Hcalls in Hlast. cbn [List.map] in Hlast.
  rewrite Hcrown in Hlast, Hfits. cbn [overflow] in Hlast.
  exists store', earlier,
         (VDict (collected ExtraCollect mm m
                   (dict_nested overflow (VDict mm) m []))),
         (collected ExtraCollect mm m (dict_nested overflow (VDict mm) m [])).
  split; [exact Hrun |]. split; [exact Hlast |].
  split; [apply alike_same |].
  intros k. apply overflow_collect_lookup; [exact Hkeys |].
  cbn [fits] in Hfits. exact (proj1 Hfits).
Qed.

Definition skipping_proc : Procedure :=
  Eval vm_compute in compiled (skipping_gen NONE).

Lemma skipping_names_distinct :
  NoDup (List.map fst (proc_namespace skipping_proc)).
Proof.
  simpl. repeat constructor; simpl; intuition discriminate.
Defined.

Lemma skipping_keys_distinct : NoDup ["x"; "q"].
Proof. repeat constructor; simpl; intuition discriminate. Defined.

Lemma skipping_input_fits :
  fits (skipping_gen NONE)
       (InpDictCrown [("x", InpFieldCrown "f1"); ("q", InpNoneCrown)]
                     ExtraCollect)
       (Some skipping_input).
Proof.
  cbn [skipping_input fits fits_dict_children].
  split; [repeat constructor |].
  split; [intros H; discriminate H |].
  split; [intros H; discriminate H |].
  split; [| split; exact I].
  exists (mkField "f1" true), identity_loader.
  split; [reflexivity |]. split; [reflexivity |].
  split; [eexists; reflexivity | intros H; discriminate H].
Defined.

Lemma skipping_rest_accepts :
  forall v,
    alike (overflow (InpDictCrown [("x", InpFieldCrown "f1");
                                   ("q", InpNoneCrown)] ExtraCollect)
                    skipping_input) v ->
    exists r, accepts (skipping_gen NONE) "rest" v r.
Proof.
  intros v _. eexists. exists identity_loader. split; reflexivity.
Defined.

Lemma C2_target_receives_undeclared_keys_witness :
  exists store' earlier v ov,
    run skipping_proc skipping_input = (Done, store') /\
    calls store' = earlier ++ [("rest", v)] /\
    alike (VDict ov) v /\
    (forall k,
       dict_get ov k =
       handed_entry [("x", InpFieldCrown "f1"); ("q", InpNoneCrown)]
                    [(VStr "x", VInt 1); (VStr "q", VInt 8);
                     (VStr "u", VInt 4)] k).
Proof.
  assert (H : compile (skipping_gen NONE) = Ok skipping_proc)
    by (vm_compute; reflexivity).
  exact (C2_target_receives_undeclared_keys (skipping_gen NONE) skipping_proc
           "rest" [("x", InpFieldCrown "f1"); ("q", InpNoneCrown)]
           [(VStr "x", VInt 1); (VStr "q", VInt 8); (VStr "u", VInt 4)]
           H eq_refl eq_refl eq_refl skipping_keys_distinct
           skipping_names_distinct skipping_input_fits skipping_rest_accepts).
Defined.
